(* ===== verification/_CoqProject ===== *)
-Q . S2P
Prelude.v
Pkt.v
Msg.v
Mbuf.v
MemStore.v
Context.v
World.v
Sample.v
Handler.v
Delivery.v
SubMgr.v
Connection.v
Invariant.v
Poller.v
Locality.v
Scenarios.v
Safety.v
Sessions.v
Server.v
Publish.v
Notify.v
Waiting.v
Framing.v
Copy.v
Defects.v
Pack.v
Unpack.v
Msgpack.v
MsgpackTotal.v
Adaptor.v
Persist.v
Stored.v
Restart.v
Recovery.v
Reopen.v
Blocking.v
StrTools.v
Bridge.v
Bridging.v
Relay.v
Watchdog.v
Http.v
Parsing.v
Web.v
System.v
Iqueue.v
Timer.v
Wheel.v
Firing.v
Clock.v
TimerMgr.v
