(* ===== verification/Prelude.v ===== *)
(** * mqtt_server: verification library

    A model of the MQTT broker under src/ and the theorems about it.

    ** The program

    The server is a single-threaded reactor.  [CPollerEpoll::run] waits for events
    and calls the virtual methods of the handler of each descriptor: the acceptor
    makes a connection object, a connection reads bytes, cuts them into packets,
    decodes each and runs its handler; the handlers use the registry of client
    identifiers, the topics, the contexts of the clients and the shared message
    buffers, and answer through the send queue of a connection, whose rest the
    poller sends when the socket can be written.  Two other threads, the client of a
    parent server and an HTTP interface, put messages into a queue of the poller and
    write to a descriptor that wakes it.

    ** The files

    Prelude.v: machine integers with their wrap-around, results ([res]: a value, a
    failure that the code reports, or [Stop] for undefined behaviour and crashes),
    the state monad [st] with its notation, the predicate [safe], the lemmas on
    lists that the files share.

    Pkt.v: src/mqttc++/mqtt_pkt.cpp, the cursor over a packet.
    Msg.v: src/mqttc++/mqtt_msg.cpp, decode and encode of every message class.
    Mbuf.v: src/common/mbuf.cpp, the message buffer.
    MemStore.v: src/common/msg_mem_store.cpp, message numbers and statistics.
    Context.v: include/mqtt_server/mqtt_context.hpp, the session of a client.
    World.v: the whole state (objects, buffers, contexts, topics, identifiers, the
    poller's tables, errno, what was sent) and its elementary operations; the kernel
    and the unspecified orders of containers are the class [Env], with the laws of
    the system calls in [EnvLaws] and, for an environment whose sockets fail only by
    flow control, [Calm].
    Handler.v: src/reactor/event_handler.cpp and the registrations of
    src/reactor/poller_epoll.cpp.
    SubMgr.v: src/mqtt_server/subscriber_mgr.cpp and client_db_id.cpp.
    Connection.v: src/mqtt_server/mqtt_connection.cpp.
    Poller.v: the event loop, the acceptor, the notification descriptor, the start
    of the server (poller_epoll.cpp, acceptor.cpp, poller_notify.cpp, tcp_server.cpp).
    Pack.v and Unpack.v: include/msgpack/msgpack/pack.hpp and unpack.hpp, the writer
    and the reader of the vendored format of the stored sessions.
    Adaptor.v: its adaptors (include/msgpack/msgpack/adaptor), how values and classes
    are written and read; the class [Lawful] is what the client of an adaptor uses.
    Persist.v: src/mqtt_server/persist_msg_pack.cpp, which stores the sessions and
    restores them, with its callers in timer_handler.cpp and tcp_server.cpp.
    Blocking.v: the loop of [write_n], which event_handler.cpp and tcp_client.cpp share.
    StrTools.v: src/common/str_tools.cpp and the functions of the C library that the
    HTTP interface calls ([strtok_r], [atoi], the decimal of [snprintf]).
    Http.v: src/http_server/http_connection.cpp, the connection of the HTTP interface:
    its parser, the publication that it makes and its answers; the state [Web] is the
    server and one such connection.
    Bridge.v: src/mqtt_server/tcp_client.cpp, the thread that subscribes to a topic of
    a parent server and passes its publications on to this one.
    System.v: the server with the client of the parent and the connections of the HTTP
    interface (src/http_server/http_acceptor.cpp makes them), and the actions of the
    three threads on it.
    Iqueue.v: the intrusive queues of include/reactor/itimer.hpp, as pointers and as
    lists.
    Timer.v: src/reactor/itimer.cpp, the timer wheel with its manager and events, and
    src/reactor/timer_wheel_mgr.cpp, by which the reactor uses it.

    Sample.v and Scenarios.v hold a concrete environment and concrete runs for the
    witnesses.  Delivery.v, Invariant.v, Safety.v, Sessions.v, Server.v, Publish.v,
    Framing.v and Defects.v hold the theorems about the server; Msgpack.v and
    MsgpackTotal.v those about the stored format; Stored.v, Restart.v, Recovery.v and
    Reopen.v those about the stored sessions; Notify.v, Locality.v, Waiting.v and Copy.v those
    about the messages between the threads; Bridging.v, Relay.v and Watchdog.v those
    about the bridge; Parsing.v and Web.v those about the HTTP interface; System.v also
    holds those about all threads together; Wheel.v, Firing.v, Clock.v and TimerMgr.v
    those about the timers.

    A pointer to an object that the code deletes is an address in a heap, and the
    use of a deleted one is [Stop UseAfterFree]; an access outside an array is
    [Stop OutOfBounds], a null dereference [Stop NullDeref].  Operations are
    functions of the state: [M A] is [World -> res A * World].

    ** The theorems

    The packet cursor and the messages: round trips of every encoder with its
    decoder, safety of the decoders on any bytes, the error results, and where the
    encoding is wrong (remaining lengths of three bytes, SUBACK).

    The output: [put] and [handle_output] refine a stream of bytes - what was sent,
    followed by what is queued - in Delivery.v.

    The input: [process_mqtt] refines a specification that cuts the received bytes
    into packets, and the packets do not depend on how the reads cut the stream
    (Framing.v).

    The server: an invariant of the pointers between objects (Invariant.v) that
    every event keeps (Safety.v, Sessions.v), and over the reachable states
    (Server.v) the absence of crashes, the uniqueness of the connection of a
    session, and what opening, taking over and closing a connection do; what a
    publication, a subscription, an acknowledgement and a reconnection do to the
    queues and the sockets (Publish.v).

    The hypotheses exclude some inputs and some failures, and Defects.v shows what
    the code does on them: a connection closed before its CONNECT, a second CONNECT,
    write errors, partial writes of a shared buffer, QoS 0, long packets.

    The stored format: the reader inverts the writer on every object (Msgpack.v), and
    on any bytes it ends with an object or an error (MsgpackTotal.v).

    The bridge: the thread of the client has a defined result on whatever the parent
    sends, and each loop in a round ends (Bridging.v); it passes on, in order and
    unchanged, the publications that a specification finds in the bytes received, and
    the server's thread appends every message that waits to the queues of its
    subscribers (Relay.v, Notify.v); a silent parent is asked six times and then
    connected to again (Watchdog.v).  The hypotheses say that writes and connections
    succeed in the end, and that a read leaves four bytes of the buffer free.

    The HTTP interface: the parser is defined on every request but a POST, ends, and
    reads back the requests that a client writes; where a POST goes wrong is shown by
    evaluation (Parsing.v).  A call of [handle_input] has a defined result and keeps the
    invariant of the server; a publication goes with its topic and its text through the
    queue of notifications to the queues of its subscribers (Web.v).  The hypotheses say
    that the data leaves a byte of the buffer free, that the QoS is an [int], and that a
    body has a value for every parameter.

    The threads together: no operation of the server depends on buffers that nothing in
    it refers to, or changes them (the frame property of Locality.v), so that a message
    in the queue, which only its entry refers to, is left alone by every event
    (Waiting.v); the messages that the other threads make are such, because a decoder
    that succeeds on a packet in its buffer succeeds on the copy (Copy.v).  Hence, from
    every state that the threads bring about in any order, no action crashes, the
    messages wait in order and unchanged, and the next notification gives them all to
    the sessions (System.v).

    The stored sessions: [store] writes a file from which [restore] makes the sessions
    again (Stored.v, Restart.v, Recovery.v), and a server that is started with it is in
    the invariant; so is every server that starts, whatever its file holds (Reopen.v),
    and the states of System.v include those after a restart.

    The timers: the queue macros refine lists (Iqueue.v); in the wheel every pending
    node has a number of ticks left, which additions set, cascades keep and ticks
    decrement (Wheel.v); a callback counts one period and arms the timer again
    (Firing.v); a run of the manager makes as many ticks as milliseconds have passed
    (Clock.v); hence timers are called on time, new ones start and deleted ones stop
    (TimerMgr.v).  These theorems ask for handlers that only register timers, for
    times that do not reach 2^32 milliseconds and for positive periods; the end of
    TimerMgr.v shows what happens otherwise.

    ** Fuel

    [process_loop] gets one unit more than the number of bytes, and every packet
    takes at least two; [frames] and [packets] likewise; so does [restore_loop], whose
    chunks take at least six.  The decoding loops get the
    length of the buffer.  The reader of MessagePack gets one unit per byte: every
    iteration advances.  The loops over the queue of notifications and over the
    events get the length of their list.  A loop over an intrusive queue gets one
    unit more than the length of the queue, which every iteration shortens, and
    [write_n] gets, for each byte, as many tries as [env_patience] says that a kernel
    refuses in a row, and [connect] as many; [svc n] is the first [n] rounds of a loop
    that the code leaves only when it is stopped or cannot connect.
    The parser of the HTTP interface gets one unit more than the length of its buffer:
    every line takes a byte.
    [while 32] runs its body up to 2^32 times: the loops of the timers count 32-bit
    times, and an [int] overflows before that.  That the fuel suffices is part of the
    theorems: running out is [Stop FuelOut], which [safe] excludes.

    ** Not modelled

    Logging; what the threads do at the same time: an action of System.v is a whole call
    of a handler, which the code does not ensure, since it takes a mutex where a message
    enters the queue but none where it leaves it, nor for the message store; the action
    of the timer, which stores the sessions, belongs to Persist.v and not to System.v;
    the making of the timer descriptor (system calls only), the buffering of
    stdio and the permissions of the file, [CPersist] of persist.cpp (an older
    version, which the server does not use); the record files; [TCPClient::read], which
    nothing calls; the streaming unpacker, the zones and the other
    adaptors of MessagePack; the
    configuration (fields read from XML attributes by tinyxml2), the signal handlers
    (system calls only); of the HTTP interface the loop of its poller, which is that of
    Poller.v once more, and the start of its thread (http_server.cpp), and the parser
    under src/http, which is third-party code that nothing links; the tools, the
    benchmark and the tests.  tinyxml2, log4cplus, http_parser and the lock-free queue
    are third-party code. *)

From Stdlib Require Export ZArith Lia.
From stdpp Require Export base gmap strings list numbers.
From stdpp Require Import options.

#[global] Open Scope Z_scope.

(** ** Machine integers *)

Definition u8 (z : Z) : Z := z mod 2 ^ 8.
Definition u16 (z : Z) : Z := z mod 2 ^ 16.
Definition u32 (z : Z) : Z := z mod 2 ^ 32.
Definition u64 (z : Z) : Z := z mod 2 ^ 64.

(** Conversion of an unsigned 32-bit value to [int] (two's complement). *)
Definition s32 (z : Z) : Z := (z + 2 ^ 31) mod 2 ^ 32 - 2 ^ 31.

Lemma u8_small z : 0 <= z < 256 → u8 z = z.
Proof. intros. unfold u8. rewrite Z.mod_small; lia. Qed.

Lemma u16_small z : 0 <= z < 65536 → u16 z = z.
Proof. intros. unfold u16. rewrite Z.mod_small; lia. Qed.

Lemma u32_small z : 0 <= z < 2 ^ 32 → u32 z = z.
Proof. intros. unfold u32. rewrite Z.mod_small; lia. Qed.

Lemma u64_small z : 0 <= z < 2 ^ 64 → u64 z = z.
Proof. intros. unfold u64. rewrite Z.mod_small; lia. Qed.

Lemma s32_small z : - 2 ^ 31 <= z < 2 ^ 31 → s32 z = z.
Proof. intros. unfold s32. rewrite Z.mod_small; lia. Qed.

Lemma u8_range z : 0 <= u8 z < 256.
Proof. apply Z.mod_pos_bound. lia. Qed.

Lemma u16_range z : 0 <= u16 z < 65536.
Proof. apply Z.mod_pos_bound. lia. Qed.

Lemma u32_range z : 0 <= u32 z < 2 ^ 32.
Proof. apply Z.mod_pos_bound. lia. Qed.

(** *** Bit operations as arithmetic *)

Lemma lor_range n a b :
  0 <= n → 0 <= a < 2 ^ n → 0 <= b < 2 ^ n → 0 <= Z.lor a b < 2 ^ n.
Proof.
  intros Hn Ha Hb.
  assert (Z.lor a b = Z.lor a b mod 2 ^ n) as ->.
  { rewrite <- Z.land_ones, Z.land_lor_distr_l, !Z.land_ones, !Z.mod_small by lia. done. }
  apply Z.mod_pos_bound. lia.
Qed.

Lemma land_shiftl_low k hi lo : 0 <= k → 0 <= lo < 2 ^ k → Z.land (Z.shiftl hi k) lo = 0.
Proof.
  intros Hk Hlo. apply Z.bits_inj'. intros i Hi.
  rewrite Z.land_spec, Z.bits_0. destruct (Z.ltb_spec i k).
  - by rewrite Z.shiftl_spec_low by lia.
  - rewrite <- (Z.mod_small lo (2 ^ k)) by lia.
    rewrite Z.mod_pow2_bits_high by lia. apply andb_false_r.
Qed.

(** Disjoint bit fields: [lor] of a shifted value and a small one is their sum. *)
Lemma lor_shiftl k hi lo :
  0 <= k → 0 <= lo < 2 ^ k → Z.lor (Z.shiftl hi k) lo = hi * 2 ^ k + lo.
Proof.
  intros Hk Hlo. rewrite <- Z.lxor_lor by (by apply land_shiftl_low).
  rewrite <- Z.add_nocarry_lxor by (by apply land_shiftl_low).
  by rewrite Z.shiftl_mul_pow2.
Qed.

Lemma land_low k z : 0 <= k → Z.land z (Z.ones k) = z mod 2 ^ k.
Proof. apply Z.land_ones. Qed.

Create Rewrite HintDb words.
#[export] Hint Rewrite u8_small u16_small u32_small u64_small s32_small using lia : words.

(** Simplify the machine-width conversions whose argument is in range. *)
Ltac words := autorewrite with words.

(** ** Bytes and strings

    A byte is a [Z] between 0 and 255, and a [std::string] is the list of its
    bytes (topics and client identifiers may hold any byte). *)

Abbreviation str := (list Z) (only parsing).

Definition is_byte (b : Z) : Prop := 0 <= b < 256.

#[export] Instance is_byte_dec b : Decision (is_byte b).
Proof. unfold is_byte. apply _. Defined.

Definition bytes (l : list Z) : Prop := Forall is_byte l.

#[export] Instance bytes_dec l : Decision (bytes l).
Proof. unfold bytes. apply _. Defined.

(** A boolean fact about every byte, checked on the 256 of them. *)
Lemma byte_check (P : Z → bool) :
  forallb P (seqZ 0 256) = true → ∀ b, is_byte b → P b = true.
Proof.
  intros HP b Hb. rewrite forallb_forall in HP. apply HP, list_elem_of_In, elem_of_seqZ.
  unfold is_byte in Hb. lia.
Qed.

(** The bytes of an ASCII literal of the source. *)
Fixpoint of_string (s : string) : list Z :=
  match s with
  | EmptyString => []
  | String a s => Z.of_N (Ascii.N_of_ascii a) :: of_string s
  end.

(** Length of a list as a [Z]. *)
Definition zlen {A} (l : list A) : Z := Z.of_nat (length l).

Lemma zlen_nonneg {A} (l : list A) : 0 <= zlen l.
Proof. unfold zlen. lia. Qed.

Lemma zlen_app {A} (l k : list A) : zlen (l ++ k) = zlen l + zlen k.
Proof. unfold zlen. rewrite length_app. lia. Qed.

Lemma zlen_cons {A} (x : A) l : zlen (x :: l) = 1 + zlen l.
Proof. unfold zlen. simpl. lia. Qed.

Lemma zlen_nil {A} : zlen (@nil A) = 0.
Proof. reflexivity. Qed.

Lemma zlen_take {A} n (l : list A) :
  0 <= n <= zlen l → zlen (take (Z.to_nat n) l) = n.
Proof. unfold zlen. intros. rewrite length_take. lia. Qed.

Lemma zlen_drop {A} n (l : list A) :
  0 <= n → zlen (drop (Z.to_nat n) l) = Z.max 0 (zlen l - n).
Proof. unfold zlen. intros. rewrite length_drop. lia. Qed.

Lemma zlen_insert (l : list Z) i x : zlen (<[i:=x]> l) = zlen l.
Proof. unfold zlen. by rewrite length_insert. Qed.

Create Rewrite HintDb zlen.
#[export] Hint Rewrite @zlen_app @zlen_cons @zlen_nil zlen_insert : zlen.

(** Linear arithmetic over lengths: push [zlen] through the list operations and
    add the non-negativity of every length. *)
Ltac zlen_facts :=
  repeat match goal with
  | |- context [zlen ?l] =>
      lazymatch goal with
      | _ : 0 <= zlen l |- _ => fail
      | _ => pose proof (zlen_nonneg l)
      end
  | _ : context [zlen ?l] |- _ =>
      lazymatch goal with
      | _ : 0 <= zlen l |- _ => fail
      | _ => pose proof (zlen_nonneg l)
      end
  end.
Ltac zlia := autorewrite with zlen in *; zlen_facts; lia.

(** [update_field eta p] builds the functional update of field [p] of a record
    whose eta expansion is [eta]. *)
Ltac update_field eta p :=
  intros f r;
  let t := eval unfold eta in (eta r) in
  match eval pattern (p r) in t with
  | ?g _ => let u := eval cbv beta in (g (f (p r))) in exact u
  end.

(** Close a decidable goal by evaluation. *)
Ltac decide_vm := apply (bool_decide_unpack _); vm_compute; exact I.

(** ** Results and stateful computations

    [Fail] is the value a decoder returns as a negative status.  [Stop u] is a
    run that has no defined result in C++: the reason is kept, so that a theorem
    can say which one happens, or that none does. *)

Inductive stop : Type :=
  | OutOfBounds      (* a read or write outside an array *)
  | NullDeref        (* a null pointer is dereferenced *)
  | UseAfterFree     (* a deleted object is used *)
  | AssertFailed     (* an assertion of the source fails *)
  | SignedOverflow   (* a computation of type int leaves its range *)
  | BrokenQueue      (* an intrusive queue is used outside its contract *)
  | FuelOut.         (* the model's loop bound was too small *)

#[export] Instance stop_eq_dec : EqDecision stop.
Proof. solve_decision. Defined.

Inductive res (A : Type) : Type :=
  | Ok (a : A)
  | Fail
  | Stop (u : stop).
Arguments Ok {A} a.
Arguments Fail {A}.
Arguments Stop {A} u.

#[export] Instance res_ret : MRet res := @Ok.
#[export] Instance res_bind : MBind res := λ A B f m,
  match m with
  | Ok a => f a
  | Fail => Fail
  | Stop u => Stop u
  end.

(** A computation on a state [S]; the state is kept when it fails. *)
Definition st (S A : Type) : Type := S → res A * S.

Definition ret {S A} (a : A) : st S A := λ s, (Ok a, s).
Definition fail {S A} : st S A := λ s, (Fail, s).
Definition crash {S A} (u : stop) : st S A := λ s, (Stop u, s).
Definition lift {S A} (r : res A) : st S A := λ s, (r, s).
Definition gets {S A} (f : S → A) : st S A := λ s, (Ok (f s), s).
Definition modify {S} (f : S → S) : st S unit := λ s, (Ok tt, f s).

Definition bind {S A B} (m : st S A) (f : A → st S B) : st S B := λ s,
  match m s with
  | (Ok a, s') => f a s'
  | (Fail, s') => (Fail, s')
  | (Stop u, s') => (Stop u, s')
  end.

(** The status of a call, for a caller that tests it itself. *)
Definition attempt {S A} (m : st S A) : st S (option A) := λ s,
  match m s with
  | (Ok a, s') => (Ok (Some a), s')
  | (Fail, s') => (Ok None, s')
  | (Stop u, s') => (Stop u, s')
  end.

Declare Scope st_scope.
Delimit Scope st_scope with st.
#[global] Open Scope st_scope.

Notation "'do' x <- m ; k" := (bind m (fun x => k))
  (at level 10, x pattern, m at level 100, k at level 200,
   format "'[v' 'do'  x  <-  m ;  '/' k ']'") : st_scope.
Notation "'do_' m ; k" := (bind m (fun _ => k))
  (at level 10, m at level 100, k at level 200,
   format "'[v' 'do_'  m ;  '/' k ']'") : st_scope.
Notation "'when' b 'then_' m" := (if b then m else ret tt)
  (at level 10, b at level 100, m at level 200) : st_scope.

(** A loop over the elements of a container. *)
Fixpoint iter {S A} (f : A → st S unit) (l : list A) : st S unit :=
  match l with
  | [] => ret tt
  | x :: l => do_ f x; iter f l
  end.

(** A loop whose number of iterations is not that of a list: at most [2 ^ k] runs of
    the body, which goes on with [inl] and leaves the loop with [inr]. *)
Fixpoint loop {S A B} (k : nat) (body : A → st S (A + B)) (a : A) : st S (A + B) :=
  match k with
  | O => body a
  | Datatypes.S k =>
      do r <- loop k body a;
      match r with
      | inl a => loop k body a
      | inr b => ret (inr b)
      end
  end.

Definition while {S A B} (k : nat) (body : A → st S (A + B)) (a : A) : st S B :=
  do r <- loop k body a;
  match r with
  | inl _ => crash FuelOut
  | inr b => ret b
  end.

(** A value of type [int]. *)
Definition in_int (z : Z) : bool := (- 2 ^ 31 <=? z) && (z <? 2 ^ 31).
Definition checked {S} (z : Z) : st S Z := if in_int z then ret z else crash SignedOverflow.

(** ** Reasoning about computations

    [wp m Q s]: the run of [m] from [s] ends in a result and a state that
    satisfy [Q].  [safe m Q s]: moreover the run has defined behaviour. *)

Definition wp {S A} (m : st S A) (Q : res A → S → Prop) (s : S) : Prop :=
  Q (m s).1 (m s).2.

Definition safe {S A} (m : st S A) (Q : A → S → Prop) (s : S) : Prop :=
  wp m (λ r s', match r with Ok a => Q a s' | _ => False end) s.

Section wp.
Context {S : Type}.
Implicit Types s : S.

Lemma safe_ret {A} (a : A) Q s : Q a s → safe (ret a) Q s.
Proof. done. Qed.

Lemma safe_bind {A B} (m : st S A) (f : A → st S B) Q s :
  safe m (λ a, safe (f a) Q) s → safe (bind m f) Q s.
Proof.
  unfold safe, wp, bind. destruct (m s) as [[a| |u] s']; simpl; done.
Qed.

Lemma safe_mono {A} (m : st S A) (Q R : A → S → Prop) s :
  safe m Q s → (∀ a s', Q a s' → R a s') → safe m R s.
Proof. unfold safe, wp. destruct (m s) as [[a| |u] s']; simpl; auto. Qed.

Lemma safe_and {A} (m : st S A) (Q R : A → S → Prop) s :
  safe m Q s → safe m R s → safe m (λ a s', Q a s' ∧ R a s') s.
Proof. unfold safe, wp. destruct (m s) as [[a| |u] s']; simpl; auto. Qed.

Lemma safe_gets {A} (f : S → A) Q s : Q (f s) s → safe (gets f) Q s.
Proof. done. Qed.

Lemma safe_modify (f : S → S) Q s : Q tt (f s) → safe (modify f) Q s.
Proof. done. Qed.

Lemma safe_inv {A} (m : st S A) Q s :
  safe m Q s → ∃ a s', m s = (Ok a, s') ∧ Q a s'.
Proof. unfold safe, wp. destruct (m s) as [[a| |u] s']; simpl; eauto; done. Qed.

Lemma safe_iter {A} (f : A → st S unit) l (I : S → Prop) s :
  I s → (∀ x s, x ∈ l → I s → safe (f x) (λ _, I) s) →
  safe (iter f l) (λ _, I) s.
Proof.
  revert s. induction l as [|x l IH]; intros s Hs Hf; simpl; [done|].
  apply safe_bind. eapply safe_mono; [apply (Hf x); [set_solver|done]|].
  intros [] s1 Hs1; simpl in *. apply IH; [done|]. intros; apply Hf; set_solver.
Qed.

(** A loop whose measure decreases ends. *)
Lemma safe_loop {A B} k (body : A → st S (A + B)) (I : A → S → Prop) (μ : A → S → Z) Q a s :
  (∀ a s, I a s →
    safe (body a) (λ r s', match r with inl a' => I a' s' ∧ 0 <= μ a' s' < μ a s | inr b => Q b s' end) s) →
  I a s →
  safe (loop k body a)
    (λ r s', match r with inl a' => I a' s' ∧ 0 <= μ a' s' <= μ a s - 2 ^ Z.of_nat k | inr b => Q b s' end) s.
Proof.
  intros Hbody. revert a s. induction k as [|k IH]; intros a s HI; cbn [loop].
  { eapply safe_mono; [by apply Hbody|]. intros [a'|b] s'; [|done]. intros [? ?]. split; [done|].
    change (Z.of_nat 0) with 0. lia. }
  apply safe_bind. eapply safe_mono; [by apply IH|]. intros [a'|b] s'; [|done].
  intros [HI' Hμ]. eapply safe_mono; [by apply IH|]. intros [a''|b] s''; [|done].
  intros [? ?]. split; [done|]. rewrite Nat2Z.inj_succ, Z.pow_succ_r by lia. lia.
Qed.

Lemma safe_while {A B} k (body : A → st S (A + B)) (I : A → S → Prop) (μ : A → S → Z) Q a s :
  (∀ a s, I a s →
    safe (body a) (λ r s', match r with inl a' => I a' s' ∧ 0 <= μ a' s' < μ a s | inr b => Q b s' end) s) →
  I a s → μ a s < 2 ^ Z.of_nat k → safe (while k body a) Q s.
Proof.
  intros Hbody HI Hμ. unfold while. apply safe_bind.
  eapply safe_mono; [by apply safe_loop|]. intros [a'|b] s'; [|done]. intros [_ ?]. lia.
Qed.

Lemma bind_Ok {A B} (m : st S A) (f : A → st S B) s a s' :
  m s = (Ok a, s') → bind m f s = f a s'.
Proof. intros H. unfold bind. by rewrite H. Qed.

Lemma bind_assoc_at {A B D} (m : st S A) (f : A → st S B) (g : B → st S D) s :
  bind (bind m f) g s = bind m (λ a, bind (f a) g) s.
Proof. unfold bind. by destruct (m s) as [[a| |u] s']. Qed.

Lemma bind_Fail {A B} (m : st S A) (f : A → st S B) s s' :
  m s = (Fail, s') → bind m f s = (Fail, s').
Proof. intros H. unfold bind. by rewrite H. Qed.

Lemma bind_Stop {A B} (m : st S A) (f : A → st S B) s u s' :
  m s = (Stop u, s') → bind m f s = (Stop u, s').
Proof. intros H. unfold bind. by rewrite H. Qed.
End wp.

(** Read byte [i] of an array; outside the array the behaviour is undefined. *)
Definition rd (l : list Z) (i : Z) : res Z :=
  if i <? 0 then Stop OutOfBounds
  else match l !! Z.to_nat i with
       | Some b => Ok b
       | None => Stop OutOfBounds
       end.

Lemma rd_app (l k : list Z) b : rd (l ++ b :: k) (zlen l) = Ok b.
Proof.
  unfold rd, zlen. destruct (Z.ltb_spec (Z.of_nat (length l)) 0); [lia|].
  by rewrite Nat2Z.id, list_lookup_middle.
Qed.

Lemma rd_in (l : list Z) i : 0 <= i < zlen l → ∃ b, rd l i = Ok b ∧ b ∈ l.
Proof.
  intros Hi. unfold rd, zlen in *. destruct (Z.ltb_spec i 0); [lia|].
  destruct (lookup_lt_is_Some_2 l (Z.to_nat i)) as [b Hb]; [lia|].
  exists b. rewrite Hb. split; [done|]. by eapply list_elem_of_lookup_2.
Qed.

(** ** Overwriting a segment of an array *)

Definition splice (i : nat) (l buf : list Z) : list Z :=
  take i buf ++ l ++ drop (i + length l) buf.

Section splice.
Local Open Scope nat_scope.
Implicit Types (i : nat) (l buf : list Z).

Lemma splice_nil i buf : splice i [] buf = buf.
Proof. unfold splice. simpl. by rewrite Nat.add_0_r, take_drop. Qed.

Lemma length_splice i l buf : i + length l <= length buf → length (splice i l buf) = length buf.
Proof. intros. unfold splice. rewrite !length_app, length_take, length_drop. lia. Qed.

Lemma splice_insert i x buf : i < length buf → <[i:=x]> buf = splice i [x] buf.
Proof.
  intros. unfold splice. rewrite insert_take_drop by done. simpl.
  by rewrite Nat.add_1_r.
Qed.

Lemma splice_app i l k buf :
  i + length l + length k <= length buf →
  splice (i + length l) k (splice i l buf) = splice i (l ++ k) buf.
Proof.
  intros. unfold splice.
  assert (length (take i buf) = i) as Hi by (rewrite length_take; lia).
  rewrite (take_app_add' _ _ i) by done. rewrite take_app_length.
  rewrite <- (Nat.add_assoc i), (drop_app_add' _ _ i) by done.
  rewrite drop_app_add, drop_drop, <- !app_assoc, length_app. by rewrite Nat.add_assoc.
Qed.

Lemma take_splice i l buf :
  i + length l <= length buf → take (i + length l) (splice i l buf) = take i buf ++ l.
Proof.
  intros. unfold splice. rewrite (take_app_add' _ _ i) by (rewrite length_take; lia).
  by rewrite take_app_length.
Qed.

Lemma splice_0 l buf : splice 0 l buf = l ++ drop (length l) buf.
Proof. reflexivity. Qed.
End splice.

Lemma zlen_splice i l buf :
  0 <= i → i + zlen l <= zlen buf → zlen (splice (Z.to_nat i) l buf) = zlen buf.
Proof. unfold zlen. intros. rewrite length_splice; lia. Qed.
