(* ===== verification/Pkt.v ===== *)
(** * The packet cursor [CMqttPkt]

    Model of src/mqttc++/mqtt_pkt.cpp and include/mqttc++/mqtt_pkt.hpp: a cursor
    over a byte buffer, the readers and writers of the MQTT primitive types, and
    the decoding of the remaining length of a fixed header. *)

From S2P Require Import Prelude.
From stdpp Require Import options.

(** ** Data *)

Definition NEED_MORE_DATA : Z := -2.
Definition FAILTURE : Z := -1.
Definition SUCCESS : Z := 0.

(** The two members for the remaining length that the class declares are never
    read or written after construction; they are left out.  [m_buf_ptr] is the
    array from the pointer to the end of its allocation, which may be longer
    than [m_max_size]. *)
Record CMqttPkt : Type := mkPkt {
  m_offset : Z;       (* uint32_t *)
  m_max_size : Z;     (* uint32_t *)
  m_buf_ptr : list Z; (* uint8_t * *)
}.

Definition new_CMqttPkt (buf : list Z) (len : Z) : CMqttPkt :=
  {| m_offset := 0; m_max_size := len; m_buf_ptr := buf |}.

Definition length_ (s : CMqttPkt) : Z := m_offset s.

Definition left_size (s : CMqttPkt) : Z := s32 (u32 (m_max_size s - m_offset s)).

Definition set_offset (f : Z → Z) (s : CMqttPkt) : CMqttPkt :=
  {| m_offset := u32 (f (m_offset s)); m_max_size := m_max_size s;
     m_buf_ptr := m_buf_ptr s |}.

(** ** Reading *)

Abbreviation reader := (st CMqttPkt) (only parsing).

(** [m_buf_ptr[i]]. *)
Definition peek (i : Z) : reader Z := λ s, (rd (m_buf_ptr s) i, s).

(** The loop of [remain_length]; the first argument is the number of iterations
    left, [MAX_REMAIN_LENGTH_BYTES - offset]. *)
Fixpoint remain_length_loop (n : nat) (buf : list Z) (offset value : Z)
    : res (bool * Z * Z) :=
  match n with
  | O => Ok (false, offset, value)
  | S n =>
      byte_value ← rd buf offset;
      let value := if offset =? 0 then Z.land byte_value 0x7F
                   else Z.lor (u32 (Z.shiftl (Z.land byte_value 0x7F) 7)) value in
      if Z.land byte_value 0x80 =? 0 then Ok (true, offset, value)
      else remain_length_loop n buf (offset + 1) value
  end.

(** The returned status and the two reference parameters. *)
Record remain_length_result : Type := mkRL {
  rl_ret : Z;
  remain_length_value : Z;
  remain_length_bytes : Z;
}.

Definition remain_length (pkt_buf : list Z) (len : Z) : res remain_length_result :=
  let buf := drop 1 pkt_buf in
  '(last_byte_found, offset, value) ← remain_length_loop 4 buf 0 0;
  if (negb last_byte_found : bool) then
    Ok {| rl_ret := if 4 <=? offset then FAILTURE else NEED_MORE_DATA;
          remain_length_value := value; remain_length_bytes := 0 |}
  else
    let remain_length_bytes := u8 (offset + 1) in
    let pkt_total_len := u32 (value + remain_length_bytes + 1) in
    if len <? pkt_total_len then
      Ok {| rl_ret := NEED_MORE_DATA; remain_length_value := value;
            remain_length_bytes := remain_length_bytes |}
    else
      Ok {| rl_ret := s32 value; remain_length_value := value;
            remain_length_bytes := remain_length_bytes |}.

Definition read_remain_length : reader (Z * Z) := λ s,
  if left_size s <? 2 then (Fail, s)
  else match remain_length (m_buf_ptr s) (m_max_size s) with
       | Ok r =>
           if rl_ret r <? 0 then (Fail, s)
           else (Ok (remain_length_value r, remain_length_bytes r),
                 set_offset (λ o, o + remain_length_bytes r) s)
       | Fail => (Fail, s)
       | Stop u => (Stop u, s)
       end.

Definition read_byte : reader Z :=
  do avail <- gets left_size;
  if avail <? 1 then fail
  else
    do off <- gets m_offset;
    do value <- peek off;
    do_ modify (set_offset (λ o, o + 1));
    ret value.

(** The overload [read_byte(std::vector<uint8_t> &payload, int len)]; the bytes
    are appended to [payload]. *)
Fixpoint read_byte_loop (n : nat) (i : Z) (payload : list Z) : reader (list Z) :=
  match n with
  | O => ret payload
  | S n =>
      do off <- gets m_offset;
      do b <- peek (off + i);
      read_byte_loop n (i + 1) (payload ++ [b])
  end.

Definition read_bytes (payload : list Z) (len : Z) : reader (list Z) :=
  do avail <- gets left_size;
  if avail <? len then fail
  else
    do payload <- read_byte_loop (Z.to_nat len) 0 payload;
    do_ modify (set_offset (λ o, o + len));
    ret payload.

Definition read_short : reader Z :=
  do avail <- gets left_size;
  if avail <? 2 then fail
  else
    do off <- gets m_offset;
    do hi <- peek off;
    do lo <- peek (off + 1);
    do_ modify (set_offset (λ o, o + 2));
    ret (u16 (Z.lor (Z.shiftl hi 8) (Z.land lo 0xFF))).

(** [str.assign(ptr, n)]: the [n] bytes from index [i]. *)
Definition slice (i n : Z) : reader (list Z) := λ s,
  let l := take (Z.to_nat n) (drop (Z.to_nat i) (m_buf_ptr s)) in
  if zlen l =? n then (Ok l, s) else (Stop OutOfBounds, s).

Definition read_string : reader str :=
  do str_len <- read_short;
  do avail <- gets left_size;
  if avail <? str_len then fail
  else
    do off <- gets m_offset;
    do value <- slice off str_len;
    do_ modify (set_offset (λ o, o + str_len));
    ret value.

(** ** Writing *)

(** [m_buf_ptr[i] = v]. *)
Definition poke (i v : Z) : reader unit := λ s,
  if decide (0 <= i < zlen (m_buf_ptr s)) then
    (Ok tt, {| m_offset := m_offset s; m_max_size := m_max_size s;
               m_buf_ptr := <[Z.to_nat i := v]> (m_buf_ptr s) |})
  else (Stop OutOfBounds, s).

(** The do-while loop of [write_remain_length]; a 32-bit length has at most five
    base-128 digits. *)
Fixpoint write_remain_length_loop (fuel : nat) (length remain_length_bytes : Z)
    : reader Z :=
  match fuel with
  | O => crash FuelOut
  | S fuel =>
      let digit := u8 (length mod 128) in
      let length := length / 128 in
      do off <- gets m_offset;
      do_ poke (u32 (off + remain_length_bytes))
            (if 0 <? length then Z.lor digit 0x80 else Z.land digit 0x7F);
      let remain_length_bytes := u8 (remain_length_bytes + 1) in
      if 0 <? length then write_remain_length_loop fuel length remain_length_bytes
      else ret remain_length_bytes
  end.

(** The result is the out parameter [remain_length_bytes]; the status is always
    [SUCCESS]. *)
Definition write_remain_length (length : Z) : reader Z :=
  do remain_length_bytes <- write_remain_length_loop 5 length 0;
  do_ modify (set_offset (λ o, o + remain_length_bytes));
  ret remain_length_bytes.

Definition write_byte (value : Z) : reader unit :=
  do avail <- gets left_size;
  if avail <? 1 then fail
  else
    do off <- gets m_offset;
    do_ poke off value;
    modify (set_offset (λ o, o + 1)).

(** [memcpy(m_buf_ptr + off, buf, size)]: a negative size converts to a huge
    one. *)
Definition memcpy (i : Z) (buf : list Z) (size : Z) : reader unit := λ s,
  if decide (0 <= size ∧ size <= zlen buf ∧ 0 <= i ∧ i + size <= zlen (m_buf_ptr s)) then
    (Ok tt, {| m_offset := m_offset s; m_max_size := m_max_size s;
               m_buf_ptr := take (Z.to_nat i) (m_buf_ptr s) ++ take (Z.to_nat size) buf ++
                            drop (Z.to_nat (i + size)) (m_buf_ptr s) |})
  else (Stop OutOfBounds, s).

(** The overload [write_byte(uint8_t *buf, int size)]. *)
Definition write_bytes (buf : list Z) (size : Z) : reader unit :=
  do avail <- gets left_size;
  if avail <? size then fail
  else
    do off <- gets m_offset;
    do_ memcpy off buf size;
    modify (set_offset (λ o, o + size)).

Definition write_short (value : Z) : reader unit :=
  do avail <- gets left_size;
  if avail <? 2 then fail
  else
    do off <- gets m_offset;
    do_ poke off (Z.land (Z.shiftr value 8) 0xFF);
    do_ modify (set_offset (λ o, o + 1));
    do off <- gets m_offset;
    do_ poke off (Z.land value 0xFF);
    modify (set_offset (λ o, o + 1)).

(** The [int] size is converted to the [uint16_t] parameter of [write_short]. *)
Definition write_string (buf : list Z) (size : Z) : reader unit :=
  do_ write_short (u16 size);
  write_bytes buf size.

(** ** Cursor lemmas: reading

    [rest s] are the bytes a reader may still consume.  A cursor is well formed
    when its bounds are those of a buffer: it never points past [m_max_size],
    and the array behind it is at least that long. *)

Definition wf_pkt (s : CMqttPkt) : Prop :=
  0 <= m_offset s <= m_max_size s ∧ m_max_size s < 2 ^ 31 ∧
  m_max_size s <= zlen (m_buf_ptr s).

Definition rest (s : CMqttPkt) : list Z :=
  take (Z.to_nat (m_max_size s - m_offset s)) (drop (Z.to_nat (m_offset s)) (m_buf_ptr s)).

Definition advance (n : Z) (s : CMqttPkt) : CMqttPkt := set_offset (λ o, o + n) s.

Lemma left_size_wf s : wf_pkt s → left_size s = m_max_size s - m_offset s.
Proof.
  intros (?&?&?). unfold left_size. rewrite u32_small, s32_small by lia. lia.
Qed.

Lemma zlen_rest s : wf_pkt s → zlen (rest s) = m_max_size s - m_offset s.
Proof.
  intros (?&?&?). unfold rest. rewrite zlen_take; [done|].
  rewrite zlen_drop; lia.
Qed.

Lemma left_size_rest s : wf_pkt s → left_size s = zlen (rest s).
Proof. intros Hs. by rewrite left_size_wf, zlen_rest. Qed.

Lemma advance_offset n s :
  wf_pkt s → 0 <= n <= zlen (rest s) → m_offset (advance n s) = m_offset s + n.
Proof.
  intros Hs Hn. rewrite zlen_rest in Hn by done. destruct Hs as (?&?&?).
  unfold advance, set_offset; simpl. rewrite u32_small; lia.
Qed.

Lemma wf_advance n s : wf_pkt s → 0 <= n <= zlen (rest s) → wf_pkt (advance n s).
Proof.
  intros Hs Hn. pose proof (advance_offset n s Hs Hn) as Ho.
  rewrite zlen_rest in Hn by done. destruct Hs as (?&?&?).
  split_and!; simpl in *; lia.
Qed.

Lemma rest_advance n s :
  wf_pkt s → 0 <= n <= zlen (rest s) →
  rest (advance n s) = drop (Z.to_nat n) (rest s).
Proof.
  intros Hs Hn. unfold rest at 1. rewrite advance_offset by done.
  rewrite zlen_rest in Hn by done. destruct Hs as (?&?&?). unfold rest; simpl.
  rewrite skipn_firstn_comm, drop_drop. f_equal; [lia|f_equal; lia].
Qed.

Lemma rest_advance_app s l k :
  wf_pkt s → rest s = l ++ k → wf_pkt (advance (zlen l) s) ∧ rest (advance (zlen l) s) = k.
Proof.
  intros Hs Hr. assert (0 <= zlen l <= zlen (rest s)).
  { rewrite Hr, zlen_app. pose proof (zlen_nonneg l); pose proof (zlen_nonneg k). lia. }
  split; [by apply wf_advance|]. rewrite rest_advance, Hr by done.
  unfold zlen. rewrite Nat2Z.id. apply drop_app_length.
Qed.

Lemma peek_rest s l b k :
  wf_pkt s → rest s = l ++ b :: k → peek (m_offset s + zlen l) s = (Ok b, s).
Proof.
  intros Hs Hr. unfold peek. f_equal. unfold rd.
  destruct (Z.ltb_spec (m_offset s + zlen l) 0) as [|_];
    [destruct Hs as (?&?&?); pose proof (zlen_nonneg l); lia|].
  assert (rest s !! length l = Some b) as Hl by (rewrite Hr; apply list_lookup_middle; done).
  unfold rest in Hl. rewrite lookup_take in Hl. case_decide; [|done].
  rewrite lookup_drop in Hl. destruct Hs as (?&?&?). unfold zlen.
  replace (Z.to_nat (m_offset s + Z.of_nat (length l)))
    with (Z.to_nat (m_offset s) + length l)%nat by lia.
  by rewrite Hl.
Qed.

Lemma slice_rest s l k :
  wf_pkt s → rest s = l ++ k → slice (m_offset s) (zlen l) s = (Ok l, s).
Proof.
  intros Hs Hr. unfold slice. pose proof (zlen_rest s Hs) as Hz. unfold rest in Hr, Hz.
  destruct Hs as (?&?&?). rewrite Hr, zlen_app in Hz.
  assert (take (Z.to_nat (zlen l)) (drop (Z.to_nat (m_offset s)) (m_buf_ptr s)) = l) as ->.
  { replace (Z.to_nat (zlen l)) with (length l) by (unfold zlen; lia).
    pose proof (zlen_nonneg k). unfold zlen in Hz.
    apply (f_equal (take (length l))) in Hr. rewrite take_take, take_app_length in Hr.
    etransitivity; [|exact Hr]. f_equal. lia. }
  by rewrite Z.eqb_refl.
Qed.

Lemma read_byte_ok s b t :
  wf_pkt s → rest s = b :: t → read_byte s = (Ok b, advance 1 s).
Proof.
  intros Hs Hr. unfold read_byte. erewrite bind_Ok by reflexivity.
  rewrite left_size_rest, Hr, zlen_cons by done. pose proof (zlen_nonneg t).
  destruct (Z.ltb_spec (1 + zlen t) 1); [lia|].
  erewrite bind_Ok by reflexivity. erewrite bind_Ok; [reflexivity|].
  replace (m_offset s) with (m_offset s + zlen (@nil Z)) by (rewrite zlen_nil; lia).
  by eapply peek_rest.
Qed.

Lemma read_byte_fail s : wf_pkt s → rest s = [] → read_byte s = (Fail, s).
Proof.
  intros Hs Hr. unfold read_byte. erewrite bind_Ok by reflexivity.
  by rewrite left_size_rest, Hr.
Qed.

Definition short (hi lo : Z) : Z := u16 (Z.lor (Z.shiftl hi 8) (Z.land lo 0xFF)).

Lemma read_short_ok s hi lo t :
  wf_pkt s → rest s = hi :: lo :: t → read_short s = (Ok (short hi lo), advance 2 s).
Proof.
  intros Hs Hr. unfold read_short. erewrite bind_Ok by reflexivity.
  rewrite left_size_rest, Hr, !zlen_cons by done. pose proof (zlen_nonneg t).
  destruct (Z.ltb_spec (1 + (1 + zlen t)) 2); [lia|].
  erewrite bind_Ok by reflexivity. erewrite bind_Ok.
  2:{ replace (m_offset s) with (m_offset s + zlen (@nil Z)) by (rewrite zlen_nil; lia).
      by apply (peek_rest s [] hi (lo :: t)). }
  erewrite bind_Ok; [reflexivity|].
  change (m_offset s + 1) with (m_offset s + zlen [hi]). by apply (peek_rest s [hi] lo t).
Qed.

Lemma read_short_fail s : wf_pkt s → zlen (rest s) < 2 → read_short s = (Fail, s).
Proof.
  intros Hs Hr. unfold read_short. erewrite bind_Ok by reflexivity.
  rewrite left_size_rest by done. by destruct (Z.ltb_spec (zlen (rest s)) 2); [|lia].
Qed.

Lemma advance_advance m n s :
  wf_pkt s → 0 <= m → 0 <= n → m + n <= zlen (rest s) →
  advance n (advance m s) = advance (m + n) s.
Proof.
  intros Hs Hm Hn Hmn. rewrite zlen_rest in Hmn by done. destruct Hs as (?&?&?).
  unfold advance, set_offset; simpl. f_equal.
  rewrite (u32_small (m_offset s + m)) by lia. rewrite !u32_small by lia. lia.
Qed.

Lemma read_string_ok s hi lo v t :
  wf_pkt s → rest s = hi :: lo :: v ++ t → short hi lo = zlen v →
  read_string s = (Ok v, advance (2 + zlen v) s).
Proof.
  intros Hs Hr Hv. unfold read_string. erewrite bind_Ok by (by eapply read_short_ok).
  destruct (rest_advance_app s [hi; lo] (v ++ t) Hs Hr) as [Hs' Hr'].
  change (zlen [hi; lo]) with 2 in *. erewrite bind_Ok by reflexivity.
  rewrite left_size_rest, Hr', Hv, zlen_app by done. pose proof (zlen_nonneg t).
  destruct (Z.ltb_spec (zlen v + zlen t) (zlen v)); [lia|].
  erewrite bind_Ok by reflexivity. erewrite bind_Ok by (by eapply slice_rest).
  erewrite bind_Ok by reflexivity. unfold ret. f_equal.
  change (set_offset _ (advance 2 s)) with (advance (zlen v) (advance 2 s)).
  apply advance_advance; [done|lia|apply zlen_nonneg|].
  rewrite Hr, !zlen_cons, zlen_app. lia.
Qed.

(** *** No reader has undefined behaviour on a well-formed cursor *)

Definition tame {A} (m : reader A) : Prop :=
  ∀ s, wf_pkt s → match m s with
                  | (Stop _, _) => False
                  | (_, s') => wf_pkt s' ∧ m_buf_ptr s' = m_buf_ptr s ∧
                               m_max_size s' = m_max_size s
                  end.

Lemma tame_ret {A} (a : A) : tame (ret a).
Proof. by intros s Hs. Qed.

Lemma tame_fail {A} : tame (@fail CMqttPkt A).
Proof. by intros s Hs. Qed.

Lemma tame_gets {A} (f : CMqttPkt → A) : tame (gets f).
Proof. by intros s Hs. Qed.

Lemma tame_bind {A B} (m : reader A) (f : A → reader B) :
  tame m → (∀ a, tame (f a)) → tame (bind m f).
Proof.
  intros Hm Hf s Hs. specialize (Hm s Hs). unfold bind.
  destruct (m s) as [[a| |u] s']; [|done|done].
  destruct Hm as (Hs' & Hb & Hz). specialize (Hf a s' Hs').
  destruct (f a s') as [[b| |u] s'']; [..|done]; intuition congruence.
Qed.

Lemma tame_attempt {A} (m : reader A) : tame m → tame (attempt m).
Proof.
  intros Hm s Hs. specialize (Hm s Hs). unfold attempt.
  by destruct (m s) as [[a| |u] s'].
Qed.

Lemma tame_read_byte : tame read_byte.
Proof.
  intros s Hs. destruct (rest s) as [|b t] eqn:Hr.
  - by rewrite read_byte_fail.
  - erewrite read_byte_ok by done.
    by destruct (rest_advance_app s [b] t Hs Hr) as [Hw _].
Qed.

Lemma tame_read_short : tame read_short.
Proof.
  intros s Hs. destruct (rest s) as [|hi [|lo t]] eqn:Hr.
  1-2: by rewrite read_short_fail by (done || (rewrite Hr; zlia)).
  erewrite read_short_ok by done.
  by destruct (rest_advance_app s [hi; lo] t Hs Hr) as [Hw _].
Qed.

Lemma short_range hi lo : 0 <= short hi lo < 65536.
Proof. apply u16_range. Qed.

Lemma tame_read_string : tame read_string.
Proof.
  intros s Hs. destruct (rest s) as [|hi [|lo t]] eqn:Hr.
  1-2: unfold read_string;
       by erewrite bind_Fail by (apply read_short_fail; [done|rewrite Hr; zlia]).
  destruct (decide (short hi lo <= zlen t)) as [Hle|Hgt].
  - pose proof (short_range hi lo).
    rewrite <- (take_drop (Z.to_nat (short hi lo)) t) in Hr.
    assert (zlen (take (Z.to_nat (short hi lo)) t) = short hi lo) as Hz
      by (apply zlen_take; lia).
    erewrite read_string_ok by (done || by rewrite Hz). split; [|done].
    rewrite Hz. apply wf_advance; [done|].
    rewrite Hr, !zlen_cons, zlen_app, Hz. pose proof (zlen_nonneg (drop (Z.to_nat (short hi lo)) t)). lia.
  - unfold read_string. erewrite bind_Ok by (by eapply read_short_ok).
    destruct (rest_advance_app s [hi; lo] t Hs Hr) as [Hs' Hr'].
    change (zlen [hi; lo]) with 2 in *. erewrite bind_Ok by reflexivity.
    rewrite left_size_rest, Hr' by done.
    by destruct (Z.ltb_spec (zlen t) (short hi lo)); [|lia].
Qed.

(** ** Cursor lemmas: writing

    [emit l s] is the cursor after the bytes [l] have been written. *)

Definition emit (l : list Z) (s : CMqttPkt) : CMqttPkt :=
  {| m_offset := m_offset s + zlen l; m_max_size := m_max_size s;
     m_buf_ptr := splice (Z.to_nat (m_offset s)) l (m_buf_ptr s) |}.

(** The bytes [l] fit between the cursor and [m_max_size]. *)
Definition room (l : list Z) (s : CMqttPkt) : Prop :=
  wf_pkt s ∧ m_offset s + zlen l <= m_max_size s.

Lemma emit_nil s : emit [] s = s.
Proof. destruct s. unfold emit; simpl. rewrite splice_nil, zlen_nil. f_equal. lia. Qed.

Lemma wf_emit l s : room l s → wf_pkt (emit l s).
Proof.
  intros [(?&?&?) ?]. split_and!; simpl; [zlia..|]. rewrite zlen_splice; lia.
Qed.

Lemma emit_app l k s : room (l ++ k) s → emit k (emit l s) = emit (l ++ k) s.
Proof.
  intros [(?&?&?) Hl]. rewrite zlen_app in Hl. pose proof (zlen_nonneg l).
  pose proof (zlen_nonneg k).
  unfold emit; simpl. rewrite zlen_app. f_equal; [lia|].
  rewrite <- splice_app by (unfold zlen in *; lia). f_equal. unfold zlen. lia.
Qed.

Lemma room_app l k s : room (l ++ k) s → room l s ∧ room k (emit l s).
Proof.
  intros [Hs Hl]. rewrite zlen_app in Hl. pose proof (zlen_nonneg l).
  pose proof (zlen_nonneg k).
  assert (room l s) by (split; [done|lia]). split; [done|].
  split; [by apply wf_emit|simpl; lia].
Qed.

Lemma zlen_emit l s : room l s → zlen (m_buf_ptr (emit l s)) = zlen (m_buf_ptr s).
Proof. intros [(?&?&?) ?]. simpl. rewrite zlen_splice; lia. Qed.

(** [writes m l]: where the bytes [l] fit, [m] succeeds and writes exactly them. *)
Definition writes (m : reader unit) (l : list Z) : Prop :=
  ∀ s, room l s → m s = (Ok tt, emit l s).

Lemma writes_bind {A} (m : reader unit) (k : reader A) l l' s r :
  writes m l → room (l ++ l') s → k (emit l s) = (r, emit l' (emit l s)) →
  (do_ m; k) s = (r, emit (l ++ l') s).
Proof.
  intros Hm Hr Hk. destruct (room_app _ _ _ Hr) as [Hl _].
  erewrite bind_Ok by (by apply Hm). by rewrite Hk, emit_app.
Qed.

Lemma writes_seq (m k : reader unit) l l' :
  writes m l → writes k l' → writes (do_ m; k) (l ++ l').
Proof.
  intros Hm Hk s Hr. destruct (room_app _ _ _ Hr) as [_ Hl].
  eapply writes_bind; [done..|]. by apply Hk.
Qed.

Lemma writes_ret : writes (ret tt) [].
Proof. intros s _. by rewrite emit_nil. Qed.

Lemma writes_iter {A} (f : A → reader unit) (g : A → list Z) (l : list A) :
  (∀ x, x ∈ l → writes (f x) (g x)) → writes (iter f l) (flat_map g l).
Proof.
  induction l as [|x l IH]; intros Hf; simpl; [apply writes_ret|].
  apply writes_seq; [apply Hf; set_solver|]. apply IH. intros; apply Hf; set_solver.
Qed.

Lemma poke_emit (off : Z) l v s :
  0 <= m_offset s → off = m_offset s + zlen l →
  off + 1 <= zlen (m_buf_ptr s) →
  poke off v {| m_offset := m_offset s; m_max_size := m_max_size s;
                m_buf_ptr := splice (Z.to_nat (m_offset s)) l (m_buf_ptr s) |} =
  (Ok tt, {| m_offset := m_offset s; m_max_size := m_max_size s;
             m_buf_ptr := splice (Z.to_nat (m_offset s)) (l ++ [v]) (m_buf_ptr s) |}).
Proof.
  intros Ho -> Hb. pose proof (zlen_nonneg l). unfold poke; simpl.
  rewrite zlen_splice by lia. rewrite decide_True by lia. do 2 f_equal.
  assert (length (splice (Z.to_nat (m_offset s)) l (m_buf_ptr s)) = length (m_buf_ptr s))
    by (apply length_splice; unfold zlen in *; lia).
  rewrite splice_insert by (unfold zlen in *; lia).
  rewrite <- splice_app by (unfold zlen in *; simpl; lia). f_equal.
  unfold zlen; lia.
Qed.

Lemma write_byte_writes v : writes (write_byte v) [v].
Proof.
  intros s [Hs Hl]. rewrite zlen_cons, zlen_nil in Hl. unfold write_byte.
  erewrite bind_Ok by reflexivity. rewrite left_size_wf by done.
  destruct (Z.ltb_spec (m_max_size s - m_offset s) 1); [lia|].
  erewrite bind_Ok by reflexivity. destruct Hs as (?&?&?).
  pose proof (poke_emit (m_offset s) [] v s) as Hp. rewrite splice_nil in Hp.
  destruct s as [off mx buf]; simpl in *. erewrite bind_Ok by (apply Hp; zlia).
  unfold modify, set_offset, emit; simpl. rewrite u32_small by lia. done.
Qed.

Lemma write_byte_full v s : wf_pkt s → m_offset s = m_max_size s → write_byte v s = (Fail, s).
Proof.
  intros Hs Ho. unfold write_byte. erewrite bind_Ok by reflexivity.
  rewrite left_size_wf by done. by destruct (Z.ltb_spec (m_max_size s - m_offset s) 1); [|lia].
Qed.

(** The two bytes of a [uint16_t], most significant first. *)
Definition be16 (v : Z) : list Z := [Z.land (Z.shiftr v 8) 0xFF; Z.land v 0xFF].

Lemma write_short_writes v : writes (write_short v) (be16 v).
Proof.
  intros s [Hs Hl]. change (zlen (be16 v)) with 2 in Hl. unfold write_short.
  erewrite bind_Ok by reflexivity. rewrite left_size_wf by done.
  destruct (Z.ltb_spec (m_max_size s - m_offset s) 2); [lia|].
  erewrite bind_Ok by reflexivity. destruct Hs as (?&?&?).
  pose proof (poke_emit (m_offset s) [] (Z.land (Z.shiftr v 8) 0xFF) s) as Hp.
  rewrite splice_nil in Hp.
  destruct s as [off mx buf]; simpl in *. erewrite bind_Ok by (apply Hp; zlia).
  erewrite bind_Ok by reflexivity. erewrite bind_Ok by reflexivity.
  unfold set_offset; simpl. rewrite u32_small by lia.
  set (l := [Z.land (Z.shiftr v 8) 0xFF]).
  assert (length (splice (Z.to_nat off) l buf) = length buf)
    by (apply length_splice; unfold zlen in *; simpl; lia).
  unfold bind, poke, modify, set_offset, emit; simpl.
  rewrite decide_True by (unfold zlen in *; lia). do 2 f_equal.
  - simpl. rewrite u32_small by lia. change (zlen (be16 v)) with 2. lia.
  - rewrite splice_insert by (unfold zlen in *; lia).
    change (be16 v) with (l ++ [Z.land v 0xFF]).
    cbn [m_buf_ptr]. rewrite <- splice_app by (subst l; unfold zlen in *; simpl in *; lia).
    f_equal. simpl. lia.
Qed.

Lemma write_bytes_writes l : writes (write_bytes l (zlen l)) l.
Proof.
  intros s [Hs Hl]. unfold write_bytes. erewrite bind_Ok by reflexivity.
  rewrite left_size_wf by done.
  destruct (Z.ltb_spec (m_max_size s - m_offset s) (zlen l)); [lia|].
  erewrite bind_Ok by reflexivity. destruct Hs as (?&?&?). pose proof (zlen_nonneg l).
  unfold memcpy, bind. rewrite decide_True by lia.
  unfold modify, set_offset, emit; simpl. rewrite u32_small by lia. do 2 f_equal.
  unfold splice. rewrite (take_ge l) by (unfold zlen; lia). do 2 f_equal.
  unfold zlen. f_equal. lia.
Qed.

Lemma write_string_writes l :
  zlen l < 65536 → writes (write_string l (zlen l)) (be16 (zlen l) ++ l).
Proof.
  intros Hl. unfold write_string. pose proof (zlen_nonneg l). rewrite u16_small by lia.
  apply writes_seq; [apply write_short_writes|apply write_bytes_writes].
Qed.

(** ** The remaining length

    [varint] is the variable-length encoding of the MQTT specification: base-128
    digits, least significant first, the top bit set on all but the last. *)

Fixpoint varint (fuel : nat) (n : Z) : list Z :=
  match fuel with
  | O => []
  | S fuel => if n <? 128 then [n] else (128 + n mod 128) :: varint fuel (n / 128)
  end.

Fixpoint varint_value (l : list Z) : Z :=
  match l with
  | [] => 0
  | b :: l => b mod 128 + 128 * varint_value l
  end.

Lemma varint_value_varint fuel n :
  0 <= n < 128 ^ Z.of_nat fuel → varint_value (varint fuel n) = n.
Proof.
  revert n. induction fuel as [|fuel IH]; intros n Hn; [simpl in *; lia|].
  simpl. destruct (Z.ltb_spec n 128); simpl.
  - rewrite Z.mod_small; lia.
  - rewrite IH.
    + rewrite <- Z.add_mod_idemp_l, Z.mod_same, Z.add_0_l, Z.mod_mod by lia.
      pose proof (Z.div_mod n 128). lia.
    + rewrite Nat2Z.inj_succ, Z.pow_succ_r in Hn by lia.
      split; [apply Z.div_pos; lia|]. apply Z.div_lt_upper_bound; lia.
Qed.

Lemma length_varint fuel n : (length (varint fuel n) <= fuel)%nat.
Proof.
  revert n. induction fuel as [|fuel IH]; intros n; simpl; [lia|].
  destruct (n <? 128); simpl; [lia|]. specialize (IH (n / 128)). lia.
Qed.

Lemma digit_continue d : 0 <= d < 128 → Z.lor d 0x80 = 128 + d.
Proof.
  intros Hd. apply Z.eqb_eq.
  pose proof (byte_check (λ d, (128 <=? d) || (Z.lor d 0x80 =? 128 + d)) eq_refl d) as H.
  simpl in H. destruct (Z.leb_spec 128 d); [lia|]. apply H. unfold is_byte; lia.
Qed.

Lemma digit_last d : 0 <= d < 128 → Z.land d 0x7F = d.
Proof.
  intros Hd. change 0x7F with (Z.ones 7). rewrite Z.land_ones by lia.
  apply Z.mod_small. lia.
Qed.

Lemma write_remain_length_loop_ok fuel n s l :
  (0 < fuel)%nat → 0 <= n < 128 ^ Z.of_nat fuel → 0 <= m_offset s → zlen l + Z.of_nat fuel < 256 →
  m_offset s + zlen (l ++ varint fuel n) <= zlen (m_buf_ptr s) →
  m_offset s + 256 < 2 ^ 32 →
  let s1 l := {| m_offset := m_offset s; m_max_size := m_max_size s;
                 m_buf_ptr := splice (Z.to_nat (m_offset s)) l (m_buf_ptr s) |} in
  write_remain_length_loop fuel n (zlen l) (s1 l) =
  (Ok (zlen (l ++ varint fuel n)), s1 (l ++ varint fuel n)).
Proof.
  intros Hf Hn Ho Hl Hb Hm s1. revert n l Hf Hn Hl Hb.
  induction fuel as [|fuel IH]; intros n l Hf Hn Hl Hb; [lia|].
  cbn [write_remain_length_loop varint] in *. pose proof (zlen_nonneg l).
  erewrite bind_Ok by reflexivity. cbn [m_offset s1].
  pose proof (Z.mod_pos_bound n 128). pose proof (Z.div_mod n 128).
  rewrite (u8_small (n mod 128)) by lia.
  destruct (Z.ltb_spec n 128) as [Hlt|Hge].
  - rewrite (Z.div_small n), Z.ltb_irrefl, (Z.mod_small n), digit_last by lia.
    rewrite zlen_app in Hb. change (zlen [n]) with 1 in Hb.
    rewrite u32_small by lia.
    erewrite bind_Ok by (apply poke_emit; lia).
    rewrite u8_small by lia. by rewrite zlen_app.
  - assert (1 <= n / 128) by (apply Z.div_le_lower_bound; lia).
    destruct (Z.ltb_spec 0 (n / 128)); [|lia].
    rewrite zlen_app, zlen_cons in Hb. pose proof (zlen_nonneg (varint fuel (n / 128))).
    rewrite u32_small by lia. rewrite digit_continue by lia.
    erewrite bind_Ok by (apply poke_emit; lia).
    rewrite u8_small by lia.
    replace (zlen l + 1) with (zlen (l ++ [128 + n mod 128])) by zlia.
    fold (s1 (l ++ [128 + n mod 128])).
    assert ((l ++ [128 + n mod 128]) ++ varint fuel (n / 128) =
            l ++ (128 + n mod 128) :: varint fuel (n / 128)) as <- by (by rewrite <- app_assoc).
    rewrite Nat2Z.inj_succ, Z.pow_succ_r in Hn by lia.
    apply IH; [destruct fuel; simpl in *; lia| |zlia..].
    split; [lia|]. apply Z.div_lt_upper_bound; lia.
Qed.

Lemma write_remain_length_ok n s :
  0 <= n < 2 ^ 32 → room (varint 5 n) s →
  write_remain_length n s = (Ok (zlen (varint 5 n)), emit (varint 5 n) s).
Proof.
  intros Hn [(?&?&?) Hl]. unfold write_remain_length.
  pose proof (length_varint 5 n) as H5.
  pose proof (write_remain_length_loop_ok 5 n s []) as Hw. cbv zeta in Hw. cbn [app] in Hw.
  rewrite splice_nil in Hw. change (zlen []) with 0 in Hw.
  destruct s as [off mx buf]; simpl in *.
  erewrite bind_Ok by (apply Hw; unfold zlen in *; lia).
  unfold bind, modify, set_offset, ret, emit; simpl.
  rewrite u32_small; [done|]. unfold zlen in *. lia.
Qed.

Lemma low7 b : Z.land b 0x7F = b mod 128.
Proof. change 0x7F with (Z.ones 7). by rewrite Z.land_ones. Qed.

Lemma top_bit b : is_byte b → (Z.land b 0x80 =? 0) = (b <? 128).
Proof.
  intros Hb. apply eqb_prop.
  exact (byte_check (λ b, Bool.eqb (Z.land b 0x80 =? 0) (b <? 128)) eq_refl b Hb).
Qed.

Lemma remain_length_loop_spec n buf offset value :
  0 <= offset → offset + Z.of_nat n <= zlen buf → 0 <= value < 2 ^ 14 →
  ∃ found off v, remain_length_loop n buf offset value = Ok (found, off, v) ∧
    0 <= v < 2 ^ 14 ∧ offset <= off <= offset + Z.of_nat n ∧
    (found = true → off < offset + Z.of_nat n) ∧ (found = false → off = offset + Z.of_nat n).
Proof.
  revert offset value. induction n as [|n IH]; intros offset value Ho Hb Hv.
  { exists false, offset, value. split_and!; (done || lia). }
  cbn [remain_length_loop]. destruct (rd_in buf offset) as (b&->&_); [lia|].
  cbn [mbind res_bind]. rewrite low7.
  set (v := if offset =? 0 then _ else _).
  assert (0 <= v < 2 ^ 14) as Hv'.
  { pose proof (Z.mod_pos_bound b 128). unfold v. destruct (offset =? 0); [lia|].
    rewrite Z.shiftl_mul_pow2, u32_small by lia. apply lor_range; lia. }
  destruct (Z.land b 128 =? 0).
  - exists true, offset, v. split_and!; (done || lia).
  - destruct (IH (offset + 1) v) as (f&o&w&->&?&?&?&?); [lia..|].
    exists f, o, w. split_and!; try (done || lia); intros; subst; intuition lia.
Qed.

(** The outcomes of [remain_length] on an array of at least five bytes. *)
Lemma remain_length_spec buf len :
  5 <= zlen buf → 0 <= len < 2 ^ 31 →
  ∃ r, remain_length buf len = Ok r ∧
    (rl_ret r = FAILTURE ∨ rl_ret r = NEED_MORE_DATA ∨
     (rl_ret r = remain_length_value r ∧ 0 <= remain_length_value r < 2 ^ 14 ∧
      1 <= remain_length_bytes r <= 4 ∧
      remain_length_value r + remain_length_bytes r + 1 <= len)).
Proof.
  intros Hb Hl. unfold remain_length.
  destruct (remain_length_loop_spec 4 (drop 1 buf) 0 0) as (f&o&v&->&?&?&?&?); [lia| |lia|].
  { replace 1%nat with (Z.to_nat 1) by lia. rewrite zlen_drop; lia. }
  cbn [mbind res_bind]. destruct f; simpl.
  - rewrite u8_small by lia. rewrite u32_small by lia.
    destruct (Z.ltb_spec len (v + (o + 1) + 1)); eexists; (split; [reflexivity|]); simpl; [auto|].
    right; right. rewrite s32_small by lia. lia.
  - eexists; split; [reflexivity|]; simpl. destruct (4 <=? o); auto.
Qed.

Lemma rd_0 x l : rd (x :: l) 0 = Ok x.
Proof. reflexivity. Qed.

Lemma rd_1 x y l : rd (x :: y :: l) (0 + 1) = Ok y.
Proof. reflexivity. Qed.

(** A length below 2^14 is decoded from its encoding. *)
Lemma remain_length_varint h n t len :
  0 <= n < 2 ^ 14 →
  remain_length (h :: varint 5 n ++ t) len =
  Ok {| rl_ret := if len <? n + zlen (varint 5 n) + 1 then NEED_MORE_DATA else n;
        remain_length_value := n; remain_length_bytes := zlen (varint 5 n) |}.
Proof.
  intros Hn. unfold remain_length. rewrite skipn_cons, skipn_O.
  pose proof (Z.mod_pos_bound n 128). pose proof (Z.div_mod n 128).
  cbn [varint]. destruct (Z.ltb_spec n 128) as [Hlt|Hge].
  - cbn [app remain_length_loop]. rewrite rd_0. cbn [mbind res_bind]. rewrite low7.
    rewrite top_bit by (unfold is_byte; lia). rewrite (Z.mod_small n) by lia.
    destruct (Z.ltb_spec n 128); [|lia]. rewrite Z.eqb_refl. cbn [mbind res_bind negb].
    change (u8 (0 + 1)) with 1. change (zlen [n]) with 1. rewrite u32_small, s32_small by lia.
    by destruct (len <? n + 1 + 1).
  - assert (n / 128 < 128) by (apply Z.div_lt_upper_bound; lia).
    assert (0 < n / 128) by (apply Z.div_str_pos; lia).
    destruct (Z.ltb_spec (n / 128) 128); [|lia].
    cbn [app remain_length_loop]. rewrite rd_0. cbn [mbind res_bind]. rewrite low7.
    rewrite top_bit by (unfold is_byte; lia).
    destruct (Z.ltb_spec (128 + n mod 128) 128); [lia|].
    rewrite rd_1. cbn [mbind res_bind]. rewrite low7.
    rewrite top_bit by (unfold is_byte; lia).
    destruct (Z.ltb_spec (n / 128) 128); [|lia].
    change (0 =? 0) with true. change (0 + 1 =? 0) with false. cbn [mbind res_bind negb].
    assert ((128 + n mod 128) mod 128 = n mod 128) as ->.
    { rewrite <- Z.add_mod_idemp_l, Z.mod_same, Z.add_0_l, Z.mod_mod by lia. done. }
    rewrite (Z.mod_small (n / 128)) by lia.
    rewrite (u32_small (Z.shiftl _ _)) by (rewrite Z.shiftl_mul_pow2; lia).
    rewrite lor_shiftl by lia. change (u8 (0 + 1 + 1)) with 2.
    replace (n / 128 * 2 ^ 7 + n mod 128) with n by lia.
    change (zlen [128 + n mod 128; n / 128]) with 2. rewrite u32_small, s32_small by lia.
    by destruct (len <? n + 2 + 1).
Qed.

(** After a success of [remain_length] the whole packet lies in the [len] bytes,
    so the body starts inside the cursor's bounds. *)
Lemma read_remain_length_tame s :
  wf_pkt s → m_offset s = 1 → 5 <= zlen (m_buf_ptr s) →
  match read_remain_length s with
  | (Stop _, _) => False
  | (_, s') => wf_pkt s' ∧ m_buf_ptr s' = m_buf_ptr s ∧ m_max_size s' = m_max_size s
  end.
Proof.
  intros Hs Ho Hb. unfold read_remain_length. destruct (left_size s <? 2); [done|].
  pose proof Hs as (?&?&?).
  destruct (remain_length_spec (m_buf_ptr s) (m_max_size s)) as (r&->&Hr); [lia..|].
  destruct (rl_ret r <? 0) eqn:E; [done|]. apply Z.ltb_ge in E.
  destruct Hr as [Hr|[Hr|Hr]]; [rewrite Hr in E; done..|].
  split; [|done]. unfold wf_pkt, set_offset; simpl. rewrite u32_small by lia. lia.
Qed.

Lemma read_remain_length_ok h n body junk s :
  1 <= n < 2 ^ 14 → zlen body = n →
  s = {| m_offset := 1; m_max_size := 1 + zlen (varint 5 n) + n;
         m_buf_ptr := h :: varint 5 n ++ body ++ junk |} →
  read_remain_length s = (Ok (n, zlen (varint 5 n)), advance (zlen (varint 5 n)) s).
Proof.
  intros Hn Hb ->. unfold read_remain_length.
  assert (0 < zlen (varint 5 n) <= 5) as Hv.
  { pose proof (length_varint 5 n). unfold zlen. split; [|lia].
    cbn [varint]. destruct (n <? 128); simpl; lia. }
  unfold left_size. cbn [m_max_size m_offset m_buf_ptr].
  rewrite u32_small, s32_small by lia.
  destruct (Z.ltb_spec (1 + zlen (varint 5 n) + n - 1) 2); [lia|].
  rewrite remain_length_varint by lia. cbn [rl_ret remain_length_value remain_length_bytes].
  destruct (Z.ltb_spec (1 + zlen (varint 5 n) + n) (n + zlen (varint 5 n) + 1)); [lia|].
  by destruct (Z.ltb_spec n 0); [lia|].
Qed.

Lemma write_remain_length_loop_fuel fuel n k s :
  (0 < fuel)%nat → 0 <= n < 128 ^ Z.of_nat fuel →
  (write_remain_length_loop fuel n k s).1 ≠ Stop FuelOut.
Proof.
  revert n k s. induction fuel as [|fuel IH]; intros n k s Hf Hn; [lia|].
  rewrite Nat2Z.inj_succ, Z.pow_succ_r in Hn by lia.
  cbn [write_remain_length_loop]. unfold bind, gets, poke. case_decide; [|done].
  destruct (Z.ltb_spec 0 (n / 128)); [|done]. apply IH.
  - destruct fuel; [|lia]. simpl in Hn. rewrite Z.div_small in * by lia. lia.
  - split; [lia|]. apply Z.div_lt_upper_bound; lia.
Qed.

Lemma zlen_varint n : 0 <= n → 1 <= zlen (varint 5 n) <= 5.
Proof.
  intros Hn. pose proof (length_varint 5 n). unfold zlen. split; [|lia].
  cbn [varint]. destruct (n <? 128); simpl; lia.
Qed.

Lemma varint_small n : n < 128 → varint 5 n = [n].
Proof. intros Hn. cbn [varint]. by destruct (Z.ltb_spec n 128); [|lia]. Qed.

Lemma zlen_varint_14 n : 0 <= n < 2 ^ 14 → zlen (varint 5 n) <= 2.
Proof.
  intros Hn. cbn [varint]. destruct (Z.ltb_spec n 128); [done|].
  assert (n / 128 < 128) by (apply Z.div_lt_upper_bound; lia).
  by destruct (Z.ltb_spec (n / 128) 128); [|lia].
Qed.

#[global] Opaque varint.

(** ** Big-endian shorts *)

Lemma short_be16 v : 0 <= v < 65536 → ∀ hi lo, be16 v = [hi; lo] → short hi lo = v.
Proof.
  intros Hv hi lo [= <- <-]. unfold short.
  change 0xFF with (Z.ones 8). rewrite !Z.land_ones, Z.mod_mod, Z.shiftr_div_pow2 by lia.
  pose proof (Z.mod_pos_bound v (2 ^ 8)). pose proof (Z.div_mod v (2 ^ 8)).
  rewrite lor_shiftl by lia. rewrite (Z.mod_small (v / 2 ^ 8)).
  - rewrite u16_small; lia.
  - split; [apply Z.div_pos; lia|apply Z.div_lt_upper_bound; lia].
Qed.

Lemma read_short_be16 s v t :
  wf_pkt s → 0 <= v < 65536 → rest s = be16 v ++ t →
  read_short s = (Ok v, advance 2 s).
Proof.
  intros Hs Hv Hr. erewrite read_short_ok; [|done|exact Hr].
  f_equal. f_equal. by apply short_be16.
Qed.

Lemma read_string_be16 s v t :
  wf_pkt s → zlen v < 65536 → rest s = be16 (zlen v) ++ v ++ t →
  read_string s = (Ok v, advance (2 + zlen v) s).
Proof.
  intros Hs Hv Hr. eapply read_string_ok; [done|exact Hr|].
  apply short_be16; [|done]. pose proof (zlen_nonneg v). lia.
Qed.

Lemma read_byte_loop_ok n i payload s l k :
  wf_pkt s → rest s = l ++ k → 0 <= i → (Z.to_nat i + n <= length l)%nat →
  read_byte_loop n i payload s =
  (Ok (payload ++ take n (drop (Z.to_nat i) l)), s).
Proof.
  intros Hs Hr. revert i payload. induction n as [|n IH]; intros i payload Hi Hn.
  { cbn. by rewrite take_0, app_nil_r. }
  destruct (lookup_lt_is_Some_2 l (Z.to_nat i)) as [b Hb]; [lia|].
  cbn [read_byte_loop]. erewrite bind_Ok by reflexivity.
  pose proof (take_drop_middle l (Z.to_nat i) b Hb) as Hm.
  erewrite bind_Ok.
  2:{ replace i with (zlen (take (Z.to_nat i) l)) by (apply zlen_take; unfold zlen; lia).
      eapply (peek_rest s _ b (drop (S (Z.to_nat i)) l ++ k)); [done|].
      rewrite Hr, <- Hm at 1. by rewrite <- app_assoc. }
  rewrite IH by lia. f_equal. f_equal. rewrite <- app_assoc. f_equal.
  replace (Z.to_nat (i + 1)) with (S (Z.to_nat i)) by lia.
  by rewrite (drop_S l b (Z.to_nat i) Hb).
Qed.

Lemma read_bytes_ok s l k :
  wf_pkt s → rest s = l ++ k → read_bytes [] (zlen l) s = (Ok l, advance (zlen l) s).
Proof.
  intros Hs Hr. unfold read_bytes. erewrite bind_Ok by reflexivity.
  rewrite left_size_rest, Hr, zlen_app by done. pose proof (zlen_nonneg k).
  destruct (Z.ltb_spec (zlen l + zlen k) (zlen l)); [lia|].
  erewrite bind_Ok by (eapply read_byte_loop_ok; [done..|lia|unfold zlen; simpl; lia]).
  unfold bind, modify, ret. rewrite drop_0, take_ge by (unfold zlen; lia). done.
Qed.

(** ** Composing readers

    [reads m l a]: wherever the bytes [l] are next, [m] consumes exactly them and
    returns [a]. *)
Definition reads {A} (m : reader A) (l : list Z) (a : A) : Prop :=
  ∀ s k, wf_pkt s → rest s = l ++ k → m s = (Ok a, advance (zlen l) s).

(** [reads_all m l a]: when [l] is all that is left, [m] returns [a]. *)
Definition reads_all {A} (m : reader A) (l : list Z) (a : A) : Prop :=
  ∀ s, wf_pkt s → rest s = l → ∃ s', m s = (Ok a, s').

Lemma reads_bind {A B} (m : reader A) (f : A → reader B) l l' a b :
  reads m l a → reads (f a) l' b → reads (bind m f) (l ++ l') b.
Proof.
  intros Hm Hf s k Hs Hr. rewrite <- app_assoc in Hr.
  erewrite bind_Ok by (by eapply Hm). destruct (rest_advance_app _ _ _ Hs Hr).
  erewrite Hf by done. rewrite advance_advance, zlen_app; [done|done|zlia..|].
  rewrite Hr. zlia.
Qed.

Lemma reads_all_bind {A B} (m : reader A) (f : A → reader B) l l' a b :
  reads m l a → reads_all (f a) l' b → reads_all (bind m f) (l ++ l') b.
Proof.
  intros Hm Hf s Hs Hr. erewrite bind_Ok by (by eapply Hm).
  destruct (rest_advance_app _ _ _ Hs Hr). by apply Hf.
Qed.

Lemma reads_all_ret {A} (a : A) : reads_all (ret a) [] a.
Proof. intros s _ _. by exists s. Qed.

Lemma reads_all_end {A} (a : A) l : reads_all (ret a) l a.
Proof. intros s _ _. by exists s. Qed.

Lemma reads_ret {A} (a : A) : reads (ret a) [] a.
Proof.
  intros s k Hs _. unfold ret, advance, set_offset. rewrite zlen_nil, Z.add_0_r.
  destruct Hs as (?&?&?). rewrite u32_small by lia. by destruct s.
Qed.

Lemma reads_read_byte b : reads read_byte [b] b.
Proof. intros s k Hs Hr. by eapply read_byte_ok. Qed.

Lemma reads_read_short v : 0 <= v < 65536 → reads read_short (be16 v) v.
Proof. intros Hv s k Hs Hr. by eapply read_short_be16. Qed.

Lemma reads_read_string v : zlen v < 65536 → reads read_string (be16 (zlen v) ++ v) v.
Proof.
  intros Hv s k Hs Hr. rewrite <- app_assoc in Hr.
  erewrite read_string_be16 by done. rewrite zlen_app. done.
Qed.

Lemma tame_read_bytes_left payload : tame (do n <- gets left_size; read_bytes payload n).
Proof.
  intros s Hs. erewrite bind_Ok by reflexivity. rewrite left_size_rest by done.
  unfold read_bytes. erewrite bind_Ok by reflexivity. rewrite left_size_rest by done.
  rewrite Z.ltb_irrefl.
  erewrite bind_Ok by (eapply (read_byte_loop_ok _ _ _ _ (rest s) []);
    [done|by rewrite app_nil_r|lia|unfold zlen; simpl; lia]).
  unfold bind, modify, ret. split; [|done].
  apply (wf_advance (zlen (rest s))); [done|]. pose proof (zlen_nonneg (rest s)). lia.
Qed.

Create HintDb pkt.
#[export] Hint Resolve tame_ret tame_fail tame_gets tame_bind tame_attempt
  tame_read_byte tame_read_short tame_read_string tame_read_bytes_left : pkt.
#[export] Hint Resolve reads_read_byte reads_read_short reads_read_string reads_ret
  reads_all_ret reads_all_end : pkt.
#[export] Hint Resolve write_byte_writes write_short_writes write_string_writes
  write_bytes_writes writes_ret writes_seq : pkt.

(** ** Writers that may run out of room

    [shrinks m l]: [m] writes the bytes [l] if they fit, and otherwise strictly
    fewer bytes. *)
Definition shrinks (m : reader unit) (l : list Z) : Prop :=
  ∀ s, wf_pkt s → ∃ l', m s = (Ok tt, emit l' s) ∧ room l' s ∧
    (l' = l ∨ zlen l' < zlen l ∧ m_max_size s - m_offset s < zlen l).

Lemma room_nil s : wf_pkt s → room [] s.
Proof. intros Hs. split; [done|]. rewrite zlen_nil. destruct Hs. lia. Qed.

Lemma shrinks_seq m k l l' : shrinks m l → shrinks k l' → shrinks (do_ m; k) (l ++ l').
Proof.
  intros Hm Hk s Hs. destruct (Hm s Hs) as (a&Ha&Hra&Hca).
  destruct (Hk (emit a s) (wf_emit _ _ Hra)) as (b&Hb&Hrb&Hcb).
  assert (room (a ++ b) s) as Hab.
  { split; [done|]. destruct Hrb as [_ Hrb]. simpl in Hrb. rewrite zlen_app. lia. }
  exists (a ++ b). split_and!; [|done|].
  - erewrite bind_Ok by done. by rewrite Hb, emit_app.
  - simpl in Hcb. rewrite !zlen_app. pose proof (zlen_nonneg l').
    destruct Hca as [->|], Hcb as [->|]; [by left|right; lia..].
Qed.

Lemma shrinks_ret : shrinks (ret tt) [].
Proof. intros s Hs. exists []. rewrite emit_nil. split_and!; auto using room_nil. Qed.

Lemma shrinks_iter {A} (f : A → reader unit) (g : A → list Z) (l : list A) :
  (∀ x, shrinks (f x) (g x)) → shrinks (iter f l) (flat_map g l).
Proof.
  intros Hf. induction l as [|x l IH]; simpl; [apply shrinks_ret|].
  by apply shrinks_seq.
Qed.

(** A writer tests the room for its [n] bytes first. *)
Lemma write_guard (m : reader unit) n s :
  wf_pkt s → m_max_size s - m_offset s < n →
  (do avail <- gets left_size; if avail <? n then fail else m) s = (Fail, s).
Proof.
  intros Hs Hn. erewrite bind_Ok by reflexivity. rewrite left_size_wf by done.
  by destruct (Z.ltb_spec (m_max_size s - m_offset s) n); [|lia].
Qed.

Lemma room_dec l s : wf_pkt s → room l s ∨ m_max_size s - m_offset s < zlen l.
Proof.
  intros Hs. destruct (Z.le_gt_cases (m_offset s + zlen l) (m_max_size s)); [left|right; lia].
  by split.
Qed.

(** ** Properties of the remaining length *)



(** The defect of the third digit.  [remain_length] shifts every digit after the
    first by the same seven bits, so that whatever the buffer holds the value it
    returns is below 2^14: a length of 2^14 or more, which the specification
    allows and [write_remain_length] writes, is never read back. *)
Theorem remain_length_long_misread h n buf len nbytes s' total r :
  2 ^ 14 <= n < 2 ^ 28 → 1 <= len → len < 2 ^ 31 → len <= zlen buf + 1 →
  5 <= zlen buf → 0 <= total < 2 ^ 31 →
  1 + zlen (varint 5 n) <= len →
  write_remain_length n {| m_offset := 1; m_max_size := len; m_buf_ptr := h :: buf |} =
    (Ok nbytes, s') →
  varint_value (take (Z.to_nat nbytes) (drop 1 (m_buf_ptr s'))) = n ∧
  (remain_length (m_buf_ptr s') total = Ok r → rl_ret r ≠ n).
Proof.
  intros Hn Hl1 Hl Hb H5 Ht Hv Hw. set (s := mkPkt _ _ _) in Hw.
  assert (room (varint 5 n) s) as Hr.
  { split; [unfold wf_pkt; simpl; zlia|simpl; lia]. }
  rewrite write_remain_length_ok in Hw by (done || lia). injection Hw as <- <-.
  pose proof (zlen_splice 1 (varint 5 n) (h :: buf)) as Hz.
  rewrite zlen_cons in Hz.
  change (m_buf_ptr (emit (varint 5 n) s)) with (splice (Z.to_nat 1) (varint 5 n) (h :: buf)).
  split.
  - unfold splice. simpl. unfold zlen. rewrite Nat2Z.id, drop_0, take_app_length.
    apply varint_value_varint. lia.
  - intros Hrl. destruct (remain_length_spec (splice (Z.to_nat 1) (varint 5 n) (h :: buf)) total)
      as (r'&Hr'&Hc); [lia..|].
    rewrite Hrl in Hr'. injection Hr' as <-. unfold FAILTURE, NEED_MORE_DATA in Hc. lia.
Qed.

Lemma remain_length_long_misread_witness :
  varint_value [0xA0; 0x9C; 0x01] = 20000 ∧
  (remain_length [0x30; 0xA0; 0x9C; 0x01; 7; 7] 20004 =
     Ok {| rl_ret := 3744; remain_length_value := 3744; remain_length_bytes := 3 |} →
   3744 ≠ 20000).
Proof.
  refine (remain_length_long_misread 0x30 20000 [9; 9; 9; 7; 7] 6 3
    {| m_offset := 4; m_max_size := 6; m_buf_ptr := [0x30; 0xA0; 0x9C; 0x01; 7; 7] |}
    20004 {| rl_ret := 3744; remain_length_value := 3744; remain_length_bytes := 3 |}
    _ _ _ _ _ _ _ _); first [decide_vm|reflexivity].
Defined.
