(* ===== verification/Msg.v ===== *)
(** * The MQTT messages

    Model of src/mqttc++/mqtt_msg.cpp and include/mqttc++/mqtt_msg.hpp: the fixed
    header, the connect flags, and [decode]/[encode] of every message class over
    the cursor of Pkt.v.

    A decoder that returns -1 is [Fail]; an encoder that returns -1 is [Fail], and
    one that returns a length is [Ok] of that length.  The members that a decoder
    assigns are the fields of the record it returns.  The [print] methods only
    write to the log and are not modelled. *)

From S2P Require Import Prelude Pkt.
From stdpp Require Import options.

(** ** Fixed header *)

Inductive MqttType : Type :=
  | RESERVED1 | CONNECT | CONNACK | PUBLISH | PUBACK | PUBREC | PUBREL | PUBCOMP
  | SUBSCRIBE | SUBACK | UNSUBSCRIBE | UNSUBACK | PINGREQ | PINGRESP | DISCONNECT
  | RESERVED2.

#[export] Instance MqttType_eq_dec : EqDecision MqttType.
Proof. solve_decision. Defined.

Definition MqttType_to_Z (t : MqttType) : Z :=
  match t with
  | RESERVED1 => 0 | CONNECT => 1 | CONNACK => 2 | PUBLISH => 3 | PUBACK => 4
  | PUBREC => 5 | PUBREL => 6 | PUBCOMP => 7 | SUBSCRIBE => 8 | SUBACK => 9
  | UNSUBSCRIBE => 10 | UNSUBACK => 11 | PINGREQ => 12 | PINGRESP => 13
  | DISCONNECT => 14 | RESERVED2 => 15
  end.

(** The cast [(MqttType)v] of a 4-bit value; every one is an enumerator. *)
Definition MqttType_of_Z (v : Z) : MqttType :=
  match v with
  | 1 => CONNECT | 2 => CONNACK | 3 => PUBLISH | 4 => PUBACK | 5 => PUBREC
  | 6 => PUBREL | 7 => PUBCOMP | 8 => SUBSCRIBE | 9 => SUBACK | 10 => UNSUBSCRIBE
  | 11 => UNSUBACK | 12 => PINGREQ | 13 => PINGRESP | 14 => DISCONNECT
  | 15 => RESERVED2 | _ => RESERVED1
  end.

Record CMqttFixedHeader : Type := mkHeader {
  msg_type : MqttType;
  dup_flag : bool;
  qos : Z;           (* uint8_t *)
  retain_flag : bool;
}.

(** The constructor [CMqttFixedHeader(MqttType)]. *)
Definition header_of_type (t : MqttType) : CMqttFixedHeader :=
  {| msg_type := t; dup_flag := false; qos := 0; retain_flag := false |}.

(** The bit-field union [FixHeaderFlag]; the fields are allocated from the least
    significant bit: retain, qos (2 bits), dup, msg_type (4 bits). *)
Definition CMqttFixedHeader_decode (value : Z) : CMqttFixedHeader :=
  {| retain_flag := Z.testbit value 0;
     qos := Z.land (Z.shiftr value 1) 3;
     dup_flag := Z.testbit value 3;
     msg_type := MqttType_of_Z (Z.land (Z.shiftr value 4) 15) |}.

Definition CMqttFixedHeader_encode (h : CMqttFixedHeader) : Z :=
  Z.lor (Z.b2z (retain_flag h))
    (Z.lor (Z.shiftl (Z.land (qos h) 3) 1)
       (Z.lor (Z.shiftl (Z.b2z (dup_flag h)) 3)
          (Z.shiftl (Z.land (MqttType_to_Z (msg_type h)) 15) 4))).

(** The union [ConnectFlag]: bit 0 unused, then clean_session, will, will_qos (2
    bits), will_retail, password, username. *)
Record ConnectFlag : Type := mkConnectFlag {
  flag_clean_session : bool;
  flag_will : bool;
  flag_will_qos : Z;
  flag_will_retail : bool;
  flag_password : bool;
  flag_username : bool;
}.

Definition ConnectFlag_of_byte (all : Z) : ConnectFlag :=
  {| flag_clean_session := Z.testbit all 1;
     flag_will := Z.testbit all 2;
     flag_will_qos := Z.land (Z.shiftr all 3) 3;
     flag_will_retail := Z.testbit all 5;
     flag_password := Z.testbit all 6;
     flag_username := Z.testbit all 7 |}.

(** ** The base class *)

Record CMqttMsg : Type := mkMsg {
  m_fixed_header : CMqttFixedHeader;
  m_remain_length_value : Z;  (* uint32_t *)
  m_remain_length_bytes : Z;  (* uint8_t *)
}.

Definition CMqttMsg_decode : reader CMqttMsg :=
  do fixed_header <- read_byte;
  do (value, nbytes) <- read_remain_length;
  ret {| m_fixed_header := CMqttFixedHeader_decode fixed_header;
         m_remain_length_value := value; m_remain_length_bytes := nbytes |}.

(** A write whose status the code does not look at. *)
Definition ignore (m : reader unit) : reader unit := do_ attempt m; ret tt.

Definition CMqttMsg_encode (h : CMqttFixedHeader) : reader unit :=
  ignore (write_byte (CMqttFixedHeader_encode h)).

(** The shared end of the encoders: compare the length written with the length
    announced. *)
Definition check_length (pkt_len : Z) : reader Z :=
  do encode_pkt_len <- gets length_;
  if encode_pkt_len =? pkt_len then ret (s32 encode_pkt_len) else fail.

(** ** CONNECT and CONNACK *)

Record CMqttConnect : Type := mkConnect {
  connect_base : CMqttMsg;
  proto_name : str;
  proto_version : Z;         (* uint8_t *)
  has_user_name : bool;
  has_passwd : bool;
  has_will_retain : bool;
  will_qos : Z;              (* uint8_t *)
  has_will : bool;
  clean_session : bool;
  keep_alive : Z;            (* uint16_t *)
  client_id : str;
  will_topic : str;
  will_message : str;
  user_name : str;
  password : str;
}.

Definition CMqttConnect_decode : reader CMqttConnect :=
  do base <- CMqttMsg_decode;
  if decide (msg_type (m_fixed_header base) ≠ CONNECT) then fail
  else
    do proto_name <- read_string;
    do proto_version <- read_byte;
    do all <- read_byte;
    let flag := ConnectFlag_of_byte all in
    do keep_alive <- read_short;
    do client_id <- read_string;
    do (will_topic, will_message) <-
      (if flag_will flag then
         do t <- read_string; do m <- read_string; ret (t, m)
       else ret ([], []));
    do user_name <- (if flag_username flag then read_string else ret []);
    do password <- (if flag_password flag then read_string else ret []);
    ret {| connect_base := base; proto_name := proto_name;
           proto_version := proto_version;
           has_user_name := flag_username flag; has_passwd := flag_password flag;
           has_will_retain := flag_will_retail flag; will_qos := flag_will_qos flag;
           has_will := flag_will flag; clean_session := flag_clean_session flag;
           keep_alive := keep_alive; client_id := client_id;
           will_topic := will_topic; will_message := will_message;
           user_name := user_name; password := password |}.

(** [encode] fixes the protocol name, the version and the keep-alive time; of the
    other members it uses the client identifier and the clean-session flag. *)
Definition CMqttConnect_encode (h : CMqttFixedHeader) (client_id : str)
    (clean_session : bool) : reader Z :=
  do_ CMqttMsg_encode h;
  let proto_name := of_string "MQIsdp" in
  let proto_version := 3 in
  let remain_length_value :=
    u32 (2 + zlen (of_string "MQIsdp") + 1 + 1 + 2 + (2 + zlen client_id)) in
  let flag := Z.shiftl (Z.b2z clean_session) 1 in
  let keep_alive := 60 in
  do _ <- write_remain_length remain_length_value;
  do_ ignore (write_string proto_name (zlen proto_name));
  do_ ignore (write_byte proto_version);
  do_ ignore (write_byte flag);
  do_ ignore (write_short keep_alive);
  do_ ignore (write_string client_id (s32 (u32 (zlen client_id))));
  do len <- gets length_;
  ret (s32 len).

(** A code read from the wire may be no enumerator. *)
Inductive Code : Type :=
  | ACCEPTED | BAD_VERSION | BAD_ID | SERVER_UNAVAILABLE | BAD_USER_OR_PWD | NO_AUTH
  | UNNAMED_CODE (v : Z).

#[export] Instance Code_eq_dec : EqDecision Code.
Proof. solve_decision. Defined.

Definition Code_to_Z (c : Code) : Z :=
  match c with
  | ACCEPTED => 0 | BAD_VERSION => 1 | BAD_ID => 2 | SERVER_UNAVAILABLE => 3
  | BAD_USER_OR_PWD => 4 | NO_AUTH => 5 | UNNAMED_CODE v => v
  end.

Definition Code_of_Z (v : Z) : Code :=
  match v with
  | 0 => ACCEPTED | 1 => BAD_VERSION | 2 => BAD_ID | 3 => SERVER_UNAVAILABLE
  | 4 => BAD_USER_OR_PWD | 5 => NO_AUTH | _ => UNNAMED_CODE v
  end.

Definition CMqttConnAck_decode : reader (CMqttMsg * Code) :=
  do base <- CMqttMsg_decode;
  if decide (msg_type (m_fixed_header base) ≠ CONNACK) then fail
  else
    do _ <- read_byte;
    do code <- read_byte;
    ret (base, Code_of_Z code).

Definition CMqttConnAck_encode (h : CMqttFixedHeader) (code : Code) : reader Z :=
  do_ CMqttMsg_encode h;
  do _ <- write_remain_length 2;
  do_ ignore (write_byte 0);
  do_ ignore (write_byte (u8 (Code_to_Z code)));
  check_length 4.

(** ** SUBSCRIBE and SUBACK *)

Record CTopic : Type := mkTopic {
  topic_name : str;
  topic_qos : Z;    (* uint8_t *)
}.

(** [operator ==]. *)
#[export] Instance CTopic_eq_dec : EqDecision CTopic.
Proof. solve_decision. Defined.

Record CMqttSubscribe : Type := mkSubscribe {
  sub_base : CMqttMsg;
  sub_msg_id : Z;            (* uint16_t *)
  sub_topics : list CTopic;
}.

Definition topics_name (m : CMqttSubscribe) : list str := map topic_name (sub_topics m).
Definition topics_qos (m : CMqttSubscribe) : list Z := map topic_qos (sub_topics m).

Definition CMqttSubscribe_encode (h : CMqttFixedHeader) (msg_id : Z)
    (topics : list CTopic) : reader Z :=
  do_ CMqttMsg_encode h;
  match topics with
  | [] => fail
  | _ =>
      let payload_len :=
        foldl (λ acc t, u32 (acc + (zlen (topic_name t) + 2 + 1))) 0 topics in
      let remain_length_value := u32 (payload_len + 2) in
      do nbytes <- write_remain_length remain_length_value;
      do_ ignore (write_short msg_id);
      do_ iter (λ t,
            do_ ignore (write_string (topic_name t) (s32 (u32 (zlen (topic_name t)))));
            ignore (write_byte (topic_qos t))) topics;
      check_length (u32 (remain_length_value + nbytes + 1))
  end.

(** The while loop over the topics; [read_string] consumes at least two bytes. *)
Fixpoint subscribe_loop (fuel : nat) (acc : list CTopic) : reader (list CTopic) :=
  match fuel with
  | O => crash FuelOut
  | S fuel =>
      do name <- attempt read_string;
      match name with
      | None => ret acc
      | Some name =>
          do q <- attempt read_byte;
          match q with
          | None => ret acc
          | Some q =>
              subscribe_loop fuel (acc ++ [{| topic_name := name; topic_qos := q |}])
          end
      end
  end.

Definition CMqttSubscribe_decode : reader CMqttSubscribe :=
  do base <- CMqttMsg_decode;
  if decide (msg_type (m_fixed_header base) ≠ SUBSCRIBE) then fail
  else
    do msg_id <- read_short;
    do fuel <- gets (λ s, S (length (m_buf_ptr s)));
    do topics <- subscribe_loop fuel [];
    ret {| sub_base := base; sub_msg_id := msg_id; sub_topics := topics |}.

(** The loop counter and its bound are [uint8_t]; the status of [read_byte] is
    not looked at, and a failing one leaves the previous value. *)
Fixpoint suback_loop (n : nat) (q : Z) (acc : list Z) : reader (list Z) :=
  match n with
  | O => ret acc
  | S n =>
      do r <- attempt read_byte;
      let q := default q r in
      suback_loop n q (acc ++ [q])
  end.

(** The message identifier is not read. *)
Definition CMqttSubAck_decode : reader (CMqttMsg * list Z) :=
  do base <- CMqttMsg_decode;
  if decide (msg_type (m_fixed_header base) ≠ SUBACK) then fail
  else
    do size <- gets left_size;
    do sub_qos <- suback_loop (Z.to_nat (u8 size)) 0 [];
    ret (base, sub_qos).

Definition CMqttSubAck_encode (h : CMqttFixedHeader) (msg_id : Z) (sub_qos : list Z)
    : reader Z :=
  do_ CMqttMsg_encode h;
  let remain_length_value := u32 (zlen sub_qos + 2) in
  do nbytes <- write_remain_length remain_length_value;
  do_ ignore (write_short msg_id);
  do_ iter (λ q, ignore (write_byte q)) sub_qos;
  check_length (u32 (remain_length_value + nbytes + 1)).

(** ** UNSUBSCRIBE and UNSUBACK *)

Record CMqttUnsubscribe : Type := mkUnsubscribe {
  unsub_base : CMqttMsg;
  unsub_msg_id : Z;              (* uint16_t *)
  unsub_topics_name : list str;
}.

Fixpoint unsubscribe_loop (fuel : nat) (acc : list str) : reader (list str) :=
  match fuel with
  | O => crash FuelOut
  | S fuel =>
      do name <- attempt read_string;
      match name with
      | None => ret acc
      | Some name => unsubscribe_loop fuel (acc ++ [name])
      end
  end.

Definition CMqttUnsubscribe_decode : reader CMqttUnsubscribe :=
  do base <- CMqttMsg_decode;
  if decide (msg_type (m_fixed_header base) ≠ UNSUBSCRIBE) then fail
  else
    do msg_id <- read_short;
    do fuel <- gets (λ s, S (length (m_buf_ptr s)));
    do topics <- unsubscribe_loop fuel [];
    ret {| unsub_base := base; unsub_msg_id := msg_id; unsub_topics_name := topics |}.

(** The shared body of [CMqttUnsubAck::encode] and [CMqttPublishAck::encode]. *)
Definition encode_ack (h : CMqttFixedHeader) (msg_id : Z) : reader Z :=
  do_ CMqttMsg_encode h;
  do _ <- write_remain_length 2;
  do_ ignore (write_short msg_id);
  check_length 4.

Definition CMqttUnsubAck_encode (h : CMqttFixedHeader) (msg_id : Z) : reader Z :=
  encode_ack h msg_id.

(** ** PUBLISH and PUBACK *)

Record CMqttPublish : Type := mkPublish {
  pub_base : CMqttMsg;
  pub_topic_name : str;
  pub_payload : list Z;
  pub_msg_id : Z;          (* uint16_t *)
  pub_msg_id_offset : Z;   (* uint32_t *)
}.

(** The message type is not checked here. *)
Definition CMqttPublish_decode : reader CMqttPublish :=
  do base <- CMqttMsg_decode;
  do topic_name <- read_string;
  do offset_msg_id <- gets length_;
  do msg_id <- read_short;
  do payload <- (do n <- gets left_size; read_bytes [] n);
  ret {| pub_base := base; pub_topic_name := topic_name; pub_payload := payload;
         pub_msg_id := msg_id; pub_msg_id_offset := offset_msg_id |}.

Definition CMqttPublish_encode (h : CMqttFixedHeader) (topic_name : str) (msg_id : Z)
    (payload : list Z) : reader Z :=
  do_ CMqttMsg_encode h;
  let remain_length_value := u32 (zlen topic_name + 2 + 2 + zlen payload) in
  do nbytes <- write_remain_length remain_length_value;
  do_ ignore (write_string topic_name (s32 (u32 (zlen topic_name))));
  do_ ignore (write_short msg_id);
  do_ ignore (write_bytes payload (s32 (u32 (zlen payload))));
  check_length (u32 (remain_length_value + nbytes + 1)).

Definition CMqttPublishAck_encode (h : CMqttFixedHeader) (msg_id : Z) : reader Z :=
  encode_ack h msg_id.

Definition CMqttPublishAck_decode : reader (CMqttMsg * Z) :=
  do base <- CMqttMsg_decode;
  if decide (msg_type (m_fixed_header base) ≠ PUBACK) then fail
  else
    do msg_id <- read_short;
    ret (base, msg_id).

(** ** PINGREQ, PINGRESP and DISCONNECT *)

(** The shared body of the three encoders of a message without a body. *)
Definition encode_empty (h : CMqttFixedHeader) : reader Z :=
  do_ CMqttMsg_encode h;
  do _ <- write_remain_length 0;
  check_length 2.

Definition CMqttPingReq_encode : reader Z := encode_empty (header_of_type PINGREQ).
Definition CMqttDisconnect_encode : reader Z := encode_empty (header_of_type DISCONNECT).
Definition CMqttPingResp_encode : reader Z := encode_empty (header_of_type PINGRESP).

(** ** Running a message class on a buffer *)

(** [CMqttX msg(buf, len); msg.decode()]. *)
Definition run_decode {A} (m : reader A) (buf : list Z) (len : Z) : res A :=
  (m (new_CMqttPkt buf len)).1.

(** [CMqttX msg(buf, len, ...); msg.encode()]: the status and the buffer. *)
Definition run_encode (m : reader Z) (buf : list Z) (len : Z) : res Z * list Z :=
  let '(r, s) := m (new_CMqttPkt buf len) in (r, m_buf_ptr s).

(** ** The fixed header *)

Lemma header_decode_encode h :
  0 <= qos h < 4 → CMqttFixedHeader_decode (CMqttFixedHeader_encode h) = h.
Proof.
  destruct h as [t d q r]; simpl; intros Hq.
  assert (q = 0 ∨ q = 1 ∨ q = 2 ∨ q = 3) as Hcases by lia.
  destruct Hcases as [ -> | [ -> | [ -> | -> ] ] ];
    destruct t, d, r; reflexivity.
Qed.

Lemma header_encode_decode b :
  is_byte b → CMqttFixedHeader_encode (CMqttFixedHeader_decode b) = b.
Proof.
  intros Hb. apply Z.eqb_eq.
  exact (byte_check (λ b, CMqttFixedHeader_encode (CMqttFixedHeader_decode b) =? b)
           eq_refl b Hb).
Qed.

Lemma MqttType_of_to t : MqttType_of_Z (MqttType_to_Z t) = t.
Proof. by destruct t. Qed.

(** ** Packets

    The bytes of a message: the header byte, the remaining length, the body. *)

Definition packet (h : CMqttFixedHeader) (body : list Z) : list Z :=
  CMqttFixedHeader_encode h :: varint 5 (zlen body) ++ body.

Lemma zlen_packet h body :
  zlen (packet h body) = 1 + zlen (varint 5 (zlen body)) + zlen body.
Proof. unfold packet. autorewrite with zlen. lia. Qed.

Lemma wf_new buf len : 0 <= len <= zlen buf → len < 2 ^ 31 → wf_pkt (new_CMqttPkt buf len).
Proof. intros ??. unfold wf_pkt; simpl. lia. Qed.

Lemma rest_new l junk : rest (new_CMqttPkt (l ++ junk) (zlen l)) = l.
Proof.
  unfold rest, new_CMqttPkt; simpl. rewrite drop_0, Z.sub_0_r. unfold zlen.
  by rewrite Nat2Z.id, take_app_length.
Qed.

(** The base class decodes the header of a packet and leaves its body. *)
Lemma CMqttMsg_decode_packet h body junk :
  1 <= zlen body < 2 ^ 14 → 0 <= qos h < 4 →
  ∃ s', CMqttMsg_decode (new_CMqttPkt (packet h body ++ junk) (zlen (packet h body))) =
        (Ok {| m_fixed_header := h; m_remain_length_value := zlen body;
               m_remain_length_bytes := zlen (varint 5 (zlen body)) |}, s') ∧
        wf_pkt s' ∧ rest s' = body ∧ m_offset s' = 1 + zlen (varint 5 (zlen body)).
Proof.
  intros Hb Hq. pose proof (zlen_varint (zlen body)) as Hv. pose proof (zlen_packet h body).
  set (s := new_CMqttPkt _ _).
  assert (wf_pkt s) as Hs by (apply wf_new; zlia).
  assert (rest s = packet h body) as Hr by apply rest_new.
  unfold CMqttMsg_decode. erewrite bind_Ok by (by eapply read_byte_ok).
  destruct (rest_advance_app s [CMqttFixedHeader_encode h]
              (varint 5 (zlen body) ++ body) Hs Hr) as [Hs1 Hr1].
  change (zlen [CMqttFixedHeader_encode h]) with 1 in *.
  erewrite bind_Ok.
  2:{ eapply (read_remain_length_ok (CMqttFixedHeader_encode h) (zlen body) body junk); [lia|done|].
      unfold advance, set_offset, s, new_CMqttPkt; cbn [m_offset m_max_size m_buf_ptr].
      change (u32 (0 + 1)) with 1. f_equal; [lia|].
      unfold packet. simpl. by rewrite <- app_assoc. }
  destruct (rest_advance_app _ _ _ Hs1 Hr1) as [Hs2 Hr2].
  eexists. split_and!.
  - cbn. by rewrite header_decode_encode by done.
  - exact Hs2.
  - exact Hr2.
  - rewrite advance_offset; [|done|rewrite Hr1; zlia]. reflexivity.
Qed.

Lemma decode_packet {A} (f : CMqttMsg → reader A) h body junk a :
  1 <= zlen body < 2 ^ 14 → 0 <= qos h < 4 →
  reads_all (f {| m_fixed_header := h; m_remain_length_value := zlen body;
                  m_remain_length_bytes := zlen (varint 5 (zlen body)) |}) body a →
  run_decode (bind CMqttMsg_decode f) (packet h body ++ junk) (zlen (packet h body)) = Ok a.
Proof.
  intros Hb Hq Hf. unfold run_decode.
  destruct (CMqttMsg_decode_packet h body junk Hb Hq) as (s'&Hd&Hs'&Hr'&_).
  erewrite bind_Ok by done. by destruct (Hf s' Hs' Hr') as [s'' ->].
Qed.

(** ** Encoders as packets *)

Lemma ignore_writes m l : writes m l → writes (ignore m) l.
Proof.
  intros Hm s Hs. unfold ignore, bind, attempt. by rewrite Hm.
Qed.

(** [finishes m l n]: where the bytes [l] fit and end at offset [n], the encoder
    [m] writes them and returns [n]. *)
Definition finishes (m : reader Z) (l : list Z) (n : Z) : Prop :=
  ∀ s, room l s → m_offset s + zlen l = n → m s = (Ok n, emit l s).

Lemma finishes_bind m k l l' n :
  writes m l → finishes k l' n → finishes (do_ m; k) (l ++ l') n.
Proof.
  intros Hm Hk s Hr Hn. destruct (room_app _ _ _ Hr) as [_ Hl].
  eapply writes_bind; [done..|]. apply Hk; [done|]. rewrite zlen_app in Hn. simpl. lia.
Qed.

Lemma finishes_check n : n < 2 ^ 31 → finishes (check_length n) [] n.
Proof.
  intros Hn s [(?&?&?) _] Ho. rewrite zlen_nil, Z.add_0_r in Ho.
  unfold check_length, bind, gets, length_. rewrite Ho, Z.eqb_refl, emit_nil.
  unfold ret. rewrite s32_small by lia. done.
Qed.

Lemma finishes_length n :
  n < 2 ^ 31 → finishes (do len <- gets length_; ret (s32 len)) [] n.
Proof.
  intros Hn s [(?&?&?) _] Ho. rewrite zlen_nil, Z.add_0_r in Ho.
  unfold bind, gets, length_, ret. rewrite Ho, emit_nil, s32_small by lia. done.
Qed.

(** Header, remaining length and body of an encoder run on a fresh buffer. *)
Lemma encode_packet h body (k : Z → reader Z) buf len :
  zlen (packet h body) <= len → len <= zlen buf → len < 2 ^ 31 →
  finishes (k (zlen (varint 5 (zlen body)))) body (zlen (packet h body)) →
  run_encode (do_ CMqttMsg_encode h; do n <- write_remain_length (zlen body); k n) buf len =
  (Ok (zlen (packet h body)),
   packet h body ++ drop (length (packet h body)) buf).
Proof.
  intros Hl Hb Hm Hk. unfold run_encode. set (s := new_CMqttPkt buf len).
  pose proof (zlen_nonneg body). pose proof (zlen_packet h body) as Hz.
  pose proof (zlen_varint (zlen body)).
  assert (wf_pkt s) as Hs by (apply wf_new; lia).
  assert (room ([CMqttFixedHeader_encode h] ++ varint 5 (zlen body) ++ body) s) as Hr
    by (split; [done|exact Hl]).
  destruct (room_app _ _ _ Hr) as [Hr1 Hr2]. destruct (room_app _ _ _ Hr2) as [Hr3 Hr4].
  erewrite bind_Ok by (apply ignore_writes; [apply write_byte_writes|done]).
  erewrite bind_Ok by (apply write_remain_length_ok; [lia|done]).
  rewrite Hk; [|done|].
  - rewrite emit_app, emit_app by done. simpl. by rewrite splice_0.
  - simpl. change (zlen [CMqttFixedHeader_encode h]) with 1. lia.
Qed.

(** The bytes each encoder writes. *)

Definition connect_body (client_id : str) (clean_session : bool) : list Z :=
  be16 6 ++ of_string "MQIsdp" ++ [3] ++ [Z.shiftl (Z.b2z clean_session) 1] ++
  be16 60 ++ be16 (zlen client_id) ++ client_id.

Definition topic_bytes (t : CTopic) : list Z :=
  (be16 (zlen (topic_name t)) ++ topic_name t) ++ [topic_qos t].

Definition subscribe_body (msg_id : Z) (topics : list CTopic) : list Z :=
  be16 msg_id ++ flat_map topic_bytes topics.

Definition publish_body (topic : str) (msg_id : Z) (payload : list Z) : list Z :=
  (be16 (zlen topic) ++ topic) ++ be16 msg_id ++ payload.

Lemma zlen_be16 v : zlen (be16 v) = 2.
Proof. reflexivity. Qed.

#[export] Hint Rewrite zlen_be16 : zlen.

Lemma finishes_bind_last m k l n :
  writes m l → finishes k [] n → finishes (do_ m; k) l n.
Proof. intros. rewrite <- (app_nil_r l). by apply finishes_bind. Qed.

(** Open one more write of an encoder's tail. *)
Ltac next_write :=
  let w := solve [apply ignore_writes; auto with pkt] in
  first [ apply finishes_bind; [w|] | apply finishes_bind_last; [w|] ].

Section encoders.
#[local] Set Default Proof Using "All".
Context (h : CMqttFixedHeader) (buf : list Z) (len : Z).
Hypothesis len_buf : len <= zlen buf.
Hypothesis len_int : len < 2 ^ 31.

(** The result of an encoder whose packet fits. *)
Definition encoded (body : list Z) : res Z * list Z :=
  (Ok (zlen (packet h body)), packet h body ++ drop (length (packet h body)) buf).

Lemma encode_ack_packet msg_id :
  4 <= len → run_encode (encode_ack h msg_id) buf len = encoded (be16 msg_id).
Proof.
  intros Hl. assert (zlen (packet h (be16 msg_id)) = 4) as Hp
    by (rewrite zlen_packet, zlen_be16, varint_small by lia; done).
  unfold encode_ack, encoded.
  apply (encode_packet h (be16 msg_id) (λ _, do_ ignore (write_short msg_id); check_length 4));
    [lia..|].
  rewrite Hp. next_write. by apply finishes_check.
Qed.

Lemma connack_packet code :
  4 <= len → run_encode (CMqttConnAck_encode h code) buf len = encoded [0; u8 (Code_to_Z code)].
Proof.
  intros Hl. set (c := u8 (Code_to_Z code)).
  assert (zlen (packet h [0; c]) = 4) as Hp
    by (rewrite zlen_packet; change (zlen [0; c]) with 2; rewrite varint_small by lia; done).
  apply (encode_packet h [0; c] (λ _, do_ ignore (write_byte 0);
                                  do_ ignore (write_byte c); check_length 4)); [lia..|].
  rewrite Hp. change [0; c] with ([0] ++ [c]). next_write. next_write. by apply finishes_check.
Qed.

Lemma empty_packet : 2 <= len → run_encode (encode_empty h) buf len = encoded [].
Proof.
  intros Hl. assert (zlen (packet h []) = 2) as Hp
    by (rewrite zlen_packet, varint_small by (rewrite zlen_nil; lia); done).
  apply (encode_packet h [] (λ _, check_length 2)); [lia..|].
  rewrite Hp. by apply finishes_check.
Qed.

Lemma publish_packet topic msg_id payload :
  zlen topic < 65536 → zlen (packet h (publish_body topic msg_id payload)) <= len →
  run_encode (CMqttPublish_encode h topic msg_id payload) buf len =
  encoded (publish_body topic msg_id payload).
Proof.
  intros Ht Hl. set (body := publish_body topic msg_id payload) in *.
  pose proof (zlen_packet h body) as Hz. pose proof (zlen_varint (zlen body)) as Hv.
  assert (zlen body = zlen topic + 2 + 2 + zlen payload) as Hb
    by (unfold body, publish_body; autorewrite with zlen; lia).
  pose proof (zlen_nonneg topic). pose proof (zlen_nonneg payload).
  unfold CMqttPublish_encode. rewrite (u32_small (_ + zlen payload)), <- Hb by lia.
  apply (encode_packet h body (λ n, do_ ignore (write_string topic (s32 (u32 (zlen topic))));
    do_ ignore (write_short msg_id); do_ ignore (write_bytes payload (s32 (u32 (zlen payload))));
    check_length (u32 (zlen body + n + 1)))); [lia..|].
  rewrite !u32_small, !s32_small by lia.
  replace (zlen body + zlen (varint 5 (zlen body)) + 1) with (zlen (packet h body)) by lia.
  unfold body at 1, publish_body. do 3 next_write. apply finishes_check; lia.
Qed.

Lemma connect_packet client_id clean :
  zlen client_id < 65536 → zlen (packet h (connect_body client_id clean)) <= len →
  run_encode (CMqttConnect_encode h client_id clean) buf len =
  encoded (connect_body client_id clean).
Proof.
  intros Ht Hl. set (body := connect_body client_id clean) in *.
  pose proof (zlen_packet h body) as Hz. pose proof (zlen_varint (zlen body)) as Hv.
  assert (zlen body = 14 + zlen client_id) as Hb
    by (unfold body, connect_body; autorewrite with zlen;
        change (zlen (of_string "MQIsdp")) with 6; lia).
  pose proof (zlen_nonneg client_id). unfold CMqttConnect_encode.
  change (zlen (of_string "MQIsdp")) with 6.
  replace (u32 (2 + 6 + 1 + 1 + 2 + (2 + zlen client_id))) with (zlen body)
    by (rewrite u32_small; lia).
  apply (encode_packet h body (λ _, do_ ignore (write_string (of_string "MQIsdp") 6);
    do_ ignore (write_byte 3); do_ ignore (write_byte (Z.shiftl (Z.b2z clean) 1));
    do_ ignore (write_short 60);
    do_ ignore (write_string client_id (s32 (u32 (zlen client_id))));
    do len <- gets length_; ret (s32 len))); [lia..|].
  rewrite !u32_small, !s32_small by lia. unfold body at 1, connect_body.
  rewrite (app_assoc (be16 6)). apply finishes_bind.
  { apply ignore_writes. by apply (write_string_writes (of_string "MQIsdp")). }
  do 4 next_write. apply finishes_length; lia.
Qed.

Lemma topic_writes t :
  zlen (topic_name t) < 65536 →
  writes (do_ ignore (write_string (topic_name t) (s32 (u32 (zlen (topic_name t)))));
          ignore (write_byte (topic_qos t))) (topic_bytes t).
Proof.
  intros Ht. pose proof (zlen_nonneg (topic_name t)). rewrite u32_small, s32_small by lia.
  apply writes_seq; apply ignore_writes; auto with pkt.
Qed.

Lemma payload_len_foldl topics acc :
  0 <= acc → acc + zlen (flat_map topic_bytes topics) < 2 ^ 32 →
  foldl (λ acc t, u32 (acc + (zlen (topic_name t) + 2 + 1))) acc topics =
  acc + zlen (flat_map topic_bytes topics).
Proof.
  revert acc. induction topics as [|t topics IH]; intros acc Ha Hl; cbn [foldl flat_map] in *.
  { rewrite zlen_nil. lia. }
  rewrite zlen_app in *. pose proof (zlen_nonneg (topic_name t)).
  pose proof (zlen_nonneg (flat_map topic_bytes topics)).
  assert (zlen (topic_bytes t) = zlen (topic_name t) + 3) as Hz
    by (unfold topic_bytes; autorewrite with zlen; lia).
  rewrite u32_small by lia. rewrite IH; lia.
Qed.

Lemma subscribe_packet msg_id topics :
  topics ≠ [] → Forall (λ t, zlen (topic_name t) < 65536) topics →
  zlen (packet h (subscribe_body msg_id topics)) <= len →
  run_encode (CMqttSubscribe_encode h msg_id topics) buf len =
  encoded (subscribe_body msg_id topics).
Proof.
  intros Hne Ht Hl. set (body := subscribe_body msg_id topics) in *.
  pose proof (zlen_packet h body) as Hz. pose proof (zlen_varint (zlen body)) as Hv.
  assert (zlen body = 2 + zlen (flat_map topic_bytes topics)) as Hb
    by (unfold body, subscribe_body; by rewrite zlen_app, zlen_be16).
  pose proof (zlen_nonneg (flat_map topic_bytes topics)).
  assert (u32 (foldl (λ acc t, u32 (acc + (zlen (topic_name t) + 2 + 1))) 0 topics + 2)
          = zlen body) as Hr by (rewrite payload_len_foldl, u32_small by lia; lia).
  unfold CMqttSubscribe_encode. rewrite Hr. destruct topics as [|t0 topics]; [done|].
  apply (encode_packet h body (λ n, do_ ignore (write_short msg_id);
    do_ iter (λ t,
          do_ ignore (write_string (topic_name t) (s32 (u32 (zlen (topic_name t)))));
          ignore (write_byte (topic_qos t))) (t0 :: topics);
    check_length (u32 (zlen body + n + 1)))); [lia..|].
  rewrite u32_small by lia.
  replace (zlen body + zlen (varint 5 (zlen body)) + 1) with (zlen (packet h body)) by lia.
  unfold body at 1, subscribe_body. next_write. apply finishes_bind_last.
  - apply writes_iter. intros t Hin. apply topic_writes.
    rewrite Forall_forall in Ht. by apply Ht, list_elem_of_In.
  - apply finishes_check; lia.
Qed.

Lemma suback_packet msg_id qoss :
  zlen (packet h (be16 msg_id ++ qoss)) <= len →
  run_encode (CMqttSubAck_encode h msg_id qoss) buf len = encoded (be16 msg_id ++ qoss).
Proof.
  intros Hl. set (body := be16 msg_id ++ qoss) in *.
  pose proof (zlen_packet h body) as Hz. pose proof (zlen_varint (zlen body)) as Hv.
  assert (zlen body = 2 + zlen qoss) as Hb by (unfold body; by rewrite zlen_app).
  pose proof (zlen_nonneg qoss). unfold CMqttSubAck_encode.
  replace (u32 (zlen qoss + 2)) with (zlen body) by (rewrite u32_small; lia).
  apply (encode_packet h body (λ n, do_ ignore (write_short msg_id);
    do_ iter (λ q, ignore (write_byte q)) qoss;
    check_length (u32 (zlen body + n + 1)))); [lia..|].
  rewrite u32_small by lia.
  replace (zlen body + zlen (varint 5 (zlen body)) + 1) with (zlen (packet h body)) by lia.
  unfold body at 1. next_write. apply finishes_bind_last; [|apply finishes_check; lia].
  assert (qoss = flat_map (λ q, [q]) qoss) as Hq
    by (clear; induction qoss; simpl; congruence).
  rewrite Hq at 2. apply writes_iter. intros q _. apply ignore_writes; auto with pkt.
Qed.
End encoders.

(** ** Decoders of packets *)

Lemma read_string_end s : wf_pkt s → rest s = [] → ∃ s', attempt read_string s = (Ok None, s').
Proof.
  intros Hs Hr. unfold attempt, read_string. erewrite bind_Fail; [eauto|].
  apply read_short_fail; [done|]. rewrite Hr. zlia.
Qed.

Lemma attempt_reads {A B} (m : reader A) (f : option A → reader B) l l' a b :
  reads m l a → reads_all (f (Some a)) l' b → reads_all (bind (attempt m) f) (l ++ l') b.
Proof.
  intros Hm Hf. apply (reads_all_bind _ _ _ _ (Some a)); [|done].
  intros s k Hs Hr. unfold attempt. by erewrite Hm.
Qed.

Lemma subscribe_loop_reads fuel acc topics :
  (length topics < fuel)%nat → Forall (λ t, zlen (topic_name t) < 65536) topics →
  reads_all (subscribe_loop fuel acc) (flat_map topic_bytes topics) (acc ++ topics).
Proof.
  revert fuel acc. induction topics as [|t topics IH]; intros fuel acc Hf Ht;
    (destruct fuel as [|fuel]; [simpl in *; lia|]); cbn [subscribe_loop flat_map].
  - intros s Hs Hr. destruct (read_string_end s Hs Hr) as [s' He].
    erewrite bind_Ok by done. rewrite app_nil_r. by exists s'.
  - inversion_clear Ht. unfold topic_bytes at 1. rewrite <- app_assoc.
    eapply attempt_reads; [by apply reads_read_string|].
    eapply attempt_reads; [by apply reads_read_byte|]. cbn beta iota.
    replace (acc ++ t :: topics) with ((acc ++ [t]) ++ topics) by (by rewrite <- app_assoc).
    destruct t as [name q]. apply IH; [simpl in *; lia|done].
Qed.

Lemma unsubscribe_loop_reads fuel acc names :
  (length names < fuel)%nat → Forall (λ v : str, zlen v < 65536) names →
  reads_all (unsubscribe_loop fuel acc) (flat_map (λ v, be16 (zlen v) ++ v) names) (acc ++ names).
Proof.
  revert fuel acc. induction names as [|v names IH]; intros fuel acc Hf Ht;
    (destruct fuel as [|fuel]; [simpl in *; lia|]); cbn [unsubscribe_loop flat_map].
  - intros s Hs Hr. destruct (read_string_end s Hs Hr) as [s' He].
    erewrite bind_Ok by done. rewrite app_nil_r. by exists s'.
  - inversion_clear Ht. eapply attempt_reads; [by apply reads_read_string|]. cbn beta iota.
    replace (acc ++ v :: names) with ((acc ++ [v]) ++ names) by (by rewrite <- app_assoc).
    apply IH; [simpl in *; lia|done].
Qed.

(** ** Memory safety of the decoders *)

Lemma zlen_rest_offset s s' :
  wf_pkt s → wf_pkt s' → m_max_size s' = m_max_size s → m_offset s <= m_offset s' →
  zlen (rest s') <= zlen (rest s).
Proof. intros Hs Hs' Hm Ho. rewrite !zlen_rest by done. lia. Qed.

(** A string that is read takes at least its two length bytes. *)
Lemma read_string_consumes s v s' :
  wf_pkt s → read_string s = (Ok v, s') → zlen (rest s') + 2 <= zlen (rest s).
Proof.
  intros Hs Hv. pose proof (tame_read_string s Hs) as Ht. rewrite Hv in Ht.
  destruct Ht as (Hs'&_&Hm). destruct (rest s) as [|hi [|lo t]] eqn:Hr.
  1-2: unfold read_string in Hv;
       by rewrite (bind_Fail _ _ s s) in Hv by (apply read_short_fail; [done|rewrite Hr; zlia]).
  rewrite <- Hr. destruct (rest_advance_app s [hi; lo] t Hs Hr) as [Ha Hra].
  unfold read_string in Hv. erewrite bind_Ok in Hv by (by eapply read_short_ok).
  change (zlen [hi; lo]) with 2 in *. pose proof (short_range hi lo).
  unfold bind, gets, slice in Hv. rewrite left_size_rest, Hra in Hv by done.
  destruct (Z.ltb_spec (zlen t) (short hi lo)); [done|].
  destruct (_ =? short hi lo); [|done]. injection Hv as _ <-.
  rewrite zlen_rest, zlen_rest by done. pose proof (zlen_rest s Hs) as Hzs.
  assert (m_offset (advance 2 s) = m_offset s + 2) as Ho
    by (apply advance_offset; [done|rewrite Hr; zlia]).
  rewrite Hr in Hzs. rewrite !zlen_cons in Hzs. destruct Hs as (?&?&?).
  simpl in *. rewrite Ho. rewrite u32_small by lia. lia.
Qed.

Definition tame_at {A} (m : reader A) (s : CMqttPkt) : Prop :=
  match m s with
  | (Stop _, _) => False
  | (_, s') => wf_pkt s' ∧ m_buf_ptr s' = m_buf_ptr s ∧ m_max_size s' = m_max_size s
  end.

Lemma tame_at_bind {A B} (m : reader A) (f : A → reader B) s :
  tame_at m s → (∀ a s', m s = (Ok a, s') → wf_pkt s' → m_buf_ptr s' = m_buf_ptr s →
                 tame_at (f a) s') →
  tame_at (bind m f) s.
Proof.
  unfold tame_at, bind. intros Hm Hf. destruct (m s) as [[a| |u] s'] eqn:E; [|done|done].
  destruct Hm as (Hs' & Hb & Hz). specialize (Hf a s' eq_refl Hs' Hb).
  destruct (f a s') as [[b| |u] s'']; [..|done]; intuition congruence.
Qed.

Lemma subscribe_loop_tame fuel acc s :
  wf_pkt s → zlen (rest s) < Z.of_nat fuel → tame_at (subscribe_loop fuel acc) s.
Proof.
  revert acc s. induction fuel as [|fuel IH]; intros acc s Hs Hf; [zlia|].
  cbn [subscribe_loop]. apply tame_at_bind; [by apply (tame_attempt _ tame_read_string)|].
  intros [name|] s' E Hs' _; [|done].
  unfold attempt in E. destruct (read_string s) as [[v| |u] s1] eqn:Er; try done.
  injection E as -> ->. pose proof (read_string_consumes _ _ _ Hs Er).
  apply tame_at_bind; [by apply (tame_attempt _ tame_read_byte)|].
  intros [q|] s'' E' Hs'' _; [|done]. apply IH; [done|].
  unfold attempt in E'. pose proof (tame_read_byte s' Hs') as Ht.
  destruct (read_byte s') as [[w| |u] s2] eqn:Eb; try done. injection E' as -> ->.
  destruct Ht as (_&_&Hm).
  assert (zlen (rest s'') <= zlen (rest s')); [|lia].
  apply zlen_rest_offset; [done..|].
  destruct (rest s') as [|b t] eqn:Hr; [by rewrite read_byte_fail in Eb|].
  erewrite read_byte_ok in Eb by done. injection Eb as _ <-.
  rewrite advance_offset; [lia|done|rewrite Hr; zlia].
Qed.

Lemma unsubscribe_loop_tame fuel acc s :
  wf_pkt s → zlen (rest s) < Z.of_nat fuel → tame_at (unsubscribe_loop fuel acc) s.
Proof.
  revert acc s. induction fuel as [|fuel IH]; intros acc s Hs Hf; [zlia|].
  cbn [unsubscribe_loop]. apply tame_at_bind; [by apply (tame_attempt _ tame_read_string)|].
  intros [name|] s' E Hs' _; [|done]. apply IH; [done|].
  unfold attempt in E. destruct (read_string s) as [[v| |u] s1] eqn:Er; try done.
  injection E as -> ->. pose proof (read_string_consumes _ _ _ Hs Er). lia.
Qed.

Lemma suback_loop_tame n q acc : tame (suback_loop n q acc).
Proof.
  revert q acc. induction n as [|n IH]; intros q acc; cbn [suback_loop]; auto with pkt.
Qed.

Section memory_safety.
#[local] Set Default Proof Using "All".
Context (buf : list Z) (len : Z).
Hypothesis buf_five : 5 <= zlen buf.
Hypothesis len_buf : 0 <= len <= zlen buf.
Hypothesis len_int : len < 2 ^ 31.

Lemma decode_tame {A} (f : CMqttMsg → reader A) :
  (∀ base s, wf_pkt s → m_buf_ptr s = buf → tame_at (f base) s) →
  tame_at (bind CMqttMsg_decode f) (new_CMqttPkt buf len).
Proof.
  intros Hf. set (s := new_CMqttPkt buf len).
  assert (wf_pkt s) as Hs by (apply wf_new; lia).
  apply tame_at_bind; [|intros; by apply Hf].
  unfold CMqttMsg_decode. apply tame_at_bind; [by apply tame_read_byte|].
  intros hb s1 E Hs1 Hb1. apply tame_at_bind; [|intros [v b] s2 _ Hs2 _; done].
  apply read_remain_length_tame; [done| |by rewrite Hb1].
  destruct (rest s) as [|b t] eqn:Hr; [by rewrite read_byte_fail in E|].
  erewrite read_byte_ok in E by done. by injection E as _ <-.
Qed.

Lemma zlen_rest_le s : wf_pkt s → zlen (rest s) <= zlen (m_buf_ptr s).
Proof. intros Hs. rewrite zlen_rest by done. destruct Hs as (?&?&?). lia. Qed.

Lemma run_decode_safe {A} (m : reader A) u :
  tame_at m (new_CMqttPkt buf len) → run_decode m buf len ≠ Stop u.
Proof.
  unfold tame_at, run_decode. destruct (m _) as [[a| |v] s']; done.
Qed.

Lemma connect_decode_tame : tame_at CMqttConnect_decode (new_CMqttPkt buf len).
Proof.
  apply decode_tame. intros base s Hs _. case_decide; [done|].
  revert s Hs. change (tame (do n <- read_string;
    do v <- read_byte; do all <- read_byte; do ka <- read_short; do c <- read_string;
    do (wt, wm) <- (if flag_will (ConnectFlag_of_byte all) then
       do t <- read_string; do m <- read_string; ret (t, m) else ret ([], []));
    do u <- (if flag_username (ConnectFlag_of_byte all) then read_string else ret []);
    do p <- (if flag_password (ConnectFlag_of_byte all) then read_string else ret []);
    ret (mkConnect base n v (flag_username (ConnectFlag_of_byte all))
           (flag_password (ConnectFlag_of_byte all))
           (flag_will_retail (ConnectFlag_of_byte all))
           (flag_will_qos (ConnectFlag_of_byte all))
           (flag_will (ConnectFlag_of_byte all))
           (flag_clean_session (ConnectFlag_of_byte all)) ka c wt wm u p))).
  repeat (apply tame_bind; [solve [auto with pkt]|intros]).
  apply tame_bind; [case_match; auto 10 with pkt|intros [wt wm]].
  apply tame_bind; [case_match; auto with pkt|intros].
  apply tame_bind; [case_match; auto with pkt|intros]. auto with pkt.
Qed.

Lemma publish_decode_tame : tame_at CMqttPublish_decode (new_CMqttPkt buf len).
Proof.
  apply decode_tame. intros base s Hs _. revert s Hs.
  match goal with |- ∀ s, _ → tame_at ?m s => change (tame m) end.
  auto 10 with pkt.
Qed.

Lemma puback_decode_tame : tame_at CMqttPublishAck_decode (new_CMqttPkt buf len).
Proof.
  apply decode_tame. intros base s Hs _. case_decide; [done|]. revert s Hs.
  match goal with |- ∀ s, _ → tame_at ?m s => change (tame m) end.
  auto with pkt.
Qed.

Lemma subscribe_decode_tame : tame_at CMqttSubscribe_decode (new_CMqttPkt buf len).
Proof.
  apply decode_tame. intros base s Hs Hb. case_decide; [done|].
  apply tame_at_bind; [by apply tame_read_short|]. intros id s1 _ Hs1 Hb1.
  apply tame_at_bind; [done|]. intros fuel s2 [= <- <-] Hs2 _.
  apply tame_at_bind; [|done]. apply subscribe_loop_tame; [done|].
  pose proof (zlen_rest_le s1 Hs1). unfold zlen in *. lia.
Qed.

Lemma unsubscribe_decode_tame : tame_at CMqttUnsubscribe_decode (new_CMqttPkt buf len).
Proof.
  apply decode_tame. intros base s Hs Hb. case_decide; [done|].
  apply tame_at_bind; [by apply tame_read_short|]. intros id s1 _ Hs1 Hb1.
  apply tame_at_bind; [done|]. intros fuel s2 [= <- <-] Hs2 _.
  apply tame_at_bind; [|done]. apply unsubscribe_loop_tame; [done|].
  pose proof (zlen_rest_le s1 Hs1). unfold zlen in *. lia.
Qed.

Lemma suback_decode_tame : tame_at CMqttSubAck_decode (new_CMqttPkt buf len).
Proof.
  apply decode_tame. intros base s Hs Hb. case_decide; [done|].
  apply tame_at_bind; [done|]. intros n s1 _ Hs1 _.
  apply tame_at_bind; [by apply suback_loop_tame|done].
Qed.

Lemma connack_decode_tame : tame_at CMqttConnAck_decode (new_CMqttPkt buf len).
Proof.
  apply decode_tame. intros base s Hs _. case_decide; [done|]. revert s Hs.
  match goal with |- ∀ s, _ → tame_at ?m s => change (tame m) end.
  auto with pkt.
Qed.
End memory_safety.

(** ** Encoders on a buffer that may be too small *)

Lemma ignore_shrinks m l :
  writes m l → (∀ s, wf_pkt s → m_max_size s - m_offset s < zlen l → m s = (Fail, s)) →
  shrinks (ignore m) l.
Proof.
  intros Hm Hf s Hs. destruct (room_dec l s Hs) as [Hr|Hr].
  - exists l. split_and!; [by apply ignore_writes|done|by left].
  - exists []. rewrite emit_nil. split_and!; [|by apply room_nil|right; split; [|done]; destruct Hs; zlia].
    unfold ignore, bind, attempt. by rewrite Hf.
Qed.

Lemma write_byte_shrinks v : shrinks (ignore (write_byte v)) [v].
Proof.
  apply ignore_shrinks; [apply write_byte_writes|]. intros s Hs Hr. by apply write_guard.
Qed.

Lemma write_short_shrinks v : shrinks (ignore (write_short v)) (be16 v).
Proof.
  apply ignore_shrinks; [apply write_short_writes|]. intros s Hs Hr. by apply write_guard.
Qed.

Lemma write_bytes_shrinks l : shrinks (ignore (write_bytes l (zlen l))) l.
Proof.
  apply ignore_shrinks; [apply write_bytes_writes|]. intros s Hs Hr. by apply write_guard.
Qed.

Lemma write_string_shrinks l :
  zlen l < 65536 → shrinks (ignore (write_string l (zlen l))) (be16 (zlen l) ++ l).
Proof.
  intros Hl s Hs. pose proof (zlen_nonneg l).
  destruct (room_dec (be16 (zlen l) ++ l) s Hs) as [Hr|Hr].
  { exists (be16 (zlen l) ++ l). split_and!; [|done|by left].
    apply ignore_writes; [by apply write_string_writes|done]. }
  unfold ignore, attempt, bind, write_string. rewrite u16_small by lia.
  destruct (room_dec (be16 (zlen l)) s Hs) as [Hr2|Hr2].
  - exists (be16 (zlen l)). rewrite zlen_app in Hr.
    unfold bind. rewrite (write_short_writes (zlen l) s Hr2).
    unfold write_bytes. rewrite write_guard; [|by apply wf_emit|simpl; lia].
    split_and!; [done|done|]. destruct (decide (l = [])) as [->|Hne]; [by left|].
    right. rewrite zlen_app. split; [|done]. destruct l; [done|]. rewrite (zlen_cons z). zlia.
  - exists []. rewrite emit_nil. unfold bind, write_short at 1. rewrite write_guard by done.
    split_and!; [done|by apply room_nil|right]. split; [|done]. rewrite zlen_app, zlen_be16, zlen_nil. lia.
Qed.

(** The status of an encoder whose announced length is right: success exactly when
    the packet fits. *)
Definition fits (h : CMqttFixedHeader) (body : list Z) (len : Z) : res Z :=
  if bool_decide (zlen (packet h body) <= len) then Ok (zlen (packet h body)) else Fail.

(** The same for the tail of an encoder, which ends by [e]. *)
Definition shrinks_then (e k : reader Z) (l : list Z) : Prop :=
  ∀ s, wf_pkt s → ∃ l', k s = e (emit l' s) ∧ room l' s ∧
    (l' = l ∨ zlen l' < zlen l ∧ m_max_size s - m_offset s < zlen l).

Lemma shrinks_then_end e : shrinks_then e e [].
Proof. intros s Hs. exists []. rewrite emit_nil. split_and!; auto using room_nil. Qed.

Lemma shrinks_then_bind e m k l l' :
  shrinks m l → shrinks_then e k l' → shrinks_then e (do_ m; k) (l ++ l').
Proof.
  intros Hm Hk s Hs. destruct (Hm s Hs) as (a&Ha&Hra&Hca).
  destruct (Hk (emit a s) (wf_emit _ _ Hra)) as (b&Hb&Hrb&Hcb).
  assert (room (a ++ b) s) as Hab.
  { split; [done|]. destruct Hrb as [_ Hrb]. simpl in Hrb. rewrite zlen_app. lia. }
  exists (a ++ b). split_and!; [|done|].
  - erewrite bind_Ok by done. by rewrite Hb, emit_app.
  - simpl in Hcb. rewrite !zlen_app. pose proof (zlen_nonneg l').
    destruct Hca as [->|], Hcb as [->|]; [by left|right; lia..].
Qed.

Lemma shrinks_then_last e m l : shrinks m l → shrinks_then e (do_ m; e) l.
Proof.
  intros. rewrite <- (app_nil_r l). apply shrinks_then_bind; [done|apply shrinks_then_end].
Qed.

(** The run of an encoder up to its last step. *)
Lemma encode_run h body (k : Z → reader Z) e buf len :
  6 <= len <= zlen buf → len < 2 ^ 31 → zlen body < 2 ^ 31 - 16 →
  shrinks_then e (k (zlen (varint 5 (zlen body)))) body →
  ∃ s', (do_ CMqttMsg_encode h; do n <- write_remain_length (zlen body); k n)
          (new_CMqttPkt buf len) = e s' ∧
    0 < m_offset s' <= len ∧ zlen (m_buf_ptr s') = zlen buf ∧
    (m_offset s' = zlen (packet h body) ∨
     m_offset s' < zlen (packet h body) ∧ len < zlen (packet h body)).
Proof.
  intros Hl Hm Hb Ht. set (s := new_CMqttPkt buf len).
  pose proof (zlen_nonneg body). pose proof (zlen_packet h body) as Hz.
  pose proof (zlen_varint (zlen body)) as Hv.
  assert (wf_pkt s) as Hs by (apply wf_new; lia).
  assert (room ([CMqttFixedHeader_encode h] ++ varint 5 (zlen body)) s) as Hr.
  { split; [done|]. simpl. rewrite zlen_cons. lia. }
  destruct (room_app _ _ _ Hr) as [Hr1 Hr2].
  erewrite bind_Ok by (apply ignore_writes; [apply write_byte_writes|done]).
  erewrite bind_Ok by (apply write_remain_length_ok; [lia|done]).
  destruct (Ht _ (wf_emit _ _ Hr2)) as (l'&->&Hroom&Hc). eexists; split; [reflexivity|].
  assert (zlen (m_buf_ptr (emit l' (emit (varint 5 (zlen body))
            (emit [CMqttFixedHeader_encode h] s)))) = zlen buf) as Hbuf
    by (rewrite !zlen_emit by done; done).
  destruct Hroom as [_ Hrl]. simpl in *. change (zlen [CMqttFixedHeader_encode h]) with 1 in *.
  pose proof (zlen_nonneg l').
  split; [lia|]. split; [done|]. destruct Hc as [->|[Hlt Hno]]; [left; lia|right; lia].
Qed.

Lemma encode_status h body (k : Z → reader Z) buf len :
  6 <= len <= zlen buf → len < 2 ^ 31 → zlen body < 2 ^ 31 - 16 →
  shrinks_then (check_length (zlen (packet h body)))
    (k (zlen (varint 5 (zlen body)))) body →
  (run_encode (do_ CMqttMsg_encode h; do n <- write_remain_length (zlen body); k n)
     buf len).1 = fits h body len.
Proof.
  intros Hl Hm Hb Ht. destruct (encode_run h body k _ buf len Hl Hm Hb Ht) as (s'&He&Hle&_&Hc).
  pose proof (zlen_nonneg body). pose proof (zlen_packet h body) as Hz.
  pose proof (zlen_varint (zlen body)) as Hv.
  unfold run_encode. rewrite He. unfold check_length, bind, gets, length_, fits.
  destruct Hc as [Ho|[Hlt Hno]].
  - rewrite Ho, Z.eqb_refl, bool_decide_true by lia. simpl. by rewrite s32_small by lia.
  - destruct (Z.eqb_spec (m_offset s') (zlen (packet h body))); [lia|].
    simpl. by rewrite bool_decide_false by lia.
Qed.

(** ** Answers

    An encoder that the handlers run on a fresh buffer of [size] bytes never leaves
    it, and its status is -1 or a length within it. *)

Definition answers (size : Z) (enc : list Z → Z → res Z * list Z) : Prop :=
  ∀ buf, zlen buf = size →
    match enc buf size with
    | (Stop _, _) => False
    | (Fail, l) => zlen l = size
    | (Ok n, l) => zlen l = size ∧ 0 <= n <= size
    end.

Lemma encoded_answers h body buf :
  zlen (packet h body) <= zlen buf →
  zlen (packet h body ++ drop (length (packet h body)) buf) = zlen buf.
Proof. intros Hl. unfold zlen in *. rewrite length_app, length_drop. lia. Qed.

Lemma ack_answers h msg_id size :
  4 <= size < 2 ^ 31 → answers size (run_encode (encode_ack h msg_id)).
Proof.
  intros Hs buf Hb. rewrite encode_ack_packet by lia. unfold encoded.
  assert (zlen (packet h (be16 msg_id)) = 4) as Hp
    by (rewrite zlen_packet, zlen_be16, varint_small by lia; done).
  rewrite encoded_answers by lia. lia.
Qed.

Lemma connack_answers h code size :
  4 <= size < 2 ^ 31 → answers size (run_encode (CMqttConnAck_encode h code)).
Proof.
  intros Hs buf Hb. rewrite connack_packet by lia. unfold encoded.
  assert (zlen (packet h [0; u8 (Code_to_Z code)]) = 4) as Hp
    by (rewrite zlen_packet; change (zlen [0; u8 (Code_to_Z code)]) with 2;
        rewrite varint_small by lia; done).
  rewrite encoded_answers by lia. lia.
Qed.

Lemma empty_answers h size :
  2 <= size < 2 ^ 31 → answers size (run_encode (encode_empty h)).
Proof.
  intros Hs buf Hb. rewrite empty_packet by lia. unfold encoded.
  assert (zlen (packet h []) = 2) as Hp
    by (rewrite zlen_packet, varint_small by (rewrite zlen_nil; lia); done).
  rewrite encoded_answers by lia. lia.
Qed.

(** The tail of [CMqttSubAck::encode] in a buffer that may be too small. *)
Lemma suback_tail msg_id (qoss : list Z) n :
  shrinks_then (check_length n)
    (do_ ignore (write_short msg_id); do_ iter (λ q, ignore (write_byte q)) qoss; check_length n)
    (be16 msg_id ++ qoss).
Proof.
  apply shrinks_then_bind; [apply write_short_shrinks|]. apply shrinks_then_last.
  assert (qoss = flat_map (λ q, [q]) qoss) as Hqs by (clear; induction qoss; simpl; congruence).
  rewrite Hqs at 2. apply shrinks_iter, write_byte_shrinks.
Qed.

Lemma suback_answers h msg_id qoss size :
  6 <= size < 2 ^ 31 → zlen qoss < 2 ^ 30 →
  answers size (run_encode (CMqttSubAck_encode h msg_id qoss)).
Proof.
  intros Hs Hq buf Hb. pose proof (zlen_nonneg qoss). set (body := be16 msg_id ++ qoss).
  assert (zlen body = 2 + zlen qoss) as Hbl by (unfold body; by rewrite zlen_app).
  unfold run_encode, CMqttSubAck_encode. replace (u32 (zlen qoss + 2)) with (zlen body)
    by (rewrite u32_small; lia).
  destruct (encode_run h body (λ n, do_ ignore (write_short msg_id);
      do_ iter (λ q, ignore (write_byte q)) qoss;
      check_length (u32 (zlen body + n + 1))) _ buf size ltac:(lia) ltac:(lia) ltac:(lia)
      (suback_tail msg_id qoss _)) as (s'&He&Ho&Hbuf&_).
  rewrite He. unfold check_length, bind, gets, length_. destruct (_ =? _); simpl.
  - rewrite s32_small by lia. lia.
  - lia.
Qed.

(** ** What a decoder guarantees of its result *)

Lemma read_short_room s v s' :
  wf_pkt s → read_short s = (Ok v, s') → m_offset s + 2 <= m_max_size s.
Proof.
  intros Hs Hr. pose proof (zlen_rest s Hs) as Hz.
  destruct (Z.ltb_spec (zlen (rest s)) 2); [|lia]. by rewrite read_short_fail in Hr.
Qed.

Lemma publish_decode_offset buf len m :
  5 <= zlen buf → 0 <= len <= zlen buf → len < 2 ^ 31 →
  run_decode CMqttPublish_decode buf len = Ok m →
  0 <= pub_msg_id_offset m ∧ pub_msg_id_offset m + 2 <= len.
Proof.
  intros H5 Hl Hm Hd. unfold run_decode, CMqttPublish_decode in Hd.
  assert (tame_at CMqttMsg_decode (new_CMqttPkt buf len)) as Ht.
  { pose proof (decode_tame buf len H5 Hl Hm ret) as Ht. unfold tame_at, bind, ret in *.
    destruct (CMqttMsg_decode _) as [[?| |?] ?]; apply Ht; by intros. }
  unfold bind at 1 in Hd. unfold tame_at in Ht.
  destruct (CMqttMsg_decode (new_CMqttPkt buf len)) as [[base| |u] s1]; try done.
  destruct Ht as (Hs1&_&Hm1). pose proof (tame_read_string s1 Hs1) as Ht2.
  unfold bind at 1 in Hd. destruct (read_string s1) as [[t| |u] s2]; try done.
  destruct Ht2 as (Hs2&_&Hm2). erewrite bind_Ok in Hd by reflexivity.
  unfold bind at 1 in Hd. destruct (read_short s2) as [[v| |u] s3] eqn:Hr; try done.
  apply read_short_room in Hr; [|done]. unfold bind, ret in Hd.
  destruct (gets left_size s3) as [[n| |u] s4]; try done.
  destruct (read_bytes [] n s4) as [[l| |u] s5]; try done. injection Hd as <-.
  cbn [pub_msg_id_offset]. unfold length_. rewrite Hm2, Hm1 in Hr. simpl in Hr.
  destruct Hs2 as (?&_&_). lia.
Qed.

Lemma subscribe_loop_length fuel acc s :
  match subscribe_loop fuel acc s with
  | (Ok l, _) => (length l <= length acc + fuel)%nat
  | _ => True
  end.
Proof.
  revert acc s. induction fuel as [|fuel IH]; intros acc s; [done|]. cbn [subscribe_loop].
  unfold bind. destruct (attempt read_string s) as [[[t|]| |u] s1]; simpl; try (done || lia).
  destruct (attempt read_byte s1) as [[[q|]| |u] s2]; simpl; try (done || lia).
  specialize (IH (acc ++ [mkTopic t q]) s2).
  destruct (subscribe_loop fuel _ s2) as [[l| |u] s3]; try done.
  rewrite length_app in IH. simpl in IH. lia.
Qed.

Lemma subscribe_decode_length buf len m :
  5 <= zlen buf → 0 <= len <= zlen buf → len < 2 ^ 31 →
  run_decode CMqttSubscribe_decode buf len = Ok m → zlen (sub_topics m) <= zlen buf + 1.
Proof.
  intros H5 Hl Hm Hd. unfold run_decode, CMqttSubscribe_decode in Hd.
  assert (tame_at CMqttMsg_decode (new_CMqttPkt buf len)) as Ht.
  { pose proof (decode_tame buf len H5 Hl Hm ret) as Ht. unfold tame_at, bind, ret in *.
    destruct (CMqttMsg_decode _) as [[?| |?] ?]; apply Ht; by intros. }
  unfold bind at 1 in Hd. unfold tame_at in Ht.
  destruct (CMqttMsg_decode (new_CMqttPkt buf len)) as [[base| |u] s1]; try done.
  destruct Ht as (Hs1&Hb1&_). case_decide; [done|].
  pose proof (tame_read_short s1 Hs1) as Ht2. unfold bind at 1 in Hd.
  destruct (read_short s1) as [[v| |u] s2]; try done. destruct Ht2 as (_&Hb2&_).
  erewrite bind_Ok in Hd by reflexivity. unfold bind in Hd.
  pose proof (subscribe_loop_length (S (length (m_buf_ptr s2))) [] s2) as Hlen.
  destruct (subscribe_loop _ [] s2) as [[l| |u] s3]; try done. injection Hd as <-. simpl in *.
  rewrite Hb2, Hb1 in Hlen. simpl in Hlen. unfold zlen. lia.
Qed.

(** ** Properties of the message classes *)

(** The fixed header is a bijection with the bytes.  Encoding a header
    with a legal QoS and decoding the byte gives the header back, and every byte
    is the encoding of the header it decodes to. *)
Theorem fixed_header_bijection h b :
  0 <= qos h < 4 → is_byte b →
  CMqttFixedHeader_decode (CMqttFixedHeader_encode h) = h ∧
  CMqttFixedHeader_encode (CMqttFixedHeader_decode b) = b.
Proof. intros. split; [by apply header_decode_encode|by apply header_encode_decode]. Qed.

Lemma fixed_header_bijection_witness :
  CMqttFixedHeader_decode (CMqttFixedHeader_encode (mkHeader PUBLISH true 1 true)) =
    mkHeader PUBLISH true 1 true ∧
  CMqttFixedHeader_encode (CMqttFixedHeader_decode 0x82) = 0x82.
Proof. apply (fixed_header_bijection (mkHeader PUBLISH true 1 true) 0x82); decide_vm. Defined.

(** The decoders on the packets of the encoders; the theorems below put the two
    together. *)
Definition base_of (h : CMqttFixedHeader) (body : list Z) : CMqttMsg :=
  {| m_fixed_header := h; m_remain_length_value := zlen body;
     m_remain_length_bytes := zlen (varint 5 (zlen body)) |}.

Lemma publish_decode_packet h topic msg_id payload junk :
  let body := publish_body topic msg_id payload in
  0 <= qos h < 4 → zlen topic < 65536 → 0 <= msg_id < 65536 → zlen body < 2 ^ 14 →
  run_decode CMqttPublish_decode (packet h body ++ junk) (zlen (packet h body)) =
  Ok {| pub_base := base_of h body; pub_topic_name := topic; pub_payload := payload;
        pub_msg_id := msg_id;
        pub_msg_id_offset := 1 + zlen (varint 5 (zlen body)) + 2 + zlen topic |}.
Proof.
  intros body Hq Ht Hi Hb.
  assert (zlen body = zlen topic + 2 + 2 + zlen payload) as Hbl
    by (unfold body, publish_body; autorewrite with zlen; lia).
  pose proof (zlen_nonneg topic). pose proof (zlen_nonneg payload).
  unfold run_decode, CMqttPublish_decode.
  destruct (CMqttMsg_decode_packet h body junk) as (s'&Hd&Hs'&Hr'&Ho'); [lia|done|].
  erewrite bind_Ok by done. unfold body at 1, publish_body in Hr'.
  erewrite bind_Ok by (by eapply reads_read_string).
  destruct (rest_advance_app _ _ _ Hs' Hr') as [Hs1 Hr1].
  assert (m_offset (advance (zlen (be16 (zlen topic) ++ topic)) s') =
          1 + zlen (varint 5 (zlen body)) + 2 + zlen topic) as Ho1
    by (rewrite advance_offset by (done || rewrite Hr'; zlia); rewrite Ho'; zlia).
  erewrite bind_Ok by reflexivity. unfold length_. rewrite Ho1.
  erewrite bind_Ok by (by eapply reads_read_short).
  destruct (rest_advance_app _ _ _ Hs1 Hr1) as [Hs2 Hr2].
  erewrite bind_Ok; [reflexivity|].
  erewrite bind_Ok by reflexivity. rewrite left_size_rest, Hr2 by done.
  apply (read_bytes_ok _ _ []); [done|by rewrite app_nil_r].
Qed.

(** Claim C33: the round trip of PUBLISH.  What [CMqttPublish::encode] writes for a
    legal topic, identifier and payload, [CMqttPublish::decode] reads back, and
    the recorded offset is that of the identifier. *)
Theorem publish_roundtrip h topic msg_id payload buf len :
  0 <= qos h < 4 → zlen topic < 65536 → 0 <= msg_id < 65536 →
  zlen topic + 4 + zlen payload < 2 ^ 14 →
  zlen topic + 4 + zlen payload + 3 <= len → len <= zlen buf → len < 2 ^ 31 →
  ∃ n buf' m, run_encode (CMqttPublish_encode h topic msg_id payload) buf len = (Ok n, buf') ∧
    run_decode CMqttPublish_decode buf' n = Ok m ∧
    m_fixed_header (pub_base m) = h ∧ pub_topic_name m = topic ∧
    pub_msg_id m = msg_id ∧ pub_payload m = payload ∧
    take 2 (drop (Z.to_nat (pub_msg_id_offset m)) buf') = be16 msg_id.
Proof.
  intros Hq Ht Hi Hb Hl Hlb Hm. set (body := publish_body topic msg_id payload).
  assert (zlen body = zlen topic + 2 + 2 + zlen payload) as Hbl
    by (unfold body, publish_body; autorewrite with zlen; lia).
  pose proof (zlen_nonneg topic). pose proof (zlen_nonneg payload).
  pose proof (zlen_varint_14 (zlen body)). pose proof (zlen_packet h body).
  eexists _, _, _. split_and!.
  - apply publish_packet; [done|done|done|]. fold body. lia.
  - apply publish_decode_packet; [done..|]. fold body. lia.
  - done.
  - done.
  - done.
  - done.
  - cbn [pub_msg_id_offset]. fold body. unfold packet.
    assert (∀ v : list Z, CMqttFixedHeader_encode h :: (v ++ body) =
       (CMqttFixedHeader_encode h :: v ++ be16 (zlen topic) ++ topic) ++ be16 msg_id ++ payload)
      as -> by (intros v; unfold body, publish_body; simpl; by rewrite <- !app_assoc).
    rewrite <- !app_assoc, drop_app_length'; [done|].
    simpl. rewrite !length_app. unfold zlen. simpl. lia.
Qed.

Lemma publish_roundtrip_witness :
  ∃ n buf' m,
    run_encode (CMqttPublish_encode (mkHeader PUBLISH false 1 true) (of_string "a/b") 7
                  [1; 2; 3]) (replicate 40 0) 40 = (Ok n, buf') ∧
    run_decode CMqttPublish_decode buf' n = Ok m ∧
    m_fixed_header (pub_base m) = mkHeader PUBLISH false 1 true ∧
    pub_topic_name m = of_string "a/b" ∧ pub_msg_id m = 7 ∧ pub_payload m = [1; 2; 3] ∧
    take 2 (drop (Z.to_nat (pub_msg_id_offset m)) buf') = be16 7.
Proof. apply publish_roundtrip; decide_vm. Defined.

(** Claim C34: the round trip of CONNECT.  What [CMqttConnect::encode] writes,
    [CMqttConnect::decode] reads back: the client identifier and the
    clean-session flag it was given, the protocol name MQIsdp, version 3, a
    keep-alive of 60, and none of the optional fields. *)
Theorem connect_roundtrip id clean buf len :
  zlen id + 14 < 2 ^ 14 → zlen id + 14 + 3 <= len → len <= zlen buf → len < 2 ^ 31 →
  ∃ n buf' base,
    run_encode (CMqttConnect_encode (header_of_type CONNECT) id clean) buf len = (Ok n, buf') ∧
    run_decode CMqttConnect_decode buf' n =
      Ok (mkConnect base (of_string "MQIsdp") 3 false false false 0 false clean 60 id
            [] [] [] []).
Proof.
  intros Hb Hl Hlb Hm. set (h := header_of_type CONNECT). set (body := connect_body id clean).
  assert (zlen body = zlen id + 14) as Hbl
    by (unfold body, connect_body; autorewrite with zlen;
        change (zlen (of_string "MQIsdp")) with 6; lia).
  pose proof (zlen_nonneg id). pose proof (zlen_varint_14 (zlen body)).
  pose proof (zlen_packet h body).
  eexists _, _, _. split.
  - apply connect_packet; [done|done|lia|]. fold body. lia.
  - apply decode_packet; [fold body; lia|done|]. fold h body.
    cbn [m_fixed_header]. change (msg_type h) with CONNECT. rewrite decide_False by tauto.
    assert (ConnectFlag_of_byte (Z.shiftl (Z.b2z clean) 1) =
            mkConnectFlag clean false 0 false false false) as Hf by (by destruct clean).
    unfold body, connect_body. rewrite (app_assoc (be16 6)).
    eapply reads_all_bind; [by apply (reads_read_string (of_string "MQIsdp"))|].
    eapply reads_all_bind; [apply reads_read_byte|].
    eapply reads_all_bind; [apply reads_read_byte|].
    eapply reads_all_bind; [by apply reads_read_short|].
    rewrite <- (app_nil_r (be16 _ ++ id)).
    eapply reads_all_bind; [apply reads_read_string; lia|].
    rewrite Hf. intros s _ _. eexists. reflexivity.
Qed.

Lemma connect_roundtrip_witness :
  ∃ n buf' base,
    run_encode (CMqttConnect_encode (header_of_type CONNECT) (of_string "bridge") true)
      (replicate 256 0) 256 = (Ok n, buf') ∧
    run_decode CMqttConnect_decode buf' n =
      Ok (mkConnect base (of_string "MQIsdp") 3 false false false 0 false true 60
            (of_string "bridge") [] [] [] []).
Proof. apply connect_roundtrip; decide_vm. Defined.

(** The round trip of SUBSCRIBE.  What [CMqttSubscribe::encode] writes for
    a non-empty list of topics, [CMqttSubscribe::decode] reads back: the message
    identifier and the same topics with their QoS, in order. *)
Theorem subscribe_roundtrip h msg_id topics buf len :
  msg_type h = SUBSCRIBE → 0 <= qos h < 4 → 0 <= msg_id < 65536 → topics ≠ [] →
  Forall (λ t, zlen (topic_name t) < 65536) topics →
  zlen (subscribe_body msg_id topics) < 2 ^ 14 →
  zlen (subscribe_body msg_id topics) + 3 <= len → len <= zlen buf → len < 2 ^ 31 →
  ∃ n buf' m, run_encode (CMqttSubscribe_encode h msg_id topics) buf len = (Ok n, buf') ∧
    run_decode CMqttSubscribe_decode buf' n = Ok m ∧
    sub_msg_id m = msg_id ∧ sub_topics m = topics.
Proof.
  intros Ht Hq Hi Hne Hts Hb Hl Hlb Hm. set (body := subscribe_body msg_id topics) in *.
  pose proof (zlen_varint_14 (zlen body)). pose proof (zlen_packet h body).
  assert (zlen body = 2 + zlen (flat_map topic_bytes topics)) as Hbl
    by (unfold body, subscribe_body; by rewrite zlen_app, zlen_be16).
  pose proof (zlen_nonneg (flat_map topic_bytes topics)).
  eexists _, _, {| sub_base := base_of h body; sub_msg_id := msg_id; sub_topics := topics |}.
  split_and!; [| |done|done].
  - apply subscribe_packet; [done|done|done|done|]. fold body. lia.
  - apply decode_packet; [fold body; lia|done|]. fold body. cbn [m_fixed_header].
    rewrite Ht, decide_False by tauto.
    unfold body at 2, subscribe_body.
    eapply reads_all_bind; [by apply reads_read_short|].
    intros s Hs Hr. erewrite bind_Ok by reflexivity.
    assert (length topics <= length (rest s))%nat as Hlen.
    { rewrite Hr. clear. induction topics as [|t ts IH]; simpl; [lia|].
      rewrite !length_app. simpl. lia. }
    assert (length (rest s) <= length (m_buf_ptr s))%nat
      by (unfold rest; rewrite length_take, length_drop; lia).
    destruct (subscribe_loop_reads (S (length (m_buf_ptr s))) [] topics) with (s := s)
      as [s' Hs']; [lia|done|done|done|].
    erewrite bind_Ok by done. eexists. reflexivity.
Qed.

Lemma subscribe_roundtrip_witness :
  ∃ n buf' m,
    run_encode (CMqttSubscribe_encode (header_of_type SUBSCRIBE) 9
                  [mkTopic (of_string "a") 1; mkTopic (of_string "b/c") 0])
      (replicate 256 0) 256 = (Ok n, buf') ∧
    run_decode CMqttSubscribe_decode buf' n = Ok m ∧ sub_msg_id m = 9 ∧
    sub_topics m = [mkTopic (of_string "a") 1; mkTopic (of_string "b/c") 0].
Proof. apply subscribe_roundtrip; first [reflexivity|decide_vm]. Defined.

(** The SUBACK decoder does not skip the message identifier: what
    [CMqttSubAck::encode] writes for the QoS list [qoss] is decoded as a list
    that starts with the two bytes of the identifier. *)
Theorem suback_decode_keeps_msg_id h msg_id qoss buf len :
  msg_type h = SUBACK → 0 <= qos h < 4 → zlen qoss <= 253 →
  zlen qoss + 5 <= len → len <= zlen buf → len < 2 ^ 31 →
  ∃ n buf', run_encode (CMqttSubAck_encode h msg_id qoss) buf len = (Ok n, buf') ∧
    ∃ base, run_decode CMqttSubAck_decode buf' n = Ok (base, be16 msg_id ++ qoss).
Proof.
  intros Ht Hq Hs Hl Hlb Hm. set (body := be16 msg_id ++ qoss).
  assert (zlen body = 2 + zlen qoss) as Hbl by (unfold body; by rewrite zlen_app, zlen_be16).
  pose proof (zlen_nonneg qoss). pose proof (zlen_varint_14 (zlen body)).
  pose proof (zlen_packet h body).
  eexists _, _. split; [apply suback_packet; [done|done|]; fold body; lia|].
  exists (base_of h body).
  apply decode_packet; [fold body; lia|done|]. fold body. cbn [m_fixed_header].
  rewrite Ht, decide_False by tauto.
  intros s Hw Hr. erewrite bind_Ok by reflexivity.
  rewrite left_size_rest, Hr, u8_small by (done || lia).
  cut (∀ q acc, ∃ s', suback_loop (Z.to_nat (zlen body)) q acc s = (Ok (acc ++ body), s')).
  { intros Hx. destruct (Hx 0 []) as [s' Hs']. erewrite bind_Ok by done. by exists s'. }
  clear -Hw Hr. unfold zlen. rewrite Nat2Z.id. generalize body s Hw Hr. clear.
  intros body. induction body as [|b body IH]; intros s Hw Hr q acc.
  { rewrite app_nil_r. by exists s. }
  destruct (rest_advance_app s [b] body Hw Hr) as [Hw' Hr'].
  destruct (IH _ Hw' Hr' b (acc ++ [b])) as [s' Hs']. exists s'.
  cbn [suback_loop length]. erewrite bind_Ok by (unfold attempt; by erewrite read_byte_ok).
  cbn [default]. change (zlen [b]) with 1 in Hs'. unfold id. by rewrite Hs', <- app_assoc.
Qed.

Lemma suback_decode_keeps_msg_id_witness :
  ∃ n buf', run_encode (CMqttSubAck_encode (header_of_type SUBACK) 258 [1; 0])
      (replicate 64 0) 64 = (Ok n, buf') ∧
    ∃ base, run_decode CMqttSubAck_decode buf' n = Ok (base, [1; 2; 1; 0]).
Proof.
  apply (suback_decode_keeps_msg_id (header_of_type SUBACK) 258 [1; 0]);
    first [reflexivity|decide_vm].
Defined.

(** Claim C35: the decoders are memory safe and their loops end.  On any buffer of
    at least five bytes and any length within it no decoder reads outside the
    buffer, whatever the bytes are, and the fuel of the topic loops is enough. *)
Theorem decoders_safe buf len u :
  5 <= zlen buf → 0 <= len <= zlen buf → len < 2 ^ 31 →
  run_decode CMqttConnect_decode buf len ≠ Stop u ∧
  run_decode CMqttPublish_decode buf len ≠ Stop u ∧
  run_decode CMqttPublishAck_decode buf len ≠ Stop u ∧
  run_decode CMqttSubscribe_decode buf len ≠ Stop u ∧
  run_decode CMqttUnsubscribe_decode buf len ≠ Stop u ∧
  run_decode CMqttSubAck_decode buf len ≠ Stop u ∧
  run_decode CMqttConnAck_decode buf len ≠ Stop u.
Proof.
  intros H5 Hl Hm. split_and!; apply run_decode_safe; try done;
    auto using connect_decode_tame, publish_decode_tame, puback_decode_tame,
      subscribe_decode_tame, unsubscribe_decode_tame, suback_decode_tame, connack_decode_tame.
Qed.

Lemma decoders_safe_witness :
  let buf := [0x10; 0x7F; 0xFF; 0xFF; 0x4D] in
  run_decode CMqttConnect_decode buf 5 ≠ Stop OutOfBounds ∧
  run_decode CMqttPublish_decode buf 5 ≠ Stop OutOfBounds ∧
  run_decode CMqttPublishAck_decode buf 5 ≠ Stop OutOfBounds ∧
  run_decode CMqttSubscribe_decode buf 5 ≠ Stop OutOfBounds ∧
  run_decode CMqttUnsubscribe_decode buf 5 ≠ Stop OutOfBounds ∧
  run_decode CMqttSubAck_decode buf 5 ≠ Stop OutOfBounds ∧
  run_decode CMqttConnAck_decode buf 5 ≠ Stop OutOfBounds.
Proof. apply decoders_safe; decide_vm. Defined.

(** Claim C37: PUBLISH and SUBACK report a buffer that is too small.  For every
    buffer of at least six bytes [encode] returns the packet's length if the
    packet fits and -1 otherwise: it never reports a truncated packet, and never
    writes outside the buffer. *)
Theorem encode_reports_overflow h topic msg_id payload qoss buf len :
  6 <= len <= zlen buf → len < 2 ^ 31 → zlen topic < 65536 →
  zlen payload < 2 ^ 30 → zlen qoss < 2 ^ 30 →
  (run_encode (CMqttPublish_encode h topic msg_id payload) buf len).1 =
    fits h (publish_body topic msg_id payload) len ∧
  (run_encode (CMqttSubAck_encode h msg_id qoss) buf len).1 =
    fits h (be16 msg_id ++ qoss) len.
Proof.
  intros Hl Hm Ht Hp Hq. pose proof (zlen_nonneg topic). pose proof (zlen_nonneg payload).
  pose proof (zlen_nonneg qoss). split.
  - set (body := publish_body topic msg_id payload).
    assert (zlen body = zlen topic + 2 + 2 + zlen payload) as Hb
      by (unfold body, publish_body; autorewrite with zlen; lia).
    pose proof (zlen_varint (zlen body)). pose proof (zlen_packet h body).
    unfold CMqttPublish_encode. rewrite (u32_small (_ + zlen payload)), <- Hb by lia.
    apply (encode_status h body (λ n, do_ ignore (write_string topic (s32 (u32 (zlen topic))));
      do_ ignore (write_short msg_id); do_ ignore (write_bytes payload (s32 (u32 (zlen payload))));
      check_length (u32 (zlen body + n + 1)))); [lia..|].
    rewrite !u32_small, !s32_small by lia.
    replace (zlen body + zlen (varint 5 (zlen body)) + 1) with (zlen (packet h body)) by lia.
    apply shrinks_then_bind; [by apply write_string_shrinks|].
    apply shrinks_then_bind; [apply write_short_shrinks|].
    apply shrinks_then_last, write_bytes_shrinks.
  - set (body := be16 msg_id ++ qoss).
    assert (zlen body = 2 + zlen qoss) as Hb by (unfold body; by rewrite zlen_app).
    pose proof (zlen_varint (zlen body)). pose proof (zlen_packet h body).
    unfold CMqttSubAck_encode. replace (u32 (zlen qoss + 2)) with (zlen body)
      by (rewrite u32_small; lia).
    apply (encode_status h body (λ n, do_ ignore (write_short msg_id);
      do_ iter (λ q, ignore (write_byte q)) qoss;
      check_length (u32 (zlen body + n + 1)))); [lia..|].
    rewrite u32_small by lia.
    replace (zlen body + zlen (varint 5 (zlen body)) + 1) with (zlen (packet h body)) by lia.
    apply suback_tail.
Qed.

Lemma encode_reports_overflow_witness :
  (run_encode (CMqttPublish_encode (header_of_type PUBLISH) (of_string "abc") 7 [1; 2; 3; 4])
     (replicate 10 0) 10).1 = Fail ∧
  (run_encode (CMqttSubAck_encode (header_of_type PUBLISH) 9 [0; 1; 0]) (replicate 10 0) 10).1 =
    Ok 7.
Proof.
  apply (encode_reports_overflow (header_of_type PUBLISH) (of_string "abc") 7 [1; 2; 3; 4]
           [0; 1; 0]) ; decide_vm.
Defined.

(** CONNECT does not report a buffer that is too small.  Its [encode]
    has no such check: into a buffer shorter than the packet it writes a truncated
    packet, and the positive length it returns is not that of the packet. *)
Theorem connect_encode_truncates id clean buf len :
  6 <= len <= zlen buf → len < 2 ^ 31 → zlen id < 65536 →
  len < zlen (packet (header_of_type CONNECT) (connect_body id clean)) →
  ∃ n, (run_encode (CMqttConnect_encode (header_of_type CONNECT) id clean) buf len).1 = Ok n ∧
    0 < n <= len.
Proof.
  intros Hl Hm Hi Hp. set (h := header_of_type CONNECT) in *.
  set (body := connect_body id clean) in *. pose proof (zlen_nonneg id).
  assert (zlen body = 14 + zlen id) as Hb
    by (unfold body, connect_body; autorewrite with zlen;
        change (zlen (of_string "MQIsdp")) with 6; lia).
  unfold CMqttConnect_encode. change (zlen (of_string "MQIsdp")) with 6.
  replace (u32 (2 + 6 + 1 + 1 + 2 + (2 + zlen id))) with (zlen body) by (rewrite u32_small; lia).
  destruct (encode_run h body (λ _, do_ ignore (write_string (of_string "MQIsdp") 6);
      do_ ignore (write_byte 3); do_ ignore (write_byte (Z.shiftl (Z.b2z clean) 1));
      do_ ignore (write_short 60);
      do_ ignore (write_string id (s32 (u32 (zlen id))));
      do len <- gets length_; ret (s32 len)) (do len <- gets length_; ret (s32 len)) buf len)
    as (s'&He&Ho&_&_); [lia..| |].
  - rewrite !u32_small, !s32_small by lia. unfold body, connect_body. rewrite (app_assoc (be16 6)).
    apply shrinks_then_bind; [by apply (write_string_shrinks (of_string "MQIsdp"))|].
    apply shrinks_then_bind; [apply write_byte_shrinks|].
    apply shrinks_then_bind; [apply write_byte_shrinks|].
    apply shrinks_then_bind; [apply write_short_shrinks|].
    apply shrinks_then_last. by apply write_string_shrinks.
  - exists (m_offset s'). split; [|lia]. unfold run_encode. fold h. rewrite He.
    unfold bind, gets, length_, ret. simpl. by rewrite s32_small by lia.
Qed.

Lemma connect_encode_truncates_witness :
  ∃ n, (run_encode (CMqttConnect_encode (header_of_type CONNECT) (of_string "bridge") true)
      (replicate 20 0) 20).1 = Ok n ∧ 0 < n <= 20.
Proof. apply connect_encode_truncates; decide_vm. Defined.
