(* ===== verification/Mbuf.v ===== *)
(** * Message buffers

    Model of src/common/mbuf.cpp and include/common/mbuf.hpp: the buffer
    [CMbuf] with its read and write markers.  A buffer is shared by pointer
    ([CMbuf_ptr]); here it is a value, and World.v keeps the store of buffers.
    The registration with the message store and the destructor, which call
    [CMsgMemStore], are in World.v too.  [hex_dump] only writes to the log. *)

From S2P Require Import Prelude.
From stdpp Require Import options.

Definition MAX_DEFAULT_BUF_SIZE : Z := 512.
Definition MSG_DATA : Z := 1.
Definition MSG_PUBLISH : Z := 2.

(** [m_data] is the allocated array; [m_data.size] is its length.  [m_mem_db]
    says whether the pointer to the message store is set. *)
Record CMbuf : Type := mkMbuf {
  m_data : list Z;
  m_msg_type : Z;    (* uint32_t *)
  m_read_pos : Z;    (* uint32_t *)
  m_write_pos : Z;   (* uint32_t *)
  m_msg_id : Z;      (* uint64_t *)
  m_time : Z;        (* uint32_t *)
  m_mem_db : bool;
}.

Definition max_size (b : CMbuf) : Z := zlen (m_data b).

(** [init(size)]: [fresh] is the content of the new array, which is not
    initialised, and [now] the time. *)
Definition mbuf_init (fresh : list Z) (now : Z) : CMbuf :=
  {| m_data := fresh; m_msg_type := MSG_DATA; m_read_pos := 0; m_write_pos := 0;
     m_msg_id := 0; m_time := u32 now; m_mem_db := false |}.

Definition upd_data : (list Z → list Z) → CMbuf → CMbuf :=
  λ f b, mkMbuf (f (m_data b)) (m_msg_type b) (m_read_pos b) (m_write_pos b) (m_msg_id b)
           (m_time b) (m_mem_db b).
Definition upd_read_pos : (Z → Z) → CMbuf → CMbuf :=
  λ f b, mkMbuf (m_data b) (m_msg_type b) (f (m_read_pos b)) (m_write_pos b) (m_msg_id b)
           (m_time b) (m_mem_db b).
Definition upd_write_pos : (Z → Z) → CMbuf → CMbuf :=
  λ f b, mkMbuf (m_data b) (m_msg_type b) (m_read_pos b) (f (m_write_pos b)) (m_msg_id b)
           (m_time b) (m_mem_db b).

(** [read_ptr(n)]: the guard compares with the size of the array, not with the
    write marker, and the sum is a [uint32_t]. *)
Definition mbuf_read_ptr (n : Z) (b : CMbuf) : CMbuf :=
  if max_size b <? u32 (m_read_pos b + n) then b
  else upd_read_pos (λ p, u32 (p + n)) b.

Definition mbuf_write_ptr (n : Z) (b : CMbuf) : CMbuf :=
  if max_size b <? u32 (m_write_pos b + n) then b
  else upd_write_pos (λ p, u32 (p + n)) b.

(** [copy(buf, len)] with [len] the length of [l]; [None] is the status -1. *)
Definition mbuf_copy (l : list Z) (b : CMbuf) : option CMbuf :=
  if max_size b <? u32 (m_write_pos b + zlen l) then None
  else Some (upd_write_pos (λ p, u32 (p + zlen l))
               (upd_data (splice (Z.to_nat (m_write_pos b)) l) b)).

Definition mbuf_length (b : CMbuf) : Z := u32 (m_write_pos b - m_read_pos b).

Definition mbuf_reset (b : CMbuf) : CMbuf :=
  upd_read_pos (λ _, 0) (upd_write_pos (λ _, 0) b).

Definition available_buf (b : CMbuf) : Z := u32 (max_size b - m_write_pos b).

(** [msg_id(v)], [msg_type(t)]. *)
Definition set_msg_id (v : Z) (b : CMbuf) : CMbuf :=
  mkMbuf (m_data b) (m_msg_type b) (m_read_pos b) (m_write_pos b) v (m_time b) (m_mem_db b).
Definition set_msg_type (t : Z) (b : CMbuf) : CMbuf :=
  mkMbuf (m_data b) t (m_read_pos b) (m_write_pos b) (m_msg_id b) (m_time b) (m_mem_db b).
Definition set_mem_db (r : bool) (b : CMbuf) : CMbuf :=
  mkMbuf (m_data b) (m_msg_type b) (m_read_pos b) (m_write_pos b) (m_msg_id b) (m_time b) r.

(** The array from [read_ptr()] to its end, and from [write_ptr()]. *)
Definition from_read_ptr (b : CMbuf) : list Z := drop (Z.to_nat (m_read_pos b)) (m_data b).
Definition from_write_ptr (b : CMbuf) : list Z := drop (Z.to_nat (m_write_pos b)) (m_data b).

(** Put back the array from the write marker on, after an encoder has written
    through [write_ptr()]. *)
Definition set_from_write_ptr (l : list Z) (b : CMbuf) : CMbuf :=
  upd_data (λ d, take (Z.to_nat (m_write_pos b)) d ++ l) b.

(** ** Invariant *)

(** The markers are in order and inside the array, whose size is an [int]. *)
Definition wf_mbuf (b : CMbuf) : Prop :=
  0 <= m_read_pos b <= m_write_pos b ∧ m_write_pos b <= max_size b ∧ max_size b < 2 ^ 31.

#[export] Instance wf_mbuf_dec b : Decision (wf_mbuf b).
Proof. unfold wf_mbuf. apply _. Defined.

(** The bytes between the markers: what [send] passes to [write]. *)
Definition contents (b : CMbuf) : list Z :=
  take (Z.to_nat (mbuf_length b)) (from_read_ptr b).

Lemma mbuf_length_wf b : wf_mbuf b → mbuf_length b = m_write_pos b - m_read_pos b.
Proof. intros (?&?&?). unfold mbuf_length. rewrite u32_small; lia. Qed.

Lemma zlen_contents b : wf_mbuf b → zlen (contents b) = mbuf_length b.
Proof.
  intros Hb. pose proof (mbuf_length_wf b Hb) as Hl. destruct Hb as (?&?&?).
  unfold contents, from_read_ptr, max_size in *. apply zlen_take. rewrite zlen_drop; lia.
Qed.

Lemma wf_mbuf_init fresh now : zlen fresh < 2 ^ 31 → wf_mbuf (mbuf_init fresh now).
Proof. unfold wf_mbuf, max_size; simpl. pose proof (zlen_nonneg fresh). lia. Qed.

Lemma contents_init fresh now : contents (mbuf_init fresh now) = [].
Proof. reflexivity. Qed.

(** Consuming [n] bytes of the contents. *)
Lemma mbuf_read_ptr_contents n b :
  wf_mbuf b → 0 <= n <= mbuf_length b →
  wf_mbuf (mbuf_read_ptr n b) ∧ contents (mbuf_read_ptr n b) = drop (Z.to_nat n) (contents b).
Proof.
  intros Hb Hn. rewrite mbuf_length_wf in Hn by done. pose proof Hb as (?&?&?).
  unfold mbuf_read_ptr. rewrite u32_small by lia.
  destruct (Z.ltb_spec (max_size b) (m_read_pos b + n)); [lia|].
  assert (wf_mbuf (upd_read_pos (λ p, u32 (p + n)) b)) as Hb'.
  { unfold wf_mbuf, upd_read_pos, max_size in *; simpl. rewrite u32_small; lia. }
  split; [done|]. unfold contents. rewrite !mbuf_length_wf by done.
  unfold from_read_ptr, upd_read_pos; simpl. rewrite u32_small by lia.
  rewrite skipn_firstn_comm, drop_drop. f_equal; [lia|f_equal; lia].
Qed.

Lemma wf_mbuf_write_ptr n b :
  wf_mbuf b → 0 <= n <= max_size b - m_write_pos b → wf_mbuf (mbuf_write_ptr n b).
Proof.
  intros (?&?&?) Hn. unfold mbuf_write_ptr. rewrite u32_small by lia.
  destruct (_ <? _); [unfold wf_mbuf; lia|]. unfold wf_mbuf, upd_write_pos, max_size in *; simpl.
  rewrite u32_small; lia.
Qed.

Lemma mbuf_read_ptr_same n b :
  m_msg_id (mbuf_read_ptr n b) = m_msg_id b ∧ m_mem_db (mbuf_read_ptr n b) = m_mem_db b ∧
  m_msg_type (mbuf_read_ptr n b) = m_msg_type b.
Proof. unfold mbuf_read_ptr. by destruct (_ <? _). Qed.

Lemma splice_between r w l (d : list Z) :
  (r <= w)%nat → (w + length l <= length d)%nat →
  take (w + length l - r) (drop r (splice w l d)) = take (w - r) (drop r d) ++ l.
Proof.
  intros Hr Hw. rewrite <- (skipn_firstn_comm r (w + length l)), take_splice by done.
  rewrite drop_app_le by (rewrite length_take; lia). f_equal.
  by rewrite skipn_firstn_comm.
Qed.

(** Appending to the contents. *)
Lemma mbuf_copy_contents l b :
  wf_mbuf b → m_write_pos b + zlen l <= max_size b →
  ∃ b', mbuf_copy l b = Some b' ∧ wf_mbuf b' ∧ contents b' = contents b ++ l ∧
    max_size b' = max_size b ∧ m_read_pos b' = m_read_pos b ∧
    m_write_pos b' = m_write_pos b + zlen l ∧
    m_msg_id b' = m_msg_id b ∧ m_mem_db b' = m_mem_db b ∧ m_msg_type b' = m_msg_type b.
Proof.
  intros Hb Hl. pose proof (mbuf_length_wf b Hb) as Hlen. pose proof Hb as (?&?&?).
  pose proof (zlen_nonneg l). unfold mbuf_copy. rewrite u32_small by lia.
  destruct (Z.ltb_spec (max_size b) (m_write_pos b + zlen l)); [lia|].
  set (d := splice (Z.to_nat (m_write_pos b)) l (m_data b)).
  assert (zlen d = max_size b) as Hd by (apply zlen_splice; unfold max_size in *; lia).
  unfold upd_write_pos, upd_data; simpl. fold d. rewrite u32_small by lia.
  eexists; split; [reflexivity|]. unfold wf_mbuf, max_size; simpl. fold (max_size b).
  rewrite Hd. split_and!; try (done || lia).
  unfold contents, from_read_ptr. unfold mbuf_length at 1; simpl.
  rewrite u32_small, Hlen by lia. unfold max_size, zlen in *. unfold d.
  rewrite (Z2Nat.inj_sub (m_write_pos b)), <- splice_between by lia. f_equal. lia.
Qed.

(** Writing through [write_ptr()] and advancing it. *)
Lemma mbuf_fill_contents l n b :
  wf_mbuf b → zlen l = zlen (from_write_ptr b) → 0 <= n <= zlen l →
  let b' := mbuf_write_ptr n (set_from_write_ptr l b) in
  wf_mbuf b' ∧ contents b' = contents b ++ take (Z.to_nat n) l ∧
  m_msg_id b' = m_msg_id b ∧ m_mem_db b' = m_mem_db b ∧ m_msg_type b' = m_msg_type b.
Proof.
  intros Hb Hl Hn b'. pose proof (mbuf_length_wf b Hb) as Hlen. pose proof Hb as (?&?&?).
  assert (zlen l = max_size b - m_write_pos b) as Hl2
    by (rewrite Hl; unfold from_write_ptr, max_size in *; rewrite zlen_drop; lia).
  set (d := take (Z.to_nat (m_write_pos b)) (m_data b) ++ l).
  assert (zlen d = max_size b) as Hd
    by (unfold d; rewrite zlen_app, zlen_take by (unfold max_size in *; lia); lia).
  assert (b' = mkMbuf d (m_msg_type b) (m_read_pos b) (m_write_pos b + n) (m_msg_id b)
                 (m_time b) (m_mem_db b)) as ->.
  { unfold b', mbuf_write_ptr, set_from_write_ptr, upd_write_pos, upd_data, max_size; simpl.
    fold d. rewrite Hd, u32_small by lia. by destruct (Z.ltb_spec (max_size b) (m_write_pos b + n)); [lia|]. }
  unfold wf_mbuf, max_size; simpl. rewrite Hd. split_and!; try (done || lia).
  unfold contents, from_read_ptr. unfold mbuf_length at 1; simpl.
  rewrite u32_small, Hlen by lia. unfold d, max_size, zlen in *.
  rewrite take_drop_commute.
  replace (Z.to_nat (m_read_pos b) + Z.to_nat (m_write_pos b + n - m_read_pos b))%nat
    with (Z.to_nat (m_write_pos b) + Z.to_nat n)%nat by lia.
  assert (length (take (Z.to_nat (m_write_pos b)) (m_data b)) = Z.to_nat (m_write_pos b)) as Ht
    by (rewrite length_take; lia).
  rewrite (take_app_add' _ _ (Z.to_nat (m_write_pos b))) by done.
  rewrite drop_app_le by lia. f_equal.
  rewrite skipn_firstn_comm. f_equal. lia.
Qed.

Lemma contents_set_msg_id v b : contents (set_msg_id v b) = contents b.
Proof. reflexivity. Qed.

Lemma contents_set_mem_db r b : contents (set_mem_db r b) = contents b.
Proof. reflexivity. Qed.
