(* ===== verification/MemStore.v ===== *)
(** * The message store and the publish statistics

    Model of src/common/msg_mem_store.cpp and include/common/msg_mem_store.hpp:
    [CMsgMemStore] numbers the published messages and maps the number of a live
    message to its buffer; [CMsgStatMgr] keeps one [CMsgStat] per low 16 bits of
    the number.  [print] only writes to the log. *)

From S2P Require Import Prelude.
From stdpp Require Import options.

(** ** The store *)

(** A [CMbuf *] is the identifier of a buffer in the heap of World.v. *)
Record CMsgMemStore : Type := mkStore {
  m_last_msg_id : Z;            (* uint64_t *)
  m_msg_db : gmap Z Z;
  m_last_update_time : Z;       (* uint32_t *)
}.

Definition new_CMsgMemStore (msg_id_start : Z) : CMsgMemStore :=
  {| m_last_msg_id := msg_id_start; m_msg_db := ∅; m_last_update_time := 0 |}.

Definition next_msg_id (s : CMsgMemStore) : Z * CMsgMemStore :=
  let id := u64 (m_last_msg_id s + 1) in
  (id, {| m_last_msg_id := id; m_msg_db := m_msg_db s;
          m_last_update_time := m_last_update_time s |}).

Definition set_last_msg_id (msg_id : Z) (s : CMsgMemStore) : CMsgMemStore :=
  {| m_last_msg_id := msg_id; m_msg_db := m_msg_db s;
     m_last_update_time := m_last_update_time s |}.

Definition del_msg (msg_id : Z) (s : CMsgMemStore) : CMsgMemStore :=
  {| m_last_msg_id := m_last_msg_id s; m_msg_db := delete msg_id (m_msg_db s);
     m_last_update_time := m_last_update_time s |}.

(** [buf] is never null at the only call. *)
Definition add_msg (now msg_id buf : Z) (s : CMsgMemStore) : CMsgMemStore :=
  {| m_last_msg_id := m_last_msg_id s; m_msg_db := <[msg_id := buf]> (m_msg_db s);
     m_last_update_time := u32 now |}.

(** ** Statistics *)

Record CMsgStat : Type := mkStat {
  stat_msg_id : Z;        (* uint64_t *)
  pub_start : Z;          (* time_t *)
  pub_end : Z;            (* time_t *)
  pub_online_num : Z;     (* uint32_t *)
  pub_offline_num : Z;    (* uint32_t *)
  min_delay : Z;          (* uint32_t *)
  max_delay : Z;          (* uint32_t *)
  ack_client : Z;         (* uint32_t *)
}.

(** The manager is a static object: its array starts as zeros. *)
Definition zero_stat : CMsgStat := mkStat 0 0 0 0 0 0 0 0.

Definition start_stat (now : Z) (s : CMsgStat) : CMsgStat := mkStat 0 now 0 0 0 0 0 0.

Definition end_stat (now : Z) (s : CMsgStat) : CMsgStat :=
  mkStat (stat_msg_id s) (pub_start s) now (pub_online_num s) (pub_offline_num s)
    (min_delay s) (max_delay s) (ack_client s).

Definition inc_ack_client (s : CMsgStat) : CMsgStat :=
  mkStat (stat_msg_id s) (pub_start s) (pub_end s) (pub_online_num s) (pub_offline_num s)
    (min_delay s) (max_delay s) (u32 (ack_client s + 1)).

Definition set_pub_num (online offline : Z) (s : CMsgStat) : CMsgStat :=
  mkStat (stat_msg_id s) (pub_start s) (pub_end s) online offline
    (min_delay s) (max_delay s) (ack_client s).

Definition set_stat_msg_id (id : Z) (s : CMsgStat) : CMsgStat :=
  mkStat id (pub_start s) (pub_end s) (pub_online_num s) (pub_offline_num s)
    (min_delay s) (max_delay s) (ack_client s).

Definition MAX_STAT_MSG : Z := 65536.

(** The array [m_msg_stat]; the slots that were never written are zero. *)
Abbreviation CMsgStatMgr := (gmap Z CMsgStat) (only parsing).

Definition stat_at (i : Z) (m : CMsgStatMgr) : CMsgStat := default zero_stat (m !! i).

Definition stat_idx (msg_id : Z) : Z := u16 (Z.land msg_id 0xFFFF).

(** [msg_stat(id)]: the call writes the number into the slot and returns a
    reference to it; the caller goes on with slot [stat_idx msg_id]. *)
Definition msg_stat (msg_id : Z) (m : CMsgStatMgr) : CMsgStatMgr :=
  <[stat_idx msg_id := set_stat_msg_id msg_id (stat_at (stat_idx msg_id) m)]> m.

(** An update through the returned reference. *)
Definition with_stat (i : Z) (f : CMsgStat → CMsgStat) (m : CMsgStatMgr) : CMsgStatMgr :=
  <[i := f (stat_at i m)]> m.

(** A line of the statistics file: the fields of the slot and the current time. *)
Record stat_record : Type := mkRecord { rec_stat : CMsgStat; rec_time : Z }.

(** One iteration of [flush]; [clock n] is the value of the [n]-th call of
    [std::time], and the state holds the number of calls made. *)
Definition flush_slot (clock : nat → Z) (s : nat * list stat_record * CMsgStatMgr) (i : Z)
    : nat * list stat_record * CMsgStatMgr :=
  let '(n, out, m) := s in
  let stat := stat_at i m in
  let cur_tm := clock n in
  if (0 <? stat_msg_id stat) && (2 * 60 <? cur_tm - pub_start stat) then
    (S (S (S n)), out ++ [{| rec_stat := stat; rec_time := clock (S n) |}],
     with_stat i (start_stat (clock (S (S n)))) m)
  else (S n, out, m).

Definition stat_flush (clock : nat → Z) (m : CMsgStatMgr)
    : nat * list stat_record * CMsgStatMgr :=
  foldl (flush_slot clock) (0%nat, [], m) (seqZ 0 MAX_STAT_MSG).

(** ** Lemmas *)

Lemma next_msg_id_eq s :
  m_last_msg_id s < 2 ^ 64 - 1 → 0 <= m_last_msg_id s →
  next_msg_id s = (m_last_msg_id s + 1,
    {| m_last_msg_id := m_last_msg_id s + 1; m_msg_db := m_msg_db s;
       m_last_update_time := m_last_update_time s |}).
Proof. intros. unfold next_msg_id. by rewrite u64_small by lia. Qed.

Lemma stat_idx_range id : 0 <= stat_idx id < MAX_STAT_MSG.
Proof. apply u16_range. Qed.

Lemma stat_idx_mod id : stat_idx id = id mod 65536.
Proof.
  unfold stat_idx. change 0xFFFF with (Z.ones 16). rewrite land_low by lia.
  apply u16_small. apply Z.mod_pos_bound. lia.
Qed.

Lemma stat_at_with i j f m :
  stat_at j (with_stat i f m) = if decide (i = j) then f (stat_at i m) else stat_at j m.
Proof.
  unfold stat_at, with_stat. case_decide as H; [subst; by rewrite lookup_insert_eq|].
  by rewrite lookup_insert_ne.
Qed.

Lemma stat_at_msg_stat id j m :
  stat_at j (msg_stat id m) =
  if decide (stat_idx id = j) then set_stat_msg_id id (stat_at j m) else stat_at j m.
Proof.
  change (msg_stat id m) with (with_stat (stat_idx id) (set_stat_msg_id id) m).
  rewrite stat_at_with. case_decide; by subst.
Qed.

(** The slots [flush] reports: in use, and started over two minutes ago. *)
Definition expired (now : Z) (s : CMsgStat) : bool :=
  (0 <? stat_msg_id s) && (2 * 60 <? now - pub_start s).

Lemma flush_slot_eq now n out m i :
  flush_slot (λ _, now) (n, out, m) i =
  if expired now (stat_at i m) then
    (S (S (S n)), out ++ [mkRecord (stat_at i m) now], with_stat i (start_stat now) m)
  else (S n, out, m).
Proof. reflexivity. Qed.

(** What a run of [flush] over the slots [l] does when the clock stands at [now]:
    the records of the expired slots in order, and those slots cleared. *)
Lemma flush_slots now l n out m :
  NoDup l →
  let '(_, out', m') := foldl (flush_slot (λ _, now)) (n, out, m) l in
  out' = out ++ map (λ i, mkRecord (stat_at i m) now)
                  (List.filter (λ i, expired now (stat_at i m)) l) ∧
  ∀ j, stat_at j m' = if bool_decide (j ∈ l) && expired now (stat_at j m)
                      then start_stat now (stat_at j m) else stat_at j m.
Proof.
  intros Hl. revert n out m. induction l as [|i l IH]; intros n out m.
  { simpl. split; [by rewrite app_nil_r|done]. }
  inversion_clear Hl as [|?? Hi Hl']. cbn [foldl]. rewrite flush_slot_eq. cbn [List.filter].
  destruct (expired now (stat_at i m)) eqn:E.
  - set (m1 := with_stat i (start_stat now) m).
    specialize (IH Hl' (S (S (S n))) (out ++ [mkRecord (stat_at i m) now]) m1).
    destruct (foldl _ _ l) as [[n' out'] m']. destruct IH as [-> IH].
    assert (∀ j, j ≠ i → stat_at j m1 = stat_at j m) as Hs
      by (intros j Hj; unfold m1; by rewrite stat_at_with, decide_False by done).
    split.
    + rewrite <- app_assoc. simpl. do 2 f_equal. clear -Hs Hi. induction l as [|j l IHl]; [done|].
      simpl. rewrite Hs by set_solver. destruct (expired _ _); simpl;
        rewrite IHl by set_solver; rewrite ?Hs by set_solver; done.
    + intros j. rewrite IH. destruct (decide (j = i)) as [->|Hj].
      * rewrite (bool_decide_false (i ∈ l)), (bool_decide_true (i ∈ i :: l)), E by set_solver.
        simpl. unfold m1. by rewrite stat_at_with, decide_True.
      * rewrite Hs by done. by rewrite (bool_decide_ext (j ∈ i :: l) (j ∈ l)) by set_solver.
  - specialize (IH Hl' (S n) out m). destruct (foldl _ _ l) as [[n' out'] m'].
    destruct IH as [-> IH]. split; [done|]. intros j. rewrite IH.
    destruct (decide (j = i)) as [->|Hj]; [by rewrite E, !andb_false_r|].
    by rewrite (bool_decide_ext (j ∈ i :: l) (j ∈ l)) by set_solver.
Qed.

Lemma NoDup_slots : NoDup (seqZ 0 MAX_STAT_MSG).
Proof. apply NoDup_seqZ. Qed.

(** ** Properties *)

(** [flush] reports exactly the expired slots, in order, each once, with
    the counters it held, clears exactly those, and leaves the others as they
    were. *)
Theorem stat_flush_reports now m :
  let '(_, out, m') := stat_flush (λ _, now) m in
  out = map (λ i, mkRecord (stat_at i m) now)
          (List.filter (λ i, expired now (stat_at i m)) (seqZ 0 MAX_STAT_MSG)) ∧
  ∀ i, 0 <= i < MAX_STAT_MSG →
    stat_at i m' = (if expired now (stat_at i m) then start_stat now (stat_at i m)
                    else stat_at i m) ∧
    expired now (stat_at i m') = false.
Proof.
  pose proof (flush_slots now _ 0%nat [] m NoDup_slots) as H. unfold stat_flush.
  destruct (foldl _ _ _) as [[n' out] m']. destruct H as [-> H]. split; [done|].
  intros i Hi. rewrite H, bool_decide_true by (apply elem_of_seqZ; lia). simpl.
  destruct (expired now (stat_at i m)) eqn:E; [|done]. done.
Qed.

(** A published message is not reported before a client acknowledges
    it: [start_stat] resets the number that [msg_stat] has just written, and
    [flush] skips a slot without a number, however old it is. *)
Theorem published_stat_not_flushed id t0 online offline t1 now m :
  let i := stat_idx id in
  let m' := with_stat i (end_stat t1) (with_stat i (set_pub_num online offline)
              (with_stat i (start_stat t0) (msg_stat id m))) in
  expired now (stat_at i m') = false ∧
  (0 < id → 2 * 60 < now - t0 → expired now (stat_at i (msg_stat id m')) = true).
Proof.
  cbv zeta. split.
  - rewrite !stat_at_with, !decide_True by done. done.
  - intros Hi Ht. rewrite stat_at_msg_stat, !stat_at_with, !decide_True by done.
    unfold expired; simpl. apply andb_true_intro. split; apply Z.ltb_lt; lia.
Qed.

Lemma published_stat_not_flushed_witness :
  expired 1000 (stat_at 7 (with_stat 7 (end_stat 11) (with_stat 7 (set_pub_num 3 2)
     (with_stat 7 (start_stat 10) (msg_stat 7 ∅))))) = false ∧
  (0 < 7 → 2 * 60 < 1000 - 10 →
   expired 1000 (stat_at 7 (msg_stat 7 (with_stat 7 (end_stat 11)
     (with_stat 7 (set_pub_num 3 2) (with_stat 7 (start_stat 10) (msg_stat 7 ∅)))))) = true).
Proof. exact (published_stat_not_flushed 7 10 3 2 11 1000 ∅). Defined.
