(* ===== verification/Context.v ===== *)
(** * The client context

    Model of [CTMqttClientContext] of include/mqtt_server/mqtt_context.hpp: what
    the server remembers of a client between connections - the session flags, the
    subscribed topics and the queue of messages that the client has not
    acknowledged.  [ack_msg] and [flush], which use the message buffers and the
    statistics, are in World.v.  [print] only writes to the log, and
    [CMqttPubMessage] is used nowhere. *)

From S2P Require Import Prelude Msg.
From stdpp Require Import options.

Inductive ClientStatus : Type :=
  | CS_NONE | CS_NEW | CS_CONNECTED | CS_DISCONNECTED | CS_EXPIRING.

#[export] Instance ClientStatus_eq_dec : EqDecision ClientStatus.
Proof. solve_decision. Defined.

(** Pointers and shared pointers are identifiers in the heaps of World.v. *)
Record CTMqttClientContext : Type := mkContext {
  mqtt_connection : option Z;      (* CMqttConnection * *)
  client_status : ClientStatus;
  remote_addr : str;
  protocal_name : str;
  protocal_ver : Z;
  ctx_client_id : str;
  ctx_user_name : str;
  user_password : str;
  keep_alive_timer : Z;
  max_inflight_msgs : Z;
  accept_time : Z;
  connect_time : Z;
  discon_time : Z;
  close_time : Z;
  last_pub_time : Z;
  last_msg_time : Z;
  last_pub_msg_id : Z;
  ctx_clean_session : bool;
  will_flag : bool;
  send_msg_ids : list Z;
  send_msg_queue : list Z;         (* std::list<CMbuf_ptr> *)
  subcribe_topics : list CTopic;
}.

Definition eta_ctx (c : CTMqttClientContext) : CTMqttClientContext :=
  mkContext (mqtt_connection c) (client_status c) (remote_addr c) (protocal_name c)
    (protocal_ver c) (ctx_client_id c) (ctx_user_name c) (user_password c)
    (keep_alive_timer c) (max_inflight_msgs c) (accept_time c) (connect_time c)
    (discon_time c) (close_time c) (last_pub_time c) (last_msg_time c)
    (last_pub_msg_id c) (ctx_clean_session c) (will_flag c) (send_msg_ids c)
    (send_msg_queue c) (subcribe_topics c).

(** The setters the code uses. *)
Definition upd_mqtt_connection : (option Z → option Z) → CTMqttClientContext → CTMqttClientContext :=
  ltac:(update_field eta_ctx mqtt_connection).
Definition upd_client_status : (ClientStatus → ClientStatus) → CTMqttClientContext → CTMqttClientContext :=
  ltac:(update_field eta_ctx client_status).
Definition upd_remote_addr : (str → str) → CTMqttClientContext → CTMqttClientContext :=
  ltac:(update_field eta_ctx remote_addr).
Definition upd_accept_time : (Z → Z) → CTMqttClientContext → CTMqttClientContext :=
  ltac:(update_field eta_ctx accept_time).
Definition upd_connect_time : (Z → Z) → CTMqttClientContext → CTMqttClientContext :=
  ltac:(update_field eta_ctx connect_time).
Definition upd_discon_time : (Z → Z) → CTMqttClientContext → CTMqttClientContext :=
  ltac:(update_field eta_ctx discon_time).
Definition upd_close_time : (Z → Z) → CTMqttClientContext → CTMqttClientContext :=
  ltac:(update_field eta_ctx close_time).
Definition upd_last_pub_time : (Z → Z) → CTMqttClientContext → CTMqttClientContext :=
  ltac:(update_field eta_ctx last_pub_time).
Definition upd_last_msg_time : (Z → Z) → CTMqttClientContext → CTMqttClientContext :=
  ltac:(update_field eta_ctx last_msg_time).
Definition upd_last_pub_msg_id : (Z → Z) → CTMqttClientContext → CTMqttClientContext :=
  ltac:(update_field eta_ctx last_pub_msg_id).
Definition upd_send_msg_ids : (list Z → list Z) → CTMqttClientContext → CTMqttClientContext :=
  ltac:(update_field eta_ctx send_msg_ids).
Definition upd_send_msg_queue : (list Z → list Z) → CTMqttClientContext → CTMqttClientContext :=
  ltac:(update_field eta_ctx send_msg_queue).
Definition upd_subcribe_topics : (list CTopic → list CTopic) → CTMqttClientContext → CTMqttClientContext :=
  ltac:(update_field eta_ctx subcribe_topics).

(** The constructor sets the connection and the status; the other members of
    built-in type are not initialised, [junk i] is what the [i]-th holds. *)
Definition new_CTMqttClientContext (junk : nat → Z) (con : option Z) : CTMqttClientContext :=
  {| mqtt_connection := con; client_status := CS_NEW; remote_addr := [];
     protocal_name := []; protocal_ver := u8 (junk 0%nat); ctx_client_id := [];
     ctx_user_name := []; user_password := []; keep_alive_timer := u16 (junk 1%nat);
     max_inflight_msgs := u16 (junk 2%nat); accept_time := junk 3%nat;
     connect_time := junk 4%nat; discon_time := junk 5%nat; close_time := junk 6%nat;
     last_pub_time := junk 7%nat; last_msg_time := junk 8%nat;
     last_pub_msg_id := u64 (junk 9%nat); ctx_clean_session := Z.odd (junk 10%nat);
     will_flag := Z.odd (junk 11%nat); send_msg_ids := []; send_msg_queue := [];
     subcribe_topics := [] |}.

(** [init(con_msg)]. *)
Definition context_init (m : CMqttConnect) (c : CTMqttClientContext) : CTMqttClientContext :=
  {| mqtt_connection := mqtt_connection c; client_status := CS_CONNECTED;
     remote_addr := remote_addr c; protocal_name := proto_name m;
     protocal_ver := proto_version m; ctx_client_id := client_id m;
     ctx_user_name := user_name m; user_password := password m;
     keep_alive_timer := keep_alive_timer c; max_inflight_msgs := max_inflight_msgs c;
     accept_time := accept_time c; connect_time := connect_time c;
     discon_time := discon_time c; close_time := close_time c;
     last_pub_time := last_pub_time c; last_msg_time := last_msg_time c;
     last_pub_msg_id := last_pub_msg_id c; ctx_clean_session := clean_session m;
     will_flag := will_flag c; send_msg_ids := send_msg_ids c;
     send_msg_queue := send_msg_queue c; subcribe_topics := subcribe_topics c |}.

Definition add_topics (known new : list CTopic) : list CTopic :=
  foldl (λ l t, if bool_decide (t ∈ l) then l else l ++ [t]) known new.

Definition add_subcribe_topics (sub_topics : list CTopic) (c : CTMqttClientContext)
    : CTMqttClientContext :=
  upd_subcribe_topics (λ l, add_topics l sub_topics) c.

Definition add_send_msg (send_mbuf : Z) (c : CTMqttClientContext) : CTMqttClientContext :=
  upd_send_msg_queue (λ q, q ++ [send_mbuf]) c.

(** [prepare_store()]; [ids] are the numbers of the queued messages. *)
Definition prepare_store (ids : list Z) (c : CTMqttClientContext) : CTMqttClientContext :=
  upd_send_msg_ids (λ _, ids) c.

(** ** Lemmas *)

Lemma elem_of_add_topics t known new : t ∈ add_topics known new ↔ t ∈ known ∨ t ∈ new.
Proof.
  revert known. unfold add_topics. induction new as [|u new IH]; intros known; simpl.
  { set_solver. }
  rewrite IH. case_bool_decide; set_solver.
Qed.

Lemma NoDup_add_topics known new : NoDup known → NoDup (add_topics known new).
Proof.
  revert known. unfold add_topics. induction new as [|u new IH]; intros known Hk; simpl; [done|].
  apply IH. case_bool_decide; [done|]. apply list.NoDup_app. split_and!; [done| |apply NoDup_singleton].
  set_solver.
Qed.

(** The known topics keep their order and come first. *)
Lemma add_topics_prefix known new : known `prefix_of` add_topics known new.
Proof.
  revert known. unfold add_topics. induction new as [|u new IH]; intros known; simpl; [done|].
  etransitivity; [|apply IH]. case_bool_decide; [done|]. by eexists.
Qed.

Lemma add_topics_old known new : (∀ t, t ∈ new → t ∈ known) → add_topics known new = known.
Proof.
  unfold add_topics. induction new as [|u new IH]; intros H; simpl; [done|].
  rewrite bool_decide_true by set_solver. apply IH. set_solver.
Qed.
