(* ===== verification/World.v ===== *)
(** * The state of the server

    The objects, buffers, contexts and singletons of the process, the kernel as an
    environment, and the elementary operations on them.

    Objects that the code deletes explicitly ([delete this]) live in a heap; the
    use of one that has been removed is [Stop UseAfterFree].  Objects held by
    [shared_ptr] live in heaps too and are destroyed by [collect], which an event
    runs at its end: the destructors have no effect that a handler could see
    earlier (that of [CMbuf] removes its number from the message store, which only
    the persistence code reads). *)

From S2P Require Import Prelude Msg Mbuf MemStore Context.
From stdpp Require Import options.

(** ** Handlers *)

(** The members of [CEventHandler] and its base [CSockBase]
    (include/reactor/event_handler.hpp, sock_base.hpp). *)
Record CEventHandler : Type := mkHandler {
  m_sock_handle : Z;
  m_current_event_mask : Z;            (* uint32_t *)
  m_recv_bytes : Z;                    (* uint64_t *)
  m_recv_times : Z;                    (* uint64_t *)
  m_send_bytes : Z;                    (* uint64_t *)
  m_send_times : Z;                    (* uint64_t *)
  m_schedule_write_times : Z;          (* uint64_t *)
  m_cancel_schedule_write_times : Z;   (* uint64_t *)
  m_max_msg_in_buffer : Z;             (* uint32_t *)
  m_send_msg_queue : list Z;           (* std::list<CMbuf_ptr> *)
  m_str_peer_addr : str;
  m_accept_time : Z;                   (* time_t *)
}.

Definition eta_handler (h : CEventHandler) : CEventHandler :=
  mkHandler (m_sock_handle h) (m_current_event_mask h) (m_recv_bytes h) (m_recv_times h)
    (m_send_bytes h) (m_send_times h) (m_schedule_write_times h)
    (m_cancel_schedule_write_times h) (m_max_msg_in_buffer h) (m_send_msg_queue h)
    (m_str_peer_addr h) (m_accept_time h).

Definition upd_sock_handle : (Z → Z) → CEventHandler → CEventHandler :=
  ltac:(update_field eta_handler m_sock_handle).
Definition upd_current_event_mask : (Z → Z) → CEventHandler → CEventHandler :=
  ltac:(update_field eta_handler m_current_event_mask).
Definition upd_recv_bytes : (Z → Z) → CEventHandler → CEventHandler :=
  ltac:(update_field eta_handler m_recv_bytes).
Definition upd_recv_times : (Z → Z) → CEventHandler → CEventHandler :=
  ltac:(update_field eta_handler m_recv_times).
Definition upd_send_bytes : (Z → Z) → CEventHandler → CEventHandler :=
  ltac:(update_field eta_handler m_send_bytes).
Definition upd_send_times : (Z → Z) → CEventHandler → CEventHandler :=
  ltac:(update_field eta_handler m_send_times).
Definition upd_schedule_write_times : (Z → Z) → CEventHandler → CEventHandler :=
  ltac:(update_field eta_handler m_schedule_write_times).
Definition upd_cancel_schedule_write_times : (Z → Z) → CEventHandler → CEventHandler :=
  ltac:(update_field eta_handler m_cancel_schedule_write_times).
Definition upd_msg_queue : (list Z → list Z) → CEventHandler → CEventHandler :=
  ltac:(update_field eta_handler m_send_msg_queue).
Definition upd_peer_addr : (str → str) → CEventHandler → CEventHandler :=
  ltac:(update_field eta_handler m_str_peer_addr).

(** The members [CMqttConnection] adds (include/mqtt_server/mqtt_connection.hpp);
    its [m_accept_time] hides the one of the base class. *)
Record CMqttConnection : Type := mkConnection {
  m_client_context : option Z;   (* CMqttClientContext_ptr *)
  m_recv_buffer : list Z;        (* uint8_t [MAX_BUF_SIZE] *)
  m_cur_buf_pos : Z;             (* uint32_t *)
  m_conn_accept_time : Z;        (* uint32_t *)
  m_last_msg_time : Z;           (* uint32_t *)
}.

Definition eta_connection (c : CMqttConnection) : CMqttConnection :=
  mkConnection (m_client_context c) (m_recv_buffer c) (m_cur_buf_pos c)
    (m_conn_accept_time c) (m_last_msg_time c).

Definition upd_client_context : (option Z → option Z) → CMqttConnection → CMqttConnection :=
  ltac:(update_field eta_connection m_client_context).
Definition upd_recv_buffer : (list Z → list Z) → CMqttConnection → CMqttConnection :=
  ltac:(update_field eta_connection m_recv_buffer).
Definition upd_cur_buf_pos : (Z → Z) → CMqttConnection → CMqttConnection :=
  ltac:(update_field eta_connection m_cur_buf_pos).
Definition upd_conn_last_msg_time : (Z → Z) → CMqttConnection → CMqttConnection :=
  ltac:(update_field eta_connection m_last_msg_time).

(** [MAX_BUF_SIZE] of [CMqttConnection]. *)
Definition MAX_BUF_SIZE : Z := 4096.

(** The classes that derive from [CEventHandler] in the broker; the class decides
    the virtual calls. *)
Inductive derived : Type :=
  | Connection (c : CMqttConnection)   (* CMqttConnection *)
  | Acceptor                           (* Acceptor *)
  | PollerNotifyFd.                    (* CPollerNotifyFd *)

Record object : Type := mkObject { o_handler : CEventHandler; o_derived : derived }.

(** ** Topics *)

(** [CTopicNode]. *)
Record CTopicNode : Type := mkTopicNode {
  m_retian_msg_buf : option Z;     (* CMbuf_ptr *)
  m_subcriber_clients : gset Z;    (* unordered_set<CMqttClientContext_ptr> *)
}.

(** ** The poller *)

(** The members of [CPoller], and what the kernel knows of the epoll instance:
    the interest list, by descriptor: the mask and the pointer registered. *)
Record CPoller : Type := mkPoller {
  m_map_event_handlers : gmap Z Z;
  m_notify_writer : option Z;
  m_notify_deque : list Z;         (* std::deque<CMbuf_ptr> *)
  m_running_flag : bool;
  interest_list : gmap Z (Z * Z);
}.

(** ** What leaves the process *)

(** A line of the client record file: the fields that [flush] formats. *)
Record client_record : Type := mkClientRecord {
  cr_context : CTMqttClientContext;
  cr_queue_size : Z;
}.

Inductive output : Type :=
  | Sent (fd : Z) (l : list Z)         (* bytes a socket has accepted *)
  | Closed (fd : Z)                    (* ::close(fd) *)
  | ClientRecord (r : client_record)   (* CLIENT_RECORD->put_msg *)
  | MsgRecord (r : stat_record).       (* MSG_RECORD->put_msg *)

(** ** The world *)

Record World : Type := mkWorld {
  w_calls : nat;                            (* system calls made so far *)
  w_errno : Z;                              (* errno *)
  w_objs : gmap Z object;
  w_ctxs : gmap Z CTMqttClientContext;
  w_mbufs : gmap Z CMbuf;
  w_next : Z;                               (* the next identifier *)
  w_topics : gmap str CTopicNode;           (* SUB_MGR: m_topic_mgr *)
  w_clients : gmap str Z;                   (* CLIENT_ID_CONTEXT: m_client_msg *)
  w_store : CMsgMemStore;                   (* MSG_MEM_STORE *)
  w_stats : gmap Z CMsgStat;                (* MSG_STAT_MGR *)
  w_poller : CPoller;
  w_out : list output;
}.

Definition eta_world (w : World) : World :=
  mkWorld (w_calls w) (w_errno w) (w_objs w) (w_ctxs w) (w_mbufs w) (w_next w) (w_topics w)
    (w_clients w) (w_store w) (w_stats w) (w_poller w) (w_out w).

Definition upd_calls : (nat → nat) → World → World := ltac:(update_field eta_world w_calls).
Definition upd_errno : (Z → Z) → World → World := ltac:(update_field eta_world w_errno).
Definition upd_objs : (gmap Z object → gmap Z object) → World → World :=
  ltac:(update_field eta_world w_objs).
Definition upd_ctxs : (gmap Z CTMqttClientContext → gmap Z CTMqttClientContext) → World → World :=
  ltac:(update_field eta_world w_ctxs).
Definition upd_mbufs : (gmap Z CMbuf → gmap Z CMbuf) → World → World :=
  ltac:(update_field eta_world w_mbufs).
Definition upd_next : (Z → Z) → World → World := ltac:(update_field eta_world w_next).
Definition upd_topics : (gmap str CTopicNode → gmap str CTopicNode) → World → World :=
  ltac:(update_field eta_world w_topics).
Definition upd_clients : (gmap str Z → gmap str Z) → World → World :=
  ltac:(update_field eta_world w_clients).
Definition upd_store : (CMsgMemStore → CMsgMemStore) → World → World :=
  ltac:(update_field eta_world w_store).
Definition upd_stats : (gmap Z CMsgStat → gmap Z CMsgStat) → World → World :=
  ltac:(update_field eta_world w_stats).
Definition upd_poller : (CPoller → CPoller) → World → World :=
  ltac:(update_field eta_world w_poller).
Definition upd_out : (list output → list output) → World → World :=
  ltac:(update_field eta_world w_out).

Abbreviation M := (st World) (only parsing).

(** ** The environment

    The kernel and the parts of the run time that the code does not determine.
    The [n]-th system call of the run asks for its result with [n]. *)

Inductive io_result : Type := IoOk (n : Z) | IoErr (errno : Z).
Inductive read_result : Type := ReadOk (l : list Z) | ReadErr (errno : Z).

(** The events and the pointers of the ready descriptors. *)
Inductive wait_result : Type := WaitOk (l : list (Z * Z)) | WaitErr (errno : Z).

Class Env : Type := {
  env_write : nat → Z → list Z → io_result;   (* write(fd, data) *)
  env_read : nat → Z → Z → read_result;          (* read(fd, size) *)
  env_accept : nat → io_result;                  (* accept4 *)
  env_epoll_wait : nat → gmap Z (Z * Z) → wait_result;   (* epoll_wait *)
  env_epoll_ctl : nat → option Z;                (* an errno, or success *)
  env_peer : nat → Z → str;                      (* getpeername, inet_ntop *)
  env_time : nat → Z;                            (* std::time *)
  env_junk : nat → nat → Z;                      (* uninitialised memory *)
  env_order : nat → gset Z → list Z;             (* order of an unordered_set *)
  env_topic_order : nat → gset str → list str;   (* order of an unordered_map *)
  env_mqtt_bridge : Z;                           (* CONFIG->get_mqtt_bridge() *)
}.

(** What the code may rely on: the results are those the manual pages describe,
    and the iteration of a container visits each element once. *)
Class EnvLaws `{Env} : Prop := {
  env_write_ok : ∀ n fd l k, env_write n fd l = IoOk k → 0 <= k <= zlen l;
  env_read_ok : ∀ n fd k l, 0 <= k → env_read n fd k = ReadOk l → zlen l <= k ∧ bytes l;
  env_wait_ok : ∀ n I l e p, env_epoll_wait n I = WaitOk l → (e, p) ∈ l →
    ∃ fd mask, I !! fd = Some (mask, p);
  env_order_ok : ∀ n X, env_order n X ≡ₚ elements X;
  env_topic_order_ok : ∀ n X, env_topic_order n X ≡ₚ elements X;
}.

(** The errors after which a write is tried again. *)
Definition EINTR : Z := 4.
Definition EAGAIN : Z := 11.
Definition EWOULDBLOCK : Z := 11.

Definition would_block (errno : Z) : bool :=
  (errno =? EWOULDBLOCK) || (errno =? EAGAIN) || (errno =? EINTR).

(** An environment whose sockets fail only by flow control, and where [epoll_ctl]
    succeeds. *)
Class Calm {E : Env} : Prop := {
  calm_laws :: EnvLaws;
  calm_write : ∀ n fd l e, env_write n fd l = IoErr e → would_block e = true;
  calm_ctl : ∀ n, env_epoll_ctl n = None;
}.

(** A write of some bytes that succeeds accepts at least one of them. *)
Definition write_progress {E : Env} : Prop :=
  ∀ n fd l k, env_write n fd l = IoOk k → l ≠ [] → 0 < k.

Section operations.
Context {E : Env}.

(** A call of the environment. *)
Definition sys {A} (f : nat → A) : M A := λ w, (Ok (f (w_calls w)), upd_calls S w).

Definition std_time : M Z := sys env_time.

Definition set_errno (e : Z) : M unit := modify (upd_errno (λ _, e)).

Definition emit_out (o : output) : M unit := modify (upd_out (λ l, l ++ [o])).

(** [::write]: the number of bytes accepted, or -1; [errno] is only set by a
    failing call. *)
Definition sys_write (fd : Z) (data : list Z) : M Z :=
  do r <- sys (λ n, env_write n fd data);
  match r with
  | IoOk n => do_ emit_out (Sent fd (take (Z.to_nat n) data)); ret n
  | IoErr e => do_ set_errno e; ret (-1)
  end.

(** [::read] into a buffer of [size] bytes. *)
Definition sys_read (fd size : Z) : M (option (list Z)) :=
  do r <- sys (λ n, env_read n fd size);
  match r with
  | ReadOk l => ret (Some l)
  | ReadErr e => do_ set_errno e; ret None
  end.

Definition sys_close (fd : Z) : M unit := emit_out (Closed fd).

(** [epoll_ctl]; a success updates the interest list. *)
Definition sys_epoll_ctl (f : gmap Z (Z * Z) → gmap Z (Z * Z)) : M Z :=
  do r <- sys env_epoll_ctl;
  match r with
  | None =>
      do_ modify (upd_poller (λ p,
            mkPoller (m_map_event_handlers p) (m_notify_writer p) (m_notify_deque p)
              (m_running_flag p) (f (interest_list p))));
      ret 0
  | Some e => do_ set_errno e; ret (-1)
  end.

(** *** Heaps *)

Definition fresh_id : M Z := λ w, (Ok (w_next w), upd_next (λ n, n + 1) w).

Definition get_obj (p : Z) : M object := λ w,
  match w_objs w !! p with Some o => (Ok o, w) | None => (Stop UseAfterFree, w) end.

Definition get_handler (p : Z) : M CEventHandler :=
  do o <- get_obj p; ret (o_handler o).

Definition upd_handler (p : Z) (f : CEventHandler → CEventHandler) : M unit :=
  do o <- get_obj p;
  modify (upd_objs <[p := mkObject (f (o_handler o)) (o_derived o)]>).

(** The members of a [CMqttConnection]; the caller's static type is that class. *)
Definition get_conn (p : Z) : M CMqttConnection :=
  do o <- get_obj p;
  match o_derived o with Connection c => ret c | _ => crash OutOfBounds end.

Definition upd_conn (p : Z) (f : CMqttConnection → CMqttConnection) : M unit :=
  do o <- get_obj p;
  match o_derived o with
  | Connection c => modify (upd_objs <[p := mkObject (o_handler o) (Connection (f c))]>)
  | _ => crash OutOfBounds
  end.

(** [delete this]. *)
Definition delete_obj (p : Z) : M unit :=
  do _ <- get_obj p; modify (upd_objs (delete p)).

Definition get_ctx (x : Z) : M CTMqttClientContext := λ w,
  match w_ctxs w !! x with Some c => (Ok c, w) | None => (Stop UseAfterFree, w) end.

Definition upd_ctx (x : Z) (f : CTMqttClientContext → CTMqttClientContext) : M unit :=
  do c <- get_ctx x; modify (upd_ctxs <[x := f c]>).

Definition get_mbuf (b : Z) : M CMbuf := λ w,
  match w_mbufs w !! b with Some m => (Ok m, w) | None => (Stop UseAfterFree, w) end.

Definition upd_mbuf (b : Z) (f : CMbuf → CMbuf) : M unit :=
  do m <- get_mbuf b; modify (upd_mbufs <[b := f m]>).

(** *** Buffers *)

(** [make_shared<CMbuf>(size)]. *)
Definition new_mbuf (size : Z) : M Z :=
  do fresh <- sys (λ n, map (λ i, u8 (env_junk n i)) (seq 0 (Z.to_nat size)));
  do now <- std_time;
  do b <- fresh_id;
  do_ modify (upd_mbufs <[b := mbuf_init fresh now]>);
  ret b.

(** [CMbuf::copy(buf, len)]. *)
Definition mbuf_copy_to (b : Z) (l : list Z) : M Z :=
  do m <- get_mbuf b;
  match mbuf_copy l m with
  | Some m' => do_ modify (upd_mbufs <[b := m']>); ret 0
  | None => ret (-1)
  end.

(** [CMbuf::regist_mem_store(MSG_MEM_STORE)]. *)
Definition regist_mem_store (b : Z) : M unit :=
  do_ upd_mbuf b (set_mem_db true);
  do m <- get_mbuf b;
  when negb (m_msg_id m =? 0) then_
    (do now <- std_time; modify (upd_store (add_msg now (m_msg_id m) b))).

(** [CMbuf_ptr mbuf = make_shared<CMbuf>(size); CMqttX x(mbuf->write_ptr(),
    mbuf->max_size(), ...); x.encode()], and [mbuf->write_ptr(enc_len)] when that
    succeeds. *)
Definition encode_mbuf (size : Z) (encode : list Z → Z → res Z * list Z) : M (option Z) :=
  do b <- new_mbuf size;
  do m <- get_mbuf b;
  let '(r, l) := encode (from_write_ptr m) (max_size m) in
  do_ upd_mbuf b (set_from_write_ptr l);
  match r with
  | Ok enc_len => do_ upd_mbuf b (mbuf_write_ptr enc_len); ret (Some b)
  | Fail => ret None
  | Stop u => crash u
  end.

(** *** Contexts *)

(** [make_shared<CTMqttClientContext>(con)]. *)
Definition new_ctx (con : option Z) : M Z :=
  do junk <- sys env_junk;
  do x <- fresh_id;
  do_ modify (upd_ctxs <[x := new_CTMqttClientContext junk con]>);
  ret x.

(** [CTMqttClientContext::ack_msg]. *)
Definition ack_msg (x msg_id : Z) : M Z :=
  do c <- get_ctx x;
  match send_msg_queue c with
  | [] => ret 0
  | b :: _ =>
      do m <- get_mbuf b;
      let buf_id := Z.land (u16 (m_msg_id m)) 0xFFFF in
      if buf_id =? msg_id then
        do_ upd_ctx x (upd_last_pub_time (λ _, m_time m));
        do_ upd_ctx x (upd_last_pub_msg_id (λ _, m_msg_id m));
        do_ upd_ctx x (upd_send_msg_queue (drop 1));
        do_ modify (upd_stats (msg_stat (m_msg_id m)));
        do_ modify (upd_stats (with_stat (stat_idx (m_msg_id m)) inc_ack_client));
        ret 0
      else ret 0
  end.

(** [CTMqttClientContext::flush]. *)
Definition ctx_flush (x : Z) : M unit :=
  do c <- get_ctx x;
  emit_out (ClientRecord (mkClientRecord c (zlen (send_msg_queue c)))).
End operations.

(** ** Destruction of shared objects *)

(** The contexts that a [shared_ptr] refers to. *)
Definition live_ctxs (w : World) : gset Z :=
  ⋃ map (λ '(_, o), match o_derived o with
                    | Connection c => option_to_set (m_client_context c)
                    | _ => ∅
                    end) (map_to_list (w_objs w)) ∪
  ⋃ map (λ '(_, n), m_subcriber_clients n) (map_to_list (w_topics w)) ∪
  list_to_set (map snd (map_to_list (w_clients w))).

Definition live_mbufs (w : World) : gset Z :=
  ⋃ map (λ '(_, o), list_to_set (m_send_msg_queue (o_handler o))) (map_to_list (w_objs w)) ∪
  ⋃ map (λ '(_, c), list_to_set (send_msg_queue c)) (map_to_list (w_ctxs w)) ∪
  ⋃ map (λ '(_, n), option_to_set (m_retian_msg_buf n)) (map_to_list (w_topics w)) ∪
  list_to_set (m_notify_deque (w_poller w)).

(** [CMbuf::~CMbuf]. *)
Definition destroy_mbuf (m : CMbuf) (s : CMsgMemStore) : CMsgMemStore :=
  if negb (m_msg_id m =? 0) && m_mem_db m then del_msg (m_msg_id m) s else s.

Definition collect_ctxs (w : World) : World :=
  let live := live_ctxs w in
  upd_ctxs (filter (λ '(x, _), x ∈ live)) w.

Definition collect_mbufs (w : World) : World :=
  let live := live_mbufs w in
  upd_store (λ s, foldr (λ '(_, m) s, destroy_mbuf m s) s
                    (map_to_list (filter (λ '(b, _), b ∉ live) (w_mbufs w))))
    (upd_mbufs (filter (λ '(b, _), b ∈ live)) w).

Definition collect (w : World) : World := collect_mbufs (collect_ctxs w).

(** ** Rules for the elementary operations

    [safe m Q w] from the state [w]; the client works with the resulting state. *)

Section rules.
Context {E : Env}.
Implicit Types (w : World) (Q : World → Prop).

Lemma safe_sys {A} (f : nat → A) (Q : A → World → Prop) w :
  Q (f (w_calls w)) (upd_calls S w) → safe (sys f) Q w.
Proof. done. Qed.

Lemma safe_crash_false {A} u (Q : A → World → Prop) w : safe (crash u) Q w → False.
Proof. done. Qed.

Lemma safe_get_obj p o (Q : object → World → Prop) w :
  w_objs w !! p = Some o → Q o w → safe (get_obj p) Q w.
Proof. intros Ho HQ. unfold safe, wp, get_obj. by rewrite Ho. Qed.

Lemma safe_get_handler p o (Q : CEventHandler → World → Prop) w :
  w_objs w !! p = Some o → Q (o_handler o) w → safe (get_handler p) Q w.
Proof. intros Ho HQ. unfold get_handler. apply safe_bind. by eapply safe_get_obj. Qed.

Lemma safe_upd_handler p f o (Q : unit → World → Prop) w :
  w_objs w !! p = Some o →
  Q tt (upd_objs <[p := mkObject (f (o_handler o)) (o_derived o)]> w) →
  safe (upd_handler p f) Q w.
Proof. intros Ho HQ. unfold upd_handler. apply safe_bind. by eapply safe_get_obj. Qed.

Lemma safe_get_conn p h c (Q : CMqttConnection → World → Prop) w :
  w_objs w !! p = Some (mkObject h (Connection c)) → Q c w → safe (get_conn p) Q w.
Proof. intros Ho HQ. unfold get_conn. apply safe_bind. by eapply safe_get_obj. Qed.

Lemma safe_upd_conn p f h c (Q : unit → World → Prop) w :
  w_objs w !! p = Some (mkObject h (Connection c)) →
  Q tt (upd_objs <[p := mkObject h (Connection (f c))]> w) →
  safe (upd_conn p f) Q w.
Proof. intros Ho HQ. unfold upd_conn. apply safe_bind. by eapply safe_get_obj. Qed.

Lemma safe_get_ctx x c (Q : CTMqttClientContext → World → Prop) w :
  w_ctxs w !! x = Some c → Q c w → safe (get_ctx x) Q w.
Proof. intros Ho HQ. unfold safe, wp, get_ctx. by rewrite Ho. Qed.

Lemma safe_upd_ctx x f c (Q : unit → World → Prop) w :
  w_ctxs w !! x = Some c → Q tt (upd_ctxs <[x := f c]> w) → safe (upd_ctx x f) Q w.
Proof. intros Ho HQ. unfold upd_ctx. apply safe_bind. by eapply safe_get_ctx. Qed.

Lemma safe_get_mbuf b m (Q : CMbuf → World → Prop) w :
  w_mbufs w !! b = Some m → Q m w → safe (get_mbuf b) Q w.
Proof. intros Ho HQ. unfold safe, wp, get_mbuf. by rewrite Ho. Qed.

Lemma safe_upd_mbuf b f m (Q : unit → World → Prop) w :
  w_mbufs w !! b = Some m → Q tt (upd_mbufs <[b := f m]> w) → safe (upd_mbuf b f) Q w.
Proof. intros Ho HQ. unfold upd_mbuf. apply safe_bind. by eapply safe_get_mbuf. Qed.

Lemma safe_delete_obj p o (Q : unit → World → Prop) w :
  w_objs w !! p = Some o → Q tt (upd_objs (delete p) w) → safe (delete_obj p) Q w.
Proof. intros Ho HQ. unfold delete_obj. apply safe_bind. by eapply safe_get_obj. Qed.

Lemma safe_fresh_id (Q : Z → World → Prop) w :
  Q (w_next w) (upd_next (λ n, n + 1) w) → safe fresh_id Q w.
Proof. done. Qed.

End rules.
