(* ===== verification/Sample.v ===== *)
(** * A sample environment

    A concrete environment and a first world, for the witnesses of the theorems and
    for the runs that show a defect. *)

From S2P Require Import Prelude Msg Mbuf MemStore Context World.
From stdpp Require Import options.

(** Reads return the first bytes of [input], writes answer [write], and the next
    accepted descriptor is [fd]; nothing is uninitialised but zero. *)
Definition quiet_env (input : list Z) (write : Z → list Z → io_result) (fd : Z) : Env := {|
  env_write := λ _ s l, write s l;
  env_read := λ _ _ k, ReadOk (take (Z.to_nat k) (map u8 input));
  env_accept := λ _, IoOk fd;
  env_epoll_wait := λ _ _, WaitOk [];
  env_epoll_ctl := λ _, None;
  env_peer := λ _ _, of_string "10.0.0.1:1";
  env_time := λ _, 1000;
  env_junk := λ _ _, 0;
  env_order := λ _ X, elements X;
  env_topic_order := λ _ X, elements X;
  env_mqtt_bridge := 0;
|}.

Definition write_all (_ : Z) (l : list Z) : io_result := IoOk (zlen l).

Lemma quiet_laws input fd : @EnvLaws (quiet_env input write_all fd).
Proof.
  split; simpl; try done.
  - intros n s l k [= <-]. pose proof (zlen_nonneg l). lia.
  - intros n s k l Hk [= <-]. split.
    + unfold zlen. rewrite length_take. lia.
    + apply Forall_take, list.Forall_forall. intros b Hb.
      apply list_elem_of_fmap in Hb as (a&->&_). apply u8_range.
  - intros n I l e p [= <-] Hl. by apply elem_of_nil in Hl.
Qed.

Lemma quiet_calm input fd : @Calm (quiet_env input write_all fd).
Proof. split; [apply quiet_laws|done|done]. Qed.

Lemma quiet_progress input fd : @write_progress (quiet_env input write_all fd).
Proof.
  intros _ _ l k [= <-] Hl. destruct l as [|a l]; [done|]. rewrite zlen_cons.
  pose proof (zlen_nonneg l). lia.
Qed.

Definition empty_world : World := {|
  w_calls := 0; w_errno := 0; w_objs := ∅; w_ctxs := ∅; w_mbufs := ∅; w_next := 1;
  w_topics := ∅; w_clients := ∅; w_store := new_CMsgMemStore 0; w_stats := ∅;
  w_poller := mkPoller ∅ None [] true ∅; w_out := [];
|}.

(** A handler on descriptor [fd] with the queue [q]. *)
Definition sample_handler (fd : Z) (q : list Z) : CEventHandler := {|
  m_sock_handle := fd; m_current_event_mask := if decide (q = []) then 2 else 6;
  m_recv_bytes := 0; m_recv_times := 0; m_send_bytes := 0; m_send_times := 0;
  m_schedule_write_times := 0; m_cancel_schedule_write_times := 0;
  m_max_msg_in_buffer := 50; m_send_msg_queue := q; m_str_peer_addr := [];
  m_accept_time := 0;
|}.

(** A buffer that holds the bytes [l]. *)
Definition sample_mbuf (l : list Z) (id : Z) : CMbuf := {|
  m_data := l; m_msg_type := MSG_DATA; m_read_pos := 0; m_write_pos := zlen l;
  m_msg_id := id; m_time := 0; m_mem_db := false;
|}.
