(* ===== verification/Handler.v ===== *)
(** * The poller's registrations and the output side of a handler

    Model of [add_event], [del_event], [mod_event], [notify] and the deque of
    src/reactor/poller_epoll.cpp, which the [CReactor] of src/reactor/reactor.cpp
    forwards to, and of src/reactor/event_handler.cpp: [put], [nonblk_send],
    [send], [handle_output] and the scheduling of writes.

    [handle_close] is virtual and [nonblk_send] calls it: the class [Virtual] is
    the interface, which Connection.v implements. *)

From S2P Require Import Prelude Msg Mbuf MemStore Context World.
From stdpp Require Import options.

(** ** Event masks *)

Definition EVENT_READ : Z := Z.shiftl 1 1.
Definition EVENT_WRITE : Z := Z.shiftl 1 2.
Definition EVENT_ERROR : Z := Z.shiftl 1 4.

Definition EPOLLIN : Z := 1.
Definition EPOLLOUT : Z := 4.
Definition EPOLLERR : Z := 8.
Definition EPOLLHUP : Z := 16.

(** [e & bit] as a condition. *)
Definition has (e bit : Z) : bool := negb (Z.land e bit =? 0).

Definition convert_event_mask (e : Z) : Z :=
  let op := 0 in
  let op := if has e EVENT_READ then Z.lor op EPOLLIN else op in
  let op := if has e EVENT_WRITE then Z.lor op EPOLLOUT else op in
  if has e EVENT_ERROR then Z.lor op EPOLLERR else op.

Definition upd_map_event_handlers (f : gmap Z Z → gmap Z Z) (p : CPoller) : CPoller :=
  mkPoller (f (m_map_event_handlers p)) (m_notify_writer p) (m_notify_deque p)
    (m_running_flag p) (interest_list p).

Definition upd_notify_deque (f : list Z → list Z) (p : CPoller) : CPoller :=
  mkPoller (m_map_event_handlers p) (m_notify_writer p) (f (m_notify_deque p))
    (m_running_flag p) (interest_list p).

Definition upd_notify_writer (f : option Z → option Z) (p : CPoller) : CPoller :=
  mkPoller (m_map_event_handlers p) (f (m_notify_writer p)) (m_notify_deque p)
    (m_running_flag p) (interest_list p).

(** The members a derived class may override and the base class calls. *)
Class Virtual : Type := { v_handle_close : Z → M Z }.

Section handler.
Context {E : Env} {V : Virtual}.

(** ** The poller *)

Definition add_event (p event_mask : Z) : M Z :=
  do h <- get_handler p;
  let socket_id := m_sock_handle h in
  do r <- sys_epoll_ctl <[socket_id := (convert_event_mask event_mask, p)]>;
  if r <? 0 then ret (-1)
  else
    do handlers <- gets (λ w, m_map_event_handlers (w_poller w));
    match handlers !! socket_id with
    | None =>
        do_ modify (upd_poller (upd_map_event_handlers <[socket_id := p]>));
        do_ upd_handler p (upd_current_event_mask (λ _, event_mask));
        ret 0
    | Some q =>
        if q =? p then ret 0
        else do_ upd_handler p (upd_current_event_mask (λ _, event_mask)); ret 0
    end.

Definition del_event (p : Z) : M Z :=
  do h <- get_handler p;
  let socket_id := m_sock_handle h in
  do r <- sys_epoll_ctl (delete socket_id);
  if r <? 0 then ret (-1)
  else
    do_ upd_handler p (upd_current_event_mask (λ _, 0));
    do_ modify (upd_poller (upd_map_event_handlers (delete socket_id)));
    ret 0.

Definition mod_event (p event_mask : Z) : M Z :=
  do h <- get_handler p;
  let socket := m_sock_handle h in
  do r <- sys_epoll_ctl <[socket := (convert_event_mask event_mask, p)]>;
  if r <? 0 then ret (-1)
  else
    do_ upd_handler p (upd_current_event_mask (λ _, event_mask));
    ret 0.

Definition regist_notify (p : Z) : M unit :=
  modify (upd_poller (upd_notify_writer (λ _, Some p))).

Definition unregist_notify : M unit :=
  modify (upd_poller (upd_notify_writer (λ _, None))).

Definition push_back (b : Z) : M Z :=
  do_ modify (upd_poller (upd_notify_deque (λ q, q ++ [b]))); ret 0.

Definition pop_front : M (option Z) :=
  do q <- gets (λ w, m_notify_deque (w_poller w));
  match q with
  | [] => ret None
  | b :: _ => do_ modify (upd_poller (upd_notify_deque (drop 1))); ret (Some b)
  end.

(** ** Scheduling of writes *)

Definition schedule_write (p : Z) : M Z :=
  do_ upd_handler p (upd_schedule_write_times (λ n, u64 (n + 1)));
  do h <- get_handler p;
  if has (m_current_event_mask h) EVENT_WRITE then ret 0
  else mod_event p (Z.lor (m_current_event_mask h) EVENT_WRITE).

(** The bit is flipped, not cleared. *)
Definition cancel_schedule_write (p : Z) : M Z :=
  do_ upd_handler p (upd_cancel_schedule_write_times (λ n, u64 (n + 1)));
  do h <- get_handler p;
  mod_event p (Z.lxor (m_current_event_mask h) EVENT_WRITE).

(** ** Sending *)

(** [send(mbuf, my_errno)]: the result and [my_errno].  [my_errno] is the value of
    [errno] after the call of [write], which a successful call leaves as it was. *)
Definition send (p b : Z) : M (Z * Z) :=
  do m <- get_mbuf b;
  let len := mbuf_length m in
  let data := take (Z.to_nat len) (from_read_ptr m) in
  if negb (zlen data =? len) then crash OutOfBounds
  else
    do h <- get_handler p;
    do n <- sys_write (m_sock_handle h) data;
    do my_errno <- gets w_errno;
    if n <=? 0 then
      if would_block my_errno then ret (0, my_errno) else ret (n, my_errno)
    else
      do_ upd_handler p (upd_send_times (λ k, u64 (k + 1)));
      do_ upd_handler p (upd_send_bytes (λ k, u64 (k + n)));
      if n <? len then
        do_ upd_mbuf b (mbuf_read_ptr n);
        ret (n, EWOULDBLOCK)
      else if n =? len then
        do_ set_errno 0; ret (n, my_errno)
      else ret (n, my_errno).

Definition nonblk_send (p b : Z) : M Z :=
  do (n, my_errno) <- send p b;
  if n =? -1 then
    do _ <- v_handle_close p; ret (-1)
  else if would_block my_errno then
    do_ upd_handler p (upd_msg_queue (λ q, b :: q));
    do _ <- schedule_write p;
    ret 0
  else ret n.

Definition put (p b : Z) : M Z :=
  do h <- get_handler p;
  match m_send_msg_queue h with
  | [] => nonblk_send p b
  | q =>
      let msg_size := u32 (zlen q) in
      if m_max_msg_in_buffer h <=? msg_size then ret (-1)
      else
        do_ upd_handler p (upd_msg_queue (λ q, q ++ [b]));
        do _ <- schedule_write p;
        ret 0
  end.

(** After a failing [nonblk_send] the object has been deleted, and the queue of
    the deleted object is looked at. *)
Definition handle_output (p : Z) : M Z :=
  do h <- get_handler p;
  match m_send_msg_queue h with
  | [] => do _ <- cancel_schedule_write p; ret 0
  | b :: _ =>
      do_ upd_handler p (upd_msg_queue (drop 1));
      do _ <- nonblk_send p b;
      do h <- get_handler p;
      match m_send_msg_queue h with
      | [] => do _ <- cancel_schedule_write p; ret 0
      | _ => ret 0
      end
  end.

(** ** Opening and closing *)

(** The constructor; [m_current_event_mask] is not initialised. *)
Definition new_CEventHandler (fd mask now : Z) : CEventHandler :=
  {| m_sock_handle := fd; m_current_event_mask := mask; m_recv_bytes := 0;
     m_recv_times := 0; m_send_bytes := 0; m_send_times := 0;
     m_schedule_write_times := 0; m_cancel_schedule_write_times := 0;
     m_max_msg_in_buffer := 50; m_send_msg_queue := []; m_str_peer_addr := [];
     m_accept_time := now |}.

Definition handler_open (p : Z) : M Z :=
  do h <- get_handler p;
  do peer <- sys (λ n, env_peer n (m_sock_handle h));
  do_ upd_handler p (upd_peer_addr (λ _, peer));
  add_event p EVENT_READ.

(** [CSockBase::close]. *)
Definition sock_close (p : Z) : M Z :=
  do h <- get_handler p;
  if negb (m_sock_handle h =? -1) then
    do_ sys_close (m_sock_handle h);
    do_ upd_handler p (upd_sock_handle (λ _, -1));
    ret 0
  else ret 0.

Definition handler_close (p : Z) : M Z :=
  do _ <- del_event p;
  do _ <- sock_close p;
  ret 0.

(** [CEventHandler::handle_close]. *)
Definition base_handle_close (p : Z) : M Z :=
  do _ <- handler_close p;
  do_ delete_obj p;
  ret 0.

End handler.
