(* ===== verification/Delivery.v ===== *)
(** * What a handler sends

    The functional behaviour of the output side of Handler.v in an environment
    whose sockets fail only by flow control: what [put] and [handle_output] send,
    queue and leave alone, and what they do when [errno] is stale or a write
    fails. *)

From S2P Require Import Prelude Msg Mbuf MemStore Context World Sample Handler.
From stdpp Require Import options.

(** ** Frames *)

(** The parts of the world that sending does not touch. *)
Definition core (w : World) :=
  (w_ctxs w, w_topics w, w_clients w, w_store w, w_stats w, w_next w,
   (m_map_event_handlers (w_poller w), m_notify_writer (w_poller w),
    m_notify_deque (w_poller w), m_running_flag (w_poller w))).

(** The bytes sent to a descriptor. *)
Definition sent_bytes (fd : Z) (l : list output) : list Z :=
  concat (map (λ o, match o with Sent s l => if s =? fd then l else [] | _ => [] end) l).

Definition sent_to (fd : Z) (w : World) : list Z := sent_bytes fd (w_out w).

Lemma sent_bytes_app fd l k : sent_bytes fd (l ++ k) = sent_bytes fd l ++ sent_bytes fd k.
Proof. unfold sent_bytes. by rewrite map_app, concat_app. Qed.

(** The bytes that wait in the queue of a handler. *)
Definition queued (w : World) (q : list Z) : list Z :=
  concat (map (λ b, match w_mbufs w !! b with Some m => contents m | None => [] end) q).

(** Every registration with the kernel is an old one or that of [p]. *)
Definition interest_from (p fd : Z) (w w' : World) : Prop :=
  ∀ s mask q, interest_list (w_poller w') !! s = Some (mask, q) →
    (s = fd ∧ q = p) ∨ interest_list (w_poller w) !! s = Some (mask, q).

(** A step of [p] that sends the buffer [b]: [h'] and [m'] are the handler and the
    buffer after it, [l] what it sent and [q] what it put in front of the queue. *)
Record sends (p b : Z) (o : object) (m : CMbuf) (h' : CEventHandler) (m' : CMbuf)
    (l : list output) (q : list Z) (w w' : World) : Prop := {
  se_core : core w' = core w;
  se_objs : w_objs w' = <[p := mkObject h' (o_derived o)]> (w_objs w);
  se_mbufs : w_mbufs w' = <[b := m']> (w_mbufs w);
  se_interest : interest_from p (m_sock_handle (o_handler o)) w w';
  se_out : w_out w' = w_out w ++ l;
  se_id : m_msg_id m' = m_msg_id m;
  se_mem_db : m_mem_db m' = m_mem_db m;
  se_type : m_msg_type m' = m_msg_type m;
  se_wf : wf_mbuf m';
  se_handle : m_sock_handle h' = m_sock_handle (o_handler o);
  se_max : m_max_msg_in_buffer h' = m_max_msg_in_buffer (o_handler o);
  se_fd : ∀ fd, fd ≠ m_sock_handle (o_handler o) → sent_bytes fd l = [];
  se_write : q ≠ [] → has (m_current_event_mask h') EVENT_WRITE = true;
}.

(** A step that changes members of the handler [p] only. *)
Record h_step (p : Z) (o : object) (h' : CEventHandler) (w w' : World) : Prop := {
  hs_core : core w' = core w;
  hs_objs : w_objs w' = <[p := mkObject h' (o_derived o)]> (w_objs w);
  hs_mbufs : w_mbufs w' = w_mbufs w;
  hs_out : w_out w' = w_out w;
  hs_errno : w_errno w' = w_errno w;
  hs_interest : interest_from p (m_sock_handle (o_handler o)) w w';
}.

Section delivery.
Context {E : Env} {C : Calm}.
Context {V : Virtual}.
Implicit Types w : World.

Lemma interest_from_refl p fd w : interest_from p fd w w.
Proof. intros ???; auto. Qed.

Lemma interest_from_trans p fd w1 w2 w3 :
  interest_from p fd w1 w2 → interest_from p fd w2 w3 → interest_from p fd w1 w3.
Proof. intros H1 H2 s m q Hs. destruct (H2 s m q Hs); auto. Qed.

Lemma h_step_trans p o h1 h2 w1 w2 w3 :
  h_step p o h1 w1 w2 → h_step p (mkObject h1 (o_derived o)) h2 w2 w3 →
  m_sock_handle h1 = m_sock_handle (o_handler o) → h_step p o h2 w1 w3.
Proof.
  intros [] [] Hs; simpl in *. split; try congruence.
  - rewrite hs_objs1, hs_objs0. by rewrite insert_insert_eq.
  - rewrite Hs in *. by eapply interest_from_trans.
Qed.

Lemma h_step_lookup p o h' w w' : h_step p o h' w w' →
  w_objs w' !! p = Some (mkObject h' (o_derived o)).
Proof. intros []. rewrite hs_objs0. apply lookup_insert_eq. Qed.

Lemma safe_sys_epoll_ctl f (Q : Z → World → Prop) w :
  (∀ w', core w' = core w → w_objs w' = w_objs w → w_mbufs w' = w_mbufs w →
         w_out w' = w_out w → w_errno w' = w_errno w →
         interest_list (w_poller w') = f (interest_list (w_poller w)) → Q 0 w') →
  safe (sys_epoll_ctl f) Q w.
Proof using C.
  intros HQ. unfold sys_epoll_ctl. apply safe_bind, safe_sys. rewrite calm_ctl.
  by apply HQ.
Qed.

Lemma safe_upd_handler_step p o f (Q : unit → World → Prop) w :
  w_objs w !! p = Some o →
  (∀ w', h_step p o (f (o_handler o)) w w' → Q tt w') → safe (upd_handler p f) Q w.
Proof.
  intros Ho HQ. eapply safe_upd_handler; [done|]. apply HQ. split; try done.
  intros ???; by right.
Qed.

Lemma safe_mod_event p o mask (Q : Z → World → Prop) w :
  w_objs w !! p = Some o →
  (∀ w', h_step p o (upd_current_event_mask (λ _, mask) (o_handler o)) w w' → Q 0 w') →
  safe (mod_event p mask) Q w.
Proof using C.
  intros Ho HQ. unfold mod_event. apply safe_bind. eapply safe_get_handler; [done|].
  apply safe_bind, safe_sys_epoll_ctl. intros w1 Hc Hobj Hm Hout He Hi.
  change (0 <? 0) with false. cbn iota.
  apply safe_bind. eapply safe_upd_handler; [by rewrite Hobj|].
  apply safe_ret, HQ. split; simpl; try done; [by rewrite Hobj|].
  intros s k q. simpl. rewrite Hi.
  destruct (decide (s = m_sock_handle (o_handler o))) as [->|].
  - rewrite lookup_insert_eq. intros [= _ <-]. by left.
  - rewrite lookup_insert_ne by done. by right.
Qed.

(** *** Event masks *)

Lemma has_lor mask : has (Z.lor mask EVENT_WRITE) EVENT_WRITE = true.
Proof.
  unfold has. apply negb_true_iff, Z.eqb_neq. intros H.
  apply (f_equal (λ z, Z.testbit z 2)) in H.
  rewrite Z.land_spec, Z.lor_spec, orb_true_r, Z.bits_0 in H. done.
Qed.

Lemma has_testbit mask : has mask EVENT_WRITE = Z.testbit mask 2.
Proof.
  unfold has, EVENT_WRITE. change (Z.shiftl 1 2) with (2 ^ 2).
  destruct (Z.testbit mask 2) eqn:H.
  - apply negb_true_iff, Z.eqb_neq. intros H'.
    apply (f_equal (λ z, Z.testbit z 2)) in H'. by rewrite Z.land_spec, H in H'.
  - apply negb_false_iff, Z.eqb_eq, Z.bits_inj'. intros i Hi.
    rewrite Z.land_spec, Z.bits_0, Z.pow2_bits_eqb by lia.
    destruct (Z.eqb_spec 2 i) as [<-|]; [by rewrite H|apply andb_false_r].
Qed.

Lemma has_lxor mask : has mask EVENT_WRITE = true → has (Z.lxor mask EVENT_WRITE) EVENT_WRITE = false.
Proof. rewrite !has_testbit. intros H. by rewrite Z.lxor_spec, H. Qed.

(** *** Scheduling *)

Lemma safe_schedule_write p o (Q : Z → World → Prop) w :
  w_objs w !! p = Some o →
  (∀ h' w', h_step p o h' w w' → m_send_msg_queue h' = m_send_msg_queue (o_handler o) →
     m_sock_handle h' = m_sock_handle (o_handler o) →
     m_max_msg_in_buffer h' = m_max_msg_in_buffer (o_handler o) →
     has (m_current_event_mask h') EVENT_WRITE = true → Q 0 w') →
  safe (schedule_write p) Q w.
Proof using C.
  intros Ho HQ. unfold schedule_write. apply safe_bind.
  eapply safe_upd_handler_step; [done|]. intros w1 H1. pose proof (h_step_lookup _ _ _ _ _ H1) as Ho1.
  apply safe_bind. eapply safe_get_handler; [done|]. cbn [o_handler].
  destruct (has _ EVENT_WRITE) eqn:Hh.
  - apply safe_ret. by eapply HQ.
  - eapply safe_mod_event; [done|]. intros w2 H2.
    eapply (HQ _ w2); [by eapply h_step_trans|done..|]. apply has_lor.
Qed.

Lemma safe_cancel_schedule_write p o (Q : Z → World → Prop) w :
  w_objs w !! p = Some o →
  (∀ h' w', h_step p o h' w w' → m_send_msg_queue h' = m_send_msg_queue (o_handler o) →
     m_sock_handle h' = m_sock_handle (o_handler o) →
     m_max_msg_in_buffer h' = m_max_msg_in_buffer (o_handler o) →
     (has (m_current_event_mask (o_handler o)) EVENT_WRITE = true →
      has (m_current_event_mask h') EVENT_WRITE = false) → Q 0 w') →
  safe (cancel_schedule_write p) Q w.
Proof using C.
  intros Ho HQ. unfold cancel_schedule_write. apply safe_bind.
  eapply safe_upd_handler_step; [done|]. intros w1 H1. pose proof (h_step_lookup _ _ _ _ _ H1) as Ho1.
  apply safe_bind. eapply safe_get_handler; [done|]. cbn [o_handler].
  eapply safe_mod_event; [done|]. intros w2 H2.
  eapply (HQ _ w2); [by eapply h_step_trans|done..|]. apply has_lxor.
Qed.

Lemma sends_obj p b o o1 m h' m' l q w w' :
  o_derived o1 = o_derived o → m_sock_handle (o_handler o1) = m_sock_handle (o_handler o) →
  m_max_msg_in_buffer (o_handler o1) = m_max_msg_in_buffer (o_handler o) →
  sends p b o1 m h' m' l q w w' → sends p b o m h' m' l q w w'.
Proof. intros Hd Hs Hm []. rewrite Hd, Hs, Hm in *. by split. Qed.

(** *** Sending a buffer *)

(** The bytes [send] passes to [write]. *)
Lemma send_data m : wf_mbuf m → zlen (contents m) =? mbuf_length m = true.
Proof. intros Hm. rewrite zlen_contents by done. apply Z.eqb_refl. Qed.

(** The outcome of [nonblk_send]: what it sent and what it left for later make up
    the buffer, unless [errno] was stale. *)
Definition sent_or_kept (fd : Z) (m m' : CMbuf) (l : list output) (q : list Z) : Prop :=
  sent_bytes fd l ++ (match q with [] => [] | _ => contents m' end) = contents m.

Lemma sent_bytes_one fd l : sent_bytes fd [Sent fd l] = l.
Proof. unfold sent_bytes; simpl. by rewrite Z.eqb_refl, app_nil_r. Qed.

Lemma sent_bytes_other fd s l : fd ≠ s → sent_bytes fd [Sent s l] = [].
Proof. intros H. unfold sent_bytes; simpl. by destruct (Z.eqb_spec s fd). Qed.

(** The end of [nonblk_send] when the message has to wait. *)
Lemma safe_requeue p b o m m' l (Q : Z → World → Prop) w w1 :
  w_objs w1 !! p = Some o → core w1 = core w → 
  w_objs w1 = <[p := o]> (w_objs w) → w_mbufs w1 = <[b := m']> (w_mbufs w) →
  interest_from p (m_sock_handle (o_handler o)) w w1 → w_out w1 = w_out w ++ l →
  m_msg_id m' = m_msg_id m → m_mem_db m' = m_mem_db m → m_msg_type m' = m_msg_type m →
  wf_mbuf m' → (∀ fd, fd ≠ m_sock_handle (o_handler o) → sent_bytes fd l = []) →
  (∀ h' w', sends p b o m h' m' l [b] w w' →
     m_send_msg_queue h' = b :: m_send_msg_queue (o_handler o) → Q 0 w') →
  safe (do_ upd_handler p (upd_msg_queue (λ q, b :: q)); do _ <- schedule_write p; ret 0) Q w1.
Proof using C.
  intros Ho Hc Hobj Hm Hi Hout Hid Hdb Hty Hwf Hfd HQ. apply safe_bind.
  eapply safe_upd_handler_step; [done|]. intros w2 H2.
  pose proof (h_step_lookup _ _ _ _ _ H2) as Ho2.
  apply safe_bind. eapply safe_schedule_write; [done|]. intros h' w3 H3 Hq Hs Hmx Hw.
  apply safe_ret. apply (HQ h'); [|done]. destruct H2, H3; simpl in *. split; try (done || congruence).
  - rewrite hs_objs1, hs_objs0, Hobj. by rewrite !insert_insert_eq.
  - intros s k q Hsk. destruct (hs_interest1 _ _ _ Hsk) as [?|Hsk']; [by left|].
    destruct (hs_interest0 _ _ _ Hsk') as [?|?]; [by left|]. by apply Hi.
Qed.

Lemma safe_sys_write fd data (Q : Z → World → Prop) w :
  (∀ e, would_block e = true → env_write (w_calls w) fd data = IoErr e → Q (-1) (upd_errno (λ _, e) (upd_calls S w))) →
  (∀ n, 0 <= n <= zlen data → (write_progress → data ≠ [] → 0 < n) →
        env_write (w_calls w) fd data = IoOk n → Q n (upd_out (λ l, l ++ [Sent fd (take (Z.to_nat n) data)]) (upd_calls S w))) →
  safe (sys_write fd data) Q w.
Proof using C.
  intros Herr Hok. unfold sys_write. apply safe_bind, safe_sys.
  destruct (env_write (w_calls w) fd data) as [n|e] eqn:Hw.
  - apply safe_bind, safe_modify, safe_ret, Hok; [by eapply env_write_ok| |done].
    intros Hp Hne. by eapply Hp.
  - apply safe_bind, safe_modify, safe_ret, Herr; [by eapply calm_write|done].
Qed.

Lemma safe_nonblk_send p b o m (Q : Z → World → Prop) w :
  w_objs w !! p = Some o → w_mbufs w !! b = Some m → wf_mbuf m →
  (∀ h' m' l q r w', sends p b o m h' m' l q w w' →
     m_send_msg_queue h' = q ++ m_send_msg_queue (o_handler o) → q = [] ∨ q = [b] → 0 <= r →
     (q = [] → m_current_event_mask h' = m_current_event_mask (o_handler o)) →
     (would_block (w_errno w) = false → write_progress →
      sent_or_kept (m_sock_handle (o_handler o)) m m' l q) →
     (would_block (w_errno w) = true → contents m ≠ [] →
      (∀ n fd l, env_write n fd l = IoOk (zlen l)) →
      sent_bytes (m_sock_handle (o_handler o)) l = contents m ∧ q = [b] ∧ m' = m) →
     Q r w') →
  safe (nonblk_send p b) Q w.
Proof using C.
  intros Ho Hm Hwf HQ. set (fd := m_sock_handle (o_handler o)) in *.
  pose proof (mbuf_length_wf m Hwf) as Hlen. pose proof (zlen_contents m Hwf) as Hzl.
  unfold nonblk_send, send. apply safe_bind, safe_bind. eapply safe_get_mbuf; [done|].
  fold (contents m). rewrite send_data by done. cbn [negb].
  apply safe_bind. eapply safe_get_handler; [done|]. fold fd.
  assert (w_mbufs w = <[b:=m]> (w_mbufs w)) as Hmm by (by rewrite insert_id).
  assert (w_objs w = <[p:=o]> (w_objs w)) as Hoo by (by rewrite insert_id).
  apply safe_bind, safe_sys_write.
  - intros e He Hew. apply safe_bind, safe_gets. cbn [w_errno upd_errno upd_calls].
    change (-1 <=? 0) with true. cbn iota. rewrite He. apply safe_ret.
    change (0 =? -1) with false. cbn iota. rewrite He.
    apply (safe_requeue p b o m m [] Q w); try done; [intros ???; by right|by rewrite app_nil_r|].
    intros h' w' Hs Hq. apply (HQ h' m [] [b]); [done|done|by right|lia|done|done|].
    intros _ _ Hall. by rewrite Hall in Hew.
  - intros n Hn Hp Hew. apply safe_bind, safe_gets. cbn [w_errno upd_out upd_calls].
    set (l := [Sent fd (take (Z.to_nat n) (contents m))]).
    destruct (Z.leb_spec n 0) as [Hn0|Hn0].
    + assert (n = 0) as -> by lia. subst l. cbn [Z.to_nat take].
      assert (write_progress → contents m = []) as Hnil.
      { intros Hwp. destruct (decide (contents m = [])) as [|Hne]; [done|].
        specialize (Hp Hwp Hne). lia. }
      destruct (would_block (w_errno w)) eqn:Hst; apply safe_ret; change (0 =? -1) with false;
        cbn iota; cbn beta; rewrite ?Hst.
      * apply (safe_requeue p b o m m [Sent fd []] Q w); try done;
          [intros ???; by right|intros s Hs; by apply sent_bytes_other|].
        intros h' w' Hs Hq. apply (HQ h' m [Sent fd []] [b]); [done|done|by right|lia|done|by intros|].
        intros _ Hne Hall. rewrite Hall in Hew. injection Hew as Hew.
        destruct (contents m); [done|]. rewrite zlen_cons in Hew. zlia.
      * apply safe_ret. apply (HQ (o_handler o) m [Sent fd []] []); [|done|by left|lia|done| |done].
        { destruct o. split; try done; [intros ???; by right|intros s Hs; by apply sent_bytes_other]. }
        intros _ Hwp. unfold sent_or_kept. by rewrite sent_bytes_one, Hnil.
    + apply safe_bind. eapply safe_upd_handler; [done|].
      apply safe_bind. eapply safe_upd_handler; [apply lookup_insert_eq|].
      set (o1 := mkObject _ _). cbn [o_handler o_derived upd_objs w_objs] in o1.
      destruct (Z.ltb_spec n (mbuf_length m)) as [Hlt|Hge].
      * apply safe_bind. eapply safe_upd_mbuf; [done|]. apply safe_ret.
        destruct (Z.eqb_spec n (-1)); [lia|]. change (would_block EWOULDBLOCK) with true. cbn iota.
        destruct (mbuf_read_ptr_contents n m Hwf) as [Hwf' Hc']; [lia|].
        destruct (mbuf_read_ptr_same n m) as (Hs1&Hs2&Hs3).
        apply (safe_requeue p b o1 m (mbuf_read_ptr n m) l Q w); try done.
        { apply lookup_insert_eq. }
        { cbn. by rewrite insert_insert_eq. }
        { intros ???; by right. }
        { intros s Hs; by apply sent_bytes_other. }
        intros h' w' Hs Hq. apply (sends_obj p b o) in Hs; [|done..].
        apply (HQ h' (mbuf_read_ptr n m) l [b]); [done|done|by right|lia|done| |].
        { intros _ _. unfold sent_or_kept, l. by rewrite sent_bytes_one, Hc', take_drop. }
        intros _ _ Hall. rewrite Hall in Hew. injection Hew as Hew. lia.
      * destruct (Z.eqb_spec n (mbuf_length m)) as [Hnl|]; [|lia].
        assert (take (Z.to_nat n) (contents m) = contents m) as Htk
          by (apply take_ge; unfold zlen in *; lia).
        unfold l in *. rewrite Htk. clear l.
        apply safe_bind, safe_modify, safe_ret. destruct (Z.eqb_spec n (-1)); [lia|].
        destruct (would_block (w_errno w)) eqn:Hst.
        -- apply (safe_requeue p b o1 m m [Sent fd (contents m)] Q w); try done.
           { apply lookup_insert_eq. }
           { cbn. by rewrite insert_insert_eq. }
           { intros ???; by right. }
           { intros s Hs; by apply sent_bytes_other. }
           intros h' w' Hs Hq. apply (sends_obj p b o) in Hs; [|done..].
           apply (HQ h' m [Sent fd (contents m)] [b]); [done|done|by right|lia|done|done|].
           intros _ _ _. by rewrite sent_bytes_one.
        -- apply safe_ret.
           apply (HQ (o_handler o1) m [Sent fd (contents m)] []); [|done|by left|lia|done| |done].
           { split; try done; cbn; [by rewrite insert_insert_eq| |].
             - intros ???; by right.
             - intros s Hs; by apply sent_bytes_other. }
           intros _ _. unfold sent_or_kept. by rewrite sent_bytes_one, app_nil_r.
Qed.

Lemma sends_refl p b o m w :
  w_objs w !! p = Some o → w_mbufs w !! b = Some m → wf_mbuf m →
  sends p b o m (o_handler o) m [] [] w w.
Proof.
  intros Ho Hm Hwf. split; try done.
  - rewrite insert_id; [done|]. by destruct o.
  - by rewrite insert_id.
  - intros ???; by right.
  - by rewrite app_nil_r.
Qed.

(** A step of the handler after one that sends. *)
Lemma sends_h_step p b o m h1 h2 m' l q w w1 w2 :
  sends p b o m h1 m' l q w w1 → h_step p (mkObject h1 (o_derived o)) h2 w1 w2 →
  m_sock_handle h2 = m_sock_handle h1 → m_max_msg_in_buffer h2 = m_max_msg_in_buffer h1 →
  (q ≠ [] → has (m_current_event_mask h2) EVENT_WRITE = true) →
  sends p b o m h2 m' l q w w2.
Proof.
  intros [] [] Hs Hmx Hq; simpl in *. split; try (done || congruence).
  - by rewrite hs_objs0, se_objs0, insert_insert_eq.
  - rewrite se_handle0 in *. by eapply interest_from_trans.
Qed.

(** A step of the handler before one that sends. *)
Lemma h_step_sends p b o m h1 h2 m' l q w w1 w2 :
  h_step p o h1 w w1 → sends p b (mkObject h1 (o_derived o)) m h2 m' l q w1 w2 →
  m_sock_handle h1 = m_sock_handle (o_handler o) →
  m_max_msg_in_buffer h1 = m_max_msg_in_buffer (o_handler o) →
  sends p b o m h2 m' l q w w2.
Proof.
  intros [] [] Hs Hmx; simpl in *. split; try (done || congruence).
  - by rewrite se_objs0, hs_objs0, insert_insert_eq.
  - rewrite Hs in *. by eapply interest_from_trans.
  - intros fd Hfd. apply se_fd0. congruence.
Qed.

(** What [put] does: send the buffer now, append it to the queue, or refuse it
    when the queue is full. *)
Lemma safe_put p b o m (Q : Z → World → Prop) w :
  w_objs w !! p = Some o → w_mbufs w !! b = Some m → wf_mbuf m →
  (∀ h' m' l q r w', sends p b o m h' m' l q w w' →
     m_send_msg_queue h' = m_send_msg_queue (o_handler o) ++ q → q = [] ∨ q = [b] →
     (m_send_msg_queue (o_handler o) ≠ [] → l = [] ∧ m' = m ∧ (q = [] → w' = w)) →
     -1 <= r → (r = -1 ↔ m_send_msg_queue (o_handler o) ≠ [] ∧ q = []) →
     (would_block (w_errno w) = false → write_progress → r ≠ -1 →
      sent_or_kept (m_sock_handle (o_handler o)) m m' l q) →
     Q r w') →
  safe (put p b) Q w.
Proof using C.
  intros Ho Hm Hwf HQ. unfold put. apply safe_bind. eapply safe_get_handler; [done|].
  destruct (m_send_msg_queue (o_handler o)) as [|b0 q0] eqn:Hq.
  - eapply safe_nonblk_send; [done..|]. intros h' m' l q r w' Hs Hq' Hcq Hr _ Hk _.
    rewrite Hq, app_nil_r in Hq'. apply (HQ h' m' l q); try done; [lia| |].
    + split; [lia|by intros []].
    + intros; by apply Hk.
  - destruct (_ <=? _).
    + apply safe_ret. apply (HQ (o_handler o) m [] []); [by apply sends_refl| |by left| |lia| |done].
      * by rewrite Hq, app_nil_r.
      * intros _. split_and!; done.
      * by split; [intros _; split|].
    + apply safe_bind. eapply safe_upd_handler_step; [done|]. intros w1 H1.
      pose proof (h_step_lookup _ _ _ _ _ H1) as Ho1.
      apply safe_bind. eapply safe_schedule_write; [done|]. intros h' w2 H2 Hq' Hs Hmx Hw.
      apply safe_ret. apply (HQ h' m [] [b]); [|by rewrite Hq'; cbn; rewrite Hq|by right| |lia| |].
      * eapply (h_step_trans _ o) in H2; [|done|done]. destruct H2; simpl in *. split; try done.
        -- rewrite hs_mbufs0. by rewrite insert_id.
        -- by rewrite app_nil_r.
      * intros _. split_and!; done.
      * by split; [|intros [_ ?]].
      * intros _ _ _. unfold sent_or_kept. done.
Qed.

(** What [handle_output] does with the first buffer of the queue. *)
Lemma safe_handle_output p b q0 o m (Q : Z → World → Prop) w :
  w_objs w !! p = Some o → m_send_msg_queue (o_handler o) = b :: q0 →
  w_mbufs w !! b = Some m → wf_mbuf m →
  (∀ h' m' l q w', sends p b o m h' m' l q w w' →
     m_send_msg_queue h' = q ++ q0 → q = [] ∨ q = [b] →
     (has (m_current_event_mask (o_handler o)) EVENT_WRITE = true →
      has (m_current_event_mask h') EVENT_WRITE = bool_decide (q ++ q0 ≠ [])) →
     (would_block (w_errno w) = false → write_progress →
      sent_or_kept (m_sock_handle (o_handler o)) m m' l q) →
     Q 0 w') →
  safe (handle_output p) Q w.
Proof using C.
  intros Ho Hq Hm Hwf HQ. unfold handle_output. apply safe_bind. eapply safe_get_handler; [done|].
  rewrite Hq. apply safe_bind. eapply safe_upd_handler_step; [done|]. intros w1 H1.
  pose proof (h_step_lookup _ _ _ _ _ H1) as Ho1. pose proof (hs_errno _ _ _ _ _ H1) as He.
  apply safe_bind. eapply safe_nonblk_send; [done|by rewrite (hs_mbufs _ _ _ _ _ H1)|done|].
  intros h' m' l q r w2 Hs Hq' Hcq _ Hmask Hk _.
  eapply h_step_sends in Hs; [|done|done|done]. cbn [o_handler o_derived] in *.
  rewrite He in Hk. cbn in Hq', Hmask, Hk. rewrite Hq in Hq'. cbn in Hq'. rewrite ?drop_0 in Hq'.
  assert (w_objs w2 !! p = Some (mkObject h' (o_derived o))) as Ho2
    by (rewrite (se_objs _ _ _ _ _ _ _ _ _ _ Hs); apply lookup_insert_eq).
  apply safe_bind. eapply safe_get_handler; [done|]. cbn [o_handler].
  destruct (m_send_msg_queue h') as [|b1 q1] eqn:Hq2.
  - symmetry in Hq'. apply app_nil in Hq' as [-> ->].
    apply safe_bind. eapply safe_cancel_schedule_write; [done|].
    intros h2 w3 H3 Hq3 Hs3 Hm3 Hw3. apply safe_ret. cbn [o_handler] in *.
    apply (HQ h2 m' l []); [by eapply sends_h_step|by rewrite Hq3|done| |done].
    intros Hw. rewrite Hw3; [done|by rewrite Hmask].
  - apply safe_ret. apply (HQ h' m' l q); [done|by rewrite Hq2|done| |done].
    intros Hw. rewrite bool_decide_true by (by rewrite <- Hq').
    destruct q as [|]; [by rewrite Hmask|]. by apply (se_write _ _ _ _ _ _ _ _ _ _ Hs).
Qed.

(** *** Streams

    The bytes that have left for a descriptor followed by those that wait for it. *)

Definition stream (p : Z) (w : World) : list Z :=
  match w_objs w !! p with
  | Some o => sent_to (m_sock_handle (o_handler o)) w ++ queued w (m_send_msg_queue (o_handler o))
  | None => []
  end.

Lemma queued_app w q1 q2 : queued w (q1 ++ q2) = queued w q1 ++ queued w q2.
Proof. unfold queued. by rewrite map_app, concat_app. Qed.

Lemma queued_one w b m : w_mbufs w !! b = Some m → queued w [b] = contents m.
Proof. intros Hm. unfold queued; simpl. by rewrite Hm, app_nil_r. Qed.

Lemma queued_ext w w' q :
  (∀ b, b ∈ q → w_mbufs w' !! b = w_mbufs w !! b) → queued w' q = queued w q.
Proof.
  intros H. unfold queued. f_equal. apply map_ext_in. intros b Hb.
  by rewrite H by (by apply list_elem_of_In).
Qed.

Lemma queued_insert w w' b m q :
  w_mbufs w' = <[b := m]> (w_mbufs w) → b ∉ q → queued w' q = queued w q.
Proof.
  intros Hw Hb. apply queued_ext. intros c Hc. rewrite Hw, lookup_insert_ne; [done|].
  by intros <-.
Qed.

Lemma stream_eq p o w :
  w_objs w !! p = Some o →
  stream p w = sent_to (m_sock_handle (o_handler o)) w ++ queued w (m_send_msg_queue (o_handler o)).
Proof. intros Ho. unfold stream. by rewrite Ho. Qed.

Lemma sends_stream p b o m h' m' l q w w' :
  sends p b o m h' m' l q w w' →
  stream p w' = sent_to (m_sock_handle (o_handler o)) w ++
    sent_bytes (m_sock_handle (o_handler o)) l ++ queued w' (m_send_msg_queue h').
Proof.
  intros Hs. erewrite stream_eq by (rewrite (se_objs _ _ _ _ _ _ _ _ _ _ Hs); apply lookup_insert_eq).
  cbn [o_handler]. rewrite (se_handle _ _ _ _ _ _ _ _ _ _ Hs). unfold sent_to.
  by rewrite (se_out _ _ _ _ _ _ _ _ _ _ Hs), sent_bytes_app, <- app_assoc.
Qed.

End delivery.

(** ** Properties *)


(** A world with the handler 1 on descriptor 10, its queue, and three buffers. *)
Definition sample_world (q : list Z) (errno : Z) : World :=
  upd_objs <[1 := mkObject (sample_handler 10 q) PollerNotifyFd]>
    (upd_mbufs (λ _, <[5 := sample_mbuf [1; 2; 3] 0]> (<[6 := sample_mbuf [4; 5] 0]> ∅))
       (upd_errno (λ _, errno) empty_world)).

Definition sample_env : Env := quiet_env [] write_all 0.

(** The virtual calls of a base class. *)
Definition no_close : Virtual := {| v_handle_close := λ _, ret 0 |}.


(** Claim C25: [handle_output] sends from the front of the queue.  For a queue of
    distinct buffers, and when [errno] is not stale, the bytes sent to the
    descriptor followed by those that wait are the same before and after; the
    status is 0, and the write interest that was set stays set exactly when
    something still waits. *)
Theorem handle_output_stream {E : Env} {C : Calm} {V : Virtual} p o w :
  w_objs w !! p = Some o → m_send_msg_queue (o_handler o) ≠ [] →
  NoDup (m_send_msg_queue (o_handler o)) →
  (∀ b, b ∈ m_send_msg_queue (o_handler o) → ∃ m, w_mbufs w !! b = Some m ∧ wf_mbuf m) →
  has (m_current_event_mask (o_handler o)) EVENT_WRITE = true →
  would_block (w_errno w) = false → write_progress →
  ∃ w', handle_output p w = (Ok 0, w') ∧ stream p w' = stream p w ∧
    (∀ fd, fd ≠ m_sock_handle (o_handler o) → sent_to fd w' = sent_to fd w) ∧
    ∃ o', w_objs w' !! p = Some o' ∧
      has (m_current_event_mask (o_handler o')) EVENT_WRITE =
      bool_decide (m_send_msg_queue (o_handler o') ≠ []).
Proof.
  intros Ho Hne Hnd Hlive Hmask He Hp.
  destruct (m_send_msg_queue (o_handler o)) as [|b q0] eqn:Hq0; [done|].
  apply list.NoDup_cons in Hnd as [Hb Hnd]. destruct (Hlive b) as (m&Hm&Hwf); [set_solver|].
  assert (safe (handle_output p) (λ r w', r = 0 ∧ stream p w' = stream p w ∧
    (∀ fd, fd ≠ m_sock_handle (o_handler o) → sent_to fd w' = sent_to fd w) ∧
    ∃ o', w_objs w' !! p = Some o' ∧
      has (m_current_event_mask (o_handler o')) EVENT_WRITE =
      bool_decide (m_send_msg_queue (o_handler o') ≠ [])) w) as Hsafe.
  { eapply safe_handle_output; [done..|]. intros h' m' l q w' Hs Hq Hcq Hmask' Hk.
    specialize (Hk He Hp). unfold sent_or_kept in Hk. split_and!; [done| | |].
    - rewrite (sends_stream _ _ _ _ _ _ _ _ _ _ Hs), (stream_eq p o w Ho), Hq, queued_app, Hq0.
      change (b :: q0) with ([b] ++ q0). rewrite queued_app, (queued_one w b m) by done.
      rewrite (queued_insert w w' b m' q0) by (done || apply (se_mbufs _ _ _ _ _ _ _ _ _ _ Hs)).
      rewrite <- Hk, <- !app_assoc. do 3 f_equal.
      destruct Hcq as [->| ->]; [done|]. apply queued_one.
      rewrite (se_mbufs _ _ _ _ _ _ _ _ _ _ Hs). apply lookup_insert_eq.
    - intros fd Hfd. unfold sent_to. rewrite (se_out _ _ _ _ _ _ _ _ _ _ Hs), sent_bytes_app.
      by rewrite (se_fd _ _ _ _ _ _ _ _ _ _ Hs), app_nil_r.
    - eexists. split; [rewrite (se_objs _ _ _ _ _ _ _ _ _ _ Hs); apply lookup_insert_eq|].
      cbn [o_handler]. by rewrite Hmask', Hq. }
  destruct (safe_inv _ _ _ Hsafe) as (r&w'&Hrun&->&?). by exists w'.
Qed.

Lemma handle_output_stream_witness :
  ∃ w', @handle_output sample_env no_close 1 (sample_world [5; 6] 0) = (Ok 0, w') ∧
    stream 1 w' = stream 1 (sample_world [5; 6] 0) ∧
    (∀ fd, fd ≠ 10 → sent_to fd w' = sent_to fd (sample_world [5; 6] 0)) ∧
    ∃ o', w_objs w' !! 1 = Some o' ∧
      has (m_current_event_mask (o_handler o')) EVENT_WRITE =
      bool_decide (m_send_msg_queue (o_handler o') ≠ []).
Proof.
  apply (@handle_output_stream sample_env (quiet_calm [] 0) no_close 1
           (mkObject (sample_handler 10 [5; 6]) PollerNotifyFd));
    [reflexivity|done|decide_vm| |reflexivity|reflexivity|apply quiet_progress].
  intros b Hb. apply list_elem_of_In in Hb. destruct Hb as [<-|[<-|[]]];
    (eexists; split; [reflexivity|decide_vm]).
Defined.

(** A stale [errno] duplicates a message.  [send] reads [errno] after a
    successful write, which does not set it: when the last failing call left
    EAGAIN, a message that the socket accepts as a whole is queued again, and its
    bytes are in the stream twice. *)
Theorem stale_errno_duplicates {E : Env} {C : Calm} {V : Virtual} p b o m w :
  w_objs w !! p = Some o → w_mbufs w !! b = Some m → wf_mbuf m → contents m ≠ [] →
  m_send_msg_queue (o_handler o) = [] → would_block (w_errno w) = true →
  (∀ n fd l, env_write n fd l = IoOk (zlen l)) →
  ∃ r w', put p b w = (Ok r, w') ∧ stream p w' = stream p w ++ contents m ++ contents m.
Proof.
  intros Ho Hm Hwf Hne Hq0 He Hall.
  assert (safe (put p b) (λ _ w', stream p w' = stream p w ++ contents m ++ contents m) w) as Hs.
  2:{ destruct (safe_inv _ _ _ Hs) as (r&w'&?&?). eauto. }
  unfold put. apply safe_bind. eapply safe_get_handler; [done|]. rewrite Hq0.
  eapply safe_nonblk_send; [done..|]. intros h' m' l q r w' Hs Hq Hcq Hr _ _ Hst.
  destruct (Hst He Hne Hall) as (Hl&->&->).
  rewrite (sends_stream _ _ _ _ _ _ _ _ _ _ Hs), (stream_eq p o w Ho), Hq, Hq0, Hl.
  change (queued w []) with (@nil Z). rewrite !app_nil_r, (queued_one w' b m); [done|].
  rewrite (se_mbufs _ _ _ _ _ _ _ _ _ _ Hs). apply lookup_insert_eq.
Qed.

Lemma stale_errno_duplicates_witness :
  ∃ r w', @put sample_env no_close 1 6 (sample_world [] 11) = (Ok r, w') ∧
    stream 1 w' = stream 1 (sample_world [] 11) ++ [4; 5] ++ [4; 5].
Proof.
  apply (@stale_errno_duplicates sample_env (quiet_calm [] 0) no_close 1 6
           (mkObject (sample_handler 10 []) PollerNotifyFd) (sample_mbuf [4; 5] 0));
    first [reflexivity|done|decide_vm].
Defined.
