(* ===== verification/SubMgr.v ===== *)
(** * Topics and client identifiers

    Model of src/mqtt_server/subscriber_mgr.cpp ([CTopicNode], [CSubscriberMgr])
    and of [CClientIdContext] of src/mqtt_server/client_db_id.cpp: who subscribes
    to a topic, its retained message, the delivery of a publication, and the
    contexts by client identifier.  [print] only writes to the log; [store] and
    [restore] of [CClientIdContext] are empty. *)

From S2P Require Import Prelude Msg Mbuf MemStore Context World Handler.
From stdpp Require Import options.

(** ** Topic nodes *)

Definition new_CTopicNode : CTopicNode := mkTopicNode None ∅.

Definition update_retain_msg (b : Z) (n : CTopicNode) : CTopicNode :=
  mkTopicNode (Some b) (m_subcriber_clients n).

Definition clean_retain_msg (n : CTopicNode) : CTopicNode :=
  mkTopicNode None (m_subcriber_clients n).

(** [add_client]: the status and the node. *)
Definition add_client (x : Z) (n : CTopicNode) : Z * CTopicNode :=
  if decide (x ∈ m_subcriber_clients n) then (-1, n)
  else (0, mkTopicNode (m_retian_msg_buf n) ({[x]} ∪ m_subcriber_clients n)).

Definition del_client (x : Z) (n : CTopicNode) : Z * CTopicNode :=
  if decide (x ∈ m_subcriber_clients n) then
    (0, mkTopicNode (m_retian_msg_buf n) (m_subcriber_clients n ∖ {[x]}))
  else (-1, n).

Lemma elem_of_add_client x y n :
  y ∈ m_subcriber_clients (add_client x n).2 ↔ y = x ∨ y ∈ m_subcriber_clients n.
Proof. unfold add_client. case_decide; simpl; set_solver. Qed.

Lemma retain_add_client x n : m_retian_msg_buf (add_client x n).2 = m_retian_msg_buf n.
Proof. unfold add_client. by case_decide. Qed.

Lemma elem_of_del_client x y n :
  y ∈ m_subcriber_clients (del_client x n).2 ↔ y ≠ x ∧ y ∈ m_subcriber_clients n.
Proof. unfold del_client. case_decide; simpl; set_solver. Qed.

Lemma retain_del_client x n : m_retian_msg_buf (del_client x n).2 = m_retian_msg_buf n.
Proof. unfold del_client. by case_decide. Qed.

Section submgr.
Context {E : Env} {V : Virtual}.

Definition find_topic (t : str) : M (option CTopicNode) := gets (λ w, w_topics w !! t).

Definition set_topic (t : str) (n : CTopicNode) : M unit := modify (upd_topics <[t := n]>).

(** ** Client identifiers *)

Definition find_by_client_id (client_id : str) : M (option Z) :=
  gets (λ w, w_clients w !! client_id).

Definition add_by_client_id (client_id : str) (x : Z) : M Z :=
  do it <- find_by_client_id client_id;
  match it with
  | None => do_ modify (upd_clients <[client_id := x]>); ret 0
  | Some _ => ret (-1)
  end.

Definition del_by_client_id (client_id : str) : M Z :=
  do it <- find_by_client_id client_id;
  match it with
  | Some _ => do_ modify (upd_clients (delete client_id)); ret 0
  | None => ret (-1)
  end.

(** ** Subscriptions *)

(** [CSubscriberMgr::add_client_context]. *)
Definition add_client_context (topic : str) (x : Z) : M Z :=
  do it <- find_topic topic;
  match it with
  | None => do_ set_topic topic (add_client x new_CTopicNode).2; ret 0
  | Some node =>
      do_ set_topic topic (add_client x node).2;
      do c <- get_ctx x;
      match m_retian_msg_buf node, mqtt_connection c with
      | Some retain_msg, Some mqtt_conn =>
          do_ upd_ctx x (add_send_msg retain_msg);
          put mqtt_conn retain_msg
      | _, _ => ret 0
      end
  end.

(** [CSubscriberMgr::del_client_context]. *)
Definition del_client_context (topic : str) (x : Z) : M Z :=
  do it <- find_topic topic;
  match it with
  | Some node => do_ set_topic topic (del_client x node).2; ret 0
  | None => ret (-1)
  end.

Definition find_client_context (topic : str) : M (option (gset Z)) :=
  do it <- find_topic topic;
  ret (m_subcriber_clients <$> it).

(** ** Publication *)

(** [publish(client, mbuf, msg_stat)]; [msg_stat] is the slot [i]. *)
Definition publish_client (x b i : Z) : M Z :=
  do_ upd_ctx x (add_send_msg b);
  do c <- get_ctx x;
  do (online_client, offline_client) <-
    match mqtt_connection c with
    | Some mqtt_conn => do _ <- put mqtt_conn b; ret (1, 0)
    | None => ret (0, 1)
    end;
  do_ modify (upd_stats (λ m,
        let s := stat_at i m in
        with_stat i (set_pub_num (u32 (online_client + pub_online_num s))
                                 (u32 (offline_client + pub_offline_num s))) m));
  ret 0.

Definition subscribers (topic : str) : M (gset Z) :=
  gets (λ w, default ∅ (m_subcriber_clients <$> w_topics w !! topic)).

(** The loops over the subscribers of a topic, in the order [l] of the container;
    the result is the number of elements visited.  An element that has been
    erased before the loop reaches it is not visited; when the body erases the
    element the iterator points to, the iterator that the loop increments is
    invalid. *)
Fixpoint for_each_subscriber (topic : str) (f : Z → M unit) (l : list Z) (count : Z) : M Z :=
  match l with
  | [] => ret count
  | x :: l =>
      do X <- subscribers topic;
      if decide (x ∈ X) then
        do_ f x;
        do X <- subscribers topic;
        if decide (x ∈ X) then for_each_subscriber topic f l (count + 1)
        else crash UseAfterFree
      else for_each_subscriber topic f l count
  end.

(** The retained copy of a publication: same bytes with the retain bit set and
    the same number, not registered with the message store. *)
Definition make_retain_msg (b : Z) : M Z :=
  do m <- get_mbuf b;
  do r <- new_mbuf (mbuf_length m);
  let data := take (Z.to_nat (mbuf_length m)) (from_read_ptr m) in
  do_ (when negb (zlen data =? mbuf_length m) then_ crash OutOfBounds);
  do _ <- mbuf_copy_to r data;
  do_ upd_mbuf r (set_msg_id (m_msg_id m));
  do rm <- get_mbuf r;
  match from_read_ptr rm with
  | [] => crash OutOfBounds
  | hd :: _ =>
      do_ upd_mbuf r (upd_data <[Z.to_nat (m_read_pos rm) := Z.lor hd 1]>);
      ret r
  end.

(** [CSubscriberMgr::publish(topic, mbuf, publish_msg)]: the number of clients. *)
Definition publish (topic : str) (b : Z) (publish_msg : CMqttPublish) : M Z :=
  do it <- find_topic topic;
  let no_sub_client := bool_decide (it = None) in
  do_ (when no_sub_client then_ set_topic topic new_CTopicNode);
  do_ (when retain_flag (m_fixed_header (pub_base publish_msg)) then_
         (do publish_retain_msg <- make_retain_msg b;
          do it <- find_topic topic;
          match it with
          | None => crash NullDeref
          | Some node =>
              set_topic topic
                (if 0 <? zlen (pub_payload publish_msg)
                 then update_retain_msg publish_retain_msg node
                 else clean_retain_msg node)
          end));
  if no_sub_client then ret 0
  else
    do m <- get_mbuf b;
    let i := stat_idx (m_msg_id m) in
    do_ modify (upd_stats (msg_stat (m_msg_id m)));
    do now <- std_time;
    do_ modify (upd_stats (with_stat i (start_stat now)));
    do X <- subscribers topic;
    do order <- sys (λ n, env_order n X);
    do count <- for_each_subscriber topic (λ x, do _ <- publish_client x b i; ret tt) order 0;
    do now <- std_time;
    do_ modify (upd_stats (with_stat i (end_stat now)));
    ret count.

(** [CSubscriberMgr::publish_all]. *)
Definition publish_all (b : Z) : M Z :=
  do m <- get_mbuf b;
  let i := stat_idx (m_msg_id m) in
  do_ modify (upd_stats (msg_stat (m_msg_id m)));
  do now <- std_time;
  do_ modify (upd_stats (with_stat i (start_stat now)));
  do topics <- gets (λ w, dom (w_topics w));
  do topics <- sys (λ n, env_topic_order n topics);
  do_ iter (λ topic,
        do X <- subscribers topic;
        do order <- sys (λ n, env_order n X);
        do _ <- for_each_subscriber topic (λ x, do _ <- publish_client x b i; ret tt) order 0;
        ret tt) topics;
  do now <- std_time;
  do_ modify (upd_stats (with_stat i (end_stat now)));
  ret 0.

End submgr.
