(* ===== verification/Connection.v ===== *)
(** * The MQTT connection

    Model of src/mqtt_server/mqtt_connection.cpp: the splitting of the input into
    packets, the handler of each message, and the closing of a connection.
    [write_n] is called by nothing. *)

From S2P Require Import Prelude Pkt Msg Mbuf MemStore Context World Handler SubMgr.
From stdpp Require Import options.

(** ** Closing

    [handle_close] first closes the socket, then takes a clean session out of the
    topics and the client identifiers, and deletes the object. *)

Section closing.
Context {E : Env}.

(** The members [nonblk_send] needs are not called while closing. *)
#[local] Instance no_virtual : Virtual := {| v_handle_close := λ _, crash FuelOut |}.

Definition connection_handle_close (p : Z) : M Z :=
  do _ <- handler_close p;
  do c <- get_conn p;
  match m_client_context c with
  | None => crash NullDeref
  | Some x =>
      do ctx <- get_ctx x;
      do_ (when ctx_clean_session ctx then_
             (do_ iter (λ t, do _ <- del_client_context (topic_name t) x; ret tt)
                    (subcribe_topics ctx);
              do _ <- del_by_client_id (ctx_client_id ctx);
              ret tt));
      do now <- std_time;
      do_ upd_ctx x (upd_close_time (λ _, now));
      do_ ctx_flush x;
      do_ upd_ctx x (upd_mqtt_connection (λ _, None));
      do_ delete_obj p;
      ret 0
  end.

(** [CPollerNotifyFd] has a destructor of its own. *)
Definition handle_close (p : Z) : M Z :=
  do o <- get_obj p;
  match o_derived o with
  | Connection _ => connection_handle_close p
  | Acceptor => base_handle_close p
  | PollerNotifyFd => do _ <- base_handle_close p; do_ unregist_notify; ret 0
  end.
End closing.

#[export] Instance mqtt_virtual {E : Env} : Virtual := {| v_handle_close := handle_close |}.

Section connection.
Context {E : Env}.

(** [client_context()]. *)
Definition client_context (p : Z) : M Z :=
  do c <- get_conn p;
  match m_client_context c with
  | Some x => ret x
  | None =>
      do x <- new_ctx (Some p);
      do_ upd_conn p (upd_client_context (λ _, Some x));
      ret x
  end.

(** The status of a decoder. *)
Definition decoded {A} (r : res A) : M (option A) :=
  match r with
  | Ok a => ret (Some a)
  | Fail => ret None
  | Stop u => crash u
  end.

(** [buf + off], for [buf] the receive buffer. *)
Definition recv_from (p off : Z) : M (list Z) :=
  do c <- get_conn p; ret (drop (Z.to_nat off) (m_recv_buffer c)).

(** Encode an answer and [put] it: the common end of the handlers. *)
Definition reply (p size : Z) (encode : list Z → Z → res Z * list Z) : M Z :=
  do b <- encode_mbuf size encode;
  match b with
  | None => ret (-1)
  | Some b => put p b
  end.

(** ** The handlers *)

Definition connect_ack_code (m : CMqttConnect) : Code :=
  let v := proto_version m in
  let bad :=
    if negb (v =? 3) && negb (v =? 4) then true
    else ((v =? 3) && negb (bool_decide (proto_name m = of_string "MQIsdp")))
         || ((v =? 4) && negb (bool_decide (proto_name m = of_string "MQTT"))) in
  if bool_decide (client_id m = []) then BAD_ID
  else if bad then BAD_VERSION else ACCEPTED.

(** The loop over the queue of unacknowledged messages; [res] is the last status. *)
Fixpoint send_offline (p : Z) (l : list Z) (res : Z) : M Z :=
  match l with
  | [] => ret res
  | b :: l =>
      do res <- put p b;
      if res =? -1 then ret res else send_offline p l res
  end.

(** The branch of [handle_connect_msg] for a client that names itself. *)
Definition attach_context (p : Z) (m : CMqttConnect) : M unit :=
  do found <- find_by_client_id (client_id m);
  do_ match found with
      | Some x =>
          do ctx <- get_ctx x;
          do_ match mqtt_connection ctx with
              | Some last => do _ <- v_handle_close last; ret tt
              | None => ret tt
              end;
          do_ upd_ctx x (context_init m);
          do_ upd_ctx x (upd_mqtt_connection (λ _, Some p));
          upd_conn p (upd_client_context (λ _, Some x))
      | None =>
          do x <- client_context p;
          do_ upd_ctx x (context_init m);
          do _ <- add_by_client_id (client_id m) x;
          ret tt
      end;
  do x <- client_context p;
  do h <- get_handler p;
  do_ upd_ctx x (upd_accept_time (λ _, m_accept_time h));
  do now <- std_time;
  do_ upd_ctx x (upd_connect_time (λ _, now));
  upd_ctx x (upd_remote_addr (λ _, m_str_peer_addr h)).

(** The status -1 of a refused client is overwritten by that of the reply. *)
Definition handle_connect_msg (p off len : Z) : M Z :=
  do buf <- recv_from p off;
  do conn_msg <- decoded (run_decode CMqttConnect_decode buf len);
  match conn_msg with
  | None => ret (-1)
  | Some m =>
      let ack_code := connect_ack_code m in
      do_ (when negb (bool_decide (client_id m = [])) then_ attach_context p m);
      do res <- reply p 32 (run_encode (CMqttConnAck_encode (header_of_type CONNACK) ack_code));
      do x <- client_context p;
      do ctx <- get_ctx x;
      send_offline p (send_msg_queue ctx) res
  end.

(** Write the two bytes of the new identifier into the receive buffer. *)
Definition patch_msg_id (p off msg_id : Z) : M unit :=
  do c <- get_conn p;
  if off + 2 <=? zlen (m_recv_buffer c) then
    upd_conn p (upd_recv_buffer
      (splice (Z.to_nat off) [Z.land (Z.shiftr msg_id 8) 0xFF; Z.land msg_id 0xFF]))
  else crash OutOfBounds.

Definition handle_publish_msg (p off len : Z) : M Z :=
  do x <- client_context p;
  do ctx <- get_ctx x;
  if decide (client_status ctx ≠ CS_CONNECTED) then ret (-1)
  else
    do buf <- recv_from p off;
    do publish_msg <- decoded (run_decode CMqttPublish_decode buf len);
    match publish_msg with
    | None => ret (-1)
    | Some m =>
        do res <- reply p 64
          (run_encode (CMqttPublishAck_encode (header_of_type PUBACK) (pub_msg_id m)));
        do mbuf_pub <- new_mbuf len;
        do store <- gets w_store;
        let '(publish_msg_id, store) := next_msg_id store in
        do_ modify (upd_store (λ _, store));
        do_ upd_mbuf mbuf_pub (set_msg_id publish_msg_id);
        do_ regist_mem_store mbuf_pub;
        let msg_id_offset := pub_msg_id_offset m in
        do_ (when msg_id_offset <? len then_
               patch_msg_id p (off + msg_id_offset) (Z.land (u16 publish_msg_id) 0xFFFF));
        do buf <- recv_from p off;
        do _ <- mbuf_copy_to mbuf_pub (take (Z.to_nat len) buf);
        do _ <- std_time;
        do _ <- publish (pub_topic_name m) mbuf_pub m;
        do _ <- std_time;
        ret res
    end.

Definition handle_puback_msg (p off len : Z) : M Z :=
  do buf <- recv_from p off;
  do pub_ack <- decoded (run_decode CMqttPublishAck_decode buf len);
  match pub_ack with
  | None => ret (-1)
  | Some (_, msg_id) =>
      do x <- client_context p;
      do _ <- ack_msg x msg_id;
      ret 0
  end.

Definition handle_subscribe_msg (p off len : Z) : M Z :=
  do x <- client_context p;
  do ctx <- get_ctx x;
  if decide (client_status ctx ≠ CS_CONNECTED) then ret (-1)
  else
    do buf <- recv_from p off;
    do sub <- decoded (run_decode CMqttSubscribe_decode buf len);
    match sub with
    | None => ret (-1)
    | Some m =>
        do_ upd_ctx x (add_subcribe_topics (sub_topics m));
        do res <- reply p 64
          (run_encode (CMqttSubAck_encode (header_of_type SUBACK) (sub_msg_id m)
                         (topics_qos m)));
        do_ iter (λ t,
              do x <- client_context p;
              do _ <- add_client_context t x; ret tt) (topics_name m);
        ret res
    end.

Definition handle_unsubscribe_msg (p off len : Z) : M Z :=
  do x <- client_context p;
  do ctx <- get_ctx x;
  if decide (client_status ctx ≠ CS_CONNECTED) then ret (-1)
  else
    do buf <- recv_from p off;
    do un_sub <- decoded (run_decode CMqttUnsubscribe_decode buf len);
    match un_sub with
    | None => ret (-1)
    | Some m =>
        do_ iter (λ t,
              do x <- client_context p;
              do _ <- del_client_context t x; ret tt) (unsub_topics_name m);
        reply p 64
          (run_encode (CMqttUnsubAck_encode (header_of_type UNSUBACK) (unsub_msg_id m)))
    end.

Definition handle_pingreq_msg (p : Z) : M Z := reply p 4 (run_encode CMqttPingResp_encode).

Definition handle_disconnect_msg (p : Z) : M Z :=
  do x <- client_context p;
  do_ upd_ctx x (upd_client_status (λ _, CS_DISCONNECTED));
  do now <- std_time;
  do_ upd_ctx x (upd_discon_time (λ _, now));
  ret 0.

Definition process (p off len : Z) : M Z :=
  do buf <- recv_from p off;
  match buf with
  | [] => crash OutOfBounds
  | b :: _ =>
      match MqttType_of_Z (Z.shiftr (Z.land b 0xF0) 4) with
      | CONNECT => handle_connect_msg p off len
      | PUBLISH => handle_publish_msg p off len
      | PUBACK => handle_puback_msg p off len
      | SUBSCRIBE => handle_subscribe_msg p off len
      | UNSUBSCRIBE => handle_unsubscribe_msg p off len
      | PINGREQ => handle_pingreq_msg p
      | DISCONNECT => do _ <- handle_disconnect_msg p; ret (-1)
      | _ => ret (-1)
      end
  end.

(** ** The input *)

(** The loop of [process_mqtt]; every packet takes at least two bytes. *)
Fixpoint process_loop (fuel : nat) (p len offset : Z) : M Z :=
  match fuel with
  | O => crash FuelOut
  | S fuel =>
      if offset <? len then
        do buf <- recv_from p offset;
        do rl <- lift (remain_length buf (len - offset));
        let remain_len := rl_ret rl in
        if remain_len =? NEED_MORE_DATA then
          do_ (when negb (offset =? 0) then_
                 (let left_size := len - offset in
                  do_ upd_conn p (upd_recv_buffer
                        (λ b, splice 0 (take (Z.to_nat left_size)
                                          (drop (Z.to_nat offset) b)) b));
                  upd_conn p (upd_cur_buf_pos (λ _, left_size))));
          ret 0
        else if remain_len =? FAILTURE then ret (-1)
        else
          let pkt_total_len := u32 (remain_len + remain_length_bytes rl + 1) in
          do r <- process p offset pkt_total_len;
          if r <? 0 then ret (-1)
          else process_loop fuel p len (u32 (offset + pkt_total_len))
      else
        do_ upd_conn p (upd_cur_buf_pos (λ _, 0));
        ret 0
  end.

Definition process_mqtt (p len : Z) : M Z :=
  do c <- get_conn p;
  do_ match m_client_context c with
      | Some x => do now <- std_time; upd_ctx x (upd_last_msg_time (λ _, now))
      | None => ret tt
      end;
  process_loop (S (Z.to_nat len)) p len 0.

Definition handle_input (p : Z) : M Z :=
  do h <- get_handler p;
  do c <- get_conn p;
  do r <- sys_read (m_sock_handle h) (u32 (MAX_BUF_SIZE - m_cur_buf_pos c));
  match r with
  | None =>
      do e <- gets w_errno;
      if would_block e then ret 0 else ret (-1)
  | Some [] => ret (-1)
  | Some l =>
      do_ upd_handler p (upd_recv_times (λ n, u64 (n + 1)));
      do_ upd_handler p (upd_recv_bytes (λ n, u64 (n + zlen l)));
      do_ upd_conn p (upd_recv_buffer (splice (Z.to_nat (m_cur_buf_pos c)) l));
      do_ upd_conn p (upd_cur_buf_pos (λ n, u32 (n + zlen l)));
      do now <- std_time;
      do_ upd_conn p (upd_conn_last_msg_time (λ _, u32 now));
      process_mqtt p (u32 (m_cur_buf_pos c + zlen l))
  end.

End connection.
