(* ===== verification/Invariant.v ===== *)
(** * The invariant of the server

    The pointers between the objects of the server: what a handler may rely on
    between two events, and that the elementary operations and the output side
    keep it.  Safety.v proves that the handlers of the messages do too. *)

From S2P Require Import Prelude Pkt Msg Mbuf MemStore Context World Sample Handler Delivery.
From S2P Require Import SubMgr Connection.
From stdpp Require Import options.

(** ** Definition *)

(** The context [x] is known under a topic or a client identifier. *)
Definition registered (topics : gmap str CTopicNode) (clients : gmap str Z) (x : Z) : Prop :=
  (∃ id, clients !! id = Some x) ∨ (∃ t n, topics !! t = Some n ∧ x ∈ m_subcriber_clients n).

(** The connection [p] holds the context [x]. *)
Definition attached (objs : gmap Z object) (p x : Z) : Prop :=
  ∃ h c, objs !! p = Some (mkObject h (Connection c)) ∧ m_client_context c = Some x.

Definition live (mbufs : gmap Z CMbuf) (b : Z) : Prop := is_Some (mbufs !! b).

Definition obj_ok (mbufs : gmap Z CMbuf) (o : object) : Prop :=
  (∀ b, b ∈ m_send_msg_queue (o_handler o) → live mbufs b) ∧
  match o_derived o with
  | Connection c => zlen (m_recv_buffer c) = MAX_BUF_SIZE ∧ 0 <= m_cur_buf_pos c <= MAX_BUF_SIZE
  | _ => True
  end.

(** The object [p] is a notification descriptor. *)
Definition notifier (objs : gmap Z object) (p : Z) : Prop :=
  ∃ h, objs !! p = Some (mkObject h PollerNotifyFd).

(** The notification descriptor and the queue of the poller. *)
Definition notified (w : World) : option Z * list Z :=
  (m_notify_writer (w_poller w), m_notify_deque (w_poller w)).

Record inv (objs : gmap Z object) (ctxs : gmap Z CTMqttClientContext) (mbufs : gmap Z CMbuf)
    (next : Z) (topics : gmap str CTopicNode) (clients : gmap str Z) (db : gmap Z Z)
    (handlers : gmap Z Z) (interest : gmap Z (Z * Z)) (notif : option Z * list Z) : Prop := {
  (* a registered context that names a connection is the context of that live
     connection: no dangling pointer can be reached *)
  i_link : ∀ x c p, registered topics clients x → ctxs !! x = Some c →
    mqtt_connection c = Some p → attached objs p x;
  i_back : ∀ p x, attached objs p x → ∃ c, ctxs !! x = Some c ∧ mqtt_connection c = Some p;
  i_reg : ∀ x, registered topics clients x → is_Some (ctxs !! x);
  i_objs : ∀ p o, objs !! p = Some o → obj_ok mbufs o;
  i_ctxs : ∀ x c b, ctxs !! x = Some c → b ∈ send_msg_queue c → live mbufs b;
  i_retain : ∀ t n b, topics !! t = Some n → m_retian_msg_buf n = Some b → live mbufs b;
  i_deque : ∀ b, b ∈ notif.2 → live mbufs b;
  i_mbufs : ∀ b m, mbufs !! b = Some m → wf_mbuf m;
  (* the message store holds no dangling pointer *)
  i_db : ∀ id b, db !! id = Some b →
    ∃ m, mbufs !! b = Some m ∧ m_msg_id m = id ∧ m_mem_db m = true;
  i_zero : db !! 0 = None;
  i_fresh : ∀ k, is_Some (objs !! k) ∨ is_Some (ctxs !! k) ∨ is_Some (mbufs !! k) → k < next;
  (* the poller and the kernel point to live handlers *)
  i_handlers : ∀ fd p, handlers !! fd = Some p →
    ∃ o, objs !! p = Some o ∧ m_sock_handle (o_handler o) = fd;
  i_interest : ∀ fd mask p, interest !! fd = Some (mask, p) →
    ∃ o, objs !! p = Some o ∧ m_sock_handle (o_handler o) = fd;
  (* the poller wakes the server through a live notification descriptor *)
  i_writer : ∀ p, notif.1 = Some p → notifier objs p;
}.

Definition Inv (w : World) : Prop :=
  inv (w_objs w) (w_ctxs w) (w_mbufs w) (w_next w) (w_topics w) (w_clients w)
    (m_msg_db (w_store w)) (m_map_event_handlers (w_poller w)) (interest_list (w_poller w))
    (notified w).

(** ** Frames

    What most operations leave alone: the class and the members of a connection
    other than its queue, the connection and the status of a context, and the
    liveness of buffers; and the notifications of the other threads. *)

Record frame (w w' : World) : Prop := {
  f_derived : ∀ p, o_derived <$> w_objs w' !! p = o_derived <$> w_objs w !! p;
  f_ctxs : ∀ x c, w_ctxs w !! x = Some c → ∃ c', w_ctxs w' !! x = Some c' ∧
    mqtt_connection c' = mqtt_connection c ∧ client_status c' = client_status c;
  f_mbufs : ∀ b, live (w_mbufs w) b → live (w_mbufs w') b;
  f_notified : notified w' = notified w;
}.

#[export] Instance frame_preorder : PreOrder frame.
Proof.
  split.
  - intros w. split; [done| |done|done]. intros x c Hc. by exists c.
  - intros w1 w2 w3 [D1 C1 M1 N1] [D2 C2 M2 N2]. split; [..|congruence].
    + intros p. by rewrite D2, D1.
    + intros x c Hc. destruct (C1 _ _ Hc) as (c2&Hc2&?&?).
      destruct (C2 _ _ Hc2) as (c3&?&?&?). exists c3. split_and!; congruence.
    + auto.
Qed.

Lemma frame_attached w w' p x : frame w w' → attached (w_objs w) p x → attached (w_objs w') p x.
Proof.
  intros [D _ _ _] (h&c&Hp&Hx). specialize (D p). rewrite Hp in D. simpl in D.
  destruct (w_objs w' !! p) as [[h' d']|] eqn:E; simpl in D; [|done].
  injection D as ->. exists h', c. by rewrite E.
Qed.

Lemma frame_conn w w' p h c :
  frame w w' → w_objs w !! p = Some (mkObject h (Connection c)) →
  ∃ h', w_objs w' !! p = Some (mkObject h' (Connection c)).
Proof.
  intros [D _ _ _] Hp. specialize (D p). rewrite Hp in D. simpl in D.
  destruct (w_objs w' !! p) as [[h' d']|] eqn:E; simpl in D; [|done].
  injection D as ->. by exists h'.
Qed.

(** [keeps m w]: from a state of the invariant [m] is defined, and leads to a state
    of the invariant in the same frame. *)
Definition keeps {A} (m : M A) (w : World) : Prop := safe m (λ _ w', Inv w' ∧ frame w w') w.

Lemma keeps_bind {A B} (m : M A) (f : A → M B) w :
  keeps m w → (∀ a w', m w = (Ok a, w') → Inv w' → frame w w' → keeps (f a) w') →
  keeps (bind m f) w.
Proof.
  intros Hm Hf. apply safe_bind. destruct (safe_inv _ _ _ Hm) as (a&w1&Hr&Hi&Hfr).
  unfold keeps, safe, wp in *. rewrite Hr in *. simpl. specialize (Hf a w1 eq_refl Hi Hfr).
  destruct (f a w1) as [[b| |u] w2]; simpl in *; try done.
  destruct Hf. split; [done|]. by etransitivity.
Qed.

Lemma keeps_ret {A} (a : A) w : Inv w → keeps (ret a) w.
Proof. intros Hi. by split. Qed.

Lemma keeps_of_safe {A} (m : M A) (Q : A → World → Prop) w :
  safe m Q w → (∀ a w', Q a w' → Inv w' ∧ frame w w') → keeps m w.
Proof. intros Hm HQ. eapply safe_mono; eauto. Qed.

Lemma keeps_iter {A} (f : A → M unit) l w :
  Inv w → (∀ a w', a ∈ l → Inv w' → frame w w' → keeps (f a) w') → keeps (iter f l) w.
Proof.
  revert w. induction l as [|a l IH]; intros w Hi Hf; simpl; [by apply keeps_ret|].
  apply keeps_bind; [apply Hf; [set_solver|done|reflexivity]|].
  intros _ w1 _ Hi1 Hf1. apply IH; [done|]. intros c w2 Hc Hi2 Hf2.
  apply Hf; [set_solver|done|]. by etransitivity.
Qed.

(** ** Preservation by updates of the components *)

Lemma attached_handler objs p h' o q x :
  objs !! p = Some o →
  attached (<[p := mkObject h' (o_derived o)]> objs) q x ↔ attached objs q x.
Proof.
  intros Hp. unfold attached. destruct (decide (q = p)) as [->|Hq].
  - rewrite lookup_insert_eq, Hp. destruct o as [h d]; simpl.
    split; intros (h1&c&[= -> ->]&?); eauto.
  - by rewrite lookup_insert_ne by done.
Qed.

Lemma live_insert mbufs b m c : live mbufs c → live (<[b := m]> mbufs) c.
Proof.
  unfold live. destruct (decide (c = b)) as [->|]; [by rewrite lookup_insert_eq|].
  by rewrite lookup_insert_ne.
Qed.

Lemma notifier_insert objs p o' q :
  (∀ o, objs !! p = Some o → o_derived o = PollerNotifyFd → o_derived o' = PollerNotifyFd) →
  notifier objs q → notifier (<[p := o']> objs) q.
Proof.
  intros Hp [h Hq]. unfold notifier. destruct (decide (q = p)) as [->|]; [|rewrite lookup_insert_ne by done; by exists h].
  rewrite lookup_insert_eq. specialize (Hp _ Hq eq_refl). destruct o' as [h' d']. simpl in Hp. subst. by exists h'.
Qed.

Section updates.
Context {objs : gmap Z object} {ctxs : gmap Z CTMqttClientContext} {mbufs : gmap Z CMbuf}.
Context {next : Z} {topics : gmap str CTopicNode} {clients : gmap str Z} {db : gmap Z Z}.
Context {handlers : gmap Z Z} {interest : gmap Z (Z * Z)} {notif : option Z * list Z}.
Hypothesis Hinv : inv objs ctxs mbufs next topics clients db handlers interest notif.
#[local] Set Default Proof Using "All".

(** A change of the handler's own members. *)
Lemma inv_handler p o h' :
  objs !! p = Some o → m_sock_handle h' = m_sock_handle (o_handler o) →
  (∀ b, b ∈ m_send_msg_queue h' → live mbufs b) →
  inv (<[p := mkObject h' (o_derived o)]> objs) ctxs mbufs next topics clients db handlers
    interest notif.
Proof.
  intros Hp Hs Hq. destruct Hinv. split; try done.
  - intros x c q Hr Hc Hx. rewrite attached_handler by done. eauto.
  - intros q x. rewrite attached_handler by done. eauto.
  - intros q o1. destruct (decide (q = p)) as [->|]; [|rewrite lookup_insert_ne by done; eauto].
    rewrite lookup_insert_eq. intros [= <-]. destruct (i_objs0 p o Hp) as [_ Hd]. by split.
  - intros k [Hk|Hk]; [|by eauto]. apply i_fresh0. left.
    destruct (decide (k = p)) as [->|]; [by eexists|by rewrite lookup_insert_ne in Hk].
  - intros fd q Hfd. destruct (i_handlers0 _ _ Hfd) as (o1&Ho1&<-).
    destruct (decide (q = p)) as [->|]; [|by rewrite lookup_insert_ne by done; eauto].
    rewrite lookup_insert_eq. eexists; split; [done|]. simpl. congruence.
  - intros fd mask q Hfd. destruct (i_interest0 _ _ _ Hfd) as (o1&Ho1&<-).
    destruct (decide (q = p)) as [->|]; [|by rewrite lookup_insert_ne by done; eauto].
    rewrite lookup_insert_eq. eexists; split; [done|]. simpl. congruence.
  - intros q Hq'. eapply notifier_insert; [|by eauto]. intros o1 Ho1. cbn. congruence.
Qed.

(** A change of a connection's members that keeps its context. *)
Lemma inv_conn p h c c' :
  objs !! p = Some (mkObject h (Connection c)) → m_client_context c' = m_client_context c →
  zlen (m_recv_buffer c') = MAX_BUF_SIZE → 0 <= m_cur_buf_pos c' <= MAX_BUF_SIZE →
  inv (<[p := mkObject h (Connection c')]> objs) ctxs mbufs next topics clients db handlers
    interest notif.
Proof.
  intros Hp Hc Hl Hb. destruct Hinv.
  assert (∀ q x, attached (<[p := mkObject h (Connection c')]> objs) q x ↔ attached objs q x) as Ha.
  { intros q x. unfold attached. destruct (decide (q = p)) as [->|]; [|by rewrite lookup_insert_ne].
    rewrite lookup_insert_eq, Hp.
    split; intros (h1&d&[= <- <-]&Hx); eexists _, _; (split; [reflexivity|congruence]). }
  assert (∀ q o, objs !! q = Some o → ∃ o', <[p := mkObject h (Connection c')]> objs !! q = Some o' ∧
    m_sock_handle (o_handler o') = m_sock_handle (o_handler o)) as Hs.
  { intros q o Hq. destruct (decide (q = p)) as [->|]; [|by rewrite lookup_insert_ne by done; eauto].
    rewrite lookup_insert_eq. rewrite Hp in Hq. injection Hq as <-. eauto. }
  split; try done.
  - intros x d q Hr Hd Hq. rewrite Ha. eauto.
  - intros q x. rewrite Ha. eauto.
  - intros q o. destruct (decide (q = p)) as [->|]; [|rewrite lookup_insert_ne by done; eauto].
    rewrite lookup_insert_eq. intros [= <-]. by destruct (i_objs0 _ _ Hp).
  - intros k [Hk|Hk]; [|by eauto]. apply i_fresh0. left.
    destruct (decide (k = p)) as [->|]; [by eexists|by rewrite lookup_insert_ne in Hk].
  - intros fd q Hfd. destruct (i_handlers0 _ _ Hfd) as (o&Ho&<-). eauto.
  - intros fd mask q Hfd. destruct (i_interest0 _ _ _ Hfd) as (o&Ho&<-). eauto.
  - intros q Hq'. eapply notifier_insert; [|by eauto]. intros o1 Ho1. rewrite Hp in Ho1. by injection Ho1 as <-.
Qed.

Lemma inv_ctx x c c' :
  ctxs !! x = Some c → mqtt_connection c' = mqtt_connection c →
  (∀ b, b ∈ send_msg_queue c' → live mbufs b) →
  inv objs (<[x := c']> ctxs) mbufs next topics clients db handlers interest notif.
Proof.
  intros Hx Hc Hq. destruct Hinv. split; try done.
  - intros y d p Hr Hd Hp. destruct (decide (y = x)) as [->|].
    + rewrite lookup_insert_eq in Hd. injection Hd as <-. rewrite Hc in Hp. eauto.
    + rewrite lookup_insert_ne in Hd by done. eauto.
  - intros p y Ha. destruct (i_back0 _ _ Ha) as (d&Hd&Hp).
    destruct (decide (y = x)) as [->|]; [|by rewrite lookup_insert_ne by done; eauto].
    rewrite lookup_insert_eq. eexists; split; [done|]. congruence.
  - intros y Hr. destruct (decide (y = x)) as [->|]; [by rewrite lookup_insert_eq|].
    rewrite lookup_insert_ne by done. eauto.
  - intros y d b. destruct (decide (y = x)) as [->|].
    + rewrite lookup_insert_eq. intros [= <-]. auto.
    + rewrite lookup_insert_ne by done. eauto.
  - intros k [Hk|[Hk|Hk]]; [by eauto| |by eauto]. apply i_fresh0. right; left.
    destruct (decide (k = x)) as [->|]; [by eexists|by rewrite lookup_insert_ne in Hk].
Qed.

Lemma inv_mbuf b m' :
  wf_mbuf m' → b < next →
  (∀ id, db !! id = Some b → m_msg_id m' = id ∧ m_mem_db m' = true) →
  inv objs ctxs (<[b := m']> mbufs) next topics clients db handlers interest notif.
Proof.
  intros Hwf Hb Hdb. destruct Hinv. split; try done; eauto using live_insert.
  - intros p o Hp. destruct (i_objs0 p o Hp) as [Hq Hd]. split; eauto using live_insert.
  - intros c m. destruct (decide (c = b)) as [->|]; [|rewrite lookup_insert_ne by done; eauto].
    rewrite lookup_insert_eq. by intros [= <-].
  - intros id c Hc. destruct (i_db0 _ _ Hc) as (m&Hm&?&?).
    destruct (decide (c = b)) as [->|]; [|by rewrite lookup_insert_ne by done; eauto].
    rewrite lookup_insert_eq. eexists; split; [done|]. by apply Hdb.
  - intros k [Hk|[Hk|Hk]]; [by eauto..|].
    destruct (decide (k = b)) as [->|]; [done|]. rewrite lookup_insert_ne in Hk by done. eauto.
Qed.

Lemma inv_next next' :
  next <= next' → inv objs ctxs mbufs next' topics clients db handlers interest notif.
Proof. intros Hn. destruct Hinv. split; try done. intros k Hk. apply i_fresh0 in Hk. lia. Qed.

Lemma inv_interest interest' p o :
  objs !! p = Some o →
  (∀ s mask q, interest' !! s = Some (mask, q) →
     (s = m_sock_handle (o_handler o) ∧ q = p) ∨ interest !! s = Some (mask, q)) →
  inv objs ctxs mbufs next topics clients db handlers interest' notif.
Proof.
  intros Hp Hi. destruct Hinv. split; try done. intros fd mask q Hq.
  destruct (Hi _ _ _ Hq) as [[-> ->]|?]; eauto.
Qed.

(** A new registration, or fewer of them. *)
Lemma inv_registered topics' clients' :
  (∀ x, registered topics' clients' x → registered topics clients x ∨ ∃ p, attached objs p x) →
  (∀ t n b, topics' !! t = Some n → m_retian_msg_buf n = Some b → live mbufs b) →
  inv objs ctxs mbufs next topics' clients' db handlers interest notif.
Proof.
  intros Hr Ht. destruct Hinv. split; try done.
  - intros x c p Hx Hc Hp. destruct (Hr x Hx) as [Hx'|[q Hq]]; [by eauto|].
    destruct (i_back0 _ _ Hq) as (d&Hd&?). congruence.
  - intros x Hx. destruct (Hr x Hx) as [Hx'|[q Hq]]; [by eauto|].
    destruct (i_back0 _ _ Hq) as (d&Hd&?). by eexists.
Qed.

Lemma inv_db id b m :
  mbufs !! b = Some m → m_msg_id m = id → m_mem_db m = true → id ≠ 0 →
  inv objs ctxs mbufs next topics clients (<[id := b]> db) handlers interest notif.
Proof.
  intros Hb Hid Hm Hz. destruct Hinv. split; try done.
  - intros i c. destruct (decide (i = id)) as [->|]; [|rewrite lookup_insert_ne by done; eauto].
    rewrite lookup_insert_eq. intros [= <-]. eauto.
  - by rewrite lookup_insert_ne.
Qed.

(** A connection is closed and deleted: its context keeps no pointer to it, and its
    descriptor is no longer registered. *)
Lemma inv_close p h d x c c' :
  objs !! p = Some (mkObject h (Connection d)) → m_client_context d = Some x →
  ctxs !! x = Some c → mqtt_connection c' = None →
  (∀ b, b ∈ send_msg_queue c' → live mbufs b) →
  inv (delete p objs) (<[x := c']> ctxs) mbufs next topics clients db
    (delete (m_sock_handle h) handlers) (delete (m_sock_handle h) interest) notif.
Proof.
  intros Hp Hd Hx Hc Hq. assert (attached objs p x) as Ha by (by exists h, d).
  destruct (i_back _ _ _ _ _ _ _ _ _ _ Hinv _ _ Ha) as (c0&Hc0&Hcp).
  assert (∀ q y, attached (delete p objs) q y ↔ q ≠ p ∧ attached objs q y) as Hat.
  { intros q y. unfold attached. destruct (decide (q = p)) as [->|].
    - rewrite lookup_delete_eq. split; [by intros (?&?&?&?)|by intros []].
    - rewrite lookup_delete_ne by done. naive_solver. }
  assert (∀ fd q, (∃ o, objs !! q = Some o ∧ m_sock_handle (o_handler o) = fd) →
    fd ≠ m_sock_handle h → ∃ o, delete p objs !! q = Some o ∧ m_sock_handle (o_handler o) = fd) as Hs.
  { intros fd q (o&Ho&Hfd) Hne. exists o. rewrite lookup_delete_ne; [done|].
    intros <-. rewrite Hp in Ho. by injection Ho as <-. }
  destruct Hinv. split; try done.
  - intros y e q Hr He Hq'. destruct (decide (y = x)) as [->|].
    + rewrite lookup_insert_eq in He. injection He as <-. congruence.
    + rewrite lookup_insert_ne in He by done. apply Hat. split; [|by eauto].
      intros ->. destruct (i_link0 _ _ _ Hr He Hq') as (h1&d1&Hp1&Hd1). congruence.
  - intros q y Hqy. apply Hat in Hqy as [Hqp Hqy]. destruct (i_back0 _ _ Hqy) as (e&He&Heq).
    exists e. split; [|done]. rewrite lookup_insert_ne; [done|]. intros <-. congruence.
  - intros y Hr. destruct (decide (y = x)) as [->|]; [by rewrite lookup_insert_eq|].
    rewrite lookup_insert_ne by done. eauto.
  - intros q o Ho. apply lookup_delete_Some in Ho as [_ Ho]. eauto.
  - intros y e b. destruct (decide (y = x)) as [->|].
    + rewrite lookup_insert_eq. intros [= <-]. auto.
    + rewrite lookup_insert_ne by done. eauto.
  - intros k [[o Ho]|[Hk|Hk]]; [|destruct (decide (k = x)) as [->|]|by eauto].
    + apply lookup_delete_Some in Ho as [_ Ho]. eauto.
    + apply i_fresh0. right; left. by exists c.
    + rewrite lookup_insert_ne in Hk by done. eauto.
  - intros fd q Hfd. apply lookup_delete_Some in Hfd as [Hne Hfd]. eauto.
  - intros fd m q Hfd. apply lookup_delete_Some in Hfd as [Hne Hfd]. eauto.
  - intros q Hq'. destruct (i_writer0 q Hq') as [h1 Ho1]. exists h1. rewrite lookup_delete_ne; [done|]. congruence.
Qed.

(** A new connection without a context. *)
Lemma inv_new_conn p h d :
  objs !! p = None → m_client_context d = None → m_send_msg_queue h = [] →
  zlen (m_recv_buffer d) = MAX_BUF_SIZE → 0 <= m_cur_buf_pos d <= MAX_BUF_SIZE → p < next →
  inv (<[p := mkObject h (Connection d)]> objs) ctxs mbufs next topics clients db handlers
    interest notif.
Proof.
  intros Hp Hd Hq Hl Hb Hn.
  assert (∀ q y, attached (<[p := mkObject h (Connection d)]> objs) q y ↔ attached objs q y) as Hat.
  { intros q y. unfold attached. destruct (decide (q = p)) as [->|]; [|by rewrite lookup_insert_ne].
    rewrite lookup_insert_eq. split; intros (h1&d1&H1&H2); [injection H1 as <- <-|]; congruence. }
  assert (∀ fd q, (∃ o, objs !! q = Some o ∧ m_sock_handle (o_handler o) = fd) →
    ∃ o, <[p := mkObject h (Connection d)]> objs !! q = Some o ∧ m_sock_handle (o_handler o) = fd) as Hs.
  { intros fd q (o&Ho&Hfd). exists o. rewrite lookup_insert_ne; [done|]. intros <-. congruence. }
  destruct Hinv. split; try done; eauto.
  - intros y e q Hr He Hq'. apply Hat. eauto.
  - intros q y Hqy. apply Hat in Hqy. eauto.
  - intros q o. destruct (decide (q = p)) as [->|]; [|rewrite lookup_insert_ne by done; eauto].
    rewrite lookup_insert_eq. intros [= <-]. split; [simpl; rewrite Hq; by intros b Hbq; apply elem_of_nil in Hbq|done].
  - intros k [Hk|Hk]; [|by eauto]. destruct (decide (k = p)) as [->|]; [done|].
    rewrite lookup_insert_ne in Hk by done. eauto.
  - intros q Hq'. eapply notifier_insert; [|by eauto]. intros o1 Ho1. congruence.
Qed.

(** An object that is not a connection and that the poller does not know. *)
Lemma inv_plain p h d :
  (∀ c, d ≠ Connection c) → (∀ o, objs !! p = Some o → o_derived o = d) →
  m_send_msg_queue h = [] → (∀ fd, handlers !! fd ≠ Some p) →
  (∀ fd m, interest !! fd ≠ Some (m, p)) → p < next →
  inv (<[p := mkObject h d]> objs) ctxs mbufs next topics clients db handlers interest notif.
Proof.
  intros Hd Hp Hq Hh Hi Hn.
  assert (∀ q y, attached (<[p := mkObject h d]> objs) q y ↔ attached objs q y) as Hat.
  { intros q y. unfold attached. destruct (decide (q = p)) as [->|]; [|by rewrite lookup_insert_ne].
    rewrite lookup_insert_eq. split; intros (h1&d1&H1&H2).
    - injection H1 as _ ->. by destruct (Hd d1).
    - specialize (Hp _ H1). simpl in Hp. by destruct (Hd d1). }
  destruct Hinv. split; try done.
  - intros y e q Hr He Hq'. apply Hat. eauto.
  - intros q y Hqy. apply Hat in Hqy. eauto.
  - intros q o. destruct (decide (q = p)) as [->|]; [|rewrite lookup_insert_ne by done; eauto].
    rewrite lookup_insert_eq. intros [= <-]. split.
    + simpl. rewrite Hq. intros b Hb. by apply elem_of_nil in Hb.
    + simpl. destruct d as [c| |]; [by destruct (Hd c)|done..].
  - intros k [Hk|Hk]; [|by eauto]. destruct (decide (k = p)) as [->|]; [done|].
    rewrite lookup_insert_ne in Hk by done. eauto.
  - intros fd q Hfd. rewrite lookup_insert_ne; [by eauto|]. intros <-. by destruct (Hh fd).
  - intros fd m q Hfd. rewrite lookup_insert_ne; [by eauto|]. intros <-. by destruct (Hi fd m).
  - intros q Hq'. eapply notifier_insert; [|by eauto]. intros o1 Ho1. by rewrite (Hp o1 Ho1).
Qed.

(** A registration with the poller of a live object. *)
Lemma inv_poller p o handlers' interest' :
  objs !! p = Some o →
  (∀ fd q, handlers' !! fd = Some q → (fd = m_sock_handle (o_handler o) ∧ q = p) ∨ handlers !! fd = Some q) →
  (∀ fd m q, interest' !! fd = Some (m, q) →
     (fd = m_sock_handle (o_handler o) ∧ q = p) ∨ interest !! fd = Some (m, q)) →
  inv objs ctxs mbufs next topics clients db handlers' interest' notif.
Proof.
  intros Hp Hh Hi. destruct Hinv. split; try done.
  - intros fd q Hq. destruct (Hh _ _ Hq) as [[-> ->]|?]; eauto.
  - intros fd m q Hq. destruct (Hi _ _ _ Hq) as [[-> ->]|?]; eauto.
Qed.

(** A context is created, or an existing one that no connection holds is reused,
    for a connection without a context. *)
Lemma inv_attach p h d d' x c' :
  objs !! p = Some (mkObject h (Connection d)) → m_client_context d = None →
  d' = upd_client_context (λ _, Some x) d →
  (∀ c, ctxs !! x = Some c → mqtt_connection c = None) → x < next →
  mqtt_connection c' = Some p → (∀ b, b ∈ send_msg_queue c' → live mbufs b) →
  inv (<[p := mkObject h (Connection d')]> objs) (<[x := c']> ctxs) mbufs next topics clients db
    handlers interest notif.
Proof.
  intros Hp Hd -> Hx Hn Hc Hq.
  set (o' := mkObject h (Connection (upd_client_context (λ _, Some x) d))).
  assert (∀ q y, attached (<[p := o']> objs) q y ↔ (q = p ∧ y = x) ∨ (q ≠ p ∧ attached objs q y)) as Hat.
  { intros q y. unfold attached. destruct (decide (q = p)) as [->|].
    - rewrite lookup_insert_eq. split.
      + intros (h1&d1&[= <- <-]&[= <-]). by left.
      + intros [[_ ->]|[]]; [|done]. by eexists _, _.
    - rewrite lookup_insert_ne by done. naive_solver. }
  assert (∀ fd q, (∃ o, objs !! q = Some o ∧ m_sock_handle (o_handler o) = fd) →
    ∃ o, <[p := o']> objs !! q = Some o ∧ m_sock_handle (o_handler o) = fd) as Hs.
  { intros fd q (o&Ho&Hfd). destruct (decide (q = p)) as [->|].
    - rewrite lookup_insert_eq. exists o'. split; [done|]. rewrite Hp in Ho. by injection Ho as <-.
    - exists o. by rewrite lookup_insert_ne. }
  destruct Hinv. split; try done; eauto.
  - intros y e q Hr He Hq'. apply Hat. destruct (decide (y = x)) as [->|].
    + rewrite lookup_insert_eq in He. injection He as <-. left. split; congruence.
    + rewrite lookup_insert_ne in He by done. right. split; [|by eauto]. intros ->.
      destruct (i_link0 _ _ _ Hr He Hq') as (h1&d1&Hp1&Hd1). congruence.
  - intros q y Hqy. apply Hat in Hqy as [[-> ->]|[Hqp Hqy]].
    + rewrite lookup_insert_eq. eauto.
    + destruct (i_back0 _ _ Hqy) as (e&He&Heq). exists e. split; [|done].
      rewrite lookup_insert_ne; [done|]. intros <-. specialize (Hx _ He). congruence.
  - intros y Hr. destruct (decide (y = x)) as [->|]; [by rewrite lookup_insert_eq|].
    rewrite lookup_insert_ne by done. eauto.
  - intros q o. destruct (decide (q = p)) as [->|]; [|rewrite lookup_insert_ne by done; eauto].
    rewrite lookup_insert_eq. intros [= <-]. by destruct (i_objs0 _ _ Hp).
  - intros y e b. destruct (decide (y = x)) as [->|].
    + rewrite lookup_insert_eq. intros [= <-]. auto.
    + rewrite lookup_insert_ne by done. eauto.
  - intros k [Hk|[Hk|Hk]]; [|destruct (decide (k = x)) as [->|]; [done|]|by eauto].
    + destruct (decide (k = p)) as [->|]; [|rewrite lookup_insert_ne in Hk by done; eauto].
      apply i_fresh0. left. by eexists.
    + rewrite lookup_insert_ne in Hk by done. eauto.
  - intros q Hq'. eapply notifier_insert; [|by eauto]. intros o1 Ho1. rewrite Hp in Ho1. by injection Ho1 as <-.
Qed.

(** A new context that no connection holds. *)
Lemma inv_new_ctx x c :
  ctxs !! x = None → mqtt_connection c = None → (∀ b, b ∈ send_msg_queue c → live mbufs b) → x < next →
  inv objs (<[x := c]> ctxs) mbufs next topics clients db handlers interest notif.
Proof.
  intros Hx Hc Hq Hn. destruct Hinv. split; try done.
  - intros y d p Hr Hd Hp. apply lookup_insert_Some in Hd as [[<- <-]|[_ Hd]]; [congruence|eauto].
  - intros p y Ha. destruct (i_back0 _ _ Ha) as (d&Hd&Hp).
    exists d. rewrite lookup_insert_ne; [done|]. congruence.
  - intros y Hr. destruct (i_reg0 y Hr) as [d Hd]. exists d. rewrite lookup_insert_ne; [done|]. congruence.
  - intros y d b Hd. apply lookup_insert_Some in Hd as [[_ <-]|[_ Hd]]; [auto|eauto].
  - intros k [Hk|[[d Hk]|Hk]]; [by eauto| |by eauto].
    apply lookup_insert_Some in Hk as [[<- _]|[_ Hk]]; [done|]. apply i_fresh0. right; left. by eexists.
Qed.

(** A context that no connection holds is registered. *)
Lemma inv_offline x c topics' clients' :
  ctxs !! x = Some c → mqtt_connection c = None →
  (∀ y, registered topics' clients' y → registered topics clients y ∨ y = x) →
  (∀ t n b, topics' !! t = Some n → m_retian_msg_buf n = Some b → live mbufs b) →
  inv objs ctxs mbufs next topics' clients' db handlers interest notif.
Proof.
  intros Hx Hc Hr Ht. destruct Hinv. split; try done.
  - intros y d p Hy Hd Hp. destruct (Hr y Hy) as [Hy'| ->]; [by eauto|]. congruence.
  - intros y Hy. destruct (Hr y Hy) as [Hy'| ->]; [by eauto|by eexists].
Qed.

(** The poller gets another queue, and another descriptor that is live. *)
Lemma inv_notif notif' :
  (∀ b, b ∈ notif'.2 → live mbufs b) → (∀ p, notif'.1 = Some p → notifier objs p) →
  inv objs ctxs mbufs next topics clients db handlers interest notif'.
Proof. intros Hq Hp. by destruct Hinv. Qed.

(** The notification descriptor is closed. *)
Lemma inv_unnotify p h :
  objs !! p = Some (mkObject h PollerNotifyFd) →
  inv (delete p objs) ctxs mbufs next topics clients db
    (delete (m_sock_handle h) handlers) (delete (m_sock_handle h) interest) (None, notif.2).
Proof.
  intros Hp. assert (∀ q y, attached (delete p objs) q y ↔ attached objs q y) as Hat.
  { intros q y. unfold attached. destruct (decide (q = p)) as [->|]; [|by rewrite lookup_delete_ne].
    rewrite lookup_delete_eq, Hp. split; intros (?&?&?&?); congruence. }
  assert (∀ fd q, (∃ o, objs !! q = Some o ∧ m_sock_handle (o_handler o) = fd) →
    fd ≠ m_sock_handle h → ∃ o, delete p objs !! q = Some o ∧ m_sock_handle (o_handler o) = fd) as Hs.
  { intros fd q (o&Ho&Hfd) Hne. exists o. rewrite lookup_delete_ne; [done|].
    intros <-. rewrite Hp in Ho. by injection Ho as <-. }
  destruct Hinv. split; try done.
  - intros y e q Hr He Hq'. apply Hat. eauto.
  - intros q y Hqy. apply Hat in Hqy. eauto.
  - intros q o Ho. apply lookup_delete_Some in Ho as [_ Ho]. eauto.
  - intros k [[o Ho]|Hk]; [|by eauto]. apply lookup_delete_Some in Ho as [_ Ho]. eauto.
  - intros fd q Hfd. apply lookup_delete_Some in Hfd as [Hne Hfd]. eauto.
  - intros fd m q Hfd. apply lookup_delete_Some in Hfd as [Hne Hfd]. eauto.
Qed.

End updates.

(** A node of a topic replaced by one whose clients are known or attached. *)
Lemma registered_insert topics clients t n x :
  registered (<[t := n]> topics) clients x → registered topics clients x ∨ x ∈ m_subcriber_clients n.
Proof.
  intros [Hc|(u&k&Hu&Hx)]; [by left; left|].
  destruct (decide (u = t)) as [->|].
  - rewrite lookup_insert_eq in Hu. injection Hu as <-. by right.
  - rewrite lookup_insert_ne in Hu by done. left; right; eauto.
Qed.
