(* ===== verification/Poller.v ===== *)
(** * The event loop

    Model of [run] and [close] of src/reactor/poller_epoll.cpp, of the acceptor
    (src/mqtt_server/acceptor.cpp, [CSockAcceptor::accept]) and of the reader of
    the notification queue (src/mqtt_server/poller_notify.cpp, [CPollerNotifyFd]).
    The descriptors that the system calls create are arguments of the operations
    that open a handler. *)

From S2P Require Import Prelude Pkt Msg Mbuf MemStore Context World Handler SubMgr Connection.
From stdpp Require Import options.

Section poller.
Context {E : Env}.

(** ** The acceptor *)

(** The constructor of [CMqttConnection]. *)
Definition new_CMqttConnection : M Z :=
  do t <- std_time;
  do junk <- sys env_junk;
  do now <- std_time;
  do p <- fresh_id;
  do_ modify (upd_objs <[p :=
        mkObject (new_CEventHandler (-1) (u32 (junk 0%nat)) t)
          (Connection {| m_client_context := None;
             m_recv_buffer := map (λ i, u8 (junk (S i))) (seq 0 (Z.to_nat MAX_BUF_SIZE));
             m_cur_buf_pos := 0; m_conn_accept_time := u32 now;
             m_last_msg_time := u32 (junk 4097%nat) |})]>);
  ret p.

(** [CSockAcceptor::accept(tcp_socket)]. *)
Definition sock_accept (p : Z) : M Z :=
  do r <- sys env_accept;
  match r with
  | IoErr e => do_ set_errno e; ret (-1)
  | IoOk socket_id =>
      if (socket_id <? 0) || (socket_id =? 0) then ret (-1)
      else
        do_ upd_handler p (upd_sock_handle (λ _, socket_id));
        ret socket_id
  end.

Definition acceptor_handle_input : M Z :=
  do event_handler <- new_CMqttConnection;
  do _ <- sock_accept event_handler;
  do _ <- handler_open event_handler;
  ret 0.

(** [new Acceptor(reactor)] and [new CPollerNotifyFd(reactor)]. *)
Definition new_object (d : derived) : M Z :=
  do t <- std_time;
  do junk <- sys env_junk;
  do p <- fresh_id;
  do_ modify (upd_objs <[p := mkObject (new_CEventHandler (-1) (u32 (junk 0%nat)) t) d]>);
  ret p.

(** [Acceptor::open]; [listen] is the descriptor of the listening socket, or -1. *)
Definition acceptor_open (p listen : Z) : M Z :=
  if listen =? -1 then ret (-1)
  else
    do_ upd_handler p (upd_sock_handle (λ _, listen));
    handler_open p.

(** ** The notification queue *)

(** [CPollerNotifyFd::open]; [eventfd] is the result of the system call. *)
Definition notify_open (p eventfd : Z) : M Z :=
  do_ upd_handler p (upd_sock_handle (λ _, eventfd));
  do _ <- handler_open p;
  do_ regist_notify p;
  ret 0.

(** The part of [TCPServer::open] that opens the acceptor and the notification
    descriptor, after the restoring of the data. *)
Definition server_open (acceptor notify_fd listen eventfd : Z) : M Z :=
  do r <- acceptor_open acceptor listen;
  if r =? -1 then ret (-1)
  else
    do r <- notify_open notify_fd eventfd;
    if r <? 0 then ret (-1) else ret 0.

(** The constructor of [TCPServer] and [open]. *)
Definition server_start (listen eventfd : Z) : M Z :=
  do acceptor <- new_object Acceptor;
  do notify_fd <- new_object PollerNotifyFd;
  server_open acceptor notify_fd listen eventfd.

(** [CPollerEpoll::notify]; [written] is the status of the write to the eventfd
    by [CPollerNotifyFd::notify]. *)
Definition notify (b : Z) : M Z :=
  do writer <- gets (λ w, m_notify_writer (w_poller w));
  match writer with
  | None => ret (-1)
  | Some p =>
      do _ <- push_back b;
      do h <- get_handler p;
      sys_write (m_sock_handle h) [1; 0; 0; 0; 0; 0; 0; 0]
  end.

(** The loop of [CPollerNotifyFd::handle_input]; each round takes a message. *)
Fixpoint notify_loop (fuel : nat) : M Z :=
  match fuel with
  | O => crash FuelOut
  | S fuel =>
      do msg <- pop_front;
      match msg with
      | None => ret 0
      | Some b =>
          do m <- get_mbuf b;
          if m_msg_type m =? MSG_PUBLISH then
            do publish_msg <- decoded
              (run_decode CMqttPublish_decode (from_read_ptr m) (mbuf_length m));
            match publish_msg with
            | None => ret (-1)
            | Some msg =>
                do _ <- std_time;
                do _ <- (if env_mqtt_bridge <=? 0
                         then publish (pub_topic_name msg) b msg
                         else publish_all b);
                do _ <- std_time;
                notify_loop fuel
            end
          else notify_loop fuel
      end
  end.

Definition notify_handle_input (p : Z) : M Z :=
  do h <- get_handler p;
  do _ <- sys_read (m_sock_handle h) 8;
  do q <- gets (λ w, m_notify_deque (w_poller w));
  notify_loop (S (length q)).

(** ** Dispatch *)

Definition v_handle_input (p : Z) : M Z :=
  do o <- get_obj p;
  match o_derived o with
  | Connection _ => handle_input p
  | Acceptor => acceptor_handle_input
  | PollerNotifyFd => notify_handle_input p
  end.

(** One event of [run]. *)
Definition handle_event (event p : Z) : M unit :=
  do _ <- get_handler p;
  if has event (Z.lor EPOLLHUP EPOLLERR) then
    do _ <- handle_close p; ret tt
  else
    do closed <-
      (if has event EPOLLIN then
         do r <- v_handle_input p;
         if r <? 0 then do _ <- handle_close p; ret true else ret false
       else ret false);
    if closed : bool then ret tt
    else if has event EPOLLOUT then
      do r <- handle_output p;
      if r <? 0 then do _ <- handle_close p; ret tt else ret tt
    else ret tt.

(** An event, and the destruction of the shared objects that nothing refers to any
    more. *)
Definition event_step (event p : Z) : M unit := do_ handle_event event p; modify collect.

(** [run(timeout)]. *)
Definition run : M bool :=
  do running <- gets (λ w, m_running_flag (w_poller w));
  if negb running then ret false
  else
    do interest <- gets (λ w, interest_list (w_poller w));
    do result <- sys (λ n, env_epoll_wait n interest);
    match result with
    | WaitErr e => do_ set_errno e; ret (e =? EINTR)
    | WaitOk l =>
        do_ iter (λ '(event, p), event_step event p) l;
        ret true
    end.

Definition stop_running : M unit :=
  modify (upd_poller (λ p, mkPoller (m_map_event_handlers p) (m_notify_writer p)
                             (m_notify_deque p) false (interest_list p))).

(** The loop of [close]: close the first handler of the map until it is empty. *)
Fixpoint close_loop (fuel : nat) : M unit :=
  match fuel with
  | O => crash FuelOut
  | S fuel =>
      do handlers <- gets (λ w, m_map_event_handlers (w_poller w));
      do order <- sys (λ n, env_order n (dom handlers));
      match order with
      | [] => ret tt
      | fd :: _ =>
          match handlers !! fd with
          | None => ret tt
          | Some p => do _ <- handle_close p; close_loop fuel
          end
      end
  end.

Definition poller_close : M Z :=
  do handlers <- gets (λ w, m_map_event_handlers (w_poller w));
  do_ close_loop (S (size handlers));
  ret 0.

End poller.
