(* ===== verification/Locality.v ===== *)
(** * The server does not touch the messages of the other threads

    The frame property of the handlers: an event of a connection that succeeds in a
    server without the buffers [x] succeeds in the same way in a server that has them,
    with any queue of notifications, and leaves them alone. *)

From S2P Require Import Prelude Pkt Msg Mbuf MemStore Context World Handler SubMgr Connection Poller.
From stdpp Require Import options.

Create HintDb local_ops.

Section locality.
Context {E : Env} (x : gmap Z CMbuf) (d : list Z).

(** ** Two servers *)

(** The server [w] with the buffers [x], the queue [d], and another table and time in
    the message store. *)
Definition join (db : gmap Z Z * Z) (w : World) : World :=
  upd_mbufs (λ m, x ∪ m) (upd_poller (upd_notify_deque (λ _, d))
    (upd_store (λ s, mkStore (m_last_msg_id s) db.1 db.2) w)).

(** [w] does not have the buffers [x], and does not make them. *)
Definition apart (w : World) : Prop := ∀ b, is_Some (x !! b) → w_mbufs w !! b = None ∧ b < w_next w.

(** What [m] does in [w], [m'] does in the server with the buffers. *)
Definition mirrors {A} (m m' : M A) : Prop := ∀ w db a w',
  apart w → m w = (Ok a, w') → apart w' ∧ ∃ db', m' (join db w) = (Ok a, join db' w').

Abbreviation local m := (mirrors m m) (only parsing).

(** ** Rules *)

Lemma local_ret {A} (a : A) : local (ret a).
Proof. intros w db a' w' Hw [= <- <-]. split; [done|]. by exists db. Qed.

Lemma local_crash {A} u : local (crash u : M A).
Proof. by intros w db a w' Hw. Qed.

Lemma local_lift {A} (r : res A) : local (lift r : M A).
Proof. intros w db a w' Hw [= -> <-]. split; [done|]. by exists db. Qed.

Lemma mirrors_bind {A B} (m m' : M A) (k k' : A → M B) :
  mirrors m m' → (∀ a, mirrors (k a) (k' a)) → mirrors (bind m k) (bind m' k').
Proof.
  intros Hm Hk w db b w' Hw. unfold bind. destruct (m w) as [[a| |u] w1] eqn:Hr; [|done..].
  intros Hb. destruct (Hm w db a w1 Hw Hr) as [Hw1 [db1 ->]]. by eapply Hk.
Qed.

Lemma local_gets {A} (f : World → A) : (∀ w db, f (join db w) = f w) → local (gets f).
Proof. intros Hf w db a w' Hw [= <- <-]. split; [done|]. exists db. unfold gets. by rewrite Hf. Qed.

(** The rest of a handler that takes the next number of the store. *)
Lemma local_store {A} (k : CMsgMemStore → M A) :
  (∀ s db, mirrors (k s) (k (mkStore (m_last_msg_id s) db.1 db.2))) → local (do s <- gets w_store; k s).
Proof. intros Hk w db a w' Hw. unfold bind, gets. by apply (Hk (w_store w) db). Qed.

Lemma mirrors_modify (f f' : World → World) :
  (∀ w db, apart w → apart (f w) ∧ ∃ db', f' (join db w) = join db' (f w)) → mirrors (modify f) (modify f').
Proof.
  intros Hf w db a w' Hw [= <- <-]. destruct (Hf w db Hw) as [? [db' Hj]]. split; [done|]. exists db'.
  unfold modify. by rewrite Hj.
Qed.

Lemma local_modify f :
  (∀ w, w_mbufs (f w) = w_mbufs w) → (∀ w, w_next (f w) = w_next w) →
  (∀ w db, f (join db w) = join db (f w)) → local (modify f).
Proof.
  intros Hm Hn Hf. apply mirrors_modify. intros w db Hw. split; [|by exists db]. unfold apart. by rewrite Hm, Hn.
Qed.

Lemma local_sys {A} (f : nat → A) : local (sys f).
Proof. intros w db a w' Hw [= <- <-]. split; [done|]. by exists db. Qed.

Lemma local_iter {A} (f : A → M unit) l : (∀ a, local (f a)) → local (iter f l).
Proof. intros Hf. induction l as [|a l IH]; cbn [iter]; [apply local_ret|]. by apply mirrors_bind. Qed.

Lemma local_fresh_id : local fresh_id.
Proof.
  intros w db a w' Hw [= <- <-]. split; [|by exists db]. intros b Hb. destruct (Hw b Hb). split; [done|]. cbn. lia.
Qed.

(** ** Buffers *)

Lemma join_lookup db w b m :
  apart w → w_mbufs w !! b = Some m → x !! b = None ∧ w_mbufs (join db w) !! b = Some m.
Proof.
  intros Hw Hb. assert (x !! b = None) as Hx.
  { apply eq_None_not_Some. intros Hx. destruct (Hw b Hx). congruence. }
  split; [done|]. change (w_mbufs (join db w)) with (x ∪ w_mbufs w). by rewrite lookup_union_r.
Qed.

Lemma join_insert db w b m :
  apart w → x !! b = None →
  apart (upd_mbufs <[b := m]> w) ∧ upd_mbufs <[b := m]> (join db w) = join db (upd_mbufs <[b := m]> w).
Proof.
  intros Hw Hx. split.
  - intros c Hc. destruct (Hw c Hc) as [Hn Hlt]. split; [|done]. cbn. rewrite lookup_insert_ne; [done|].
    intros ->. rewrite Hx in Hc. by destruct Hc.
  - assert (<[b := m]> (x ∪ w_mbufs w) = x ∪ <[b := m]> (w_mbufs w)) as Hi by (by rewrite insert_union_r).
    unfold join, upd_mbufs, eta_world. cbn -[union insert]. by rewrite Hi.
Qed.

Lemma local_get_mbuf b : local (get_mbuf b).
Proof.
  intros w db m w' Hw. unfold get_mbuf. destruct (w_mbufs w !! b) as [m1|] eqn:Hb; [|done]. intros [= <- <-].
  split; [done|]. exists db. destruct (join_lookup db w b m1 Hw Hb) as [_ ->]. done.
Qed.

Lemma local_upd_mbuf b f : local (upd_mbuf b f).
Proof.
  intros w db a w' Hw. unfold upd_mbuf, bind, get_mbuf. destruct (w_mbufs w !! b) as [m|] eqn:Hb; [|done].
  intros [= <- <-]. destruct (join_lookup db w b m Hw Hb) as [Hx ->].
  destruct (join_insert db w b (f m) Hw Hx) as [? Hj]. split; [done|]. exists db. unfold modify. by rewrite Hj.
Qed.

Lemma local_mbuf_copy_to b l : local (mbuf_copy_to b l).
Proof.
  intros w db a w' Hw. unfold mbuf_copy_to, bind, get_mbuf. destruct (w_mbufs w !! b) as [m|] eqn:Hb; [|done].
  destruct (join_lookup db w b m Hw Hb) as [Hx ->]. destruct (mbuf_copy l m) as [m'|].
  - intros [= <- <-]. destruct (join_insert db w b m' Hw Hx) as [? Hj]. split; [done|]. exists db.
    unfold modify, ret. by rewrite Hj.
  - intros [= <- <-]. split; [done|]. by exists db.
Qed.

Lemma local_new_mbuf size : local (new_mbuf size).
Proof.
  unfold new_mbuf, std_time. apply mirrors_bind; [apply local_sys|]. intros fresh. apply mirrors_bind; [apply local_sys|].
  intros now w db b w' Hw [= <- <-]. set (w1 := upd_next _ w).
  assert (apart w1) as Hw1 by (intros c Hc; destruct (Hw c Hc); split; [done|cbn; lia]).
  assert (x !! w_next w = None) as Hx.
  { apply eq_None_not_Some. intros Hx. destruct (Hw _ Hx). lia. }
  destruct (join_insert db w1 (w_next w) (mbuf_init fresh now) Hw1 Hx) as [? Hj]. split; [done|]. exists db.
  change (((do_ modify (upd_mbufs <[w_next w := mbuf_init fresh now]>); ret (w_next w)) : M Z) (join db w1) =
    (Ok (w_next w), join db (upd_mbufs <[w_next w := mbuf_init fresh now]> w1))).
  unfold bind, modify, ret. by rewrite Hj.
Qed.

(** ** Operations

    Each is local because its parts are. *)

#[local] Hint Resolve local_ret local_crash local_lift local_sys local_fresh_id local_get_mbuf
  local_upd_mbuf local_mbuf_copy_to local_new_mbuf : local_ops.

Ltac solve_local := repeat first
  [ progress (intros; cbv beta zeta)
  | match goal with
    | |- mirrors (bind (gets w_store) _) _ => apply local_store; unfold next_msg_id; cbn [m_last_msg_id]
    | |- mirrors (bind _ _) (bind _ _) => apply mirrors_bind
    | |- mirrors (iter _ _) (iter _ _) => apply local_iter
    | |- mirrors (gets _) (gets _) => apply local_gets; reflexivity
    | |- mirrors (modify _) (modify _) => apply local_modify; reflexivity
    | |- mirrors (modify (upd_store _)) (modify _) =>
        apply mirrors_modify; intros; split; [done|eexists (_, _); reflexivity]
    | |- mirrors (if ?b then _ else _) _ => destruct b
    | |- mirrors (match ?e with _ => _ end) _ => destruct e
    end
  | solve [eauto with local_ops nocore] ].

Lemma local_get_obj p : local (get_obj p).
Proof.
  intros w db o w' Hw. unfold get_obj. change (w_objs (join db w)) with (w_objs w).
  destruct (w_objs w !! p); [|done]. intros [= <- <-]. split; [done|]. by exists db.
Qed.
#[local] Hint Resolve local_get_obj : local_ops.

Lemma local_get_ctx c : local (get_ctx c).
Proof.
  intros w db o w' Hw. unfold get_ctx. change (w_ctxs (join db w)) with (w_ctxs w).
  destruct (w_ctxs w !! c); [|done]. intros [= <- <-]. split; [done|]. by exists db.
Qed.
#[local] Hint Resolve local_get_ctx : local_ops.

Lemma local_get_handler p : local (get_handler p).
Proof. unfold get_handler. solve_local. Qed.
#[local] Hint Resolve local_get_handler : local_ops.

Lemma local_upd_handler p f : local (upd_handler p f).
Proof. unfold upd_handler. solve_local. Qed.
#[local] Hint Resolve local_upd_handler : local_ops.

Lemma local_get_conn p : local (get_conn p).
Proof. unfold get_conn. solve_local. Qed.
#[local] Hint Resolve local_get_conn : local_ops.

Lemma local_upd_conn p f : local (upd_conn p f).
Proof. unfold upd_conn. solve_local. Qed.
#[local] Hint Resolve local_upd_conn : local_ops.

Lemma local_delete_obj p : local (delete_obj p).
Proof. unfold delete_obj. solve_local. Qed.
#[local] Hint Resolve local_delete_obj : local_ops.

Lemma local_upd_ctx c f : local (upd_ctx c f).
Proof. unfold upd_ctx. solve_local. Qed.
#[local] Hint Resolve local_upd_ctx : local_ops.

Lemma local_new_ctx con : local (new_ctx con).
Proof. unfold new_ctx. solve_local. Qed.
#[local] Hint Resolve local_new_ctx : local_ops.

Lemma local_ack_msg c msg_id : local (ack_msg c msg_id).
Proof. unfold ack_msg. solve_local. Qed.
#[local] Hint Resolve local_ack_msg : local_ops.

Lemma local_ctx_flush c : local (ctx_flush c).
Proof. unfold ctx_flush, emit_out. solve_local. Qed.
#[local] Hint Resolve local_ctx_flush : local_ops.

(** The registration is the one operation that changes the table of the store. *)
Lemma local_regist_mem_store b : local (regist_mem_store b).
Proof. unfold regist_mem_store, std_time. solve_local. Qed.
#[local] Hint Resolve local_regist_mem_store : local_ops.

Lemma local_encode_mbuf size enc : local (encode_mbuf size enc).
Proof. unfold encode_mbuf. solve_local. Qed.
#[local] Hint Resolve local_encode_mbuf : local_ops.

Lemma local_sys_write fd l : local (sys_write fd l).
Proof. unfold sys_write, emit_out, set_errno. solve_local. Qed.
#[local] Hint Resolve local_sys_write : local_ops.

Lemma local_sys_read fd n : local (sys_read fd n).
Proof. unfold sys_read, set_errno. solve_local. Qed.
#[local] Hint Resolve local_sys_read : local_ops.

Lemma local_sys_epoll_ctl f : local (sys_epoll_ctl f).
Proof. unfold sys_epoll_ctl, set_errno. solve_local. Qed.
#[local] Hint Resolve local_sys_epoll_ctl : local_ops.

(** *** The base class *)

Lemma local_add_event p e : local (add_event p e).
Proof. unfold add_event. solve_local. Qed.
#[local] Hint Resolve local_add_event : local_ops.

Lemma local_del_event p : local (del_event p).
Proof. unfold del_event. solve_local. Qed.
#[local] Hint Resolve local_del_event : local_ops.

Lemma local_mod_event p e : local (mod_event p e).
Proof. unfold mod_event. solve_local. Qed.
#[local] Hint Resolve local_mod_event : local_ops.

Lemma local_schedule_write p : local (schedule_write p).
Proof. unfold schedule_write. solve_local. Qed.
#[local] Hint Resolve local_schedule_write : local_ops.

Lemma local_cancel_schedule_write p : local (cancel_schedule_write p).
Proof. unfold cancel_schedule_write. solve_local. Qed.
#[local] Hint Resolve local_cancel_schedule_write : local_ops.

Lemma local_send p b : local (send p b).
Proof. unfold send, set_errno. solve_local. Qed.
#[local] Hint Resolve local_send : local_ops.

Lemma local_sock_close p : local (sock_close p).
Proof. unfold sock_close, sys_close, emit_out. solve_local. Qed.
#[local] Hint Resolve local_sock_close : local_ops.

Lemma local_handler_open p : local (handler_open p).
Proof. unfold handler_open. solve_local. Qed.
#[local] Hint Resolve local_handler_open : local_ops.

Lemma local_base_handle_close p : local (base_handle_close p).
Proof. unfold base_handle_close, handler_close. solve_local. Qed.
#[local] Hint Resolve local_base_handle_close : local_ops.

Lemma local_del_client_context t c : local (del_client_context t c).
Proof. unfold del_client_context, find_topic, set_topic. solve_local. Qed.
#[local] Hint Resolve local_del_client_context : local_ops.

Section output.
Context {V : Virtual} (HV : ∀ p, local (v_handle_close p)).

Lemma local_nonblk_send p b : local (nonblk_send p b).
Proof using HV. unfold nonblk_send. solve_local. Qed.
#[local] Hint Resolve local_nonblk_send : local_ops.

Lemma local_put p b : local (put p b).
Proof using HV. unfold put. solve_local. Qed.
#[local] Hint Resolve local_put : local_ops.

Lemma local_handle_output p : local (handle_output p).
Proof using HV. unfold handle_output. solve_local. Qed.

(** *** The topics *)

Lemma local_add_client_context t c : local (add_client_context t c).
Proof using HV. unfold add_client_context, find_topic, set_topic. solve_local. Qed.

Lemma local_publish_client c b i : local (publish_client c b i).
Proof using HV. unfold publish_client. solve_local. Qed.
#[local] Hint Resolve local_publish_client : local_ops.

Lemma local_for_each t f l count : (∀ c, local (f c)) → local (for_each_subscriber t f l count).
Proof using HV.
  intros Hf. revert count. induction l as [|c l IH]; intros count; cbn [for_each_subscriber]; unfold subscribers; solve_local.
Qed.

Lemma local_make_retain_msg b : local (make_retain_msg b).
Proof. unfold make_retain_msg. solve_local. Qed.
#[local] Hint Resolve local_make_retain_msg : local_ops.

Lemma local_publish t b msg : local (publish t b msg).
Proof using HV.
  unfold publish, find_topic, set_topic, subscribers, std_time. solve_local. apply local_for_each. solve_local.
Qed.

End output.

(** *** The connections *)

Lemma local_unregist_notify : local unregist_notify.
Proof. unfold unregist_notify. solve_local. Qed.
#[local] Hint Resolve local_unregist_notify : local_ops.

Lemma local_del_by_client_id id : local (del_by_client_id id).
Proof. unfold del_by_client_id, find_by_client_id. solve_local. Qed.
#[local] Hint Resolve local_del_by_client_id : local_ops.

Lemma local_add_by_client_id id c : local (add_by_client_id id c).
Proof. unfold add_by_client_id, find_by_client_id. solve_local. Qed.
#[local] Hint Resolve local_add_by_client_id : local_ops.

Lemma local_connection_handle_close p : local (connection_handle_close p).
Proof. unfold connection_handle_close, handler_close, std_time. solve_local. Qed.
#[local] Hint Resolve local_connection_handle_close : local_ops.

Lemma local_handle_close p : local (handle_close p).
Proof. unfold handle_close. solve_local. Qed.
#[local] Hint Resolve local_handle_close : local_ops.

Lemma local_v_handle_close p : local (v_handle_close p).
Proof. apply local_handle_close. Qed.
#[local] Hint Resolve local_v_handle_close : local_ops.

Let local_put' p b : local (put p b) := local_put local_v_handle_close p b.
Let local_publish' t b m : local (publish t b m) := local_publish local_v_handle_close t b m.
Let local_add_client_context' t c : local (add_client_context t c) :=
  local_add_client_context local_v_handle_close t c.
#[local] Hint Resolve local_put' local_publish' local_add_client_context' : local_ops.

Lemma local_client_context p : local (client_context p).
Proof. unfold client_context. solve_local. Qed.
#[local] Hint Resolve local_client_context : local_ops.

Lemma local_decoded {A} (r : res A) : local (decoded r).
Proof. unfold decoded. solve_local. Qed.
#[local] Hint Resolve local_decoded : local_ops.

Lemma local_recv_from p off : local (recv_from p off).
Proof. unfold recv_from. solve_local. Qed.
#[local] Hint Resolve local_recv_from : local_ops.

Lemma local_reply p size enc : local (reply p size enc).
Proof. unfold reply. solve_local. Qed.
#[local] Hint Resolve local_reply : local_ops.

Lemma local_send_offline p l r : local (send_offline p l r).
Proof. revert r. induction l as [|b l IH]; intros r; cbn [send_offline]; solve_local. Qed.
#[local] Hint Resolve local_send_offline : local_ops.

Lemma local_attach_context p m : local (attach_context p m).
Proof. unfold attach_context, find_by_client_id, std_time. solve_local. Qed.
#[local] Hint Resolve local_attach_context : local_ops.

Lemma local_handle_connect p off len : local (handle_connect_msg p off len).
Proof. unfold handle_connect_msg. solve_local. Qed.

Lemma local_patch_msg_id p off id : local (patch_msg_id p off id).
Proof. unfold patch_msg_id. solve_local. Qed.
#[local] Hint Resolve local_patch_msg_id : local_ops.

Lemma local_handle_publish p off len : local (handle_publish_msg p off len).
Proof. unfold handle_publish_msg, std_time. solve_local. Qed.

Lemma local_handle_puback p off len : local (handle_puback_msg p off len).
Proof. unfold handle_puback_msg. solve_local. Qed.

Lemma local_handle_subscribe p off len : local (handle_subscribe_msg p off len).
Proof. unfold handle_subscribe_msg. solve_local. Qed.

Lemma local_handle_unsubscribe p off len : local (handle_unsubscribe_msg p off len).
Proof. unfold handle_unsubscribe_msg. solve_local. Qed.

Lemma local_handle_disconnect p : local (handle_disconnect_msg p).
Proof. unfold handle_disconnect_msg, std_time. solve_local. Qed.

#[local] Hint Resolve local_handle_connect local_handle_publish local_handle_puback
  local_handle_subscribe local_handle_unsubscribe local_handle_disconnect : local_ops.

Lemma local_process p off len : local (process p off len).
Proof. unfold process, handle_pingreq_msg. solve_local. Qed.
#[local] Hint Resolve local_process : local_ops.

Lemma local_process_loop fuel p len off : local (process_loop fuel p len off).
Proof. revert off. induction fuel as [|fuel IH]; intros off; cbn [process_loop]; solve_local. Qed.
#[local] Hint Resolve local_process_loop : local_ops.

Lemma local_handle_input p : local (handle_input p).
Proof. unfold handle_input, process_mqtt, std_time. solve_local. Qed.

Lemma local_acceptor : local acceptor_handle_input.
Proof.
  unfold acceptor_handle_input, new_CMqttConnection, sock_accept, std_time, set_errno. solve_local.
Qed.

#[local] Hint Resolve local_handle_input local_acceptor : local_ops.

(** ** Events *)

(** The same from one state. *)
Definition mirrors_at {A} (w : World) (m m' : M A) : Prop := ∀ db a w',
  apart w → m w = (Ok a, w') → apart w' ∧ ∃ db', m' (join db w) = (Ok a, join db' w').

Lemma mirrors_from {A} (m m' : M A) w : mirrors m m' → mirrors_at w m m'.
Proof. intros Hm db a w' Hw. by apply Hm. Qed.

Lemma mirrors_at_bind {A B} (m m' : M A) (k k' : A → M B) w :
  mirrors_at w m m' → (∀ a, mirrors (k a) (k' a)) → mirrors_at w (bind m k) (bind m' k').
Proof.
  intros Hm Hk db b w' Hw. unfold bind. destruct (m w) as [[a| |u] w1] eqn:Hr; [|done..].
  intros Hb. destruct (Hm db a w1 Hw Hr) as [Hw1 [db1 ->]]. by eapply Hk.
Qed.

Lemma mirrors_at_get_obj {B} p (k k' : object → M B) w :
  (∀ o, w_objs w !! p = Some o → mirrors_at w (k o) (k' o)) →
  mirrors_at w (do o <- get_obj p; k o) (do o <- get_obj p; k' o).
Proof.
  intros Hk db b w' Hw. unfold bind, get_obj. change (w_objs (join db w)) with (w_objs w).
  destruct (w_objs w !! p) as [o|] eqn:Ho; [|done]. by apply Hk.
Qed.

(** The object is a connection or the acceptor. *)
Definition not_notifier (w : World) (p : Z) : Prop := ∀ h, w_objs w !! p ≠ Some (mkObject h PollerNotifyFd).

Lemma local_v_handle_input p w : not_notifier w p → mirrors_at w (v_handle_input p) (v_handle_input p).
Proof.
  intros Hn. unfold v_handle_input. apply mirrors_at_get_obj. intros [h [c| |]] Ho; cbn [o_derived].
  - apply mirrors_from, local_handle_input.
  - apply mirrors_from, local_acceptor.
  - by destruct (Hn h).
Qed.

(** An event for an object that is not the notification descriptor. *)
Lemma local_handle_event event p w :
  not_notifier w p → mirrors_at w (handle_event event p) (handle_event event p).
Proof.
  intros Hn. pose proof (local_handle_output local_v_handle_close p) as Hout.
  unfold handle_event, get_handler. intros db [] w' Hw.
  destruct (w_objs w !! p) as [o|] eqn:Ho; [|unfold bind, get_obj; by rewrite Ho].
  assert (∀ k : M unit, (do _ <- (do o <- get_obj p; ret (o_handler o)); k) w = k w) as Hk
    by (intros k; unfold bind, get_obj, ret; by rewrite Ho).
  assert (∀ k : M unit, (do _ <- (do o <- get_obj p; ret (o_handler o)); k) (join db w) = k (join db w)) as Hk'
    by (intros k; unfold bind, get_obj, ret; change (w_objs (join db w)) with (w_objs w); by rewrite Ho).
  rewrite Hk, Hk'. destruct (has event (Z.lor EPOLLHUP EPOLLERR)).
  - apply (mirrors_from (do _ <- handle_close p; ret tt) _ w); [solve_local|done].
  - destruct (has event EPOLLIN).
    + apply mirrors_at_bind; [apply mirrors_at_bind; [by apply local_v_handle_input|]|..]; [solve_local..|done].
    + apply mirrors_at_bind; [apply mirrors_from|..]; [solve_local..|done].
Qed.

End locality.
