(* ===== verification/Scenarios.v ===== *)
(** * Concrete runs

    The packets of a client and runs of the server in the environments of Sample.v,
    for the witnesses of the properties and for the runs that show a defect. *)

From S2P Require Import Prelude Pkt Msg Mbuf MemStore Context World Sample Handler Delivery.
From S2P Require Import SubMgr Connection Poller.
From stdpp Require Import options.

(** ** Packets *)

Definition encoded_by (m : reader Z) : list Z :=
  match run_encode m (replicate 512 0) 512 with
  | (Ok n, l) => take (Z.to_nat n) l
  | _ => []
  end.

Definition connect_bytes (id : str) (clean : bool) : list Z :=
  encoded_by (CMqttConnect_encode (header_of_type CONNECT) id clean).

Definition subscribe_bytes (id : Z) (topic : str) (q : Z) : list Z :=
  encoded_by (CMqttSubscribe_encode (header_of_type SUBSCRIBE) id [mkTopic topic q]).

Definition publish_bytes (retain : bool) (id : Z) (topic : str) (payload : list Z) : list Z :=
  encoded_by (CMqttPublish_encode (mkHeader PUBLISH false 1 retain) topic id payload).

Definition puback_bytes (id : Z) : list Z :=
  encoded_by (CMqttPublishAck_encode (header_of_type PUBACK) id).

(** There is no encoder of UNSUBSCRIBE in the code. *)
Definition unsubscribe_bytes (id : Z) (topic : str) : list Z :=
  [0xA2; 4 + zlen topic; Z.shiftr id 8; Z.land id 0xFF; 0; zlen topic] ++ topic.

(** ** Events *)

(** The server before its handlers exist; [id] is the last message number. *)
Definition initial_world (id : Z) : World := upd_store (λ _, new_CMsgMemStore id) empty_world.

(** The objects 1 and 2 of the server below. *)
Definition acceptor : Z := 1.
Definition notify_fd : Z := 2.

Definition started : World :=
  (@server_start (quiet_env [] write_all 0) 3 4 (initial_world 0)).2.

(** A client connects on descriptor [fd]. *)
Definition accept_on (fd : Z) : M unit :=
  @event_step (quiet_env [] write_all fd) EPOLLIN acceptor.

(** The bytes [l] arrive for the handler [p], and the writes answer [write]. *)
Definition arrive (write : Z → list Z → io_result) (l : list Z) (p : Z) : M unit :=
  @event_step (quiet_env l write 0) EPOLLIN p.

(** The socket of [p] can be written. *)
Definition writable (write : Z → list Z → io_result) (p : Z) : M unit :=
  @event_step (quiet_env [] write 0) EPOLLOUT p.

(** The peer of [p] hangs up. *)
Definition hang_up (p : Z) : M unit := @event_step (quiet_env [] write_all 0) EPOLLHUP p.

(** The result and the state of a run of the started server. *)
Definition status {A} (m : M A) : res A := (m started).1.
Definition after {A} (m : M A) : World := (m started).2.

(** The connection of descriptor [fd], and the context it holds. *)
Definition conn_on (fd : Z) (w : World) : option Z := m_map_event_handlers (w_poller w) !! fd.

Definition conn_of (p : Z) (w : World) : CMqttConnection :=
  match w_objs w !! p with
  | Some (mkObject _ (Connection c)) => c
  | _ => mkConnection None [] 0 0 0
  end.

Definition ctx_of (x : Z) (w : World) : CTMqttClientContext :=
  default (new_CTMqttClientContext (λ _, 0) None) (w_ctxs w !! x).

Definition ctx_on (fd : Z) (w : World) : option CTMqttClientContext :=
  p ← conn_on fd w;
  o ← w_objs w !! p;
  x ← match o_derived o with Connection c => m_client_context c | _ => None end;
  w_ctxs w !! x.

(** The clients "a" and "b" on the descriptors 10 and 11. *)
Definition client_a : Z := 3.
Definition client_b : Z := 4.

Definition run_all (l : list (M unit)) : M unit := foldl (λ m e, do_ m; e) (ret tt) l.

Definition two_clients (clean : bool) : list (M unit) :=
  [accept_on 10; accept_on 11;
   arrive write_all (connect_bytes (of_string "a") clean) client_a;
   arrive write_all (connect_bytes (of_string "b") clean) client_b].

(** "a" subscribes to "t". *)
Definition subscribed (clean : bool) : list (M unit) :=
  two_clients clean ++ [arrive write_all (subscribe_bytes 5 (of_string "t") 1) client_a].

(** A third connection, that has not sent anything yet, and the contexts of "a" and
    "b". *)
Definition third_client (clean : bool) : list (M unit) := subscribed clean ++ [accept_on 12].
Definition client_c : Z := 10.
Definition ctx_a : Z := 5.
Definition ctx_b : Z := 7.

Definition connect_msg (id : str) (clean : bool) : CMqttConnect := {|
  connect_base := mkMsg (header_of_type CONNECT) 0 0; proto_name := of_string "MQIsdp";
  proto_version := 3; has_user_name := false; has_passwd := false; has_will_retain := false;
  will_qos := 0; has_will := false; clean_session := clean; keep_alive := 60; client_id := id;
  will_topic := []; will_message := []; user_name := []; password := [];
|}.

(** "b" has published the retained payload 1 2 3 to "t": the message that waits for
    the acknowledgement of "a", and its retained copy. *)
Definition published : list (M unit) :=
  subscribed false ++ [arrive write_all (publish_bytes true 77 (of_string "t") [1; 2; 3]) client_b].

Definition mbuf_of (b : Z) (w : World) : CMbuf := default (mbuf_init [] 0) (w_mbufs w !! b).

Definition obj_of (p : Z) (w : World) : object :=
  default (mkObject (new_CEventHandler 0 0 0) Acceptor) (w_objs w !! p).
