(* ===== verification/Safety.v ===== *)
(** * The handlers keep the invariant

    In an environment whose sockets fail only by flow control ([Calm]), the
    operations of SubMgr.v and the handlers of Connection.v are defined in every
    state of the invariant and keep it; the exceptions are in the hypotheses of
    the properties at the end. *)

From S2P Require Import Prelude Pkt Msg Mbuf MemStore Context World Sample Handler Delivery.
From S2P Require Import SubMgr Connection Invariant Poller.
From stdpp Require Import options.

Section safety.
Context {E : Env} {C : Calm}.
Implicit Types w : World.

Lemma Inv_mbuf w b m : Inv w → w_mbufs w !! b = Some m → wf_mbuf m.
Proof. intros Hi. by apply (i_mbufs _ _ _ _ _ _ _ _ _ _ Hi). Qed.

Lemma Inv_deque q w :
  Inv w → (∀ b, b ∈ q → live (w_mbufs w) b) → Inv (upd_poller (upd_notify_deque (λ _, q)) w).
Proof. intros [] Hq. by split. Qed.

(** ** Sending *)

Lemma core_eq w w' : core w' = core w →
  w_ctxs w' = w_ctxs w ∧ w_topics w' = w_topics w ∧ w_clients w' = w_clients w ∧
  w_store w' = w_store w ∧ w_stats w' = w_stats w ∧ w_next w' = w_next w ∧
  m_map_event_handlers (w_poller w') = m_map_event_handlers (w_poller w) ∧
  notified w' = notified w.
Proof. intros H. injection H as ??????????. split_and!; try done. unfold notified. congruence. Qed.

Lemma notified_deque w w' :
  notified w' = notified w → m_notify_deque (w_poller w') = m_notify_deque (w_poller w).
Proof. intros H. by injection H. Qed.

Lemma Inv_sends p b o m h' m' l q w w' :
  Inv w → w_objs w !! p = Some o → w_mbufs w !! b = Some m →
  sends p b o m h' m' l q w w' →
  (∀ c, c ∈ m_send_msg_queue h' → live (w_mbufs w) c) →
  Inv w' ∧ frame w w'.
Proof.
  intros Hi Hp Hb [] Hq. apply core_eq in se_core as (Hc&Ht&Hcl&Hs&_&Hn&Hh&Hd).
  split.
  - unfold Inv. rewrite se_objs, se_mbufs, Hc, Ht, Hcl, Hs, Hn, Hh, Hd.
    eapply (inv_interest (interest := interest_list (w_poller w))).
    + eapply inv_handler; [|done|done|].
      * eapply inv_mbuf; [exact Hi|done| |].
        -- eapply i_fresh; [exact Hi|]. right; right. by eexists.
        -- intros id Hid. destruct (i_db _ _ _ _ _ _ _ _ _ _ Hi _ _ Hid) as (m1&Hm1&?&?).
           rewrite Hb in Hm1. injection Hm1 as <-. by rewrite se_id, se_mem_db.
      * intros c Hcq. by apply live_insert, Hq.
    + apply lookup_insert_eq.
    + intros s mask r Hsr. simpl. rewrite se_handle. by apply se_interest.
  - split.
    + intros r. rewrite se_objs. destruct (decide (r = p)) as [->|].
      * by rewrite lookup_insert_eq, Hp.
      * by rewrite lookup_insert_ne.
    + rewrite Hc. intros x c Hx. by exists c.
    + intros c Hcl'. rewrite se_mbufs. by eapply live_insert.
    + exact Hd.
Qed.

(** [put] and the topics: for the loops over the subscribers. *)
Lemma put_keeps p b w :
  Inv w → is_Some (w_objs w !! p) → live (w_mbufs w) b →
  safe (put p b) (λ _ w', Inv w' ∧ frame w w' ∧ w_topics w' = w_topics w) w.
Proof using C.
  intros Hi [o Hp] [m Hb]. eapply safe_put; [done..|by eapply i_mbufs|].
  intros h' m' l q r w' Hs Hq Hcq _ _ _ _.
  destruct (core_eq _ _ (se_core _ _ _ _ _ _ _ _ _ _ Hs)) as (_&Ht&_).
  destruct (Inv_sends p b o m h' m' l q w w') as [Hi' Hf]; [done..| |done].
  intros c. rewrite Hq, elem_of_app. intros [Hc|Hc].
  - by eapply i_objs.
  - destruct Hcq as [->| ->]; [by apply elem_of_nil in Hc|].
    apply list_elem_of_singleton in Hc as ->. by eexists.
Qed.

Lemma keeps_put p b w :
  Inv w → is_Some (w_objs w !! p) → live (w_mbufs w) b → keeps (put p b) w.
Proof using C. intros. eapply keeps_of_safe; [by apply put_keeps|]. naive_solver. Qed.

(** ** Elementary steps *)

Lemma keeps_gets {A} (f : World → A) w : Inv w → keeps (gets f) w.
Proof. by split. Qed.

Lemma keeps_sys {A} (f : nat → A) w : Inv w → keeps (sys f) w.
Proof. intros Hi. split; [exact Hi|]. by split; [|intros x c Hx; exists c|..]. Qed.

Lemma keeps_modify f w : Inv (f w) → frame w (f w) → keeps (modify f) w.
Proof. by split. Qed.

Lemma frame_upd_stats f w : frame w (upd_stats f w).
Proof. by split; [|intros x c Hx; exists c|..]. Qed.

Lemma keeps_stats f w : Inv w → keeps (modify (upd_stats f)) w.
Proof. intros Hi. apply keeps_modify; [exact Hi|apply frame_upd_stats]. Qed.

Lemma keeps_get_ctx x w : Inv w → is_Some (w_ctxs w !! x) → keeps (get_ctx x) w.
Proof. intros Hi [c Hx]. eapply safe_get_ctx; [done|]. by split. Qed.

Lemma frame_upd_ctx x c c' w :
  w_ctxs w !! x = Some c → mqtt_connection c' = mqtt_connection c →
  client_status c' = client_status c → frame w (upd_ctxs <[x := c']> w).
Proof.
  intros Hx Hc Hs. split; [done| |done..]. intros y d Hy. simpl.
  destruct (decide (y = x)) as [->|]; [|by rewrite lookup_insert_ne by done; eauto].
  rewrite lookup_insert_eq. exists c'. split_and!; congruence.
Qed.

(** An update of a context that keeps its connection and status, and whose queue
    holds live buffers. *)
Lemma keeps_upd_ctx x c f w :
  Inv w → w_ctxs w !! x = Some c → mqtt_connection (f c) = mqtt_connection c →
  client_status (f c) = client_status c →
  (∀ b, b ∈ send_msg_queue (f c) → live (w_mbufs w) b) → keeps (upd_ctx x f) w.
Proof.
  intros Hi Hx Hc Hs Hq. eapply safe_upd_ctx; [done|].
  split; [|by eapply frame_upd_ctx]. by eapply inv_ctx.
Qed.

(** The same for an update that only shortens the queue. *)
Lemma keeps_upd_ctx_any x f w :
  Inv w → is_Some (w_ctxs w !! x) →
  (∀ c, mqtt_connection (f c) = mqtt_connection c ∧ client_status (f c) = client_status c ∧
     ∀ b, b ∈ send_msg_queue (f c) → b ∈ send_msg_queue c) →
  keeps (upd_ctx x f) w.
Proof.
  intros Hi [c Hc] Hf. destruct (Hf c) as (H1&H2&H3). eapply keeps_upd_ctx; [done..|].
  intros b Hb. eapply (i_ctxs _ _ _ _ _ _ _ _ _ _ Hi); [exact Hc|by apply H3].
Qed.

Lemma frame_ctx x w w' : frame w w' → is_Some (w_ctxs w !! x) → is_Some (w_ctxs w' !! x).
Proof. intros Hf [c Hc]. destruct (f_ctxs _ _ Hf _ _ Hc) as (c'&Hc'&_). by eexists. Qed.

Lemma safe_new_mbuf size (Q : Z → World → Prop) w :
  Inv w → 0 <= size < 2 ^ 31 →
  (∀ b m w', Inv w' → frame w w' → w_topics w' = w_topics w → w_mbufs w' !! b = Some m →
     m_read_pos m = 0 → m_write_pos m = 0 → max_size m = size → m_msg_id m = 0 →
     (∀ id, m_msg_db (w_store w') !! id ≠ Some b) → b < w_next w' → Q b w') →
  safe (new_mbuf size) Q w.
Proof.
  intros Hi Hs HQ. unfold new_mbuf, std_time.
  apply safe_bind, safe_sys, safe_bind, safe_sys, safe_bind, safe_fresh_id, safe_bind, safe_modify.
  apply safe_ret. set (m := mbuf_init _ _).
  assert (max_size m = size) as Hm.
  { unfold m, max_size, mbuf_init; simpl. unfold zlen. rewrite length_map, length_seq. lia. }
  assert (∀ id, m_msg_db (w_store w) !! id ≠ Some (w_next w)) as Hdb.
  { intros id Hid. destruct (i_db _ _ _ _ _ _ _ _ _ _ Hi _ _ Hid) as (m1&Hm1&_).
    assert (w_next w < w_next w); [|lia]. eapply i_fresh; [exact Hi|]. right; right. by eexists. }
  apply (HQ _ m); try done.
  - eapply inv_mbuf; [eapply inv_next; [exact Hi|]|..].
    + simpl. lia.
    + apply wf_mbuf_init. unfold m, max_size, mbuf_init in Hm. simpl in Hm. lia.
    + simpl. lia.
    + intros id Hid. by apply Hdb in Hid.
  - split; [done|intros x c Hx; by exists c|intros c; by apply live_insert|done].
  - apply lookup_insert_eq.
  - simpl. lia.
Qed.

(** ** Replies *)

Lemma safe_upd_fresh_mbuf b f m (Q : unit → World → Prop) w :
  Inv w → w_mbufs w !! b = Some m → wf_mbuf (f m) →
  (∀ id, m_msg_db (w_store w) !! id ≠ Some b) →
  (∀ w', Inv w' → frame w w' → w_topics w' = w_topics w → w_mbufs w' !! b = Some (f m) →
     w_store w' = w_store w → w_next w' = w_next w → w_objs w' = w_objs w → Q tt w') →
  safe (upd_mbuf b f) Q w.
Proof.
  intros Hi Hb Hwf Hdb HQ. eapply safe_upd_mbuf; [done|]. apply HQ; try done.
  - eapply inv_mbuf; [exact Hi|done| |].
    + eapply i_fresh; [exact Hi|]. right; right. by eexists.
    + intros id Hid. by apply Hdb in Hid.
  - split; [done|intros x c Hx; by exists c|intros c; by apply live_insert|done].
  - apply lookup_insert_eq.
Qed.

Lemma safe_encode_mbuf size enc w :
  Inv w → 0 <= size < 2 ^ 31 → answers size enc →
  safe (encode_mbuf size enc) (λ r w', Inv w' ∧ frame w w' ∧ w_topics w' = w_topics w ∧
    match r with Some b => live (w_mbufs w') b | None => True end) w.
Proof.
  intros Hi Hs Ha. unfold encode_mbuf. apply safe_bind, safe_new_mbuf; [done..|].
  intros b m w1 Hi1 Hf1 Ht1 Hb Hr0 Hw0 Hm0 Hid Hdb Hbn.
  apply safe_bind. eapply safe_get_mbuf; [done|].
  assert (from_write_ptr m = m_data m) as Hfw by (unfold from_write_ptr; by rewrite Hw0).
  rewrite Hfw, Hm0. specialize (Ha (m_data m) Hm0). destruct (enc (m_data m) size) as [r l].
  assert (zlen l = size) as Hl by (destruct r as [n| |u]; tauto).
  assert (wf_mbuf (set_from_write_ptr l m)) as Hwf.
  { unfold wf_mbuf, set_from_write_ptr, upd_data, max_size; simpl. rewrite Hr0, Hw0. simpl. zlia. }
  apply safe_bind. eapply safe_upd_fresh_mbuf; [done..|].
  intros w2 Hi2 Hf2 Ht2 Hb2 Hst2 Hn2 Ho2.
  destruct r as [n| |u]; [|apply safe_ret; split_and!; [done|by etransitivity|congruence|done]|done].
  apply safe_bind. eapply safe_upd_fresh_mbuf; [done..| |by rewrite Hst2|].
  - apply wf_mbuf_write_ptr; [done|].
    unfold set_from_write_ptr, upd_data, max_size; simpl. rewrite Hw0. simpl. lia.
  - intros w3 Hi3 Hf3 Ht3 Hb3 _ _ _. apply safe_ret. split_and!; [done| |congruence|by eexists].
    etransitivity; [done|]. by etransitivity.
Qed.

Lemma keeps_reply p size enc w :
  Inv w → is_Some (w_objs w !! p) → 0 <= size < 2 ^ 31 → answers size enc →
  keeps (reply p size enc) w.
Proof using C.
  intros Hi Hp Hs Ha. apply safe_bind. eapply safe_mono; [by apply safe_encode_mbuf|].
  intros r w1 (Hi1&Hf1&_&Hr). destruct r as [b|]; [|by apply safe_ret].
  eapply safe_mono; [apply put_keeps; [done| |done]|].
  - destruct Hp as [o Hp]. pose proof (f_derived _ _ Hf1 p) as Hd. rewrite Hp in Hd.
    by destruct (w_objs w1 !! p).
  - intros _ w2 (?&?&_). split; [done|]. by etransitivity.
Qed.

(** ** Topics *)

Definition known (w : World) (x : Z) : Prop := registered (w_topics w) (w_clients w) x.

Lemma keeps_set_topic t n w :
  Inv w → (∀ x, x ∈ m_subcriber_clients n → known w x ∨ ∃ p, attached (w_objs w) p x) →
  (∀ b, m_retian_msg_buf n = Some b → live (w_mbufs w) b) → keeps (set_topic t n) w.
Proof.
  intros Hi Hx Hb. apply keeps_modify; [|by split; [|intros y c Hy; exists c|..]].
  eapply inv_registered; [exact Hi| |].
  - intros x Hr. apply registered_insert in Hr as [Hr|Hr]; [by left|by apply Hx].
  - intros u k b. simpl. destruct (decide (u = t)) as [->|].
    + rewrite lookup_insert_eq. intros [= <-]. apply Hb.
    + rewrite lookup_insert_ne by done. by eapply i_retain.
Qed.

Lemma known_client t n x w :
  w_topics w !! t = Some n → x ∈ m_subcriber_clients n → known w x.
Proof. intros Ht Hx. right. eauto. Qed.

Lemma known_ctx x w : Inv w → known w x → is_Some (w_ctxs w !! x).
Proof. intros Hi Hx. by eapply i_reg. Qed.

Lemma attached_ctx p x w :
  Inv w → attached (w_objs w) p x → ∃ c, w_ctxs w !! x = Some c ∧ mqtt_connection c = Some p.
Proof. intros Hi Ha. by eapply i_back. Qed.

Lemma attached_obj objs p x : attached objs p x → is_Some (objs !! p).
Proof. intros (h&c&Hp&_). by eexists. Qed.

Lemma known_obj x c p w :
  Inv w → known w x → w_ctxs w !! x = Some c → mqtt_connection c = Some p →
  is_Some (w_objs w !! p).
Proof. intros Hi Hx Hc Hp. eapply attached_obj. by eapply i_link. Qed.

Lemma keeps_find_topic t w : Inv w → keeps (find_topic t) w.
Proof. apply keeps_gets. Qed.

Lemma keeps_del_client_context t x w : Inv w → keeps (del_client_context t x) w.
Proof.
  intros Hi. unfold del_client_context. apply keeps_bind; [by apply keeps_find_topic|].
  intros it w1 [= <- <-] _ _. destruct (w_topics w !! t) as [n|] eqn:Ht; [|by apply keeps_ret].
  apply keeps_bind; [|intros; by apply keeps_ret]. apply keeps_set_topic; [done| |].
  - intros y Hy. left. apply elem_of_del_client in Hy as [_ Hy]. by eapply known_client.
  - intros b. rewrite retain_del_client. by eapply i_retain.
Qed.

Lemma live_ctx_queue x c w :
  Inv w → w_ctxs w !! x = Some c → ∀ b, b ∈ send_msg_queue c → live (w_mbufs w) b.
Proof. intros Hi Hc b Hb. by eapply i_ctxs. Qed.

Lemma keeps_add_send_msg x b w :
  Inv w → is_Some (w_ctxs w !! x) → live (w_mbufs w) b → keeps (upd_ctx x (add_send_msg b)) w.
Proof.
  intros Hi [c Hc] Hb. eapply keeps_upd_ctx; [done..|]. simpl. intros a Ha.
  apply elem_of_app in Ha as [Ha|Ha]; [by eapply live_ctx_queue|].
  by apply list_elem_of_singleton in Ha as ->.
Qed.

Lemma keeps_add_client_context t x p w :
  Inv w → attached (w_objs w) p x → keeps (add_client_context t x) w.
Proof using C.
  intros Hi Ha. unfold add_client_context. apply keeps_bind; [by apply keeps_find_topic|].
  intros it w1 [= <- <-] _ _. destruct (w_topics w !! t) as [n|] eqn:Ht.
  2:{ apply keeps_bind; [|intros; by apply keeps_ret]. apply keeps_set_topic; [done| |done].
      intros y Hy. apply elem_of_add_client in Hy as [->|Hy]; [by eauto|].
      by apply elem_of_empty in Hy. }
  destruct (attached_ctx _ _ _ Hi Ha) as (c&Hc&Hp).
  apply keeps_bind.
  { apply keeps_set_topic; [done| |].
    - intros y Hy. apply elem_of_add_client in Hy as [->|Hy]; [by eauto|].
      left. by eapply known_client.
    - intros b. rewrite retain_add_client. by eapply i_retain. }
  intros a w2 [= _ <-] Hi2 Hf2. apply keeps_bind; [apply keeps_get_ctx; [done|by exists c]|].
  intros c' w3 Hr Hi3 Hf3. unfold get_ctx in Hr. simpl in Hr. rewrite Hc in Hr.
  injection Hr as <- <-. rewrite Hp.
  destruct (m_retian_msg_buf n) as [b|] eqn:Hb; [|by apply keeps_ret].
  assert (live (w_mbufs w) b) as Hl by (by eapply (i_retain _ _ _ _ _ _ _ _ _ _ Hi)).
  apply keeps_bind; [apply keeps_add_send_msg; [done|by exists c|done]|].
  intros _ w4 _ Hi4 Hf4. apply keeps_put; [done| |by apply (f_mbufs _ _ Hf4)].
  eapply attached_obj, frame_attached; [exact Hf4|]. exact Ha.
Qed.

(** ** Publication *)

Lemma publish_client_keeps x b i w :
  Inv w → known w x → live (w_mbufs w) b →
  safe (publish_client x b i) (λ _ w', Inv w' ∧ frame w w' ∧ w_topics w' = w_topics w) w.
Proof using C.
  intros Hi Hx Hb. destruct (known_ctx x w Hi Hx) as [c Hc]. unfold publish_client.
  apply safe_bind. eapply safe_upd_ctx; [done|]. set (w1 := upd_ctxs _ w).
  assert (Inv w1 ∧ frame w w1) as [Hi1 Hf1].
  { pose proof (keeps_add_send_msg x b w Hi ltac:(by eexists) Hb) as Hk.
    unfold keeps, safe, wp, upd_ctx, bind, get_ctx in Hk. rewrite Hc in Hk. exact Hk. }
  apply safe_bind. eapply safe_get_ctx; [apply lookup_insert_eq|]. cbn [mqtt_connection add_send_msg upd_send_msg_queue].
  apply safe_bind. eapply safe_mono with (Q := λ _ w', Inv w' ∧ frame w w' ∧ w_topics w' = w_topics w).
  - destruct (mqtt_connection c) as [p|] eqn:Hp; [|by apply safe_ret].
    apply safe_bind. eapply safe_mono; [apply put_keeps; [done| |done]|].
    + exact (known_obj x c p w Hi Hx Hc Hp).
    + intros _ w2 (?&?&Ht). apply safe_ret. split_and!; [done|by etransitivity|done].
  - intros [on off] w2 (Hi2&Hf2&Ht2). apply safe_bind, safe_modify, safe_ret.
    split_and!; [exact Hi2| |done]. etransitivity; [done|apply frame_upd_stats].
Qed.

Lemma for_each_keeps t b i l count w :
  Inv w → live (w_mbufs w) b →
  safe (for_each_subscriber t (λ x, do _ <- publish_client x b i; ret tt) l count)
    (λ _ w', Inv w' ∧ frame w w' ∧ w_topics w' = w_topics w) w.
Proof using C.
  revert count w. induction l as [|x l IH]; intros count w Hi Hb; cbn [for_each_subscriber].
  { by apply safe_ret. }
  apply safe_bind, safe_gets. case_decide as Hx; [|by apply IH].
  assert (known w x) as Hk.
  { destruct (w_topics w !! t) as [n|] eqn:Ht; simpl in Hx; [by eapply known_client|].
    by apply elem_of_empty in Hx. }
  apply safe_bind, safe_bind. eapply safe_mono; [by apply publish_client_keeps|].
  intros _ w1 (Hi1&Hf1&Ht1). apply safe_ret, safe_bind, safe_gets. rewrite Ht1.
  rewrite decide_True by done. eapply safe_mono; [apply IH; [done|by apply (f_mbufs _ _ Hf1)]|].
  intros n w2 (?&?&?). split_and!; [done|by etransitivity|congruence].
Qed.

(** [CMbuf::copy] into a buffer that the message store does not know. *)
Lemma safe_mbuf_copy_to b l m (Q : Z → World → Prop) w :
  Inv w → w_mbufs w !! b = Some m → m_write_pos m + zlen l <= max_size m →
  (∀ id, m_msg_db (w_store w) !! id = Some b → m_msg_id m = id ∧ m_mem_db m = true) →
  (∀ m' w', Inv w' → frame w w' → w_topics w' = w_topics w → w_mbufs w' !! b = Some m' →
     contents m' = contents m ++ l → m_read_pos m' = m_read_pos m →
     w_store w' = w_store w → w_objs w' = w_objs w → Q 0 w') →
  safe (mbuf_copy_to b l) Q w.
Proof.
  intros Hi Hb Hl Hdb HQ. unfold mbuf_copy_to. apply safe_bind. eapply safe_get_mbuf; [done|].
  assert (wf_mbuf m) as Hwf by (by eapply i_mbufs).
  destruct (mbuf_copy_contents l m Hwf Hl) as (m'&->&Hwf'&Hc&_&Hr&_&Hid&Hmdb&_).
  apply safe_bind, safe_modify, safe_ret. apply (HQ m'); try done.
  - eapply inv_mbuf; [exact Hi|done| |].
    + eapply i_fresh; [exact Hi|]. right; right. by eexists.
    + intros id H. apply Hdb in H. by rewrite Hid, Hmdb.
  - split; [done|intros x c Hx; by exists c|intros c; by apply live_insert|done].
  - apply lookup_insert_eq.
Qed.

Lemma make_retain_keeps b m w :
  Inv w → w_mbufs w !! b = Some m → contents m ≠ [] →
  safe (make_retain_msg b) (λ r w', Inv w' ∧ frame w w' ∧ w_topics w' = w_topics w ∧
    live (w_mbufs w') r) w.
Proof.
  intros Hi Hb Hne. assert (wf_mbuf m) as Hwf by (by eapply i_mbufs).
  pose proof (mbuf_length_wf m Hwf) as Hlen. pose proof (zlen_contents m Hwf) as Hzl.
  unfold make_retain_msg. apply safe_bind. eapply safe_get_mbuf; [done|].
  pose proof Hwf as (?&?&?). apply safe_bind, safe_new_mbuf; [done|lia|].
  intros r m1 w1 Hi1 Hf1 Ht1 Hr Hr0 Hw0 Hm0 Hid Hdb _.
  fold (contents m). rewrite send_data by done. cbn [negb].
  apply safe_bind, safe_ret. apply safe_bind.
  eapply safe_mbuf_copy_to; [done|done|lia|intros id Hid'; by apply Hdb in Hid'|].
  intros m2 w2 Hi2 Hf2 Ht2 Hr2 Hc2 Hrp2 Hst2 _.
  apply safe_bind. eapply safe_upd_fresh_mbuf; [done|done|exact (Inv_mbuf w2 r m2 Hi2 Hr2)|by rewrite Hst2|].
  intros w3 Hi3 Hf3 Ht3 Hr3 Hst3 _ _.
  apply safe_bind. eapply safe_get_mbuf; [done|].
  assert (contents m2 ≠ []) as Hne2.
  { rewrite Hc2. intros Hnil. apply app_eq_nil in Hnil as [_ ?]. done. }
  change (from_read_ptr (set_msg_id (m_msg_id m) m2)) with (from_read_ptr m2).
  destruct (from_read_ptr m2) as [|hd tl] eqn:Hfr.
  { unfold contents in Hne2. by rewrite Hfr, take_nil in Hne2. }
  apply safe_bind. eapply safe_upd_fresh_mbuf; [done|done| |by rewrite Hst3, Hst2|].
  { assert (wf_mbuf m2) as (?&?&?) by (by eapply (Inv_mbuf w2)).
    unfold wf_mbuf, upd_data, max_size in *; simpl. by rewrite zlen_insert. }
  intros w4 Hi4 Hf4 Ht4 Hr4 _ _ _. apply safe_ret. split_and!; [done| |congruence|by eexists].
  etransitivity; [done|]. etransitivity; [done|]. by etransitivity.
Qed.

Lemma keeps_publish t b m msg w :
  Inv w → w_mbufs w !! b = Some m → contents m ≠ [] → keeps (publish t b msg) w.
Proof using C.
  intros Hi Hb Hne. unfold publish. apply keeps_bind; [by apply keeps_find_topic|].
  intros it w0 [= <- <-] _ _.
  apply keeps_bind.
  { destruct (bool_decide _) eqn:Hn; [|by apply keeps_ret].
    apply keeps_set_topic; [done| |done]. intros x Hx. by apply elem_of_empty in Hx. }
  intros a w1 Hr1 Hi1 Hf1.
  assert (is_Some (w_topics w1 !! t) ∧ w_mbufs w1 !! b = Some m) as [[n Ht1] Hb1].
  { case_bool_decide as Hn; injection Hr1 as _ <-; simpl.
    - rewrite lookup_insert_eq. split; [by eexists|done].
    - split; [by apply not_eq_None_Some|done]. }
  apply keeps_bind.
  { destruct (retain_flag _); [|by apply keeps_ret].
    apply safe_bind. eapply safe_mono; [by eapply make_retain_keeps|].
    intros r w2 (Hi2&Hf2&Ht2&Hr2). apply safe_bind, safe_gets. rewrite Ht2, Ht1.
    eapply safe_mono; [apply keeps_set_topic; [done| |]|].
    - intros x Hx. left. eapply (known_client t n); [congruence|].
      by destruct (0 <? _).
    - intros c. destruct (0 <? _); simpl; [by intros [= <-]|done].
    - intros _ w3 [Hi3 Hf3]. split; [done|]. by etransitivity. }
  intros _ w2 _ Hi2 Hf2. destruct (bool_decide (w_topics w !! t = None)); [by apply keeps_ret|].
  assert (live (w_mbufs w2) b) as [m2 Hb2] by (apply (f_mbufs _ _ Hf2); by eexists).
  apply keeps_bind; [eapply safe_get_mbuf; [done|by split]|].
  intros m2' w3 Hr3 Hi3 Hf3. unfold get_mbuf in Hr3. rewrite Hb2 in Hr3. injection Hr3 as <- <-.
  apply keeps_bind; [by apply keeps_stats|]. intros _ w4 _ Hi4 Hf4.
  apply keeps_bind; [by apply keeps_sys|]. intros now w5 _ Hi5 Hf5.
  apply keeps_bind; [by apply keeps_stats|]. intros _ w6 _ Hi6 Hf6.
  apply keeps_bind; [by apply keeps_gets|]. intros X w7 _ Hi7 Hf7.
  apply keeps_bind; [by apply keeps_sys|]. intros order w8 _ Hi8 Hf8.
  apply keeps_bind.
  { eapply keeps_of_safe; [apply for_each_keeps; [done|]|naive_solver].
    apply (f_mbufs w2); [|by eexists]. do 4 (etransitivity; [done|]). done. }
  intros cnt w9 _ Hi9 Hf9. apply keeps_bind; [by apply keeps_sys|]. intros now' w10 _ Hi10 _.
  apply keeps_bind; [by apply keeps_stats|]. intros; by apply keeps_ret.
Qed.

(** ** The connection *)

Definition conn_is (w : World) (p : Z) (c : CMqttConnection) : Prop :=
  ∃ h, w_objs w !! p = Some (mkObject h (Connection c)).

(** The connection [p] keeps its context, and its receive buffer from [hi] on; the
    notifications of the other threads stay. *)
Definition conn_after (p hi : Z) (w w' : World) : Prop :=
  notified w' = notified w ∧
  ∀ c, conn_is w p c → ∃ c', conn_is w' p c' ∧ m_client_context c' = m_client_context c ∧
    drop (Z.to_nat hi) (m_recv_buffer c') = drop (Z.to_nat hi) (m_recv_buffer c).

Lemma conn_after_frame p hi w w' : frame w w' → conn_after p hi w w'.
Proof.
  intros Hf. split; [apply Hf|]. intros c [h Hp]. destruct (frame_conn _ _ _ _ _ Hf Hp) as [h' Hp'].
  exists c. split_and!; [by exists h'|done|done].
Qed.

Lemma conn_after_trans p hi w1 w2 w3 :
  conn_after p hi w1 w2 → conn_after p hi w2 w3 → conn_after p hi w1 w3.
Proof.
  intros [N1 H1] [N2 H2]. split; [congruence|]. intros c Hc. destruct (H1 c Hc) as (c1&Hc1&?&?).
  destruct (H2 c1 Hc1) as (c2&Hc2&?&?). exists c2. split_and!; [done|congruence..].
Qed.

Lemma frame_conn_is w w' p c : frame w w' → conn_is w p c → conn_is w' p c.
Proof. intros Hf [h Hp]. eapply frame_conn in Hp as [h' Hp']; [by exists h'|done]. Qed.

Lemma conn_is_obj w p c : conn_is w p c → is_Some (w_objs w !! p).
Proof. intros [h Hp]. by eexists. Qed.

Lemma conn_attached w p c x :
  conn_is w p c → m_client_context c = Some x → attached (w_objs w) p x.
Proof. intros [h Hp] Hx. by exists h, c. Qed.

Lemma conn_ok w p c :
  Inv w → conn_is w p c →
  zlen (m_recv_buffer c) = MAX_BUF_SIZE ∧ 0 <= m_cur_buf_pos c <= MAX_BUF_SIZE.
Proof. intros Hi [h Hp]. by destruct (i_objs _ _ _ _ _ _ _ _ _ _ Hi _ _ Hp) as [_ Hd]. Qed.

(** A packet of [len] bytes at [off] of the receive buffer, and four more bytes for
    [remain_length] to look at. *)
Definition packet_at (off len : Z) : Prop :=
  0 <= off ∧ 2 <= len ∧ off + len <= MAX_BUF_SIZE ∧ off + 5 <= MAX_BUF_SIZE.

Lemma recv_bounds w p c off len :
  Inv w → conn_is w p c → packet_at off len →
  let buf := drop (Z.to_nat off) (m_recv_buffer c) in
  5 <= zlen buf ∧ 0 <= len <= zlen buf ∧ len < 2 ^ 31 ∧ zlen buf <= MAX_BUF_SIZE.
Proof.
  intros Hi Hc (?&?&?&?). cbv zeta. destruct (conn_ok w p c Hi Hc) as [Hl _].
  rewrite zlen_drop, Hl by lia. unfold MAX_BUF_SIZE in *. lia.
Qed.

Lemma safe_recv_from p off c (Q : list Z → World → Prop) w :
  conn_is w p c → Q (drop (Z.to_nat off) (m_recv_buffer c)) w → safe (recv_from p off) Q w.
Proof.
  intros [h Hp] HQ. unfold recv_from. apply safe_bind. by eapply safe_get_conn.
Qed.

Lemma safe_client_context p x c (Q : Z → World → Prop) w :
  conn_is w p c → m_client_context c = Some x → Q x w → safe (client_context p) Q w.
Proof.
  intros [h Hp] Hx HQ. unfold client_context. apply safe_bind.
  eapply safe_get_conn; [done|]. by rewrite Hx.
Qed.

(** A decoder that is defined on the packet. *)
Lemma safe_decoded {A} (r : res A) (Q : option A → World → Prop) w :
  (∀ u, r ≠ Stop u) → (r = Fail → Q None w) → (∀ a, r = Ok a → Q (Some a) w) →
  safe (decoded r) Q w.
Proof. intros Hr H1 H2. destruct r as [a| |u]; [by apply H2|by apply H1|by destruct (Hr u)]. Qed.

Section handlers.
Context (p x off len : Z) (c : CMqttConnection) (w : World).
Hypothesis Hi : Inv w.
Hypothesis Hc : conn_is w p c.
Hypothesis Hx : m_client_context c = Some x.
Hypothesis Hpkt : packet_at off len.
#[local] Set Default Proof Using "All".

Lemma handler_ctx : ∃ ctx, w_ctxs w !! x = Some ctx ∧ mqtt_connection ctx = Some p.
Proof. apply attached_ctx; [done|]. by eapply conn_attached. Qed.

Lemma handle_pingreq_keeps : keeps (handle_pingreq_msg p) w.
Proof.
  apply keeps_reply; [done|by eapply conn_is_obj|lia|]. by apply empty_answers.
Qed.

Lemma handle_unsubscribe_keeps : keeps (handle_unsubscribe_msg p off len) w.
Proof.
  destruct handler_ctx as (ctx&Hctx&Hp). destruct (recv_bounds w p c off len Hi Hc Hpkt) as (H1&H2&H3&_).
  unfold handle_unsubscribe_msg.
  apply safe_bind. eapply safe_client_context; [done..|].
  apply safe_bind. eapply safe_get_ctx; [done|]. case_decide; [by apply keeps_ret|].
  apply safe_bind. eapply safe_recv_from; [done|]. apply safe_bind, safe_decoded.
  - intros u. apply run_decode_safe; auto using unsubscribe_decode_tame.
  - intros _. by apply keeps_ret.
  - intros m _. apply keeps_bind.
    { apply keeps_iter; [done|]. intros t w1 _ Hi1 Hf1. apply safe_bind.
      eapply safe_client_context; [by eapply frame_conn_is|done|].
      apply keeps_bind; [by apply keeps_del_client_context|]. intros; by apply keeps_ret. }
    intros _ w1 _ Hi1 Hf1. apply keeps_reply; [done| |lia|by apply ack_answers].
    eapply conn_is_obj. by eapply frame_conn_is.
Qed.

Lemma handle_subscribe_keeps : keeps (handle_subscribe_msg p off len) w.
Proof.
  destruct handler_ctx as (ctx&Hctx&Hp). destruct (recv_bounds w p c off len Hi Hc Hpkt) as (H1&H2&H3&H4).
  unfold handle_subscribe_msg.
  apply safe_bind. eapply safe_client_context; [done..|].
  apply safe_bind. eapply safe_get_ctx; [done|]. case_decide; [by apply keeps_ret|].
  apply safe_bind. eapply safe_recv_from; [done|]. apply safe_bind, safe_decoded.
  - intros u. apply run_decode_safe; auto using subscribe_decode_tame.
  - intros _. by apply keeps_ret.
  - intros m Hm. apply subscribe_decode_length in Hm; [|done..].
    apply keeps_bind.
    { eapply keeps_upd_ctx; [done..|]. intros b Hb. eapply live_ctx_queue; [done|exact Hctx|done]. }
    intros _ w1 _ Hi1 Hf1. apply keeps_bind.
    { apply keeps_reply; [done| |lia|].
      - eapply conn_is_obj. by eapply frame_conn_is.
      - apply suback_answers; [lia|]. unfold topics_qos, zlen in *. rewrite length_map.
        unfold MAX_BUF_SIZE in *. lia. }
    intros r w2 _ Hi2 Hf2. apply keeps_bind; [|intros; by apply keeps_ret].
    apply keeps_iter; [done|]. intros t w3 _ Hi3 Hf3.
    assert (frame w w3) as Hf by (do 2 (etransitivity; [done|]); done).
    apply safe_bind. eapply safe_client_context; [by eapply frame_conn_is|done|].
    apply keeps_bind; [|intros; by apply keeps_ret].
    apply (keeps_add_client_context t x p); [done|].
    eapply conn_attached; [by eapply frame_conn_is|done].
Qed.

Lemma ack_msg_keeps msg_id : keeps (ack_msg x msg_id) w.
Proof.
  destruct handler_ctx as (ctx&Hctx&_). unfold ack_msg. apply safe_bind.
  eapply safe_get_ctx; [done|]. destruct (send_msg_queue ctx) as [|b q] eqn:Hq; [by apply keeps_ret|].
  assert (∀ b, b ∈ send_msg_queue ctx → live (w_mbufs w) b) as Hl by (by eapply live_ctx_queue).
  destruct (Hl b) as [m Hm]; [rewrite Hq; set_solver|].
  apply safe_bind. eapply safe_get_mbuf; [done|]. destruct (_ =? msg_id); [|by apply keeps_ret].
  assert (is_Some (w_ctxs w !! x)) as Hxs by (by eexists).
  apply keeps_bind; [by apply keeps_upd_ctx_any|]. intros _ w1 _ Hi1 Hf1.
  eapply frame_ctx in Hxs; [|exact Hf1].
  apply keeps_bind; [by apply keeps_upd_ctx_any|]. intros _ w2 _ Hi2 Hf2.
  eapply frame_ctx in Hxs; [|exact Hf2].
  apply keeps_bind.
  { apply keeps_upd_ctx_any; [done|done|]. intros d. split_and!; [done|done|]. simpl.
    intros a Ha. destruct (send_msg_queue d) as [|e l]; [done|]. simpl in Ha.
    rewrite drop_0 in Ha. by right. }
  intros _ w3 _ Hi3 Hf3. apply keeps_bind; [by apply keeps_stats|]. intros _ w4 _ Hi4 Hf4.
  apply keeps_bind; [by apply keeps_stats|]. intros _ w5 _ Hi5 Hf5. by apply keeps_ret.
Qed.

Lemma handle_puback_keeps : keeps (handle_puback_msg p off len) w.
Proof.
  destruct (recv_bounds w p c off len Hi Hc Hpkt) as (H1&H2&H3&H4).
  unfold handle_puback_msg. apply safe_bind. eapply safe_recv_from; [done|].
  apply safe_bind, safe_decoded.
  - intros u. apply run_decode_safe; auto using puback_decode_tame.
  - intros _. by apply keeps_ret.
  - intros [base id] _. apply safe_bind. eapply safe_client_context; [done..|].
    apply keeps_bind; [apply ack_msg_keeps|]. intros; by apply keeps_ret.
Qed.

(** DISCONNECT changes the status of the context. *)
Lemma handle_disconnect_safe :
  safe (handle_disconnect_msg p) (λ _ w', Inv w' ∧ conn_after p (off + len) w w') w.
Proof.
  destruct handler_ctx as (ctx&Hctx&_). unfold handle_disconnect_msg, std_time.
  apply safe_bind. eapply safe_client_context; [done..|].
  apply safe_bind. eapply safe_upd_ctx; [done|]. apply safe_bind, safe_sys.
  apply safe_bind. eapply safe_upd_ctx; [apply lookup_insert_eq|]. apply safe_ret.
  split; [|split; [done|]; intros d [h Hd]; exists d; split_and!; [by exists h|done|done]].
  unfold Inv; simpl. rewrite insert_insert_eq.
  eapply inv_ctx; [exact Hi|done|done|]. simpl. by eapply live_ctx_queue.
Qed.

End handlers.

Lemma safe_regist_mem_store b m (Q : unit → World → Prop) w :
  Inv w → w_mbufs w !! b = Some m → (∀ id, m_msg_db (w_store w) !! id ≠ Some b) →
  (∀ w', Inv w' → frame w w' → w_mbufs w' !! b = Some (set_mem_db true m) →
     w_objs w' = w_objs w → Q tt w') →
  safe (regist_mem_store b) Q w.
Proof.
  intros Hi Hb Hdb HQ. unfold regist_mem_store, std_time. apply safe_bind.
  eapply safe_upd_fresh_mbuf; [done|done|exact (Inv_mbuf w b m Hi Hb)|done|].
  intros w1 Hi1 Hf1 _ Hb1 _ _ Ho1.
  apply safe_bind. eapply safe_get_mbuf; [done|]. destruct (negb _) eqn:Hz.
  - apply negb_true_iff, Z.eqb_neq in Hz. apply safe_bind, safe_sys, safe_modify. apply HQ; [|by destruct Hf1; split|done|done].
    eapply inv_db; [exact Hi1|done|done|done|exact Hz].
  - apply safe_ret. by apply HQ.
Qed.

Lemma safe_upd_conn_is p f c (Q : unit → World → Prop) w :
  Inv w → conn_is w p c → m_client_context (f c) = m_client_context c →
  zlen (m_recv_buffer (f c)) = MAX_BUF_SIZE → 0 <= m_cur_buf_pos (f c) <= MAX_BUF_SIZE →
  (∀ w', Inv w' → conn_is w' p (f c) → w_mbufs w' = w_mbufs w → notified w' = notified w → Q tt w') →
  safe (upd_conn p f) Q w.
Proof.
  intros Hi [h Hp] Hx Hl Hb HQ. eapply safe_upd_conn; [done|]. apply HQ; [|exists h|done|done].
  - by eapply inv_conn.
  - apply lookup_insert_eq.
Qed.

(** Four more bytes of the connection's buffer are overwritten than it holds only
    if the patch is outside; inside the packet what follows the packet stays. *)
Lemma safe_patch_msg_id p i v c hi (Q : unit → World → Prop) w :
  Inv w → conn_is w p c → 0 <= i → i + 2 <= hi → hi <= MAX_BUF_SIZE →
  (∀ w' c', Inv w' → conn_is w' p c' → w_mbufs w' = w_mbufs w → notified w' = notified w →
     m_client_context c' = m_client_context c →
     drop (Z.to_nat hi) (m_recv_buffer c') = drop (Z.to_nat hi) (m_recv_buffer c) → Q tt w') →
  safe (patch_msg_id p i v) Q w.
Proof.
  intros Hi Hc Hi0 Hhi Hm HQ. destruct (conn_ok w p c Hi Hc) as [Hl Hp].
  unfold patch_msg_id. apply safe_bind. destruct Hc as [h Hc].
  eapply safe_get_conn; [done|]. destruct (Z.leb_spec (i + 2) (zlen (m_recv_buffer c))); [|lia].
  set (l := [_; _]). eapply (safe_upd_conn_is p _ c); [done|by exists h|done| |done|].
  - simpl. rewrite zlen_splice; [done|lia|]. change (zlen l) with 2. lia.
  - intros w' Hi' Hc' Hb' Hn'. eapply HQ; [done|exact Hc'|done|done|done|]. simpl.
    unfold splice. rewrite drop_app_ge; [|rewrite length_take; lia].
    rewrite drop_app_ge; [|rewrite length_take; simpl; unfold zlen in *; lia].
    rewrite drop_drop, length_take. f_equal. unfold zlen in *. simpl. lia.
Qed.

Lemma handle_publish_safe p x off len c w :
  Inv w → conn_is w p c → m_client_context c = Some x → packet_at off len →
  safe (handle_publish_msg p off len) (λ _ w', Inv w' ∧ conn_after p (off + len) w w') w.
Proof using C.
  intros Hi Hc Hx Hpkt. destruct (handler_ctx p x off len c w Hi Hc Hx Hpkt) as (ctx&Hctx&Hp).
  destruct (recv_bounds w p c off len Hi Hc Hpkt) as (H1&H2&H3&H4).
  unfold handle_publish_msg.
  apply safe_bind. eapply safe_client_context; [done..|].
  apply safe_bind. eapply safe_get_ctx; [done|].
  case_decide; [apply safe_ret; split; [done|by apply conn_after_frame]|].
  apply safe_bind. eapply safe_recv_from; [done|]. apply safe_bind, safe_decoded.
  { intros u. apply run_decode_safe; auto using publish_decode_tame. }
  { intros _. apply safe_ret. split; [done|by apply conn_after_frame]. }
  intros m Hm. apply publish_decode_offset in Hm as [Ho1 Ho2]; [|done..].
  destruct Hpkt as (Hp1&Hp2&Hp3&Hp4).
  apply safe_bind. eapply safe_mono.
  { apply keeps_reply; [done|by eapply conn_is_obj|lia|by apply ack_answers]. }
  intros res w1 [Hi1 Hf1]. apply safe_bind, safe_new_mbuf; [done|unfold MAX_BUF_SIZE in *; lia|].
  intros b m1 w2 Hi2 Hf2 _ Hb2 Hr0 Hw0 Hm0 _ Hdb2 _.
  apply safe_bind, safe_gets. unfold next_msg_id. cbn zeta iota. set (id := u64 _).
  apply safe_bind, safe_modify. set (w3 := upd_store _ w2).
  assert (Inv w3) as Hi3 by exact Hi2.
  apply safe_bind. eapply (safe_upd_fresh_mbuf b _ m1); [done|done|exact (Inv_mbuf w2 b m1 Hi2 Hb2)|done|].
  intros w4 Hi4 Hf4 _ Hb4 Hst4 _ Hob4.
  apply safe_bind. eapply safe_regist_mem_store; [done|done|by rewrite Hst4|].
  intros w5 Hi5 Hf5 Hb5 Hob5. set (m5 := set_mem_db true _) in Hb5.
  assert (conn_is w5 p c) as Hc5.
  { assert (conn_is w2 p c) as [h Hh] by (do 2 (eapply frame_conn_is; [done|]); done).
    exists h. by rewrite Hob5, Hob4. }
  (* the patch of the identifier *)
  destruct (Z.ltb_spec (pub_msg_id_offset m) len) as [Hlt|]; [|lia].
  apply safe_bind. eapply (safe_patch_msg_id p _ _ c (off + len)); [done|done|lia|lia|lia|].
  intros w6 c6 Hi6 Hc6 Hb6 Hn6 Hx6 Hd6. rewrite <- Hb6 in Hb5.
  apply safe_bind. eapply safe_recv_from; [done|].
  destruct (conn_ok w6 p c6 Hi6 Hc6) as [Hl6 _].
  set (data := take (Z.to_nat len) (drop (Z.to_nat off) (m_recv_buffer c6))).
  assert (zlen data = len) as Hdata.
  { apply zlen_take. rewrite zlen_drop, Hl6 by lia. lia. }
  apply safe_bind. eapply safe_mbuf_copy_to; [done|done| | |].
  { change (m_write_pos m5) with (m_write_pos m1). change (max_size m5) with (max_size m1). lia. }
  { intros id' Hid'. destruct (i_db _ _ _ _ _ _ _ _ _ _ Hi6 _ _ Hid') as (m6&Hm6&?&?).
    rewrite Hb5 in Hm6. by injection Hm6 as ->. }
  intros m7 w7 Hi7 Hf7 _ Hb7 Hc7 _ _ _.
  assert (contents m7 ≠ []) as Hne.
  { rewrite Hc7. intros Hnil. apply app_eq_nil in Hnil as [_ Hnil]. rewrite Hnil in Hdata.
    change (zlen (@nil Z)) with 0 in Hdata. lia. }
  apply safe_bind, safe_sys, safe_bind. eapply safe_mono; [by eapply (keeps_publish _ b m7)|].
  intros n w8 [Hi8 Hf8]. apply safe_bind, safe_sys, safe_ret. split; [exact Hi8|].
  assert (frame w7 w8) as Hf78 by (etransitivity; [|exact Hf8]; by split; [|intros y d Hy; exists d|..]).
  split.
  { change (notified (upd_calls S w8)) with (notified w8). rewrite (f_notified _ _ Hf78), (f_notified _ _ Hf7), Hn6, (f_notified _ _ Hf5), (f_notified _ _ Hf4).
    change (notified w3) with (notified w2). by rewrite (f_notified _ _ Hf2), (f_notified _ _ Hf1). }
  intros d Hd. assert (d = c) as ->.
  { destruct Hd as [h1 Hd], Hc as [h2 Hc]. congruence. }
  assert (conn_is w8 p c6) as Hc8 by (do 2 (eapply frame_conn_is; [done|]); done).
  exists c6. split_and!; [|done|done].
  destruct Hc8 as [h8 Hc8]. by exists h8.
Qed.

(** ** A packet, and the packets of the input *)

(** The type in the first byte of a packet. *)
Definition first_type (buf : list Z) : option MqttType :=
  match buf with [] => None | b :: _ => Some (MqttType_of_Z (Z.shiftr (Z.land b 0xF0) 4)) end.

Lemma process_safe p x off len c w :
  Inv w → conn_is w p c → m_client_context c = Some x → packet_at off len →
  first_type (drop (Z.to_nat off) (m_recv_buffer c)) ≠ Some CONNECT →
  safe (process p off len) (λ _ w', Inv w' ∧ conn_after p (off + len) w w') w.
Proof using C.
  intros Hi Hc Hx Hpkt Ht. destruct (recv_bounds w p c off len Hi Hc Hpkt) as (H5&_).
  unfold process. apply safe_bind. eapply safe_recv_from; [done|].
  destruct (drop _ _) as [|b l]; [zlia|]. simpl in Ht.
  assert (∀ r : Z, safe (ret r) (λ _ w', Inv w' ∧ conn_after p (off + len) w w') w) as Hret
    by (intros r; apply safe_ret; split; [done|by apply conn_after_frame]).
  assert (∀ m : M Z, keeps m w → safe m (λ _ w', Inv w' ∧ conn_after p (off + len) w w') w) as Hk.
  { intros m Hm. eapply safe_mono; [exact Hm|]. intros a w1 [? ?]. split; [done|by apply conn_after_frame]. }
  destruct (MqttType_of_Z _) eqn:Hty; try apply Hret; try done.
  - by apply (handle_publish_safe p x off len c).
  - by apply Hk, (handle_puback_keeps p x off len c).
  - by apply Hk, (handle_subscribe_keeps p x off len c).
  - by apply Hk, (handle_unsubscribe_keeps p x off len c).
  - by apply Hk, (handle_pingreq_keeps p x off len c).
  - apply safe_bind. eapply safe_mono; [by apply (handle_disconnect_safe p x off len c)|].
    intros a w1 Hw1. by apply safe_ret.
Qed.

(** The types of the packets in the first [n] bytes of [l], up to an incomplete or
    malformed one. *)
Fixpoint packet_types (fuel : nat) (l : list Z) (n : Z) : list MqttType :=
  match fuel, first_type l, remain_length l n with
  | S fuel, Some t, Ok rl =>
      if (0 <? n) && (0 <=? rl_ret rl) then
        let total := rl_ret rl + remain_length_bytes rl + 1 in
        t :: packet_types fuel (drop (Z.to_nat total) l) (n - total)
      else []
  | _, _, _ => []
  end.

Lemma process_loop_safe fuel p x len off c w :
  Inv w → conn_is w p c → m_client_context c = Some x →
  0 <= off <= len → len <= MAX_BUF_SIZE - 4 → len - off < Z.of_nat fuel →
  CONNECT ∉ packet_types fuel (drop (Z.to_nat off) (m_recv_buffer c)) (len - off) →
  safe (process_loop fuel p len off)
    (λ _ w', Inv w' ∧ notified w' = notified w ∧ ∃ c', conn_is w' p c' ∧ m_client_context c' = Some x) w.
Proof using C.
  unfold MAX_BUF_SIZE. revert off c w. induction fuel as [|fuel IH];
    intros off c w Hi Hc Hx Hoff Hlen Hf Hty; [lia|].
  destruct (conn_ok w p c Hi Hc) as [Hbl Hbp]. unfold MAX_BUF_SIZE in *.
  cbn [process_loop]. destruct (Z.ltb_spec off len) as [Hlt|Hge].
  2:{ apply safe_bind. eapply safe_upd_conn_is; [done|done|done|done|simpl; unfold MAX_BUF_SIZE; lia|].
      intros w1 Hi1 Hc1 _ Hn1. apply safe_ret. split_and!; [done|done|]. by eexists. }
  apply safe_bind. eapply safe_recv_from; [done|]. set (l := drop _ _) in *.
  assert (5 <= zlen l) as Hl by (unfold l; rewrite zlen_drop by lia; lia).
  destruct (remain_length_spec l (len - off)) as (rl&Hrl&Hcases); [done|lia|].
  apply safe_bind. rewrite Hrl. unfold lift, safe at 1, wp. cbn [fst snd].
  unfold FAILTURE, NEED_MORE_DATA in *.
  destruct (Z.eqb_spec (rl_ret rl) (-2)) as [Hn|Hn].
  { apply safe_bind. destruct (Z.eqb_spec off 0) as [->|Hnz]; cbn [negb].
    { apply safe_ret, safe_ret. split_and!; [done|done|]. by exists c. }
    apply safe_bind. eapply safe_upd_conn_is; [done|done|done| |done|].
    { simpl. rewrite (zlen_splice 0); [done|lia|]. rewrite zlen_take; [lia|].
      fold l. unfold l. rewrite zlen_drop by lia. lia. }
    intros w1 Hi1 Hc1 _ Hn1. eapply safe_upd_conn_is; [done|done|done| |simpl; unfold MAX_BUF_SIZE; lia|].
    { by destruct (conn_ok w1 p _ Hi1 Hc1). }
    intros w2 Hi2 Hc2 _ Hn2. apply safe_ret. split_and!; [done|congruence|]. by eexists. }
  destruct (Z.eqb_spec (rl_ret rl) (-1)) as [Hm|Hm].
  { apply safe_ret. split_and!; [done|done|]. by exists c. }
  destruct Hcases as [?|[?|(Hr1&Hr2&Hr3&Hr4)]]; [lia..|].
  set (total := rl_ret rl + remain_length_bytes rl + 1) in *.
  rewrite u32_small by (unfold total; lia).
  cbn [packet_types] in Hty. rewrite Hrl in Hty.
  destruct (first_type l) as [t|] eqn:Hft; [|destruct l; [zlia|done]].
  destruct (Z.ltb_spec 0 (len - off)); [|lia]. destruct (Z.leb_spec 0 (rl_ret rl)); [|lia].
  simpl in Hty. fold total in Hty. apply not_elem_of_cons in Hty as [Hty1 Hty2].
  apply safe_bind. eapply safe_mono.
  { apply (process_safe p x off total c); [done|done|done| |].
    - unfold packet_at, MAX_BUF_SIZE. unfold total in *. lia.
    - fold l. congruence. }
  intros r w1 (Hi1&Hn1&Ha1). destruct (Ha1 c Hc) as (c1&Hc1&Hx1&Hd1).
  destruct (r <? 0). { apply safe_ret. split_and!; [done|done|]. exists c1. split; [done|congruence]. }
  rewrite u32_small by (unfold total in *; lia).
  eapply safe_mono; [apply (IH (off + total) c1 w1)|]; try done; [congruence|unfold total in *; lia|
    unfold total in *; lia| |by intros r2 w2 (?&?&?); split_and!; [|congruence|]].
  rewrite Hd1. replace (len - (off + total)) with (len - off - total) by lia.
  unfold l in Hty2. rewrite drop_drop in Hty2.
  replace (Z.to_nat (off + total)) with (Z.to_nat off + Z.to_nat total)%nat
    by (unfold total in *; lia).
  done.
Qed.

End safety.
