(* ===== verification/Sessions.v ===== *)
(** * Connections that come and go

    The parts of the server that change who is connected: the closing of a
    connection, CONNECT with its take-over of a session, the acceptor, and the
    destruction of the shared objects; and every event of the poller that keeps to
    the rules of [event_ok].  The properties are in Server.v. *)

From S2P Require Import Prelude Pkt Msg Mbuf MemStore Context World Sample Handler Delivery.
From S2P Require Import SubMgr Connection Invariant Poller Scenarios Safety.
From stdpp Require Import options.

(** The topics [T'] with some subscriptions taken away. *)
Definition fewer (T T' : gmap str CTopicNode) : Prop :=
  ∀ t n', T' !! t = Some n' → ∃ n, T !! t = Some n ∧
    m_retian_msg_buf n' = m_retian_msg_buf n ∧ m_subcriber_clients n' ⊆ m_subcriber_clients n.

Lemma fewer_refl T : fewer T T.
Proof. intros t n Hn. by exists n. Qed.

(** The topics [T'] are [T] without the client [x] under the names [l]. *)
Definition forgets (x : Z) (l : list str) (T T' : gmap str CTopicNode) : Prop :=
  ∀ t, T' !! t = if decide (t ∈ l) then (λ n, (del_client x n).2) <$> T !! t else T !! t.

Lemma forgets_fewer x l T T' : forgets x l T T' → fewer T T'.
Proof.
  intros H t n' Hn'. rewrite H in Hn'. case_decide; [|by exists n'].
  apply fmap_Some in Hn' as (n&Hn&->). exists n.
  split_and!; [done|apply retain_del_client|]. intros y Hy.
  by apply elem_of_del_client in Hy as [_ Hy].
Qed.

Lemma del_client_twice x n : (del_client x (del_client x n).2).2 = (del_client x n).2.
Proof.
  unfold del_client. destruct (decide (x ∈ m_subcriber_clients n)) as [Hx|Hx]; simpl.
  - rewrite decide_False by set_solver. done.
  - by rewrite decide_False.
Qed.

Lemma forgets_cons x t l T T1 T' :
  (∀ u, T1 !! u = if decide (u = t) then (λ n, (del_client x n).2) <$> T !! u else T !! u) →
  forgets x l T1 T' → forgets x (t :: l) T T'.
Proof.
  intros H1 H u. rewrite H, H1. destruct (decide (u = t)) as [->|Hu].
  - rewrite (decide_True (P := t ∈ t :: l)) by left. case_decide; [|done].
    rewrite <- option_fmap_compose. destruct (T !! t); simpl; [|done]. by rewrite del_client_twice.
  - destruct (decide (u ∈ l)) as [Hl|Hl].
    + by rewrite decide_True by (by right).
    + rewrite decide_False; [done|]. intros Hc. apply elem_of_cons in Hc as [|]; done.
Qed.

Lemma fewer_registered T T' K K' x :
  fewer T T' → K' ⊆ K → registered T' K' x → registered T K x.
Proof.
  intros HT HK [[id Hid]|(t&n'&Ht&Hx)].
  - left. exists id. by eapply lookup_weaken.
  - right. destruct (HT _ _ Ht) as (n&Hn&_&Hs). exists t, n. split; [done|]. by apply Hs.
Qed.

(** ** The destruction of shared objects *)

Lemma elem_of_union_map {A} (f : A → gset Z) (l : list A) x :
  x ∈ ⋃ map f l ↔ ∃ a, a ∈ l ∧ x ∈ f a.
Proof.
  rewrite elem_of_union_list. split.
  - intros (X&HX&Hx). apply list_elem_of_fmap in HX as (a&->&Ha). eauto.
  - intros (a&Ha&Hx). exists (f a). split; [|done]. apply list_elem_of_fmap. eauto.
Qed.

Lemma live_ctxs_attached w p x : attached (w_objs w) p x → x ∈ live_ctxs w.
Proof.
  intros (h&c&Hp&Hx). unfold live_ctxs. apply elem_of_union_l, elem_of_union_l, elem_of_union_map.
  exists (p, mkObject h (Connection c)). split; [by apply elem_of_map_to_list|].
  cbn. rewrite Hx. by apply elem_of_singleton.
Qed.

Lemma live_ctxs_registered w x : registered (w_topics w) (w_clients w) x → x ∈ live_ctxs w.
Proof.
  unfold live_ctxs. intros [[id Hid]|(t&n&Ht&Hx)].
  - apply elem_of_union_r, elem_of_list_to_set, list_elem_of_fmap.
    exists (id, x). split; [done|]. by apply elem_of_map_to_list.
  - apply elem_of_union_l, elem_of_union_r, elem_of_union_map. exists (t, n).
    split; [by apply elem_of_map_to_list|done].
Qed.

Lemma live_mbufs_spec w b :
  (∃ p o, w_objs w !! p = Some o ∧ b ∈ m_send_msg_queue (o_handler o)) ∨
  (∃ x c, w_ctxs w !! x = Some c ∧ b ∈ send_msg_queue c) ∨
  (∃ t n, w_topics w !! t = Some n ∧ m_retian_msg_buf n = Some b) ∨
  b ∈ m_notify_deque (w_poller w) → b ∈ live_mbufs w.
Proof.
  unfold live_mbufs. intros [(p&o&Hp&Hb)|[(x&c&Hx&Hb)|[(t&n&Ht&Hb)|Hb]]].
  - apply elem_of_union_l, elem_of_union_l, elem_of_union_l, elem_of_union_map. exists (p, o).
    split; [by apply elem_of_map_to_list|by apply elem_of_list_to_set].
  - apply elem_of_union_l, elem_of_union_l, elem_of_union_r, elem_of_union_map. exists (x, c).
    split; [by apply elem_of_map_to_list|by apply elem_of_list_to_set].
  - apply elem_of_union_l, elem_of_union_r, elem_of_union_map. exists (t, n).
    split; [by apply elem_of_map_to_list|]. cbn. rewrite Hb. by apply elem_of_singleton.
  - by apply elem_of_union_r, elem_of_list_to_set.
Qed.

(** The store after the destructors of the buffers of [l]. *)
Lemma destroy_all_db (l : list (Z * CMbuf)) s id b :
  m_msg_db (foldr (λ '(_, m) s, destroy_mbuf m s) s l) !! id = Some b →
  m_msg_db s !! id = Some b ∧
  ∀ c m, (c, m) ∈ l → m_mem_db m = true → m_msg_id m = id → id = 0.
Proof.
  induction l as [|[c m] l IH]; cbn [foldr].
  { intros Hb. split; [done|]. intros c m Hc. by apply elem_of_nil in Hc. }
  unfold destroy_mbuf at 1. destruct (negb (m_msg_id m =? 0) && m_mem_db m) eqn:Hd.
  - cbn [m_msg_db del_msg]. intros Hb. apply lookup_delete_Some in Hb as [Hne Hb].
    destruct (IH Hb) as [Hs Hl]. split; [done|].
    intros c' m' Hc Hm Hi. apply elem_of_cons in Hc as [[= -> ->]|Hc]; [congruence|eauto].
  - intros Hb. destruct (IH Hb) as [Hs Hl]. split; [done|].
    intros c' m' Hc Hm Hi. apply elem_of_cons in Hc as [[= -> ->]|Hc]; [|eauto].
    rewrite Hm, andb_true_r in Hd. apply negb_false_iff, Z.eqb_eq in Hd. congruence.
Qed.

Lemma filter_Some {A} (X : gset Z) (m : gmap Z A) k a :
  filter (λ '(x, _), x ∈ X) m !! k = Some a ↔ m !! k = Some a ∧ k ∈ X.
Proof. rewrite map_lookup_filter_Some. done. Qed.

Lemma collect_ctxs_inv w : Inv w → Inv (collect_ctxs w).
Proof.
  intros Hi. pose proof (live_ctxs_attached w) as HA. pose proof (live_ctxs_registered w) as HR.
  unfold Inv, collect_ctxs in *; cbn. revert HA HR. generalize (live_ctxs w). intros X HA HR.
  destruct Hi. split; try done.
  - intros x c p Hr Hc. apply filter_Some in Hc as [Hc _]. eauto.
  - intros p x Ha. destruct (i_back _ _ Ha) as (c&Hc&Hp). exists c. split; [|done].
    apply filter_Some. eauto.
  - intros x Hr. destruct (i_reg _ Hr) as [c Hc]. exists c. apply filter_Some. auto.
  - intros x c b Hc. apply filter_Some in Hc as [Hc _]. eauto.
  - intros k [Hk|[[c Hk]|Hk]]; [by eauto| |by eauto].
    apply filter_Some in Hk as [Hk _]. eauto.
Qed.

Lemma collect_mbufs_inv w : Inv w → Inv (collect_mbufs w).
Proof.
  intros Hi. pose proof (live_mbufs_spec w) as HL.
  unfold Inv, collect_mbufs in *; cbn. revert HL. generalize (live_mbufs w). intros X HL.
  set (dead := map_to_list _).
  assert (∀ b, live (w_mbufs w) b → b ∈ X → live (filter (λ '(b, _), b ∈ X) (w_mbufs w)) b) as Hlive.
  { intros b [m Hm] Hb. exists m. by apply filter_Some. }
  destruct Hi. split; try done.
  - intros p o Hp. destruct (i_objs _ _ Hp) as [Hq Hd]. split; [|done].
    intros b Hb. apply Hlive; [by apply Hq|]. apply HL. left; eauto.
  - intros x c b Hc Hb. apply Hlive; [by eauto|]. apply HL. right; left; eauto.
  - intros t n b Ht Hb. apply Hlive; [by eauto|]. apply HL. right; right; left; eauto.
  - intros b Hb. apply Hlive; [by eauto|]. apply HL. auto.
  - intros b m Hb. apply filter_Some in Hb as [Hb _]. eauto.
  - intros id b Hb. apply destroy_all_db in Hb as [Hb Hd].
    destruct (i_db _ _ Hb) as (m&Hm&Hid&Hmd). exists m. split; [|done].
    apply filter_Some. split; [done|]. destruct (decide (b ∈ X)) as [|Hn]; [done|].
    assert (id = 0) as ->; [|congruence]. apply (Hd b m); [|done|done].
    apply elem_of_map_to_list, map_lookup_filter_Some. done.
  - apply eq_None_not_Some. intros [b Hb]. apply destroy_all_db in Hb as [Hb _]. congruence.
  - intros k [Hk|[Hk|[m Hk]]]; [by eauto..|]. apply filter_Some in Hk as [Hk _]. eauto.
Qed.

Lemma collect_inv w : Inv w → Inv (collect w).
Proof. intros. by apply collect_mbufs_inv, collect_ctxs_inv. Qed.

Section sessions.
Context {E : Env} {C : Calm}.
Implicit Types w : World.

(** ** Closing *)

(** Only the topics change when a session is forgotten. *)
Lemma safe_forget_topics x l (Q : unit → World → Prop) w :
  (∀ T, forgets x (map topic_name l) (w_topics w) T → Q tt (upd_topics (λ _, T) w)) →
  safe (iter (λ t, do _ <- del_client_context (topic_name t) x; ret tt) l) Q w.
Proof.
  revert w. induction l as [|t l IH]; intros w HQ; cbn [iter map] in *.
  { apply safe_ret. destruct w. refine (HQ _ _). by intros t. }
  unfold del_client_context, find_topic. apply safe_bind, safe_bind, safe_bind, safe_gets.
  destruct (w_topics w !! topic_name t) as [n|] eqn:Ht.
  - apply safe_bind, safe_modify, safe_ret, safe_ret, IH. intros T HT. apply (HQ T).
    eapply forgets_cons; [|exact HT]. intros u. simpl. case_decide as Hu.
    + subst. by rewrite lookup_insert_eq, Ht.
    + by rewrite lookup_insert_ne.
  - apply safe_ret, safe_ret, IH. intros T HT. apply HQ.
    eapply forgets_cons; [|exact HT]. intros u. case_decide; [|done]. subst. by rewrite Ht.
Qed.

Lemma safe_handler_close p o (Q : Z → World → Prop) w :
  w_objs w !! p = Some o →
  (∀ w' h', w_objs w' = <[p := mkObject h' (o_derived o)]> (w_objs w) →
     w_ctxs w' = w_ctxs w → w_mbufs w' = w_mbufs w → w_next w' = w_next w →
     w_topics w' = w_topics w → w_clients w' = w_clients w → w_store w' = w_store w →
     m_map_event_handlers (w_poller w') =
       delete (m_sock_handle (o_handler o)) (m_map_event_handlers (w_poller w)) →
     interest_list (w_poller w') =
       delete (m_sock_handle (o_handler o)) (interest_list (w_poller w)) →
     notified w' = notified w → Q 0 w') →
  safe (handler_close p) Q w.
Proof using C.
  intros Hp HQ. unfold handler_close, del_event, sock_close.
  apply safe_bind, safe_bind. eapply safe_get_handler; [done|].
  apply safe_bind. unfold sys_epoll_ctl. apply safe_bind, safe_sys. rewrite calm_ctl.
  apply safe_bind, safe_modify, safe_ret. cbn [Z.ltb Z.compare].
  apply safe_bind. eapply safe_upd_handler; [done|]. apply safe_bind, safe_modify, safe_ret.
  apply safe_bind. eapply safe_bind, safe_get_handler; [apply lookup_insert_eq|].
  destruct (negb _).
  - apply safe_bind. unfold sys_close, emit_out. apply safe_modify.
    apply safe_bind. eapply safe_upd_handler; [apply lookup_insert_eq|]. apply safe_ret, safe_ret.
    eapply HQ; try reflexivity. simpl. by rewrite insert_insert_eq.
  - apply safe_ret, safe_ret. by eapply HQ.
Qed.

(** The state after the closing of [p], whose context is [x]. *)
Definition closed (p x : Z) (w w' : World) : Prop :=
  w_objs w' = delete p (w_objs w) ∧ w_mbufs w' = w_mbufs w ∧ notified w' = notified w ∧
  fewer (w_topics w) (w_topics w') ∧ w_clients w' ⊆ w_clients w ∧
  ∃ c c', w_ctxs w !! x = Some c ∧ w_ctxs w' = <[x := c']> (w_ctxs w) ∧
    mqtt_connection c' = None ∧ send_msg_queue c' = send_msg_queue c ∧
    subcribe_topics c' = subcribe_topics c ∧
    if ctx_clean_session c then
      w_clients w' = delete (ctx_client_id c) (w_clients w) ∧
      forgets x (map topic_name (subcribe_topics c)) (w_topics w) (w_topics w')
    else w_clients w' = w_clients w ∧ w_topics w' = w_topics w.

Lemma connection_close_safe p c x w :
  Inv w → conn_is w p c → m_client_context c = Some x →
  safe (connection_handle_close p) (λ _ w', Inv w' ∧ closed p x w w') w.
Proof using C.
  intros Hi [h Hp] Hx.
  destruct (attached_ctx p x w Hi) as (ctx&Hctx&Hcp); [by exists h, c|].
  unfold connection_handle_close. apply safe_bind. eapply safe_handler_close; [done|].
  intros w1 h1 Ho1 Hc1 Hm1 Hn1 Ht1 Hk1 Hs1 Hh1 Hl1 Hd1. simpl in Ho1.
  apply safe_bind. eapply safe_get_conn; [rewrite Ho1; apply lookup_insert_eq|]. rewrite Hx.
  apply safe_bind. eapply safe_get_ctx; [by rewrite Hc1|].
  apply safe_bind. eapply safe_mono with (Q := λ _ w2, ∃ T K,
    w2 = upd_clients (λ _, K) (upd_topics (λ _, T) w1) ∧ fewer (w_topics w) T ∧
    K ⊆ w_clients w ∧
    if ctx_clean_session ctx then
      K = delete (ctx_client_id ctx) (w_clients w) ∧
      forgets x (map topic_name (subcribe_topics ctx)) (w_topics w) T
    else K = w_clients w ∧ T = w_topics w).
  { destruct (ctx_clean_session ctx).
    - apply safe_bind, safe_forget_topics. intros T HT. rewrite Ht1 in HT.
      pose proof (forgets_fewer _ _ _ _ HT) as Hfew.
      unfold del_by_client_id, find_by_client_id. apply safe_bind, safe_bind, safe_gets.
      change (w_clients (upd_topics (λ _, T) w1)) with (w_clients w1). rewrite Hk1.
      destruct (w_clients w !! ctx_client_id ctx) as [y|] eqn:Hy.
      + apply safe_bind, safe_modify, safe_ret, safe_ret.
        exists T, (delete (ctx_client_id ctx) (w_clients w)). split_and!; [|done|apply delete_subseteq|done..].
        unfold upd_clients, upd_topics; simpl. by rewrite Hk1.
      + apply safe_ret, safe_ret. exists T, (w_clients w).
        split_and!; [|done|done|by rewrite delete_id|done].
        unfold upd_clients, upd_topics; simpl. by rewrite <- Hk1.
    - apply safe_ret. exists (w_topics w), (w_clients w).
      split_and!; [|apply fewer_refl|done|done|done].
      rewrite <- Ht1, <- Hk1. by destruct w1. }
  intros _ w2 (T&K&->&HT&HK&Hclean).
  apply safe_bind, safe_sys. apply safe_bind.
  eapply safe_upd_ctx; [simpl; by rewrite Hc1|].
  unfold ctx_flush. apply safe_bind, safe_bind. eapply safe_get_ctx; [apply lookup_insert_eq|].
  apply safe_modify. apply safe_bind. eapply safe_upd_ctx; [apply lookup_insert_eq|].
  apply safe_bind. eapply safe_delete_obj; [simpl; rewrite Ho1; apply lookup_insert_eq|].
  apply safe_ret. split.
  - unfold Inv; simpl. rewrite Ho1, Hc1, Hm1, Hn1, Hs1, Hh1, Hl1. change (notified (upd_objs _ _)) with (notified w1). rewrite Hd1.
    rewrite insert_insert_eq, delete_insert_eq.
    eapply inv_close; [|done|done|done|done|].
    + eapply inv_registered; [exact Hi| |].
      * intros y Hy. left. by eapply fewer_registered.
      * intros t n b Htn. destruct (HT _ _ Htn) as (n0&Hn0&->&_). by eapply i_retain.
    + simpl. by eapply live_ctx_queue.
  - unfold closed; simpl. rewrite Ho1, Hm1, Hc1, delete_insert_eq, insert_insert_eq.
    split_and!; try done. exists ctx. eexists. by split_and!.
Qed.

Lemma handle_close_safe p c x (Q : Z → World → Prop) w :
  Inv w → conn_is w p c → m_client_context c = Some x →
  (∀ r w', Inv w' → closed p x w w' → Q r w') → safe (handle_close p) Q w.
Proof using C.
  intros Hi Hc Hx HQ. unfold handle_close. pose proof Hc as [h Hp]. apply safe_bind.
  eapply safe_get_obj; [done|]. cbn [o_derived].
  eapply safe_mono; [by eapply connection_close_safe|]. intros r w' []. by apply HQ.
Qed.

(** ** CONNECT *)

Lemma safe_upd_ctx_inv x f ctx (Q : unit → World → Prop) w :
  Inv w → w_ctxs w !! x = Some ctx → mqtt_connection (f ctx) = mqtt_connection ctx →
  send_msg_queue (f ctx) = send_msg_queue ctx →
  (∀ w', Inv w' → w_ctxs w' !! x = Some (f ctx) → w_objs w' = w_objs w → w_clients w' = w_clients w →
     notified w' = notified w → Q tt w') →
  safe (upd_ctx x f) Q w.
Proof.
  intros Hi Hx Hc Hq HQ. eapply safe_upd_ctx; [done|]. apply HQ; try done.
  - eapply inv_ctx; [exact Hi|exact Hx|done|]. rewrite Hq. exact (live_ctx_queue x ctx w Hi Hx).
  - apply lookup_insert_eq.
Qed.

Lemma safe_new_ctx p h c (Q : Z → World → Prop) w :
  Inv w → w_objs w !! p = Some (mkObject h (Connection c)) → m_client_context c = None →
  (∀ x w' junk, Inv w' → x = w_next w →
     w_objs w' = <[p := mkObject h (Connection (upd_client_context (λ _, Some x) c))]> (w_objs w) →
     w_ctxs w' = <[x := new_CTMqttClientContext junk (Some p)]> (w_ctxs w) →
     w_clients w' = w_clients w → notified w' = notified w → Q x w') →
  safe (client_context p) Q w.
Proof.
  intros Hi Hp Hx HQ. unfold client_context, new_ctx. apply safe_bind.
  eapply safe_get_conn; [done|]. rewrite Hx.
  apply safe_bind, safe_bind, safe_sys, safe_bind, safe_fresh_id, safe_bind, safe_modify, safe_ret.
  set (x := w_next _). apply safe_bind. eapply safe_upd_conn; [exact Hp|]. apply safe_ret.
  eapply HQ; try reflexivity.
  eapply inv_attach; [eapply inv_next; [exact Hi|]|exact Hp|done|reflexivity| | |done|].
  - simpl. lia.
  - intros ctx Hctx. assert (x < w_next w); [|unfold x in *; simpl in *; lia].
    eapply i_fresh; [exact Hi|]. right; left. by eexists.
  - unfold x. simpl. lia.
  - intros b Hb. by apply elem_of_nil in Hb.
Qed.

(** What [attach_context] does for a known identifier, whose context is [x]: the
    connection that has the session is closed, and the session is handed over. *)
Definition taken_over (p x : Z) (c : CMqttConnection) (m : CMqttConnect)
    (ctx : CTMqttClientContext) (w w' : World) : Prop :=
  notified w' = notified w ∧ conn_is w' p (upd_client_context (λ _, Some x) c) ∧
  (∃ ctx', w_ctxs w' !! x = Some ctx' ∧ mqtt_connection ctx' = Some p ∧
     client_status ctx' = CS_CONNECTED ∧ ctx_client_id ctx' = client_id m ∧
     ctx_clean_session ctx' = clean_session m ∧
     send_msg_queue ctx' = send_msg_queue ctx ∧ subcribe_topics ctx' = subcribe_topics ctx) ∧
  match mqtt_connection ctx with
  | Some last => last ≠ p ∧ w_objs w' !! last = None ∧
      if ctx_clean_session ctx then
        w_clients w' = delete (ctx_client_id ctx) (w_clients w) ∧
        forgets x (map topic_name (subcribe_topics ctx)) (w_topics w) (w_topics w')
      else w_clients w' = w_clients w ∧ w_topics w' = w_topics w
  | None => w_clients w' = w_clients w ∧ w_topics w' = w_topics w
  end.

Lemma takeover_safe p h c x ctx m w :
  Inv w → w_objs w !! p = Some (mkObject h (Connection c)) → m_client_context c = None →
  w_clients w !! client_id m = Some x → w_ctxs w !! x = Some ctx →
  safe (do ctx <- get_ctx x;
        do_ match mqtt_connection ctx with
            | Some last => do _ <- v_handle_close last; ret tt
            | None => ret tt
            end;
        do_ upd_ctx x (context_init m);
        do_ upd_ctx x (upd_mqtt_connection (λ _, Some p));
        upd_conn p (upd_client_context (λ _, Some x)))
    (λ _ w', Inv w' ∧ taken_over p x c m ctx w w') w.
Proof using C.
  intros Hi Hp Hx Hid Hctx. assert (known w x) as Hk by (left; eauto).
  apply safe_bind. eapply safe_get_ctx; [done|].
  apply safe_bind. eapply safe_mono with (Q := λ _ w1, Inv w1 ∧ notified w1 = notified w ∧
    w_objs w1 !! p = Some (mkObject h (Connection c)) ∧
    (∃ ctx1, w_ctxs w1 !! x = Some ctx1 ∧ mqtt_connection ctx1 = None ∧
      send_msg_queue ctx1 = send_msg_queue ctx ∧ subcribe_topics ctx1 = subcribe_topics ctx) ∧
    match mqtt_connection ctx with
    | Some last => last ≠ p ∧ w_objs w1 !! last = None ∧
        if ctx_clean_session ctx then
          w_clients w1 = delete (ctx_client_id ctx) (w_clients w) ∧
          forgets x (map topic_name (subcribe_topics ctx)) (w_topics w) (w_topics w1)
        else w_clients w1 = w_clients w ∧ w_topics w1 = w_topics w
    | None => w_clients w1 = w_clients w ∧ w_topics w1 = w_topics w
    end).
  { destruct (mqtt_connection ctx) as [last|] eqn:Hlast.
    2:{ apply safe_ret. split_and!; [done..| |done|done]. exists ctx. by split_and!. }
    destruct (i_link _ _ _ _ _ _ _ _ _ _ Hi x ctx last Hk Hctx Hlast) as (h1&d1&Hp1&Hd1).
    assert (last ≠ p) as Hne by (intros ->; congruence).
    apply safe_bind. eapply handle_close_safe; [done|by exists h1|done|].
    intros r w1 Hi1 (Ho1&_&Hnf1&_&_&c1&c1'&Hc1&Hc1'&Hn&Hq&Ht&Hclean). rewrite Hctx in Hc1.
    injection Hc1 as <-. apply safe_ret. split_and!; [done|done| | |done| |done].
    - by rewrite Ho1, lookup_delete_ne.
    - exists c1'. by rewrite Hc1', lookup_insert_eq.
    - by rewrite Ho1, lookup_delete_eq. }
  intros a w1 (Hi1&Hnf1&Hp1&(ctx1&Hctx1&Hn1&Hq1&Ht1)&Hreg).
  apply safe_bind. eapply safe_upd_ctx; [done|].
  apply safe_bind. eapply safe_upd_ctx; [apply lookup_insert_eq|].
  eapply safe_upd_conn; [exact Hp1|]. split.
  - unfold Inv; simpl. rewrite insert_insert_eq.
    eapply inv_attach; [exact Hi1|done|done|reflexivity| | |done|].
    + intros d Hd. congruence.
    + eapply i_fresh; [exact Hi1|]. right; left. by eexists.
    + simpl. by eapply live_ctx_queue.
  - split_and!; [exact Hnf1|eexists; apply lookup_insert_eq| |].
    + eexists. split; [apply lookup_insert_eq|]. by split_and!.
    + destruct (mqtt_connection ctx) as [last|]; [|done]. destruct Hreg as (?&?&?).
      split_and!; [done| |done]. simpl. by rewrite lookup_insert_ne.
Qed.

(** The end of [attach_context] sets times and the address of the client. *)
Lemma attach_tail_safe p h x c ctx w :
  Inv w → w_objs w !! p = Some (mkObject h (Connection c)) → m_client_context c = Some x →
  w_ctxs w !! x = Some ctx →
  safe (do x <- client_context p;
        do h <- get_handler p;
        do_ upd_ctx x (upd_accept_time (λ _, m_accept_time h));
        do now <- std_time;
        do_ upd_ctx x (upd_connect_time (λ _, now));
        upd_ctx x (upd_remote_addr (λ _, m_str_peer_addr h)))
    (λ _ w', Inv w' ∧ notified w' = notified w ∧ w_objs w' = w_objs w ∧ w_clients w' = w_clients w ∧
       w_topics w' = w_topics w ∧ ∃ a t r, w_ctxs w' !! x =
         Some (upd_remote_addr (λ _, r) (upd_connect_time (λ _, t) (upd_accept_time (λ _, a) ctx)))) w.
Proof.
  intros Hi Hp Hx Hctx. unfold std_time.
  apply safe_bind. eapply safe_client_context; [by exists h|done|].
  apply safe_bind. eapply safe_get_handler; [done|].
  apply safe_bind. eapply safe_upd_ctx; [done|]. apply safe_bind, safe_sys.
  apply safe_bind. eapply safe_upd_ctx; [apply lookup_insert_eq|].
  eapply safe_upd_ctx; [apply lookup_insert_eq|].
  split_and!; [|done..|by do 3 eexists; apply lookup_insert_eq].
  unfold Inv; simpl. rewrite !insert_insert_eq. eapply inv_ctx; [exact Hi|done|done|].
  simpl. by eapply live_ctx_queue.
Qed.

Lemma attach_known_safe p h c x ctx m w :
  Inv w → w_objs w !! p = Some (mkObject h (Connection c)) → m_client_context c = None →
  w_clients w !! client_id m = Some x → w_ctxs w !! x = Some ctx →
  safe (attach_context p m) (λ _ w', Inv w' ∧ taken_over p x c m ctx w w') w.
Proof using C.
  intros Hi Hp Hx Hid Hctx. unfold attach_context, find_by_client_id. apply safe_bind, safe_gets.
  rewrite Hid. apply safe_bind. eapply safe_mono; [by eapply takeover_safe|].
  intros a w1 (Hi1&Hnf1&[h1 Hp1]&(ctx1&Hctx1&Hfields)&Hreg).
  eapply safe_mono; [by eapply attach_tail_safe|].
  intros b w2 (Hi2&Hnf2&Ho2&Hk2&Ht2&t1&t2&r&Hctx2). split; [done|]. unfold taken_over.
  rewrite Ho2, Hk2, Ht2. split_and!; [congruence|exists h1; by rewrite Ho2| |done].
  eexists. split; [exact Hctx2|]. exact Hfields.
Qed.

(** What it does for an unknown one: a new session. *)
Lemma attach_new_safe p h c m w :
  Inv w → w_objs w !! p = Some (mkObject h (Connection c)) → m_client_context c = None →
  w_clients w !! client_id m = None →
  safe (attach_context p m) (λ _ w', Inv w' ∧ notified w' = notified w ∧ ∃ x ctx',
    conn_is w' p (upd_client_context (λ _, Some x) c) ∧ w_ctxs w' !! x = Some ctx' ∧
    client_status ctx' = CS_CONNECTED ∧ ctx_client_id ctx' = client_id m ∧
    send_msg_queue ctx' = [] ∧ subcribe_topics ctx' = [] ∧
    w_clients w' = <[client_id m := x]> (w_clients w)) w.
Proof using C.
  intros Hi Hp Hx Hid. unfold attach_context, find_by_client_id. apply safe_bind, safe_gets.
  rewrite Hid. apply safe_bind, safe_bind.
  eapply safe_new_ctx; [done..|]. intros x w1 junk Hi1 -> Ho1 Hc1 Hk1 Hnf1.
  apply safe_bind. eapply safe_upd_ctx_inv; [done|rewrite Hc1; apply lookup_insert_eq|done..|].
  intros w2 Hi2 Hc2 Ho2 Hk2 Hnf2. rewrite Ho1 in Ho2.
  unfold add_by_client_id, find_by_client_id. apply safe_bind, safe_bind, safe_gets.
  rewrite Hk2, Hk1, Hid. apply safe_bind, safe_modify, safe_ret, safe_ret.
  eapply safe_mono.
  { eapply (attach_tail_safe p h (w_next w) (upd_client_context (λ _, Some (w_next w)) c));
      [| |reflexivity|exact Hc2].
    - eapply inv_registered; [exact Hi2| |by intros; eapply (i_retain _ _ _ _ _ _ _ _ _ _ Hi2)].
      intros y [[id Hy]|Hy]; [|by left; right]. simpl in Hy.
      destruct (decide (id = client_id m)) as [->|].
      + rewrite lookup_insert_eq in Hy. injection Hy as <-. right. exists p, h. eexists.
        simpl. rewrite Ho2. by split; [apply lookup_insert_eq|].
      + rewrite lookup_insert_ne in Hy by done. left; left. eauto.
    - cbn. rewrite Ho2. apply lookup_insert_eq. }
  intros a w3 (Hi3&Hnf3&Ho3&Hk3&_&t1&t2&r&Hctx3). split; [done|]. split; [by rewrite Hnf3; etrans; [exact Hnf2|exact Hnf1]|].
  exists (w_next w). eexists.
  split_and!; [|exact Hctx3|done..|].
  - exists h. rewrite Ho3. cbn. rewrite Ho2. apply lookup_insert_eq.
  - rewrite Hk3. cbn. by rewrite Hk2, Hk1.
Qed.

Lemma attach_context_safe p h c m w :
  Inv w → w_objs w !! p = Some (mkObject h (Connection c)) → m_client_context c = None →
  safe (attach_context p m) (λ _ w', Inv w' ∧ notified w' = notified w ∧ ∃ x, conn_is w' p (upd_client_context (λ _, Some x) c)) w.
Proof using C.
  intros Hi Hp Hx. destruct (w_clients w !! client_id m) as [x|] eqn:Hid.
  - destruct (known_ctx x w Hi) as [ctx Hctx]; [left; eauto|].
    eapply safe_mono; [by eapply attach_known_safe|]. intros a w1 (?&?&?&_). eauto.
  - eapply safe_mono; [by eapply attach_new_safe|]. intros a w1 (?&?&x&ctx'&?&_). eauto.
Qed.

Lemma send_offline_keeps p l res w :
  Inv w → is_Some (w_objs w !! p) → (∀ b, b ∈ l → live (w_mbufs w) b) →
  keeps (send_offline p l res) w.
Proof using C.
  revert res w. induction l as [|b l IH]; intros res w Hi Hp Hl; cbn [send_offline];
    [by apply keeps_ret|].
  apply keeps_bind; [apply keeps_put; [done|done|apply Hl; set_solver]|].
  intros r w1 _ Hi1 Hf1. destruct (r =? -1); [by apply keeps_ret|]. apply IH; [done| |].
  - pose proof (f_derived _ _ Hf1 p) as Hd. destruct Hp as [o Hp]. rewrite Hp in Hd.
    by destruct (w_objs w1 !! p).
  - intros a Ha. apply (f_mbufs _ _ Hf1), Hl. by right.
Qed.

(** What [handle_connect_msg] leaves of the connection: the receive buffer. *)
Definition connected (p : Z) (c : CMqttConnection) (w w' : World) : Prop :=
  notified w' = notified w ∧ ∃ x, conn_is w' p (upd_client_context (λ _, Some x) c).

(** The end of [handle_connect_msg]. *)
Lemma connect_reply_safe p c0 c k w :
  Inv w → conn_is w p c → c = c0 ∨ (∃ x, c = upd_client_context (λ _, Some x) c0) →
  m_client_context c0 = None →
  safe (do res <- reply p 32 (run_encode (CMqttConnAck_encode (header_of_type CONNACK) k));
        do x <- client_context p;
        do ctx <- get_ctx x;
        send_offline p (send_msg_queue ctx) res)
    (λ _ w', Inv w' ∧ connected p c0 w w') w.
Proof using C.
  intros Hi Hc Hc0 Hx0. apply safe_bind. eapply safe_mono.
  { apply keeps_reply; [done|by eapply conn_is_obj|lia|by apply connack_answers]. }
  intros res w1 [Hi1 Hf1]. eapply frame_conn_is in Hc; [|exact Hf1]. pose proof (f_notified _ _ Hf1) as Hn1.
  assert (∀ x c' w2, Inv w2 → notified w2 = notified w1 → conn_is w2 p c' → c' = upd_client_context (λ _, Some x) c0 →
    safe (do ctx <- get_ctx x; send_offline p (send_msg_queue ctx) res)
      (λ _ w', Inv w' ∧ connected p c0 w w') w2) as Hend.
  { intros x c' w2 Hi2 Hn2 Hc2 ->. destruct (attached_ctx p x w2 Hi2) as (ctx&Hctx&_).
    { by eapply conn_attached. }
    apply safe_bind. eapply safe_get_ctx; [done|]. eapply safe_mono.
    { apply send_offline_keeps; [done|by eapply conn_is_obj|].
      intros b Hb. eapply live_ctx_queue; [done|exact Hctx|done]. }
    intros r w3 [Hi3 Hf3]. split; [done|]. split; [by rewrite (f_notified _ _ Hf3), Hn2|]. exists x. by eapply frame_conn_is. }
  apply safe_bind. destruct Hc0 as [->|[x Hcx]].
  - destruct Hc as [h Hp]. eapply safe_new_ctx; [done..|].
    intros x w2 junk Hi2 _ Ho2 _ _ Hn2. eapply (Hend x); [done|done| |reflexivity].
    exists h. rewrite Ho2. apply lookup_insert_eq.
  - eapply safe_client_context; [done|by rewrite Hcx|]. by eapply (Hend x).
Qed.

Lemma handle_connect_safe p c off len w :
  Inv w → conn_is w p c → m_client_context c = None → packet_at off len →
  safe (handle_connect_msg p off len) (λ _ w', Inv w' ∧ notified w' = notified w ∧ ∃ c', conn_is w' p c' ∧
    m_recv_buffer c' = m_recv_buffer c ∧
    (∀ m, run_decode CMqttConnect_decode (drop (Z.to_nat off) (m_recv_buffer c)) len = Ok m →
       is_Some (m_client_context c'))) w.
Proof using C.
  intros Hi Hc Hx Hpkt. destruct (recv_bounds w p c off len Hi Hc Hpkt) as (H1&H2&H3&H4).
  unfold handle_connect_msg. apply safe_bind. eapply safe_recv_from; [done|].
  apply safe_bind, safe_decoded.
  - intros u. apply run_decode_safe; auto using connect_decode_tame.
  - intros Hf. apply safe_ret. split_and!; [done|done|]. exists c. split_and!; [done|done|].
    intros m Hm. congruence.
  - intros m Hm. apply safe_bind.
    eapply safe_mono with (Q := λ _ w1, Inv w1 ∧ notified w1 = notified w ∧ ∃ c1, conn_is w1 p c1 ∧
      (c1 = c ∨ ∃ x, c1 = upd_client_context (λ _, Some x) c)).
    { destruct (negb _); [|apply safe_ret; split_and!; [done|done|]; exists c; auto].
      destruct Hc as [h Hp]. eapply safe_mono; [by apply (attach_context_safe p h c m w)|].
      intros _ w1 (Hi1&Hn1&x&Hs). split_and!; [done|done|]. eexists. split; [exact Hs|eauto]. }
    intros _ w1 (Hi1&Hn1&c1&Hc1&Hor). eapply safe_mono; [by apply (connect_reply_safe p c c1)|].
    intros r w2 (Hi2&Hn2&x&Hc2). split_and!; [done|congruence|]. eexists. split_and!; [exact Hc2|done|].
    intros _ _. by eexists.
Qed.

(** ** The input of a connection *)

(** What the clients promise of the first [n] bytes of the buffer [l]: a connection
    without a context starts with a complete and well-formed CONNECT or waits for
    more, and there is no other CONNECT. *)
Definition input_ok (ctx : option Z) (l : list Z) (n : Z) : bool :=
  let no_connect l n := bool_decide (CONNECT ∉ packet_types (S (Z.to_nat n)) l n) in
  match ctx with
  | Some _ => no_connect l n
  | None =>
      match remain_length l n with
      | Ok rl =>
          if rl_ret rl =? NEED_MORE_DATA then true
          else if rl_ret rl =? FAILTURE then false
          else
            let total := rl_ret rl + remain_length_bytes rl + 1 in
            bool_decide (first_type l = Some CONNECT) &&
            match run_decode CMqttConnect_decode l total with Ok _ => true | _ => false end &&
            no_connect (drop (Z.to_nat total) l) (n - total)
      | _ => false
      end
  end.

Lemma remain_length_bytes_nonneg l n rl : remain_length l n = Ok rl → 0 <= remain_length_bytes rl.
Proof.
  unfold remain_length. destruct (remain_length_loop 4 _ 0 0) as [[[f o] v]| |]; cbn [mbind res_bind];
    try done.
  destruct f; [|by intros [= <-]]. pose proof (u8_range (o + 1)).
  cbv zeta. destruct (_ <? _); intros [= <-]; simpl; lia.
Qed.

(** Fuel above the number of bytes does not matter. *)
Lemma packet_types_fuel f1 f2 l n :
  n < Z.of_nat f1 → n < Z.of_nat f2 → packet_types f1 l n = packet_types f2 l n.
Proof.
  revert f2 l n. induction f1 as [|f1 IH]; intros f2 l n H1 H2;
    destruct f2 as [|f2]; cbn [packet_types]; [done|..];
    destruct (first_type l), (remain_length l n) as [rl| |] eqn:Hrl; try done;
    destruct (Z.ltb_spec 0 n); [lia|done|lia|done| |done].
  destruct (Z.leb_spec 0 (rl_ret rl)); [|done]. simpl.
  apply remain_length_bytes_nonneg in Hrl. f_equal. apply IH; lia.
Qed.

(** The first packet of a connection without a context. *)
Lemma process_loop_first p len c w :
  Inv w → conn_is w p c → m_client_context c = None →
  0 < len → len <= MAX_BUF_SIZE - 4 → input_ok None (m_recv_buffer c) len = true →
  safe (process_loop (S (Z.to_nat len)) p len 0)
    (λ r w', Inv w' ∧ notified w' = notified w ∧ ∃ c', conn_is w' p c' ∧ (r < 0 → is_Some (m_client_context c'))) w.
Proof using C.
  intros Hi Hc Hx Hlen Hmax Hok. destruct (conn_ok w p c Hi Hc) as [Hbl Hbp].
  unfold MAX_BUF_SIZE in *. cbn [process_loop]. destruct (Z.ltb_spec 0 len); [|lia].
  apply safe_bind. eapply safe_recv_from; [done|]. rewrite Z.sub_0_r.
  change (drop (Z.to_nat 0) (m_recv_buffer c)) with (m_recv_buffer c). set (l := m_recv_buffer c) in *.
  destruct (remain_length_spec l len) as (rl&Hrl&Hcases); [lia..|].
  unfold input_ok in Hok. rewrite Hrl in Hok. apply safe_bind. rewrite Hrl.
  unfold lift, safe at 1, wp. cbn [fst snd].
  destruct (Z.eqb_spec (rl_ret rl) NEED_MORE_DATA) as [|Hnm].
  { apply safe_bind, safe_ret, safe_ret. split_and!; [done|done|]. exists c. split; [done|lia]. }
  destruct (Z.eqb_spec (rl_ret rl) FAILTURE) as [|Hm]; [done|].
  destruct Hcases as [?|[?|(Hr1&Hr2&Hr3&Hr4)]]; [done..|].
  set (total := rl_ret rl + remain_length_bytes rl + 1) in *.
  apply andb_true_iff in Hok as [Hok Hty2]. apply andb_true_iff in Hok as [Hty Hdec].
  apply bool_decide_eq_true in Hty, Hty2.
  rewrite u32_small by (unfold total; lia).
  assert (packet_at 0 total) as Hpkt by (unfold packet_at, MAX_BUF_SIZE, total; lia).
  apply safe_bind. unfold process. apply safe_bind. eapply safe_recv_from; [done|].
  change (drop (Z.to_nat 0) (m_recv_buffer c)) with l.
  destruct l as [|b l'] eqn:Hl; [done|]. injection Hty as Hty. rewrite Hty.
  eapply safe_mono; [by apply (handle_connect_safe p c 0 total)|].
  intros r w1 (Hi1&Hn1&c1&Hc1&Hb1&Hx1). fold l in Hb1.
  change (drop (Z.to_nat 0) (m_recv_buffer c)) with (m_recv_buffer c) in Hx1. fold l in Hx1.
  rewrite Hl in Hx1. destruct (run_decode CMqttConnect_decode (b :: l') total) as [m| |] eqn:Hd; try done.
  destruct (Hx1 m eq_refl) as [x Hxx].
  destruct (r <? 0). { apply safe_ret. split_and!; [done|done|]. exists c1. rewrite Hxx. eauto. }
  rewrite Z.add_0_l, u32_small by (unfold total in *; lia).
  eapply safe_mono.
  { apply (process_loop_safe _ p x len total c1); try done; [unfold total in *; lia..|].
    rewrite Hb1, Hl. erewrite packet_types_fuel; [exact Hty2|unfold total in *; lia..]. }
  intros r2 w2 (Hi2&Hn2&c2&Hc2&Hx2). split_and!; [done|congruence|]. exists c2. rewrite Hx2. eauto.
Qed.

(** A read of the socket of [h] that keeps to the rules. *)
Definition read_ok (h : CEventHandler) (c : CMqttConnection) (w : World) : Prop :=
  match env_read (w_calls w) (m_sock_handle h) (u32 (MAX_BUF_SIZE - m_cur_buf_pos c)) with
  | ReadErr e => would_block e = true ∨ is_Some (m_client_context c)
  | ReadOk [] => is_Some (m_client_context c)
  | ReadOk l =>
      let n := m_cur_buf_pos c + zlen l in
      n <= MAX_BUF_SIZE - 4 ∧
      input_ok (m_client_context c) (splice (Z.to_nat (m_cur_buf_pos c)) l (m_recv_buffer c)) n = true
  end.

Lemma process_mqtt_safe p c n w :
  Inv w → conn_is w p c → 0 < n → n <= MAX_BUF_SIZE - 4 →
  input_ok (m_client_context c) (m_recv_buffer c) n = true →
  safe (process_mqtt p n)
    (λ r w', Inv w' ∧ notified w' = notified w ∧ ∃ c', conn_is w' p c' ∧ (r < 0 → is_Some (m_client_context c'))) w.
Proof using C.
  intros Hi Hc Hn Hm Hok. pose proof Hc as [h Hp]. unfold process_mqtt, std_time.
  apply safe_bind. eapply safe_get_conn; [done|].
  destruct (m_client_context c) as [x|] eqn:Hx.
  - destruct (attached_ctx p x w Hi) as (ctx&Hctx&_); [by eapply conn_attached|].
    apply safe_bind, safe_bind, safe_sys. eapply safe_upd_ctx_inv; [exact Hi|done..|].
    intros w1 Hi1 _ Ho1 _ Hn1. apply bool_decide_eq_true in Hok. eapply safe_mono.
    { apply (process_loop_safe _ p x n 0 c); try done; [|unfold MAX_BUF_SIZE in *; lia..|].
      - exists h. by rewrite Ho1.
      - by rewrite Z.sub_0_r. }
    intros r w2 (Hi2&Hn2&c2&Hc2&Hx2). split_and!; [done|by rewrite Hn2, Hn1|]. exists c2. rewrite Hx2. eauto.
  - apply safe_bind, safe_ret. by apply (process_loop_first p n c).
Qed.

Lemma handle_input_safe p h c w :
  Inv w → w_objs w !! p = Some (mkObject h (Connection c)) → read_ok h c w →
  safe (handle_input p)
    (λ r w', Inv w' ∧ notified w' = notified w ∧ ∃ c', conn_is w' p c' ∧ (r < 0 → is_Some (m_client_context c'))) w.
Proof using C.
  intros Hi Hp Hok. destruct (conn_ok w p c Hi) as [Hbl Hbp]; [by exists h|].
  unfold read_ok in Hok. unfold MAX_BUF_SIZE in *.
  unfold handle_input. apply safe_bind. eapply safe_get_handler; [done|].
  apply safe_bind. eapply safe_get_conn; [done|].
  apply safe_bind. unfold sys_read. apply safe_bind, safe_sys. unfold MAX_BUF_SIZE.
  pose proof (env_read_ok (w_calls w) (m_sock_handle h) (u32 (4096 - m_cur_buf_pos c))) as Hlaw.
  cbn [o_handler]. destruct (env_read _ _ _) as [l|e].
  2:{ apply safe_bind, safe_modify, safe_ret, safe_bind, safe_gets.
      change (w_errno _) with e. destruct (would_block e) eqn:He; apply safe_ret.
      - split_and!; [done|done|]. exists c. split; [by exists h|lia].
      - split_and!; [done|done|]. exists c. split; [by exists h|]. intros _. by destruct Hok. }
  apply safe_ret. destruct l as [|a l'] eqn:Hl.
  { apply safe_ret. split_and!; [done|done|]. exists c. split; [by exists h|done]. }
  rewrite <- Hl in *. assert (0 < zlen l) by (rewrite Hl; zlia).
  clear a l' Hl. cbv zeta in Hok. destruct Hok as [Hn Hok].
  set (h1 := upd_recv_bytes (λ n, u64 (n + zlen l)) (upd_recv_times (λ n, u64 (n + 1)) h)).
  apply safe_bind. eapply safe_upd_handler; [exact Hp|].
  apply safe_bind. eapply safe_upd_handler; [apply lookup_insert_eq|].
  apply safe_bind. eapply safe_upd_conn; [apply lookup_insert_eq|].
  apply safe_bind. eapply safe_upd_conn; [apply lookup_insert_eq|].
  apply safe_bind, safe_sys.
  apply safe_bind. eapply safe_upd_conn; [apply lookup_insert_eq|].
  rewrite u32_small by lia. eapply safe_mono; [eapply process_mqtt_safe|].
  - unfold Inv; simpl. rewrite !insert_insert_eq. fold h1.
    erewrite <- (insert_insert_eq (w_objs w) p _ (mkObject h1 (Connection c))).
    eapply inv_conn; [|apply lookup_insert_eq|done| |].
    + change (Connection c) with (o_derived (mkObject h (Connection c))).
      eapply inv_handler; [exact Hi|exact Hp|done|].
      exact (proj1 (i_objs _ _ _ _ _ _ _ _ _ _ Hi p _ Hp)).
    + simpl. rewrite zlen_splice; [done|lia..].
    + simpl. rewrite u32_small; unfold MAX_BUF_SIZE; lia.
  - eexists. apply lookup_insert_eq.
  - lia.
  - unfold MAX_BUF_SIZE. lia.
  - simpl. exact Hok.
  - intros r w2 (?&Hn2&?). split_and!; [done|by rewrite Hn2|done].
Qed.

(** ** Output *)

Lemma Inv_h_step p o h' w w' :
  Inv w → w_objs w !! p = Some o → h_step p o h' w w' →
  m_sock_handle h' = m_sock_handle (o_handler o) →
  m_send_msg_queue h' = m_send_msg_queue (o_handler o) → Inv w'.
Proof.
  intros Hi Hp [] Hs Hq. apply core_eq in hs_core as (Hc&Ht&Hcl&Hst&_&Hn&Hh&Hd).
  unfold Inv. rewrite hs_objs, hs_mbufs, Hc, Ht, Hcl, Hst, Hn, Hh, Hd.
  eapply (inv_interest (interest := interest_list (w_poller w))).
  - eapply inv_handler; [exact Hi|exact Hp|exact Hs|]. rewrite Hq.
    exact (proj1 (i_objs _ _ _ _ _ _ _ _ _ _ Hi p o Hp)).
  - apply lookup_insert_eq.
  - intros s mask r Hsr. cbn [o_handler]. rewrite Hs. by apply hs_interest.
Qed.

Lemma handle_output_safe p w :
  Inv w → is_Some (w_objs w !! p) →
  safe (handle_output p) (λ r w', Inv w' ∧ r = 0 ∧ notified w' = notified w) w.
Proof using C.
  intros Hi [o Hp]. pose proof (i_objs _ _ _ _ _ _ _ _ _ _ Hi p o Hp) as [Hlive _].
  destruct (m_send_msg_queue (o_handler o)) as [|b q0] eqn:Hq.
  - unfold handle_output. apply safe_bind. eapply safe_get_handler; [done|]. rewrite Hq.
    apply safe_bind. eapply safe_cancel_schedule_write; [done|].
    intros h' w1 Hs Hq' Hh' _ _. apply safe_ret. split_and!; [by eapply Inv_h_step|done|].
    destruct Hs as [Hcore _ _ _ _ _]. by apply core_eq in Hcore as (_&_&_&_&_&_&_&?).
  - destruct (Hlive b) as [m Hm]; [by left|].
    eapply safe_handle_output; [done..|exact (Inv_mbuf w b m Hi Hm)|].
    intros h' m' l q w' Hs Hq' Hcq _ _.
    enough (Inv w' ∧ frame w w') as [? Hf] by (split_and!; [done|done|apply Hf]).
    eapply Inv_sends; [exact Hi|exact Hp|exact Hm|exact Hs|]. intros c Hc. rewrite Hq' in Hc.
    apply elem_of_app in Hc as [Hc|Hc]; [|apply Hlive; by right].
    destruct Hcq as [->| ->]; [by apply elem_of_nil in Hc|].
    apply list_elem_of_singleton in Hc as ->. by eexists.
Qed.

(** ** The acceptor *)

Definition objs_kept w w' : Prop := ∀ q, is_Some (w_objs w !! q) → is_Some (w_objs w' !! q).

Lemma objs_kept_insert w w' p o : w_objs w' = <[p := o]> (w_objs w) → objs_kept w w'.
Proof.
  intros Hw q Hq. rewrite Hw. destruct (decide (q = p)) as [->|].
  - rewrite lookup_insert_eq. by eexists.
  - by rewrite lookup_insert_ne.
Qed.

(** Every registration with the poller is an old one or that of [p]. *)
Definition registers (p : Z) w w' : Prop :=
  (∀ s q, m_map_event_handlers (w_poller w') !! s = Some q →
     q = p ∨ m_map_event_handlers (w_poller w) !! s = Some q) ∧
  (∀ s m q, interest_list (w_poller w') !! s = Some (m, q) →
     q = p ∨ interest_list (w_poller w) !! s = Some (m, q)).

Lemma registers_insert p fd mask w w' :
  (m_map_event_handlers (w_poller w') = m_map_event_handlers (w_poller w) ∨
   m_map_event_handlers (w_poller w') = <[fd := p]> (m_map_event_handlers (w_poller w))) →
  interest_list (w_poller w') = <[fd := (mask, p)]> (interest_list (w_poller w)) →
  registers p w w'.
Proof.
  intros Hh Hl. split.
  - intros s q. destruct Hh as [->| ->]; [by right|]. destruct (decide (s = fd)) as [->|].
    + rewrite lookup_insert_eq. intros [= <-]. by left.
    + rewrite lookup_insert_ne by done. by right.
  - intros s m q. rewrite Hl. destruct (decide (s = fd)) as [->|].
    + rewrite lookup_insert_eq. intros [= _ <-]. by left.
    + rewrite lookup_insert_ne by done. by right.
Qed.

(** The sessions, the buffers, the topics and the message store are as before. *)
Definition same_sessions w w' : Prop :=
  w_ctxs w' = w_ctxs w ∧ w_mbufs w' = w_mbufs w ∧ w_topics w' = w_topics w ∧ w_clients w' = w_clients w ∧
  w_store w' = w_store w.

Lemma handler_open_safe p o w :
  Inv w → w_objs w !! p = Some o →
  safe (handler_open p) (λ _ w', Inv w' ∧ (∃ h', w_objs w' = <[p := mkObject h' (o_derived o)]> (w_objs w))
    ∧ registers p w w' ∧ notified w' = notified w ∧ same_sessions w w') w.
Proof using C.
  intros Hi Hp. unfold handler_open, add_event, sys_epoll_ctl.
  apply safe_bind. eapply safe_get_handler; [done|].
  apply safe_bind, safe_sys, safe_bind. eapply safe_upd_handler; [done|].
  apply safe_bind. eapply safe_get_handler; [apply lookup_insert_eq|].
  apply safe_bind, safe_bind, safe_sys. rewrite calm_ctl.
  apply safe_bind, safe_modify, safe_ret. cbn [Z.ltb Z.compare].
  apply safe_bind, safe_gets. cbn [o_handler o_derived].
  set (fd := m_sock_handle _). set (mask := convert_event_mask _).
  set (h1 := upd_peer_addr _ _).
  assert (∀ h' w', m_sock_handle h' = fd → m_send_msg_queue h' = m_send_msg_queue (o_handler o) →
    (m_map_event_handlers (w_poller w') = m_map_event_handlers (w_poller w) ∨
     m_map_event_handlers (w_poller w') = <[fd := p]> (m_map_event_handlers (w_poller w))) →
    interest_list (w_poller w') = <[fd := (mask, p)]> (interest_list (w_poller w)) →
    w_objs w' = <[p := mkObject h' (o_derived o)]> (w_objs w) → w_ctxs w' = w_ctxs w →
    w_mbufs w' = w_mbufs w → w_next w' = w_next w → w_topics w' = w_topics w →
    w_clients w' = w_clients w → w_store w' = w_store w →
    notified w' = notified w →
    Inv w' ∧ (∃ h', w_objs w' = <[p := mkObject h' (o_derived o)]> (w_objs w)) ∧ registers p w w' ∧ notified w' = notified w ∧
    same_sessions w w') as HI.
  { intros h' w' Hfd Hq Hh Hl Ho Hc Hm Hn Ht Hk Hs Hd.
    split_and!; [|by eexists|by eapply registers_insert|done|by split_and!].
    unfold Inv. rewrite Ho, Hc, Hm, Hn, Ht, Hk, Hs, Hl, Hd. eapply inv_poller.
    - eapply inv_handler; [exact Hi|exact Hp|by rewrite Hfd|]. rewrite Hq.
      exact (proj1 (i_objs _ _ _ _ _ _ _ _ _ _ Hi p o Hp)).
    - apply lookup_insert_eq.
    - cbn [o_handler]. rewrite Hfd. intros s q. destruct Hh as [->| ->]; [by right|].
      destruct (decide (s = fd)) as [->|].
      + rewrite lookup_insert_eq. intros [= <-]. by left.
      + rewrite lookup_insert_ne by done. by right.
    - cbn [o_handler]. rewrite Hfd. intros s m q. destruct (decide (s = fd)) as [->|].
      + rewrite lookup_insert_eq. intros [= <- <-]. by left.
      + rewrite lookup_insert_ne by done. by right. }
  cbn [w_poller upd_poller m_map_event_handlers upd_objs upd_calls]. destruct (_ !! fd) as [q|] eqn:Hh.
  - destruct (q =? p).
    + apply safe_ret. apply (HI h1); try done. by left.
    + apply safe_bind. eapply safe_upd_handler; [apply lookup_insert_eq|]. apply safe_ret.
      apply (HI (upd_current_event_mask (λ _, EVENT_READ) h1)); try done; [by left|]. simpl. by rewrite insert_insert_eq.
  - apply safe_bind, safe_modify, safe_bind.
    eapply safe_upd_handler; [apply lookup_insert_eq|]. apply safe_ret.
    apply (HI (upd_current_event_mask (λ _, EVENT_READ) h1)); try done; [by right|]. simpl. by rewrite insert_insert_eq.
Qed.

Lemma acceptor_safe w : Inv w → safe acceptor_handle_input
  (λ r w', Inv w' ∧ r = 0 ∧ objs_kept w w' ∧ notified w' = notified w) w.
Proof using C.
  intros Hi. unfold acceptor_handle_input, new_CMqttConnection, sock_accept, std_time.
  apply safe_bind, safe_bind, safe_sys, safe_bind, safe_sys, safe_bind, safe_sys.
  apply safe_bind, safe_fresh_id, safe_bind, safe_modify, safe_ret.
  set (h := new_CEventHandler _ _ _). set (d := mkConnection _ _ _ _ _).
  set (w1 := upd_objs _ _). change (w_next (upd_calls S _)) with (w_next w). set (p := w_next w).
  assert (∀ h', m_send_msg_queue h' = [] →
    Inv (upd_objs (λ _, <[p := mkObject h' (Connection d)]> (w_objs w)) w1)) as HI.
  { intros h' Hq. eapply inv_new_conn; [eapply inv_next; [exact Hi|]| |done|done| | |].
    - cbn. lia.
    - destruct (w_objs w !! p) as [o|] eqn:Hp; [|done].
      assert (p < w_next w); [|unfold p in *; lia].
      eapply i_fresh; [exact Hi|]. left. by eexists.
    - unfold d, zlen. cbn [m_recv_buffer]. by rewrite length_map, length_seq.
    - unfold d, MAX_BUF_SIZE. cbn [m_cur_buf_pos]. lia.
    - unfold p. cbn. lia. }
  assert (w_objs w1 !! p = Some (mkObject h (Connection d))) as Hp1 by apply lookup_insert_eq.
  apply safe_bind. eapply safe_mono with (Q := λ _ w2, Inv w2 ∧ notified w2 = notified w ∧ ∃ o, w_objs w2 = <[p := o]> (w_objs w)).
  { apply safe_bind, safe_sys. destruct (env_accept _) as [fd|e].
    - destruct (_ || _); [apply safe_ret; split_and!; [by apply (HI h)|done|by eexists]|].
      apply safe_bind. eapply safe_upd_handler; [exact Hp1|]. apply safe_ret. split_and!; [|done|].
      + unfold Inv, w1. cbn -[d]. rewrite insert_insert_eq. by apply HI.
      + cbn -[d]. rewrite insert_insert_eq. by eexists.
    - apply safe_bind, safe_modify, safe_ret. split_and!; [by apply (HI h)|done|by eexists]. }
  intros r w2 (Hi2&Hn2&o&Ho2). apply safe_bind. eapply safe_mono.
  { eapply handler_open_safe; [done|]. rewrite Ho2. apply lookup_insert_eq. }
  intros r' w3 (Hi3&[h' Ho3]&_&Hn3&_). apply safe_ret. split_and!; [done|done| |congruence].
  eapply objs_kept_insert. by rewrite Ho3, Ho2, insert_insert_eq.
Qed.

(** ** Events *)

(** An event that a kernel delivers when the clients keep to the rules: it is for a
    live object; a connection is not closed before it has got a context. *)
Definition event_ok (event p : Z) (w : World) : Prop :=
  match w_objs w !! p with
  | Some (mkObject h (Connection c)) =>
      if has event (Z.lor EPOLLHUP EPOLLERR) then is_Some (m_client_context c)
      else if has event EPOLLIN then read_ok h c w else True
  | Some (mkObject _ Acceptor) => has event (Z.lor EPOLLHUP EPOLLERR) = false
  | _ => False
  end.

Lemma close_event_safe p c w :
  Inv w → conn_is w p c → is_Some (m_client_context c) →
  safe (do _ <- handle_close p; ret tt) (λ _ w', Inv w' ∧ notified w' = notified w) w.
Proof using C.
  intros Hi Hc [x Hx]. apply safe_bind. eapply handle_close_safe; [done..|].
  intros r w' Hi' (_&_&Hn&_). by apply safe_ret.
Qed.

Lemma output_event_safe event p w :
  Inv w → is_Some (w_objs w !! p) →
  safe (if has event EPOLLOUT then
          do r <- handle_output p;
          if r <? 0 then do _ <- handle_close p; ret tt else ret tt
        else ret tt) (λ _ w', Inv w' ∧ notified w' = notified w) w.
Proof using C.
  intros Hi Hp. destruct (has event EPOLLOUT); [|by apply safe_ret].
  apply safe_bind. eapply safe_mono; [by apply handle_output_safe|].
  intros r w1 (Hi1&->&Hn1). by apply safe_ret.
Qed.

Lemma handle_event_safe event p w :
  Inv w → event_ok event p w → safe (handle_event event p) (λ _ w', Inv w' ∧ notified w' = notified w) w.
Proof using C.
  intros Hi Hok. unfold event_ok in Hok. destruct (w_objs w !! p) as [[h d]|] eqn:Hp; [|done].
  unfold handle_event. apply safe_bind. eapply safe_get_handler; [done|]. destruct d as [c| |].
  - destruct (has event (Z.lor EPOLLHUP EPOLLERR)).
    { eapply close_event_safe; [done|by exists h|done]. }
    destruct (has event EPOLLIN).
    2:{ apply safe_bind, safe_ret, output_event_safe; [done|by eexists]. }
    apply safe_bind, safe_bind. unfold v_handle_input. apply safe_bind.
    eapply safe_get_obj; [done|]. cbn [o_derived].
    eapply safe_mono; [by apply (handle_input_safe p h c)|]. intros r w1 (Hi1&Hn1&c1&Hc1&Hx1).
    destruct (Z.ltb_spec r 0) as [Hr|Hr].
    + destruct (Hx1 Hr) as [x Hx]. apply safe_bind. eapply handle_close_safe; [done..|].
      intros r' w2 Hi2 (_&_&Hn2&_). apply safe_ret, safe_ret. split; [done|congruence].
    + apply safe_ret. rewrite <- Hn1. apply output_event_safe; [done|by eapply conn_is_obj].
  - rewrite Hok. destruct (has event EPOLLIN).
    2:{ apply safe_bind, safe_ret, output_event_safe; [done|by eexists]. }
    apply safe_bind, safe_bind. unfold v_handle_input. apply safe_bind.
    eapply safe_get_obj; [done|]. cbn [o_derived].
    eapply safe_mono; [by apply acceptor_safe|]. intros r w1 (Hi1&->&Hk&Hn1).
    apply safe_ret. rewrite <- Hn1. apply output_event_safe; [done|]. apply Hk. by eexists.
  - done.
Qed.

(** An event and the destructions after it. *)
Lemma event_step_safe event p w :
  Inv w → event_ok event p w → safe (event_step event p) (λ _ w', Inv w' ∧ notified w' = notified w) w.
Proof using C.
  intros Hi Hok. unfold event_step. apply safe_bind. eapply safe_mono; [by apply handle_event_safe|].
  intros a w1 [Hi1 Hn1]. apply safe_modify. split; [by apply collect_inv|done].
Qed.

(** ** The start of the server *)

Lemma initial_inv id : Inv (initial_world id).
Proof.
  split; simpl; try done.
  - by intros p x (?&?&?&?).
  - intros x [[? ?]|(?&?&?&?)]; done.
  - intros b Hb. by apply elem_of_nil in Hb.
  - by intros k [[]|[[]|[]]].
Qed.

(** The poller does not know the object. *)
Definition unregistered (w : World) (p : Z) : Prop :=
  (∀ fd, m_map_event_handlers (w_poller w) !! fd ≠ Some p) ∧ ∀ fd m, interest_list (w_poller w) !! fd ≠ Some (m, p).

Lemma same_sessions_trans w1 w2 w3 : same_sessions w1 w2 → same_sessions w2 w3 → same_sessions w1 w3.
Proof using. intros (?&?&?&?&?) (?&?&?&?&?). split_and!; congruence. Qed.

(** The new acceptor [a] and the new notification descriptor [n] are opened. *)
Lemma server_open_safe a n ha hn listen eventfd w :
  Inv w → w_objs w !! a = Some (mkObject ha Acceptor) → w_objs w !! n = Some (mkObject hn PollerNotifyFd) →
  m_send_msg_queue ha = [] → m_send_msg_queue hn = [] → unregistered w a → unregistered w n →
  safe (server_open a n listen eventfd) (λ r w', Inv w' ∧
    m_notify_deque (w_poller w') = m_notify_deque (w_poller w) ∧
    (r = 0 → is_Some (m_notify_writer (w_poller w'))) ∧ same_sessions w w') w.
Proof using C.
  intros Hi Ha Hn Hqa Hqn [Ua1 Ua2] [Un1 Un2]. assert (a ≠ n) as Hne by (intros ->; congruence).
  assert (∀ p o, w_objs w !! p = Some o → p < w_next w) as Hlt
    by (intros p o Ho; eapply i_fresh; [exact Hi|]; left; by exists o).
  unfold server_open, acceptor_open. destruct (Z.eqb_spec listen (-1)) as [|_]; [by apply safe_bind, safe_ret, safe_ret|].
  apply safe_bind, safe_bind. eapply safe_upd_handler; [exact Ha|]. cbn [o_handler o_derived].
  set (w1 := upd_objs _ w). assert (Inv w1) as Hi1.
  { eapply inv_plain; [exact Hi|done| |exact Hqa|exact Ua1|exact Ua2|by eapply Hlt].
    intros o Ho. rewrite Ha in Ho. by injection Ho as <-. }
  eapply safe_mono; [eapply handler_open_safe; [exact Hi1|apply lookup_insert_eq]|].
  intros r w2 (Hi2&[h1' Ho2]&[Hreg Hint]&Hn2&Hs2).
  assert (w_objs w2 !! n = Some (mkObject hn PollerNotifyFd)) as Hw2n
    by (rewrite Ho2; cbn; by rewrite !lookup_insert_ne).
  destruct (r =? -1); [apply safe_ret; by split_and!; [|exact (f_equal snd Hn2)|..]|].
  unfold notify_open. apply safe_bind, safe_bind. eapply safe_upd_handler; [exact Hw2n|].
  cbn [o_handler o_derived]. apply safe_bind. eapply safe_mono.
  { eapply handler_open_safe; [|apply lookup_insert_eq].
    eapply inv_plain; [exact Hi2|done| |exact Hqn| | |].
    - intros o Ho. rewrite Hw2n in Ho. by injection Ho as <-.
    - intros fd Hfd. destruct (Hreg _ _ Hfd) as [Hq|Hfd']; [by symmetry in Hq|by eapply Un1].
    - intros fd m Hfd. destruct (Hint _ _ _ Hfd) as [Hq|Hfd']; [by symmetry in Hq|by eapply Un2].
    - eapply i_fresh; [exact Hi2|]. left. by eexists. }
  intros r3 w3 (Hi3&[h3 Ho3]&_&Hn3&Hs3). unfold regist_notify. apply safe_bind, safe_modify, safe_ret.
  change (0 <? 0) with false. apply safe_ret.
  split_and!; [|etrans; [exact (f_equal snd Hn3)|exact (f_equal snd Hn2)]|by eexists|by eapply same_sessions_trans].
  eapply inv_notif; [exact Hi3|exact (i_deque _ _ _ _ _ _ _ _ _ _ Hi3)|].
  intros q [= <-]. exists h3. change (w_objs (upd_poller _ w3)) with (w_objs w3). rewrite Ho3. apply lookup_insert_eq.
Qed.

(** The constructor of [TCPServer], in a new process; the acceptor is 1, the descriptor 2. *)
Record constructed (id : Z) (w : World) : Prop := {
  ct_inv : Inv w;
  ct_objs : ∃ ha hn, w_objs w !! 1 = Some (mkObject ha Acceptor) ∧ w_objs w !! 2 = Some (mkObject hn PollerNotifyFd) ∧
    m_send_msg_queue ha = [] ∧ m_send_msg_queue hn = [];
  ct_poller : w_poller w = w_poller (initial_world id);
  ct_sessions : same_sessions (initial_world id) w;
}.

Lemma safe_construct {A} id (k : Z → Z → M A) (Q : A → World → Prop) :
  (∀ w, constructed id w → safe (k 1 2) Q w) →
  safe (do acceptor <- new_object Acceptor; do notify_fd <- new_object PollerNotifyFd; k acceptor notify_fd) Q
    (initial_world id).
Proof using.
  intros HQ. unfold new_object, std_time.
  apply safe_bind, safe_bind, safe_sys, safe_bind, safe_sys, safe_bind, safe_fresh_id, safe_bind.
  apply safe_modify, safe_ret.
  apply safe_bind, safe_bind, safe_sys, safe_bind, safe_sys, safe_bind, safe_fresh_id, safe_bind.
  apply safe_modify, safe_ret, HQ. split; [|eexists _, _; by split_and!|done|by split_and!].
  eapply inv_plain; [eapply inv_plain; [eapply (inv_next (initial_inv id) 3); cbn; lia|..]|..];
    cbn; try done; try lia; by intros o.
Qed.

Lemma constructed_open id listen eventfd w :
  constructed id w → safe (server_open 1 2 listen eventfd) (λ r w', Inv w' ∧ m_notify_deque (w_poller w') = [] ∧
    (r = 0 → is_Some (m_notify_writer (w_poller w'))) ∧ same_sessions w w') w.
Proof using C.
  intros [Hi (ha&hn&Ha&Hn&Hqa&Hqn) Hp _]. eapply safe_mono.
  { apply (server_open_safe 1 2 ha hn); try done; unfold unregistered; rewrite Hp; by split. }
  intros r w' (Hi'&Hq&Hw&Hs). split_and!; [done|by rewrite Hq, Hp|done|apply Hs..].
Qed.

Lemma server_start_safe id listen eventfd :
  safe (server_start listen eventfd) (λ r w, Inv w ∧ m_notify_deque (w_poller w) = [] ∧
    (r = 0 → is_Some (m_notify_writer (w_poller w)))) (initial_world id).
Proof using C.
  unfold server_start. apply safe_construct. intros w Hw. eapply safe_mono; [by eapply constructed_open|].
  intros r w' (?&?&?&_). by split_and!.
Qed.

End sessions.
