(* ===== verification/Server.v ===== *)
(** * The server

    The states the server can reach, and its properties as a whole: it does not
    crash on clients that keep to the rules, a session has one connection at a
    time, and what the opening and the closing of a connection do to the sessions.
    The proofs are in Safety.v and Sessions.v. *)

From S2P Require Import Prelude Pkt Msg Mbuf MemStore Context World Sample Handler Delivery.
From S2P Require Import SubMgr Connection Invariant Poller Scenarios Safety Sessions.
From stdpp Require Import options.

(** ** Reachable states *)

(** The server starts in some calm environment, and takes events that keep to the
    rules; the environment of an event is arbitrary. *)
Inductive reachable : World → Prop :=
  | reachable_start (E : Env) (C : Calm) id listen eventfd r w :
      server_start listen eventfd (initial_world id) = (Ok r, w) → reachable w
  | reachable_event (E : Env) (C : Calm) event p w w' :
      reachable w → event_ok event p w → event_step event p w = (Ok tt, w') → reachable w'.

Lemma reachable_inv w : reachable w → Inv w.
Proof.
  induction 1 as [E C id listen eventfd r w Hr|E C event p w w' Hw IH Hok Hr].
  - pose proof (server_start_safe id listen eventfd) as Hs.
    unfold safe, wp in Hs. rewrite Hr in Hs. apply Hs.
  - pose proof (event_step_safe event p w IH Hok) as Hs.
    unfold safe, wp in Hs. rewrite Hr in Hs. apply Hs.
Qed.

(** The state after one event more than those of [m]. *)
Lemma reachable_after (E : Env) (C : Calm) m event p :
  status m = Ok tt → reachable (after m) → event_ok event p (after m) →
  status (do_ m; event_step event p) = Ok tt → reachable (after (do_ m; event_step event p)).
Proof.
  unfold status, after. intros Hm Hw Hok. unfold bind. destruct (m started) as [r w]; simpl in *.
  subst. destruct (event_step event p w) as [[[]| |u] w'] eqn:Hr; try done. intros _; simpl.
  by eapply (reachable_event E C).
Qed.

Lemma started_reachable : reachable started.
Proof.
  apply (reachable_start _ (quiet_calm [] 0) 0 3 4 0). unfold started.
  assert ((@server_start (quiet_env [] write_all 0) 3 4 (initial_world 0)).1 = Ok 0) as Hr
    by (vm_compute; reflexivity).
  destruct (server_start 3 4 _) as [r w]. simpl in *. by subst.
Qed.

(** ** Properties *)

(** Claim C3: the server does not crash on its clients.  From every reachable state
    - any sequence of accepts, of inputs split anywhere that keep to the rules of
    [input_ok], of partial or refused writes, of disconnections and take-overs -
    every event that keeps to the rules has a defined result: no deleted object,
    context or buffer is used, no array is exceeded, every loop ends.  The state
    after it is reachable, and the invariant holds in both: no registered context
    names a deleted connection, the queues and the message store hold live buffers,
    the poller and the kernel know only live handlers. *)
Theorem server_never_crashes {E : Env} {C : Calm} event p w :
  reachable w → event_ok event p w →
  Inv w ∧ ∃ w', event_step event p w = (Ok tt, w') ∧ reachable w' ∧ Inv w'.
Proof.
  intros Hw Hok. pose proof (reachable_inv w Hw) as Hi. split; [done|].
  destruct (safe_inv _ _ _ (event_step_safe event p w Hi Hok)) as ([]&w'&Hr&Hi'&_).
  exists w'. split_and!; [done| |done]. by eapply (reachable_event E C).
Qed.

Lemma server_never_crashes_witness :
  let w := after (run_all (subscribed true)) in
  Inv w ∧ ∃ w', @event_step (quiet_env (publish_bytes true 77 (of_string "t") [1; 2; 3]) write_all 0)
    EPOLLIN client_b w = (Ok tt, w') ∧ reachable w' ∧ Inv w'.
Proof.
  apply (@server_never_crashes _ (quiet_calm _ 0)).
  - unfold run_all, subscribed, two_clients. cbn [foldl app].
    repeat (apply (reachable_after _ (quiet_calm _ _));
      [vm_compute; reflexivity| |vm_compute; repeat split; discriminate|vm_compute; reflexivity]).
    apply started_reachable.
  - vm_compute. repeat split; discriminate.
Defined.

(** Claim C19: a session has at most one connection.  In every reachable state two
    connections that hold the same context are the same connection, and it is the
    one the context names; and a context that is registered - under a client
    identifier, or as the subscriber of a topic - and names a connection is held by
    that connection, which is live. *)
Theorem one_connection_per_session w p q x :
  reachable w → attached (w_objs w) p x → attached (w_objs w) q x →
  p = q ∧ ∃ ctx, w_ctxs w !! x = Some ctx ∧ mqtt_connection ctx = Some p.
Proof.
  intros Hw Hp Hq. apply reachable_inv in Hw as Hi.
  destruct (attached_ctx p x w Hi Hp) as (c&Hc&Hcp), (attached_ctx q x w Hi Hq) as (d&Hd&Hdq).
  split; [congruence|]. by exists c.
Qed.

Lemma subscribed_reachable clean : reachable (after (run_all (subscribed clean))).
Proof.
  unfold run_all, subscribed, two_clients. cbn [foldl app].
  destruct clean; repeat (apply (reachable_after _ (quiet_calm _ _));
    [vm_compute; reflexivity| |vm_compute; repeat split; discriminate|vm_compute; reflexivity]);
    apply started_reachable.
Qed.

Lemma third_client_reachable clean : reachable (after (run_all (third_client clean))).
Proof.
  unfold third_client, run_all. rewrite foldl_app. cbn [foldl].
  apply (reachable_after _ (quiet_calm _ _)); [|by apply subscribed_reachable|..];
    destruct clean; vm_compute; reflexivity.
Qed.

Lemma published_reachable : reachable (after (run_all published)).
Proof.
  unfold published, run_all. rewrite foldl_app. cbn [foldl].
  apply (reachable_after _ (quiet_calm _ _)); [|by apply subscribed_reachable|..];
    vm_compute; [reflexivity|repeat split; discriminate|reflexivity].
Qed.

Lemma one_connection_per_session_witness :
  let w := after (run_all (subscribed true)) in
  client_a = client_a ∧ ∃ ctx, w_ctxs w !! ctx_a = Some ctx ∧ mqtt_connection ctx = Some client_a.
Proof.
  apply (one_connection_per_session _ client_a client_a ctx_a (subscribed_reachable true));
    (eexists _, _; split; [vm_compute; reflexivity|reflexivity]).
Defined.

(** Claim C17: CONNECT hands a session over.  When the identifier is known, the
    connection that has its session is closed and deleted, and the connection that
    sent CONNECT gets the same context, connected, with the queue of the
    unacknowledged messages and the topics it had.  The identifier stays
    registered, with the subscriptions, unless the connection that was closed had
    asked for a clean session: then the identifier is forgotten, and stays so
    although its client has just connected. *)
Theorem session_handed_over {E : Env} {C : Calm} p c x ctx m w :
  Inv w → conn_is w p c → m_client_context c = None →
  w_clients w !! client_id m = Some x → w_ctxs w !! x = Some ctx →
  ∃ w', attach_context p m w = (Ok tt, w') ∧ Inv w' ∧ taken_over p x c m ctx w w'.
Proof.
  intros Hi [h Hp] Hc Hid Hx.
  destruct (safe_inv _ _ _ (attach_known_safe p h c x ctx m w Hi Hp Hc Hid Hx)) as ([]&w'&?&?&?).
  by exists w'.
Qed.

Definition w3 (clean : bool) : World := after (run_all (third_client clean)).

Lemma session_handed_over_witness :
  let m := connect_msg (of_string "a") true in
  ∃ w', @attach_context sample_env client_c m (w3 false) = (Ok tt, w') ∧ Inv w' ∧
    taken_over client_c ctx_a (conn_of client_c (w3 false)) m (ctx_of ctx_a (w3 false)) (w3 false) w'.
Proof.
  apply (@session_handed_over sample_env (quiet_calm [] 0)).
  - apply reachable_inv, (third_client_reachable false).
  - eexists. vm_compute. reflexivity.
  - vm_compute. reflexivity.
  - vm_compute. reflexivity.
  - vm_compute. reflexivity.
Defined.

(** CONNECT with an unknown identifier starts a session: a new context,
    connected, without topics and without messages, is registered under the
    identifier and held by the connection; no other identifier changes. *)
Theorem session_started {E : Env} {C : Calm} p c m w :
  Inv w → conn_is w p c → m_client_context c = None → w_clients w !! client_id m = None →
  ∃ w' x ctx, attach_context p m w = (Ok tt, w') ∧ Inv w' ∧
    conn_is w' p (upd_client_context (λ _, Some x) c) ∧ w_ctxs w' !! x = Some ctx ∧
    client_status ctx = CS_CONNECTED ∧ ctx_client_id ctx = client_id m ∧
    send_msg_queue ctx = [] ∧ subcribe_topics ctx = [] ∧
    w_clients w' = <[client_id m := x]> (w_clients w).
Proof.
  intros Hi [h Hp] Hc Hid.
  destruct (safe_inv _ _ _ (attach_new_safe p h c m w Hi Hp Hc Hid)) as ([]&w'&?&?&_&x&ctx&?).
  by exists w', x, ctx.
Qed.

Lemma session_started_witness :
  let m := connect_msg (of_string "c") true in
  ∃ w' x ctx, @attach_context sample_env client_c m (w3 false) = (Ok tt, w') ∧ Inv w' ∧
    conn_is w' client_c (upd_client_context (λ _, Some x) (conn_of client_c (w3 false))) ∧
    w_ctxs w' !! x = Some ctx ∧ client_status ctx = CS_CONNECTED ∧
    ctx_client_id ctx = client_id m ∧ send_msg_queue ctx = [] ∧ subcribe_topics ctx = [] ∧
    w_clients w' = <[client_id m := x]> (w_clients (w3 false)).
Proof.
  apply (@session_started sample_env (quiet_calm [] 0)).
  - apply reachable_inv, (third_client_reachable false).
  - eexists. vm_compute. reflexivity.
  - vm_compute. reflexivity.
  - vm_compute. reflexivity.
Defined.

(** Claim C18: the closing of a connection.  The object is deleted and its descriptor
    is no longer registered; the context is kept, with its queue and its topics, and
    names no connection any more.  A clean session is forgotten: its identifier and
    each of the topics it subscribed to.  Any other session keeps all its
    registrations; no other object or context changes. *)
Theorem connection_closed {E : Env} {C : Calm} p c x w :
  Inv w → conn_is w p c → m_client_context c = Some x →
  ∃ r w', handle_close p w = (Ok r, w') ∧ Inv w' ∧ closed p x w w' ∧
    (∀ fd, m_map_event_handlers (w_poller w') !! fd ≠ Some p).
Proof.
  intros Hi Hc Hx. assert (safe (handle_close p) (λ _ w', Inv w' ∧ closed p x w w') w) as Hs.
  { by eapply handle_close_safe. }
  destruct (safe_inv _ _ _ Hs) as (r&w'&Hr&Hi'&Hcl). exists r, w'. split_and!; [done..|].
  intros fd Hfd. destruct (i_handlers _ _ _ _ _ _ _ _ _ _ Hi' _ _ Hfd) as (o&Ho&_).
  destruct Hcl as (Hobj&_). by rewrite Hobj, lookup_delete_eq in Ho.
Qed.

Lemma connection_closed_witness :
  ∃ r w', @handle_close sample_env client_a (w3 true) = (Ok r, w') ∧ Inv w' ∧
    closed client_a ctx_a (w3 true) w' ∧
    (∀ fd, m_map_event_handlers (w_poller w') !! fd ≠ Some client_a).
Proof.
  apply (@connection_closed sample_env (quiet_calm [] 0) _ (conn_of client_a (w3 true))).
  - apply reachable_inv, (third_client_reachable true).
  - eexists. vm_compute. reflexivity.
  - vm_compute. reflexivity.
Defined.
