(* ===== verification/Publish.v ===== *)
(** * Who gets a message

    What a publication, a subscription, an acknowledgement and a reconnection do to
    the queues of the sessions, to the retained messages and to the sockets: the
    functional behaviour of SubMgr.v and of [send_offline]. *)

From S2P Require Import Prelude Pkt Msg Mbuf MemStore Context World Sample Handler Delivery.
From S2P Require Import SubMgr Connection Invariant Poller Scenarios Safety Sessions Server.
From stdpp Require Import options.

(** ** Queues *)

(** What [publish] does to the contexts of the subscribers [X]. *)
Definition enqueued (b : Z) (X : gset Z) (C1 C2 : gmap Z CTMqttClientContext) : Prop :=
  ∀ x, C2 !! x = if decide (x ∈ X) then add_send_msg b <$> C1 !! x else C1 !! x.

(** Every buffer but [b] is as before. *)
Definition same_mbufs (b : Z) (m1 m2 : gmap Z CMbuf) : Prop :=
  ∀ c m, c ≠ b → m1 !! c = Some m → m2 !! c = Some m.

Lemma same_mbufs_trans b m1 m2 m3 :
  same_mbufs b m1 m2 → same_mbufs b m2 m3 → same_mbufs b m1 m3.
Proof. intros H1 H2 c m Hc Hm. by apply H2, H1. Qed.

Section publish.
Context {E : Env} {C : Calm}.
Implicit Types w : World.

(** What sending leaves alone, besides the frame. *)
Record delivered (b : Z) w w' : Prop := {
  de_frame : frame w w';
  de_ctxs : w_ctxs w' = w_ctxs w;
  de_topics : w_topics w' = w_topics w;
  de_clients : w_clients w' = w_clients w;
  de_mbufs : same_mbufs b (w_mbufs w) (w_mbufs w');
}.

Lemma delivered_refl b w : delivered b w w.
Proof. split; [reflexivity|done..|]. by intros c m _ Hm. Qed.

Lemma put_delivers p b w :
  Inv w → is_Some (w_objs w !! p) → live (w_mbufs w) b →
  safe (put p b) (λ _ w', Inv w' ∧ delivered b w w') w.
Proof using C.
  intros Hi [o Hp] [m Hb]. eapply safe_put; [done..|by eapply i_mbufs|].
  intros h' m' l q r w' Hs Hq Hcq _ _ _ _.
  destruct (core_eq _ _ (se_core _ _ _ _ _ _ _ _ _ _ Hs)) as (Hc&Ht&Hk&_).
  destruct (Inv_sends p b o m h' m' l q w w') as [Hi' Hf]; [done..| |].
  { intros c. rewrite Hq, elem_of_app. intros [Hcc|Hcc].
    - by eapply i_objs.
    - destruct Hcq as [->| ->]; [by apply elem_of_nil in Hcc|].
      apply list_elem_of_singleton in Hcc as ->. by eexists. }
  split; [done|]. split; try done. intros c mc Hne Hmc.
  rewrite (se_mbufs _ _ _ _ _ _ _ _ _ _ Hs). by rewrite lookup_insert_ne.
Qed.

(** One client of the loop of [publish]. *)
Lemma publish_client_enqueues x b i w :
  Inv w → known w x → live (w_mbufs w) b →
  safe (publish_client x b i) (λ _ w', Inv w' ∧ frame w w' ∧ w_topics w' = w_topics w ∧
    w_clients w' = w_clients w ∧ same_mbufs b (w_mbufs w) (w_mbufs w') ∧
    ∃ c, w_ctxs w !! x = Some c ∧ w_ctxs w' = <[x := add_send_msg b c]> (w_ctxs w)) w.
Proof using C.
  intros Hi Hx Hb. destruct (known_ctx x w Hi Hx) as [c Hc]. unfold publish_client.
  apply safe_bind. eapply safe_upd_ctx; [done|]. set (w1 := upd_ctxs _ w).
  assert (Inv w1 ∧ frame w w1) as [Hi1 Hf1].
  { pose proof (keeps_add_send_msg x b w Hi ltac:(by eexists) Hb) as Hk.
    unfold keeps, safe, wp, upd_ctx, bind, get_ctx in Hk. rewrite Hc in Hk. exact Hk. }
  apply safe_bind. eapply safe_get_ctx; [apply lookup_insert_eq|].
  cbn [mqtt_connection add_send_msg upd_send_msg_queue].
  apply safe_bind. eapply safe_mono with (Q := λ _ w', Inv w' ∧ delivered b w1 w').
  - destruct (mqtt_connection c) as [p|] eqn:Hp; [|by apply safe_ret; split; [|apply delivered_refl]].
    apply safe_bind. eapply safe_mono; [apply put_delivers; [done| |done]|].
    + exact (known_obj x c p w Hi Hx Hc Hp).
    + intros r w2 [? ?]. by apply safe_ret.
  - intros [on off] w2 (Hi2&[Hf2 Hc2 Ht2 Hk2 Hm2]). apply safe_bind, safe_modify, safe_ret.
    split_and!; [exact Hi2| |done..|].
    + etransitivity; [exact Hf1|]. etransitivity; [exact Hf2|apply frame_upd_stats].
    + exists c. split; [done|]. cbn. by rewrite Hc2.
Qed.

(** The loop over the subscribers visits each of them once. *)
Lemma for_each_enqueues t b i l count w :
  Inv w → live (w_mbufs w) b → NoDup l →
  (∀ x, x ∈ l → x ∈ default ∅ (m_subcriber_clients <$> w_topics w !! t)) →
  safe (for_each_subscriber t (λ x, do _ <- publish_client x b i; ret tt) l count)
    (λ n w', n = count + zlen l ∧ Inv w' ∧ frame w w' ∧ w_topics w' = w_topics w ∧
       w_clients w' = w_clients w ∧ same_mbufs b (w_mbufs w) (w_mbufs w') ∧
       enqueued b (list_to_set l) (w_ctxs w) (w_ctxs w')) w.
Proof using C.
  revert count w. induction l as [|x l IH]; intros count w Hi Hb Hnd Hl; cbn [for_each_subscriber].
  { apply safe_ret. split_and!; [rewrite zlen_nil; lia|done|reflexivity|done|done| |].
    - by intros c m _ Hm.
    - intros x. by rewrite decide_False by (by apply not_elem_of_empty). }
  apply list.NoDup_cons in Hnd as [Hxl Hnd]. apply safe_bind, safe_gets.
  rewrite decide_True by (apply Hl; by left).
  assert (known w x) as Hk.
  { specialize (Hl x ltac:(by left)). destruct (w_topics w !! t) as [n|] eqn:Ht; simpl in Hl;
      [by eapply known_client|]. by apply elem_of_empty in Hl. }
  apply safe_bind, safe_bind. eapply safe_mono; [by apply publish_client_enqueues|].
  intros r w1 (Hi1&Hf1&Ht1&Hk1&Hm1&c&Hc&Hc1). apply safe_ret, safe_bind, safe_gets. rewrite Ht1.
  rewrite decide_True by (apply Hl; by left). eapply safe_mono.
  { apply IH; [done|by apply (f_mbufs _ _ Hf1)|done|]. intros y Hy. rewrite Ht1. apply Hl. by right. }
  intros n w2 (->&Hi2&Hf2&Ht2&Hk2&Hm2&Hq2).
  split_and!; [zlia|done|by etransitivity|congruence|congruence|by eapply same_mbufs_trans|].
  intros y. rewrite Hq2, Hc1. cbn [list_to_set]. destruct (decide (y = x)) as [->|Hne].
  - rewrite decide_False by (by rewrite elem_of_list_to_set).
    rewrite decide_True by (apply elem_of_union_l, elem_of_singleton; done).
    by rewrite lookup_insert_eq, Hc.
  - rewrite lookup_insert_ne by done. destruct (decide (y ∈ list_to_set l)) as [Hy|Hy].
    + by rewrite decide_True by (by apply elem_of_union_r).
    + rewrite decide_False; [done|]. intros [Hy'|Hy']%elem_of_union; [|done].
      by apply elem_of_singleton in Hy'.
Qed.

(** ** Retained messages *)

Definition with_retain_bit (l : list Z) : list Z :=
  match l with [] => [] | hd :: tl => Z.lor hd 1 :: tl end.

Lemma upd_data_contents m hd tl :
  wf_mbuf m → from_read_ptr m = hd :: tl → contents m ≠ [] →
  contents (upd_data <[Z.to_nat (m_read_pos m) := Z.lor hd 1]> m) = with_retain_bit (contents m).
Proof.
  intros Hwf Hfr Hne. unfold contents, mbuf_length, upd_data, from_read_ptr in *; simpl in *.
  rewrite drop_insert_ge by lia. rewrite Nat.sub_diag, Hfr. simpl.
  by destruct (Z.to_nat (u32 _)).
Qed.

(** The retained copy is a new buffer; nothing else changes but the calls made. *)
Lemma make_retain_spec b m w :
  Inv w → w_mbufs w !! b = Some m → contents m ≠ [] →
  safe (make_retain_msg b) (λ r w', r = w_next w ∧ w_objs w' = w_objs w ∧ w_ctxs w' = w_ctxs w ∧
    w_topics w' = w_topics w ∧ w_clients w' = w_clients w ∧ w_out w' = w_out w ∧
    w_errno w' = w_errno w ∧
    ∃ rm, w_mbufs w' = <[r := rm]> (w_mbufs w) ∧ contents rm = with_retain_bit (contents m)) w.
Proof.
  intros Hi Hb Hne. pose proof (Inv_mbuf w b m Hi Hb) as Hwf.
  pose proof (mbuf_length_wf m Hwf) as Hlen. pose proof (zlen_contents m Hwf) as Hzl.
  pose proof Hwf as (Hw1&Hw2&Hw3).
  unfold make_retain_msg. apply safe_bind. eapply safe_get_mbuf; [done|].
  unfold new_mbuf, std_time. apply safe_bind, safe_bind, safe_sys, safe_bind, safe_sys, safe_bind, safe_fresh_id.
  apply safe_bind, safe_modify, safe_ret. set (m1 := mbuf_init _ _).
  assert (max_size m1 = mbuf_length m) as Hm1.
  { unfold m1, max_size, mbuf_init; simpl. unfold zlen. rewrite length_map, length_seq. lia. }
  fold (contents m). rewrite send_data by done. cbn [negb].
  change (w_next (upd_calls S _)) with (w_next w). set (r := w_next w).
  apply safe_bind, safe_ret, safe_bind. unfold mbuf_copy_to.
  apply safe_bind. eapply safe_get_mbuf; [apply lookup_insert_eq|].
  assert (wf_mbuf m1) as Hwf1 by (apply wf_mbuf_init; unfold m1, max_size, mbuf_init in Hm1; simpl in Hm1; lia).
  destruct (mbuf_copy_contents (contents m) m1 Hwf1) as (m2&->&Hwf2&Hc2&_&Hr2&_).
  { rewrite Hm1, Hzl. change (m_write_pos m1) with 0. lia. }
  change (contents m1) with (@nil Z) in Hc2. change (m_read_pos m1) with 0 in Hr2. simpl in Hc2.
  apply safe_bind, safe_modify, safe_ret.
  apply safe_bind. eapply safe_upd_mbuf; [apply lookup_insert_eq|].
  apply safe_bind. eapply safe_get_mbuf; [apply lookup_insert_eq|].
  set (m3 := set_msg_id (m_msg_id m) m2). change (from_read_ptr m3) with (from_read_ptr m2).
  destruct (from_read_ptr m2) as [|hd tl] eqn:Hfr.
  { unfold contents in Hc2 at 1. rewrite Hfr, take_nil in Hc2. by rewrite <- Hc2 in Hne. }
  apply safe_bind. eapply safe_upd_mbuf; [apply lookup_insert_eq|]. apply safe_ret.
  split_and!; try done. eexists. split; [cbn; by rewrite !insert_insert_eq|].
  assert (contents m3 = contents m) as Hc3 by exact Hc2.
  rewrite <- Hc3. apply (upd_data_contents m3 hd tl); [exact Hwf2|exact Hfr|by rewrite Hc3].
Qed.

(** The node of a topic after a publication of the bytes [l], in the state [w']. *)
Definition retained (b : Z) (msg : CMqttPublish) (l : list Z) (n n' : CTopicNode) w' : Prop :=
  m_subcriber_clients n' = m_subcriber_clients n ∧
  if retain_flag (m_fixed_header (pub_base msg)) then
    if 0 <? zlen (pub_payload msg) then
      ∃ r rm, m_retian_msg_buf n' = Some r ∧ r ≠ b ∧ w_mbufs w' !! r = Some rm ∧
        contents rm = with_retain_bit l
    else m_retian_msg_buf n' = None
  else m_retian_msg_buf n' = m_retian_msg_buf n.

(** The update of the retained message. *)
Definition update_retained (t : str) (b : Z) (msg : CMqttPublish) : M unit :=
  when retain_flag (m_fixed_header (pub_base msg)) then_
    (do publish_retain_msg <- make_retain_msg b;
     do it <- find_topic t;
     match it with
     | None => crash NullDeref
     | Some node =>
         set_topic t (if 0 <? zlen (pub_payload msg)
                      then update_retain_msg publish_retain_msg node
                      else clean_retain_msg node)
     end).

Lemma update_retained_spec t b m n msg w :
  Inv w → w_mbufs w !! b = Some m → contents m ≠ [] → w_topics w !! t = Some n →
  safe (update_retained t b msg) (λ _ w', Inv w' ∧ frame w w' ∧ w_ctxs w' = w_ctxs w ∧
    w_clients w' = w_clients w ∧ w_out w' = w_out w ∧ w_errno w' = w_errno w ∧
    w_objs w' = w_objs w ∧ w_mbufs w' !! b = Some m ∧ same_mbufs b (w_mbufs w) (w_mbufs w') ∧
    ∃ n', w_topics w' = <[t := n']> (w_topics w) ∧ retained b msg (contents m) n n' w') w.
Proof.
  intros Hi Hb Hne Ht. unfold update_retained, retained.
  destruct (retain_flag _).
  2:{ apply safe_ret. split_and!; [done|reflexivity|done..|by intros c mc _|]. exists n.
      split_and!; [by rewrite insert_id|done..]. }
  assert (b < w_next w) as Hbn by (eapply i_fresh; [exact Hi|]; right; right; by eexists).
  apply safe_bind. eapply safe_mono.
  { apply safe_and; [by apply (make_retain_spec b m)|by apply (make_retain_keeps b m)]. }
  intros r w1 [(->&Ho1&Hc1&Ht1&Hk1&Hout1&He1&rm&Hm1&Hrm) (Hi1&Hf1&_&Hlive)].
  apply safe_bind, safe_gets. rewrite Ht1, Ht.
  set (n' := if 0 <? _ then _ else _).
  destruct (keeps_set_topic t n' w1 Hi1) as [Hi2 Hf2].
  { intros x Hx. left. eapply (known_client t n); [congruence|]. subst n'. by destruct (0 <? _). }
  { intros c. subst n'. destruct (0 <? _); simpl; [by intros [= <-]|done]. }
  unfold set_topic in *. apply safe_modify. cbn in Hi2, Hf2 |- *.
  split_and!; [done|by etransitivity|done..| | |].
  - rewrite Hm1, lookup_insert_ne by lia. done.
  - intros c mc _ Hc. rewrite Hm1, lookup_insert_ne; [done|].
    assert (c < w_next w); [|lia]. eapply i_fresh; [exact Hi|]. right; right. by eexists.
  - exists n'. split_and!; [by rewrite Ht1|subst n'; by destruct (0 <? _)|].
    subst n'. destruct (0 <? _); simpl; [|done]. exists (w_next w), rm.
    split_and!; [done|lia|by rewrite Hm1, lookup_insert_eq|done].
Qed.

(** [publish], on every path. *)
Lemma publish_spec t b m msg w :
  Inv w → w_mbufs w !! b = Some m → contents m ≠ [] →
  let n := default new_CTopicNode (w_topics w !! t) in
  safe (publish t b msg) (λ k w', k = zlen (elements (m_subcriber_clients n)) ∧ Inv w' ∧
    frame w w' ∧ same_mbufs b (w_mbufs w) (w_mbufs w') ∧ w_clients w' = w_clients w ∧
    enqueued b (m_subcriber_clients n) (w_ctxs w) (w_ctxs w') ∧
    ∃ n', w_topics w' = <[t := n']> (w_topics w) ∧ retained b msg (contents m) n n' w') w.
Proof using C.
  intros Hi Hb Hne n. unfold publish, find_topic. apply safe_bind, safe_gets.
  apply safe_bind. eapply safe_mono with (Q := λ _ w1, Inv w1 ∧ frame w w1 ∧
    w_ctxs w1 = w_ctxs w ∧ w_clients w1 = w_clients w ∧ w_mbufs w1 = w_mbufs w ∧
    w_topics w1 = <[t := n]> (w_topics w)).
  { subst n. destruct (w_topics w !! t) as [n|] eqn:Ht; simpl.
    - apply safe_ret.
      split_and!; [done|reflexivity|done..|by rewrite insert_id].
    - unfold set_topic. apply safe_modify.
      destruct (keeps_set_topic t new_CTopicNode w Hi) as [Hi1 Hf1];
        [by intros x Hx; apply elem_of_empty in Hx|done|]. by split_and!. }
  intros a w1 (Hi1&Hf1&Hc1&Hk1&Hm1&Ht1). apply safe_bind.
  fold (update_retained t b msg). eapply safe_mono.
  { apply (update_retained_spec t b m n); [done|by rewrite Hm1|done|].
    rewrite Ht1. apply lookup_insert_eq. }
  intros a' w2 (Hi2&Hf2&Hc2&Hk2&_&_&_&Hm2&Hs2&n'&Ht2&Hr). rewrite Hm1 in Hs2. rewrite Ht1, insert_insert_eq in Ht2.
  assert (∀ w', w_mbufs w2 = w_mbufs w' ∨ same_mbufs b (w_mbufs w2) (w_mbufs w') →
    retained b msg (contents m) n n' w') as Hret.
  { intros w' Hm. destruct Hr as [Hr1 Hr2]. split; [done|].
    destruct (retain_flag _); [|done]. destruct (0 <? _); [|done].
    destruct Hr2 as (r&rm&Hnr&Hrb&Hrm&Hrc). exists r, rm. split_and!; try done.
    destruct Hm as [<-|Hm]; [done|by apply Hm]. }
  destruct (w_topics w !! t) as [n0|] eqn:Ht; simpl in n; subst n.
  2:{ rewrite bool_decide_true by done. apply safe_ret.
      split_and!; [done|done|by etransitivity|done|congruence| |].
      - intros x. rewrite decide_False by apply not_elem_of_empty. congruence.
      - exists n'. split; [done|]. apply Hret. by left. }
  rewrite bool_decide_false by done.
  apply safe_bind. eapply safe_get_mbuf; [done|]. unfold std_time.
  apply safe_bind, safe_modify, safe_bind, safe_sys, safe_bind, safe_modify.
  apply safe_bind, safe_gets, safe_bind, safe_sys.
  cbn [w_topics upd_calls upd_stats]. rewrite Ht2, lookup_insert_eq. cbn [fmap option_fmap option_map default].
  rewrite (proj1 Hr). set (order := env_order _ _).
  assert (order ≡ₚ elements (m_subcriber_clients n0)) as Hord by apply env_order_ok.
  apply safe_bind. eapply safe_mono.
  { apply for_each_enqueues; [exact Hi2|by eexists|rewrite Hord; apply NoDup_elements|].
    intros x Hx. cbn [w_topics upd_calls upd_stats]. rewrite Ht2, lookup_insert_eq. cbn.
    rewrite (proj1 Hr). apply elem_of_elements. by rewrite <- Hord. }
  intros k w3 (->&Hi3&Hf3&Ht3&Hk3&Hm3&Hq3). apply safe_bind, safe_sys.
  apply safe_bind, safe_modify, safe_ret. cbn in Ht3, Hk3, Hm3, Hq3. split_and!; [|exact Hi3|..].
  - unfold zlen. by rewrite Hord.
  - etransitivity; [exact Hf1|]. etransitivity; [exact Hf2|]. destruct Hf3. by split.
  - by eapply same_mbufs_trans.
  - cbn. congruence.
  - intros x. cbn. rewrite Hq3, Hc2, Hc1.
    assert (x ∈ list_to_set (C := gset Z) order ↔ x ∈ m_subcriber_clients n0) as Heq.
    { by rewrite elem_of_list_to_set, Hord, elem_of_elements. }
    by destruct (decide (x ∈ list_to_set order)), (decide (x ∈ m_subcriber_clients n0)); naive_solver.
  - exists n'. split; [cbn; congruence|]. apply Hret. by right.
Qed.

(** ** Prompt delivery

    When no message waits anywhere and the sockets accept all that is written, a
    message is on the wire when [put] returns. *)

Definition accepts_all : Prop := ∀ n fd l, env_write n fd l = IoOk (zlen l).

Definition prompt w : Prop :=
  would_block (w_errno w) = false ∧
  ∀ p o, w_objs w !! p = Some o → m_send_msg_queue (o_handler o) = [].

(** What reaches the client of the context [x]: the bytes [l] on the descriptor of
    its connection, if it has one. *)
Definition delivery w (l : list Z) (x : Z) : option output :=
  c ← w_ctxs w !! x;
  p ← mqtt_connection c;
  o ← w_objs w !! p;
  Some (Sent (m_sock_handle (o_handler o)) l).

(** [w'] has the same descriptors and connections as [w]. *)
Definition same_routes w w' : Prop :=
  (∀ p, (m_sock_handle ∘ o_handler) <$> w_objs w' !! p = (m_sock_handle ∘ o_handler) <$> w_objs w !! p) ∧
  (∀ x, mqtt_connection <$> w_ctxs w' !! x = mqtt_connection <$> w_ctxs w !! x).

Lemma same_routes_delivery w w' l x : same_routes w w' → delivery w' l x = delivery w l x.
Proof.
  intros [Ho Hc]. unfold delivery. specialize (Hc x).
  destruct (w_ctxs w' !! x) as [c'|], (w_ctxs w !! x) as [c|]; simplify_eq/=; try done.
  rewrite Hc. destruct (mqtt_connection c) as [p|]; simpl; [|done]. specialize (Ho p).
  destruct (w_objs w' !! p), (w_objs w !! p); simplify_eq/=; try done.
  unfold compose in *. congruence.
Qed.

Lemma same_routes_trans w1 w2 w3 : same_routes w1 w2 → same_routes w2 w3 → same_routes w1 w3.
Proof. intros [A B] [A' B']. split; intros; by rewrite ?A', ?B'. Qed.

Lemma put_prompt p b o m w :
  accepts_all → prompt w → w_objs w !! p = Some o → w_mbufs w !! b = Some m → wf_mbuf m →
  contents m ≠ [] →
  safe (put p b) (λ r w', r = zlen (contents m) ∧ prompt w' ∧ same_routes w w' ∧
    w_mbufs w' = w_mbufs w ∧
    w_out w' = w_out w ++ [Sent (m_sock_handle (o_handler o)) (contents m)]) w.
Proof.
  intros Hall [He Hq] Hp Hm Hwf Hne.
  pose proof (mbuf_length_wf m Hwf) as Hlen. pose proof (zlen_contents m Hwf) as Hzl.
  assert (0 < zlen (contents m)) as Hpos by (destruct (contents m); [done|zlia]).
  unfold put. apply safe_bind. eapply safe_get_handler; [done|]. rewrite (Hq p o Hp).
  unfold nonblk_send, send. apply safe_bind, safe_bind. eapply safe_get_mbuf; [done|].
  fold (contents m). rewrite send_data by done. cbn [negb].
  apply safe_bind. eapply safe_get_handler; [done|].
  unfold sys_write. apply safe_bind, safe_bind, safe_sys. rewrite Hall.
  apply safe_bind, safe_modify, safe_ret, safe_bind, safe_gets.
  destruct (Z.leb_spec (zlen (contents m)) 0); [lia|].
  apply safe_bind. eapply safe_upd_handler; [exact Hp|].
  apply safe_bind. eapply safe_upd_handler; [apply lookup_insert_eq|].
  destruct (Z.ltb_spec (zlen (contents m)) (mbuf_length m)); [lia|].
  destruct (Z.eqb_spec (zlen (contents m)) (mbuf_length m)); [|lia].
  apply safe_bind, safe_modify, safe_ret. destruct (Z.eqb_spec (zlen (contents m)) (-1)); [lia|].
  cbn [w_errno upd_out upd_calls]. rewrite He. apply safe_ret.
  split_and!; [done| | |done|].
  - split; [done|]. intros q o'. cbn. rewrite insert_insert_eq. destruct (decide (q = p)) as [->|].
    + rewrite lookup_insert_eq. intros [= <-]. cbn. by apply (Hq p o).
    + rewrite lookup_insert_ne by done. apply Hq.
  - split; [|done]. intros q. cbn. rewrite insert_insert_eq. destruct (decide (q = p)) as [->|].
    + by rewrite lookup_insert_eq, Hp.
    + by rewrite lookup_insert_ne.
  - cbn. unfold zlen. by rewrite Nat2Z.id, take_ge.
Qed.

Lemma publish_client_prompt x b m i w :
  accepts_all → prompt w → Inv w → known w x → w_mbufs w !! b = Some m → contents m ≠ [] →
  safe (publish_client x b i) (λ _ w', prompt w' ∧ same_routes w w' ∧ w_mbufs w' !! b = Some m ∧
    w_out w' = w_out w ++ option_list (delivery w (contents m) x)) w.
Proof using C.
  intros Hall Hpr Hi Hx Hb Hne. destruct (known_ctx x w Hi Hx) as [c Hc]. unfold publish_client.
  apply safe_bind. eapply safe_upd_ctx; [done|]. set (w1 := upd_ctxs _ w).
  assert (same_routes w w1) as Hr1.
  { split; [done|]. intros y. cbn. destruct (decide (y = x)) as [->|].
    - by rewrite lookup_insert_eq, Hc.
    - by rewrite lookup_insert_ne. }
  apply safe_bind. eapply safe_get_ctx; [apply lookup_insert_eq|].
  cbn [mqtt_connection add_send_msg upd_send_msg_queue]. unfold delivery. rewrite Hc. cbn [mbind option_bind].
  apply safe_bind. eapply safe_mono with (Q := λ _ w', prompt w' ∧ same_routes w1 w' ∧
    w_mbufs w' !! b = Some m ∧ w_out w' = w_out w ++ option_list
      (p ← mqtt_connection c; o ← w_objs w !! p; Some (Sent (m_sock_handle (o_handler o)) (contents m)))).
  - destruct (mqtt_connection c) as [p|] eqn:Hp.
    2:{ apply safe_ret. split_and!; [exact Hpr|done|exact Hb|by rewrite app_nil_r]. }
    destruct (known_obj x c p w Hi Hx Hc Hp) as [o Ho].
    apply safe_bind. eapply safe_mono.
    { apply (put_prompt p b o m); [done|exact Hpr|exact Ho|exact Hb|exact (Inv_mbuf w b m Hi Hb)|done]. }
    intros r w2 (_&?&?&Hm2&Hout). apply safe_ret. split_and!; [done..|by rewrite Hm2|].
    cbn [mbind option_bind]. rewrite Ho. exact Hout.
  - intros [on off] w2 (Hp2&Hr2&Hm2&Hout). apply safe_bind, safe_modify, safe_ret.
    split_and!; [exact Hp2| |done|done]. by eapply same_routes_trans.
Qed.

Lemma for_each_prompt t b m i l count w :
  accepts_all → prompt w → Inv w → w_mbufs w !! b = Some m → contents m ≠ [] →
  (∀ x, x ∈ l → x ∈ default ∅ (m_subcriber_clients <$> w_topics w !! t)) →
  safe (for_each_subscriber t (λ x, do _ <- publish_client x b i; ret tt) l count)
    (λ _ w', w_out w' = w_out w ++ omap (delivery w (contents m)) l) w.
Proof using C.
  revert count w. induction l as [|x l IH]; intros count w Hall Hpr Hi Hb Hne Hl;
    cbn [for_each_subscriber].
  { apply safe_ret. by rewrite app_nil_r. }
  apply safe_bind, safe_gets. rewrite decide_True by (apply Hl; by left).
  assert (known w x) as Hk.
  { specialize (Hl x ltac:(by left)). destruct (w_topics w !! t) as [n|] eqn:Ht; simpl in Hl;
      [by eapply known_client|]. by apply elem_of_empty in Hl. }
  apply safe_bind, safe_bind. eapply safe_mono.
  { apply safe_and; [apply publish_client_enqueues; [done|done|by eexists]|].
    by apply (publish_client_prompt x b m). }
  intros r w1 [(Hi1&Hf1&Ht1&_) (Hp1&Hr1&Hm1&Hout1)]. apply safe_ret, safe_bind, safe_gets. rewrite Ht1.
  rewrite decide_True by (apply Hl; by left). eapply safe_mono.
  { apply IH; try done. intros y Hy. rewrite Ht1. apply Hl. by right. }
  intros n w2 Hout2. rewrite Hout2, Hout1, <- app_assoc. f_equal.
  assert (omap (delivery w1 (contents m)) l = omap (delivery w (contents m)) l) as ->.
  { clear -Hr1. induction l as [|y l IHl]; [done|]. cbn.
    by rewrite (same_routes_delivery w w1), IHl. }
  cbn. by destruct (delivery w (contents m) x).
Qed.

Lemma publish_prompt t b m msg w :
  accepts_all → prompt w → Inv w → w_mbufs w !! b = Some m → contents m ≠ [] →
  safe (publish t b msg) (λ _ w', ∃ order,
    order ≡ₚ elements (default ∅ (m_subcriber_clients <$> w_topics w !! t)) ∧
    w_out w' = w_out w ++ omap (delivery w (contents m)) order) w.
Proof using C.
  intros Hall Hpr Hi Hb Hne. unfold publish, find_topic. apply safe_bind, safe_gets.
  destruct (w_topics w !! t) as [n|] eqn:Ht.
  2:{ rewrite bool_decide_true by done. apply safe_bind. unfold set_topic at 1. apply safe_modify.
      destruct (keeps_set_topic t new_CTopicNode w Hi) as [Hi1 Hf1];
        [by intros x Hx; apply elem_of_empty in Hx|done|].
      apply safe_bind. fold (update_retained t b msg). eapply safe_mono.
      { apply (update_retained_spec t b m new_CTopicNode); [exact Hi1|done|done|].
        apply lookup_insert_eq. }
      intros a w2 (_&_&_&_&Hout&_). apply safe_ret. exists [].
      cbn. rewrite elements_empty. split; [done|]. rewrite app_nil_r. exact Hout. }
  rewrite bool_decide_false by done. apply safe_bind, safe_ret, safe_bind.
  fold (update_retained t b msg). eapply safe_mono.
  { by apply (update_retained_spec t b m n). }
  intros a w2 (Hi2&Hf2&Hc2&Hk2&Hout2&He2&Ho2&Hm2&_&n'&Ht2&Hr).
  apply safe_bind. eapply safe_get_mbuf; [done|]. unfold std_time.
  apply safe_bind, safe_modify, safe_bind, safe_sys, safe_bind, safe_modify.
  apply safe_bind, safe_gets, safe_bind, safe_sys.
  cbn [w_topics upd_calls upd_stats]. rewrite Ht2, lookup_insert_eq. cbn [fmap option_fmap option_map default].
  rewrite (proj1 Hr). set (order := env_order _ _).
  assert (order ≡ₚ elements (m_subcriber_clients n)) as Hord by apply env_order_ok.
  apply safe_bind. eapply safe_mono.
  { apply (for_each_prompt t b m); [done| |exact Hi2|exact Hm2|done|].
    - destruct Hpr as [He Hq]. split; [cbn; congruence|]. intros p o. cbn. rewrite Ho2. apply Hq.
    - intros x Hx. cbn [w_topics upd_calls upd_stats]. rewrite Ht2, lookup_insert_eq. cbn.
      rewrite (proj1 Hr). apply elem_of_elements. by rewrite <- Hord. }
  intros k w3 Hout3. apply safe_bind, safe_sys. apply safe_bind, safe_modify, safe_ret.
  exists order. split; [done|]. cbn. rewrite Hout3. cbn. rewrite Hout2. f_equal.
  clear -Ho2 Hc2. induction order as [|y l IHl]; [done|]. cbn. rewrite IHl.
  rewrite (same_routes_delivery w); [done|]. split; intros; cbn; congruence.
Qed.

(** ** Redelivery *)

(** [send_offline] sends the whole queue of the session, in its order. *)
Lemma send_offline_prompt p o l res w :
  accepts_all → prompt w → w_objs w !! p = Some o →
  (∀ b, b ∈ l → ∃ m, w_mbufs w !! b = Some m ∧ wf_mbuf m ∧ contents m ≠ []) →
  safe (send_offline p l res) (λ _ w', prompt w' ∧ same_routes w w' ∧ w_mbufs w' = w_mbufs w ∧
    w_out w' = w_out w ++ map (λ b, Sent (m_sock_handle (o_handler o)) (queued w [b])) l) w.
Proof.
  revert res o w. induction l as [|b l IH]; intros res o w Hall Hpr Hp Hl; cbn [send_offline].
  { apply safe_ret. split_and!; [done|done|done|by rewrite app_nil_r]. }
  destruct (Hl b) as (m&Hm&Hwf&Hne); [by left|].
  apply safe_bind. eapply safe_mono; [by apply (put_prompt p b o m)|].
  intros r w1 (->&Hp1&Hr1&Hm1&Hout1).
  destruct (Z.eqb_spec (zlen (contents m)) (-1)); [pose proof (zlen_nonneg (contents m)); lia|].
  pose proof (proj1 Hr1 p) as Hh. rewrite Hp in Hh.
  destruct (w_objs w1 !! p) as [o1|] eqn:Hp1'; [|done]. injection Hh as Hh.
  eapply safe_mono; [apply (IH _ o1); [done|done|done|]|].
  { intros c Hc. rewrite Hm1. apply Hl. by right. }
  intros r w2 (Hp2&Hr2&Hm2&Hout2). split_and!; [done|by eapply same_routes_trans|congruence|].
  rewrite Hout2, Hout1, <- app_assoc. cbn [map app]. f_equal.
  rewrite (queued_one w b m) by done. unfold compose in Hh. rewrite Hh. f_equal.
  apply map_ext. intros c. unfold queued. by rewrite Hm1.
Qed.

(** ** Subscription *)

Lemma add_client_context_spec t x p w :
  Inv w → attached (w_objs w) p x →
  let n := default new_CTopicNode (w_topics w !! t) in
  safe (add_client_context t x) (λ _ w', Inv w' ∧ w_topics w' = <[t := (add_client x n).2]> (w_topics w) ∧
    w_clients w' = w_clients w ∧
    w_ctxs w' = match m_retian_msg_buf n with
                | Some b => alter (add_send_msg b) x (w_ctxs w)
                | None => w_ctxs w
                end) w.
Proof using C.
  intros Hi Ha n. eapply safe_mono.
  { apply safe_and; [by apply (keeps_add_client_context t x p)|]. 
    unfold add_client_context, find_topic. apply safe_bind, safe_gets. subst n.
    instantiate (1 := λ _ w', w_topics w' = <[t := (add_client x (default new_CTopicNode (w_topics w !! t))).2]> (w_topics w) ∧
      w_clients w' = w_clients w ∧ w_ctxs w' = match m_retian_msg_buf (default new_CTopicNode (w_topics w !! t)) with
                | Some b => alter (add_send_msg b) x (w_ctxs w)
                | None => w_ctxs w
                end).
    destruct (w_topics w !! t) as [n|] eqn:Ht; cbn [default from_option id].
    2:{ apply safe_bind. unfold set_topic. by apply safe_modify, safe_ret. }
    destruct (attached_ctx _ _ _ Hi Ha) as (c&Hc&Hp).
    apply safe_bind. unfold set_topic. apply safe_modify. set (w1 := upd_topics _ w).
    assert (Inv w1) as Hi1.
    { destruct (keeps_set_topic t (add_client x n).2 w Hi) as [Hi1 _]; [| |exact Hi1].
      - intros y Hy. apply elem_of_add_client in Hy as [->|Hy]; [by eauto|].
        left. by eapply known_client.
      - intros b. rewrite retain_add_client. by eapply i_retain. }
    apply safe_bind. eapply safe_get_ctx; [exact Hc|]. rewrite Hp.
    destruct (m_retian_msg_buf n) as [b|] eqn:Hb; [|by apply safe_ret].
    assert (live (w_mbufs w) b) as Hl by (by eapply (i_retain _ _ _ _ _ _ _ _ _ _ Hi)).
    apply safe_bind. eapply safe_upd_ctx; [exact Hc|]. set (w2 := upd_ctxs _ w1).
    assert (Inv w2) as Hi2.
    { eapply inv_ctx; [exact Hi1|exact Hc|done|]. simpl. intros a [Ha'|Ha']%elem_of_app.
      - by eapply (live_ctx_queue x c w).
      - by apply list_elem_of_singleton in Ha' as ->. }
    eapply safe_mono; [apply put_delivers; [exact Hi2|by eapply attached_obj|exact Hl]|].
    intros r w3 (_&[_ Hc3 Ht3 Hk3 _]). rewrite Hc3, Ht3, Hk3. split_and!; try done. cbn.
    apply map_eq. intros y. destruct (decide (y = x)) as [->|].
    - by rewrite lookup_insert_eq, lookup_alter_eq, Hc.
    - by rewrite lookup_insert_ne, lookup_alter_ne. }
  intros r w' [[Hi' _] (?&?&?)]. by split_and!.
Qed.

End publish.

(** ** Properties *)


Definition w_pub : World := after (run_all published).

(** The decoded PUBLISH of a buffer. *)
Definition publish_of (m : CMbuf) : CMqttPublish :=
  match run_decode CMqttPublish_decode (from_read_ptr m) (mbuf_length m) with
  | Ok p => p
  | _ => mkPublish (mkMsg (header_of_type PUBLISH) 0 0) [] [] 0 0
  end.


(** Claim C24: a publication is on the wire at once when nothing waits.  If no queue of
    a handler holds a message and the sockets accept what is written, [publish] sends
    the bytes of the message once to the descriptor of each subscriber that has a
    connection, in some order, and nothing else to anybody. *)
Theorem publish_sends_once {E : Env} {C : Calm} t b m msg w :
  accepts_all → prompt w → Inv w → w_mbufs w !! b = Some m → contents m ≠ [] →
  ∃ k w' order, publish t b msg w = (Ok k, w') ∧
    order ≡ₚ elements (default ∅ (m_subcriber_clients <$> w_topics w !! t)) ∧
    w_out w' = w_out w ++ omap (delivery w (contents m)) order.
Proof.
  intros Hall Hp Hi Hb Hne.
  destruct (safe_inv _ _ _ (publish_prompt t b m msg w Hall Hp Hi Hb Hne)) as (k&w'&?&order&?&?).
  by exists k, w', order.
Qed.

(** [prompt], as a boolean. *)
Definition prompt_b (w : World) : bool :=
  negb (would_block (w_errno w)) &&
  forallb (λ '(_, o), match m_send_msg_queue (o_handler o) with [] => true | _ => false end)
    (map_to_list (w_objs w)).

Lemma prompt_b_spec w : prompt_b w = true → prompt w.
Proof.
  unfold prompt_b. rewrite andb_true_iff, negb_true_iff, forallb_forall. intros [He Hq].
  split; [done|]. intros p o Ho. specialize (Hq (p, o)). simpl in Hq.
  destruct (m_send_msg_queue (o_handler o)); [done|]. exfalso. discriminate Hq.
  by apply list_elem_of_In, elem_of_map_to_list.
Qed.

Lemma publish_sends_once_witness :
  ∃ k w' order, @publish sample_env (@mqtt_virtual sample_env) (of_string "t") 11
      (publish_of (mbuf_of 11 w_pub)) w_pub = (Ok k, w') ∧
    order ≡ₚ elements (default ∅ (m_subcriber_clients <$> w_topics w_pub !! of_string "t")) ∧
    w_out w' = w_out w_pub ++ omap (delivery w_pub (contents (mbuf_of 11 w_pub))) order.
Proof.
  apply (@publish_sends_once sample_env (quiet_calm [] 0)).
  - intros n fd l. reflexivity.
  - apply prompt_b_spec. vm_compute. reflexivity.
  - apply reachable_inv, published_reachable.
  - vm_compute. reflexivity.
  - vm_compute. discriminate.
Defined.





(** Claim C27: PUBACK removes the message it names, and only in order.  When the
    identifier is that of the first message of the queue, that message leaves the
    queue, its time and number are remembered and its statistics count one
    acknowledgement; otherwise nothing changes. *)
Theorem puback_removes_head x c msg_id w :
  w_ctxs w !! x = Some c → (∀ b, b ∈ send_msg_queue c → live (w_mbufs w) b) →
  ∃ w', ack_msg x msg_id w = (Ok 0, w') ∧ w_objs w' = w_objs w ∧ w_mbufs w' = w_mbufs w ∧
  match send_msg_queue c with
  | [] => w' = w
  | b :: q => ∃ m, w_mbufs w !! b = Some m ∧
      if Z.land (u16 (m_msg_id m)) 0xFFFF =? msg_id then
        (∃ c', w_ctxs w' = <[x := c']> (w_ctxs w) ∧ send_msg_queue c' = q ∧
           mqtt_connection c' = mqtt_connection c ∧ subcribe_topics c' = subcribe_topics c ∧
           last_pub_time c' = m_time m ∧ last_pub_msg_id c' = m_msg_id m) ∧
        ack_client (stat_at (stat_idx (m_msg_id m)) (w_stats w')) =
          u32 (ack_client (stat_at (stat_idx (m_msg_id m)) (w_stats w)) + 1)
      else w' = w
  end.
Proof.
  intros Hx Hl. unfold ack_msg. erewrite bind_Ok by (unfold get_ctx; by rewrite Hx).
  destruct (send_msg_queue c) as [|b q] eqn:Hq; [by exists w|].
  destruct (Hl b) as [m Hm]; [by left|].
  erewrite bind_Ok by (unfold get_mbuf; by rewrite Hm).
  destruct (_ =? msg_id) eqn:Hid.
  - unfold upd_ctx, get_ctx, bind, modify. rewrite Hx. cbn [w_ctxs upd_ctxs].
    rewrite !lookup_insert_eq. cbn [w_ctxs upd_ctxs]. rewrite !lookup_insert_eq.
    eexists. split_and!; [reflexivity|done|done|]. exists m. split; [done|]. rewrite Hid. split.
    + eexists. cbn. rewrite !insert_insert_eq. split_and!; [reflexivity|..|done|done]; cbn; try done.
      by rewrite Hq.
    + cbn [w_stats upd_stats]. rewrite stat_at_with, decide_True by done.
      rewrite stat_at_msg_stat, decide_True by done. reflexivity.
  - exists w. split_and!; [done..|]. exists m. split; [done|]. by rewrite Hid.
Qed.

Lemma puback_removes_head_witness :
  ∃ w', ack_msg ctx_a 1 w_pub = (Ok 0, w') ∧ w_objs w' = w_objs w_pub ∧
    w_mbufs w' = w_mbufs w_pub ∧
  match send_msg_queue (ctx_of ctx_a w_pub) with
  | [] => w' = w_pub
  | b :: q => ∃ m, w_mbufs w_pub !! b = Some m ∧
      if Z.land (u16 (m_msg_id m)) 0xFFFF =? 1 then
        (∃ c', w_ctxs w' = <[ctx_a := c']> (w_ctxs w_pub) ∧ send_msg_queue c' = q ∧
           mqtt_connection c' = mqtt_connection (ctx_of ctx_a w_pub) ∧
           subcribe_topics c' = subcribe_topics (ctx_of ctx_a w_pub) ∧
           last_pub_time c' = m_time m ∧ last_pub_msg_id c' = m_msg_id m) ∧
        ack_client (stat_at (stat_idx (m_msg_id m)) (w_stats w')) =
          u32 (ack_client (stat_at (stat_idx (m_msg_id m)) (w_stats w_pub)) + 1)
      else w' = w_pub
  end.
Proof.
  apply puback_removes_head; [vm_compute; reflexivity|].
  assert (send_msg_queue (ctx_of ctx_a w_pub) = [11]) as -> by (vm_compute; reflexivity).
  intros b Hb. apply list_elem_of_singleton in Hb as ->. eexists. vm_compute. reflexivity.
Defined.
