(* ===== verification/Notify.v ===== *)
(** * The messages of the other threads

    What [CPollerNotifyFd::handle_input] does with the messages that wait in the queue
    of notifications, in the two modes of the server: each goes to the subscribers of
    its topic, or to everybody.  It is the server's half of Bridge.v. *)

From S2P Require Import Prelude Pkt Msg Mbuf MemStore Context World Sample Handler Delivery.
From S2P Require Import SubMgr Connection Invariant Poller Scenarios Safety Sessions Server Publish.
From stdpp Require Import options.

(** ** Specification *)

Definition subscribers_of (w : World) (t : str) : gset Z :=
  default ∅ (m_subcriber_clients <$> w_topics w !! t).

Definition queue_more (bs : list Z) (c : CTMqttClientContext) : CTMqttClientContext :=
  upd_send_msg_queue (λ q, q ++ bs) c.

(** The buffer waits to be published, and [msg] is its message. *)
Definition waits (w : World) (b : Z) (msg : CMqttPublish) : Prop :=
  ∃ m, w_mbufs w !! b = Some m ∧ contents m ≠ [] ∧ m_msg_type m = MSG_PUBLISH ∧
    run_decode CMqttPublish_decode (from_read_ptr m) (mbuf_length m) = Ok msg.

(** The topics that a context subscribes to. *)
Definition topics_of (w : World) (x : Z) : list str :=
  filter (λ t, x ∈ subscribers_of w t) (elements (dom (w_topics w))).

(** How often the context [x] gets a message: once if it subscribes to its topic; in
    the other modes, once for every topic that it subscribes to. *)
Definition copies {E : Env} (w : World) (msg : CMqttPublish) (x : Z) : nat :=
  if env_mqtt_bridge <=? 0 then (if decide (x ∈ subscribers_of w (pub_topic_name msg)) then 1 else 0)
  else length (topics_of w x).

(** What the messages [l] append to the queue of [x]. *)
Definition appended {E : Env} (w : World) (l : list (Z * CMqttPublish)) (x : Z) : list Z :=
  concat (map (λ '(b, msg), replicate (copies w msg x) b) l).

(** [l] has been appended to the queues, and nothing else has changed for the sessions. *)
Record spread {E : Env} (l : list (Z * CMqttPublish)) (w w' : World) : Prop := {
  sp_queues : ∀ x, w_ctxs w' !! x = queue_more (appended w l x) <$> w_ctxs w !! x;
  sp_copies : ∀ msg x, copies w' msg x = copies w msg x;
  sp_clients : w_clients w' = w_clients w;
}.

Lemma queue_more_nil c : queue_more [] c = c.
Proof. destruct c. unfold queue_more, upd_send_msg_queue. cbn. by rewrite app_nil_r. Qed.

Lemma queue_more_app bs cs c : queue_more cs (queue_more bs c) = queue_more (bs ++ cs) c.
Proof. destruct c. unfold queue_more, upd_send_msg_queue. cbn. by rewrite app_assoc. Qed.

Section notify.
Context {E : Env}.
Implicit Types w : World.

Lemma spread_nil w : spread [] w w.
Proof.
  split; [|done..]. intros x. change (appended w [] x) with (@nil Z).
  destruct (w_ctxs w !! x); [|done]. cbn. by rewrite queue_more_nil.
Qed.

Lemma spread_app l1 l2 w1 w2 w3 : spread l1 w1 w2 → spread l2 w2 w3 → spread (l1 ++ l2) w1 w3.
Proof.
  intros [Q1 N1 C1] [Q2 N2 C2]. split; [|intros; by rewrite N2, N1|congruence]. intros x.
  assert (appended w2 l2 x = appended w1 l2 x) as Ha.
  { unfold appended. f_equal. apply map_ext. intros [b msg]. by rewrite N1. }
  rewrite Q2, Q1, Ha. unfold appended at 3. rewrite map_app, concat_app.
  destruct (w_ctxs w1 !! x); [|done]. cbn. by rewrite queue_more_app.
Qed.

Context {C : Calm}.

Lemma subscribers_insert t n n' w w' :
  w_topics w' = <[t := n']> (w_topics w) → n = default new_CTopicNode (w_topics w !! t) →
  m_subcriber_clients n' = m_subcriber_clients n →
  ∀ u, subscribers_of w' u = subscribers_of w u.
Proof.
  intros Ht -> Hn u. unfold subscribers_of. rewrite Ht. destruct (decide (u = t)) as [->|Hne].
  - rewrite lookup_insert_eq. cbn. rewrite Hn. by destruct (w_topics w !! t).
  - by rewrite lookup_insert_ne.
Qed.

(** ** One message *)

(** By topic. *)
Lemma publish_spreads b m msg w :
  env_mqtt_bridge <= 0 → Inv w → w_mbufs w !! b = Some m → contents m ≠ [] →
  safe (publish (pub_topic_name msg) b msg) (λ _ w', Inv w' ∧ frame w w' ∧
    same_mbufs b (w_mbufs w) (w_mbufs w') ∧ spread [(b, msg)] w w') w.
Proof using C.
  intros Hmode Hi Hb Hne. eapply safe_mono; [by apply (publish_spec _ b m)|].
  intros k w' (_&Hi'&Hf&Hs&Hk&Hq&n'&Ht&[Hn _]). split_and!; [done..|]. split; [|intros m1 x|done].
  - intros x. rewrite Hq. unfold appended, copies. cbn. rewrite (proj2 (Z.leb_le _ _) Hmode).
    unfold subscribers_of. destruct (w_topics w !! pub_topic_name msg) as [n|]; cbn;
      (case_decide; [|destruct (w_ctxs w !! x); [cbn; by rewrite queue_more_nil|done]]).
    + done.
    + done.
  - unfold copies. rewrite (proj2 (Z.leb_le _ _) Hmode). erewrite subscribers_insert; [done|exact Ht|done|exact Hn].
Qed.

(** To everybody: the loop over the topics [ts]. *)
Lemma all_topics_spread b i ts w :
  Inv w → live (w_mbufs w) b →
  safe (iter (λ topic,
        do X <- subscribers topic;
        do order <- sys (λ n, env_order n X);
        do _ <- for_each_subscriber topic (λ x, do _ <- publish_client x b i; ret tt) order 0;
        ret tt) ts)
    (λ _ w', Inv w' ∧ frame w w' ∧ same_mbufs b (w_mbufs w) (w_mbufs w') ∧
       w_topics w' = w_topics w ∧ w_clients w' = w_clients w ∧
       ∀ x, w_ctxs w' !! x =
         queue_more (replicate (length (filter (λ t, x ∈ subscribers_of w t) ts)) b) <$> w_ctxs w !! x) w.
Proof using C.
  revert w. induction ts as [|t ts IH]; intros w Hi Hb; cbn [iter].
  { apply safe_ret. split_and!; [done|reflexivity|by intros c m _|done..|]. intros x. cbn.
    destruct (w_ctxs w !! x); [|done]. cbn. by rewrite queue_more_nil. }
  apply safe_bind, safe_bind, safe_gets, safe_bind, safe_sys. fold (subscribers_of w t).
  set (order := env_order _ _). set (w0 := upd_calls S w).
  assert (order ≡ₚ elements (subscribers_of w t)) as Hord by apply env_order_ok.
  apply safe_bind. eapply safe_mono.
  { apply (for_each_enqueues t b i order 0 w0); [done|done|rewrite Hord; apply NoDup_elements|].
    intros x Hx. change (x ∈ subscribers_of w t). apply elem_of_elements. by rewrite <- Hord. }
  intros k w1 (_&Hi1&Hf1&Ht1&Hk1&Hm1&Hq1). apply safe_ret. eapply safe_mono.
  { apply IH; [done|by apply (f_mbufs _ _ Hf1)]. }
  intros [] w2 (Hi2&Hf2&Hm2&Ht2&Hk2&Hq2). change (w_topics w0) with (w_topics w) in Ht1.
  change (w_clients w0) with (w_clients w) in Hk1.
  split_and!; [done| |by eapply same_mbufs_trans|congruence|congruence|].
  { etransitivity; [|exact Hf2]. destruct Hf1. by split. }
  assert (∀ u, subscribers_of w1 u = subscribers_of w u) as Hsub
    by (intros u; unfold subscribers_of; by rewrite Ht1).
  intros x. rewrite Hq2, Hq1. rewrite filter_cons.
  rewrite (list_filter_iff _ (λ u, x ∈ subscribers_of w u)) by (intros u; by rewrite Hsub).
  assert (x ∈ list_to_set (C := gset Z) order ↔ x ∈ subscribers_of w t) as Heq.
  { by rewrite elem_of_list_to_set, Hord, elem_of_elements. }
  change (w_ctxs w0) with (w_ctxs w). destruct (decide (x ∈ subscribers_of w t)).
  - rewrite decide_True by naive_solver. destruct (w_ctxs w !! x); [|done]. cbn.
    change (add_send_msg b ?c) with (queue_more [b] c). by rewrite queue_more_app.
  - by rewrite decide_False by naive_solver.
Qed.

Lemma publish_all_spreads b m msg w :
  0 < env_mqtt_bridge → Inv w → w_mbufs w !! b = Some m →
  safe (publish_all b) (λ _ w', Inv w' ∧ frame w w' ∧
    same_mbufs b (w_mbufs w) (w_mbufs w') ∧ spread [(b, msg)] w w') w.
Proof using C.
  intros Hmode Hi Hb. unfold publish_all, std_time. apply safe_bind. eapply safe_get_mbuf; [done|].
  apply safe_bind, safe_modify, safe_bind, safe_sys, safe_bind, safe_modify.
  apply safe_bind, safe_gets, safe_bind, safe_sys. set (ts := env_topic_order _ _). set (w1 := upd_calls _ _).
  apply safe_bind. eapply safe_mono; [apply (all_topics_spread b _ ts w1); [exact Hi|by exists m]|].
  intros [] w2 (Hi2&Hf2&Hm2&Ht2&Hk2&Hq2). apply safe_bind, safe_sys, safe_bind, safe_modify, safe_ret.
  split_and!; [exact Hi2|destruct Hf2; by split|exact Hm2|]. split; [|intros m1 x|exact Hk2].
  - intros x. change (w_ctxs (upd_stats _ _)) with (w_ctxs w2). rewrite Hq2. f_equal.
    unfold appended, copies, topics_of. cbn [map concat]. rewrite (proj2 (Z.leb_gt _ _) Hmode), app_nil_r.
    f_equal. f_equal. unfold ts.
    by rewrite env_topic_order_ok.
  - unfold copies. rewrite (proj2 (Z.leb_gt _ _) Hmode). unfold topics_of, subscribers_of.
    change (w_topics (upd_stats _ _)) with (w_topics w2). by rewrite Ht2.
Qed.

(** ** The queue *)

Lemma one_message_spreads b m msg w :
  Inv w → w_mbufs w !! b = Some m → contents m ≠ [] →
  safe (if env_mqtt_bridge <=? 0 then publish (pub_topic_name msg) b msg else publish_all b)
    (λ _ w', Inv w' ∧ frame w w' ∧ same_mbufs b (w_mbufs w) (w_mbufs w') ∧ spread [(b, msg)] w w') w.
Proof using C.
  intros Hi Hb Hne. destruct (Z.leb_spec env_mqtt_bridge 0); [by eapply publish_spreads|].
  by eapply publish_all_spreads.
Qed.

Lemma waits_same b c msg w w' :
  same_mbufs b (w_mbufs w) (w_mbufs w') → c ≠ b → waits w c msg → waits w' c msg.
Proof. intros Hs Hne (m&Hm&Hw). exists m. split; [by apply Hs|done]. Qed.

Lemma notify_loop_spreads l fuel w :
  Inv w → m_notify_deque (w_poller w) = map fst l → NoDup (map fst l) →
  Forall (λ '(b, msg), waits w b msg) l → (length l < fuel)%nat →
  safe (notify_loop fuel) (λ r w', r = 0 ∧ Inv w' ∧
    notified w' = (m_notify_writer (w_poller w), []) ∧ spread l w w') w.
Proof using C.
  revert fuel w. induction l as [|[b msg] l IH]; intros [|fuel] w Hi Hq Hnd Hl Hf; try (cbn in Hf; lia);
    cbn [notify_loop]; unfold pop_front; apply safe_bind, safe_bind, safe_gets; rewrite Hq; cbn [map fst].
  { apply safe_ret, safe_ret. split_and!; [done|done|unfold notified; by rewrite Hq|apply spread_nil]. }
  apply safe_bind, safe_modify, safe_ret. set (w1 := upd_poller _ w).
  assert (w1 = upd_poller (upd_notify_deque (λ _, map fst l)) w) as Hw1.
  { unfold w1, upd_poller, upd_notify_deque. cbn. by rewrite Hq. }
  assert (Inv w1) as Hi1 by (rewrite Hw1; apply Inv_deque; [done|]; intros c Hc;
      apply (i_deque _ _ _ _ _ _ _ _ _ _ Hi); cbn; rewrite Hq; by right).
  apply list.Forall_cons in Hl as [(m&Hm&Hne&Hty&Hdec) Hl]. cbn in Hnd. apply list.NoDup_cons in Hnd as [Hbl Hnd].
  apply safe_bind. eapply safe_get_mbuf; [exact Hm|]. rewrite Hty, Z.eqb_refl, Hdec.
  unfold std_time. apply safe_bind. unfold decoded. apply safe_ret, safe_bind, safe_sys. set (w2 := upd_calls S w1).
  apply safe_bind. eapply safe_mono; [apply (one_message_spreads b m msg w2); [exact Hi1|exact Hm|done]|].
  intros r w3 (Hi3&Hf3&Hs3&[Hq3 Hn3 Hk3]). apply safe_bind, safe_sys. set (w4 := upd_calls S w3).
  assert (spread [(b, msg)] w w4) as Hsp by (split; [exact Hq3|exact Hn3|exact Hk3]).
  eapply safe_mono; [apply (IH fuel w4); [exact Hi3| |done| |cbn in Hf; lia]|].
  - pose proof (notified_deque _ _ (f_notified _ _ Hf3)) as Hd. change (w_poller w4) with (w_poller w3).
    rewrite Hd. change (w_poller w2) with (w_poller w1). by rewrite Hw1.
  - apply list.Forall_forall. intros [c msg'] Hc. rewrite list.Forall_forall in Hl. specialize (Hl _ Hc). cbn in Hl.
    eapply waits_same; [exact Hs3| |exact Hl]. intros ->. apply Hbl. apply list_elem_of_fmap. by exists (b, msg').
  - intros r' w5 (->&Hi5&Hd5&Hsp5). split_and!; [done|done| |by apply (spread_app [(b, msg)] l w w4)].
    rewrite Hd5. f_equal. exact (f_equal fst (f_notified _ _ Hf3)).
Qed.

Lemma notify_input_spreads p l w :
  Inv w → is_Some (w_objs w !! p) → m_notify_deque (w_poller w) = map fst l → NoDup (map fst l) →
  Forall (λ '(b, msg), waits w b msg) l →
  safe (notify_handle_input p) (λ r w', r = 0 ∧ Inv w' ∧
    notified w' = (m_notify_writer (w_poller w), []) ∧ spread l w w') w.
Proof using C.
  intros Hi [o Ho] Hq Hnd Hl. unfold notify_handle_input. apply safe_bind. eapply safe_get_handler; [exact Ho|].
  assert (∀ w1, w_ctxs w1 = w_ctxs w → w_topics w1 = w_topics w → w_clients w1 = w_clients w →
    w_mbufs w1 = w_mbufs w → w_poller w1 = w_poller w → Inv w1 →
    safe (do q <- gets (λ w, m_notify_deque (w_poller w)); notify_loop (S (length q)))
      (λ r w', r = 0 ∧ Inv w' ∧ notified w' = (m_notify_writer (w_poller w), []) ∧ spread l w w') w1) as Hloop.
  { intros w1 Hc Ht Hk Hm Hp Hi1. apply safe_bind, safe_gets. rewrite Hp, Hq.
    eapply safe_mono; [apply (notify_loop_spreads l)|].
    - done.
    - by rewrite Hp.
    - done.
    - eapply list.Forall_impl; [exact Hl|]. intros [b msg]. unfold waits. by rewrite Hm.
    - rewrite length_map. lia.
    - intros r w2 (->&Hi2&Hd2&[Hq2 Hn2 Hk2]). rewrite Hp in Hd2. split_and!; [done..|]. unfold appended, copies, topics_of, subscribers_of in *.
      rewrite Hc, Ht in *. split; [exact Hq2|exact Hn2|congruence]. }
  unfold sys_read. apply safe_bind, safe_bind, safe_sys.
  destruct (env_read _ _ _); [apply safe_ret|apply safe_bind, safe_modify, safe_ret]; by apply Hloop.
Qed.

End notify.

(** Claim C10: the messages of the other threads are published.  If the messages [l]
    wait, each in a buffer of its own, one call of [handle_input] of the notification
    descriptor empties the queue and succeeds; it appends to the queue of every session
    the messages of the topics it subscribes to, in the order in which they waited (if
    the server is in another mode, every message once for each topic of the session),
    and changes no subscription and no identifier. *)
Theorem notifications_published {E : Env} {C : Calm} p l w :
  Inv w → is_Some (w_objs w !! p) → m_notify_deque (w_poller w) = map fst l → NoDup (map fst l) →
  Forall (λ '(b, msg), waits w b msg) l →
  ∃ w', notify_handle_input p w = (Ok 0, w') ∧ Inv w' ∧ m_notify_deque (w_poller w') = [] ∧ spread l w w'.
Proof.
  intros Hi Hp Hq Hnd Hl.
  destruct (safe_inv _ _ _ (notify_input_spreads p l w Hi Hp Hq Hnd Hl)) as (r&w'&Hr&->&?&Hn&?).
  exists w'. split_and!; [done|done|exact (f_equal snd Hn)|done].
Qed.

Lemma Inv_set_mbuf b m w :
  Inv w → wf_mbuf m → b < w_next w →
  (∀ id, m_msg_db (w_store w) !! id = Some b → m_msg_id m = id ∧ m_mem_db m = true) →
  Inv (upd_mbufs <[b := m]> w).
Proof. intros Hi. by apply inv_mbuf. Qed.

(** A publication that waits, in a buffer that the message store does not know. *)
Definition w_waiting : World :=
  upd_poller (upd_notify_deque (λ _, [12]))
    (upd_mbufs <[12 := set_msg_type MSG_PUBLISH (mbuf_of 12 w_pub)]> w_pub).

Lemma notifications_published_witness :
  ∃ w', @notify_handle_input sample_env notify_fd w_waiting = (Ok 0, w') ∧ Inv w' ∧
    m_notify_deque (w_poller w') = [] ∧
    @spread sample_env [(12, publish_of (mbuf_of 12 w_pub))] w_waiting w'.
Proof.
  apply (@notifications_published sample_env (quiet_calm [] 0)).
  - apply Inv_deque.
    + apply Inv_set_mbuf; [apply reachable_inv, published_reachable|..].
      * unfold wf_mbuf. split_and!; vm_compute; first [discriminate|reflexivity].
      * vm_compute. reflexivity.
      * intros id. vm_compute. destruct id as [|[]|]; discriminate.
    + intros b ->%list_elem_of_singleton. eexists. apply lookup_insert_eq.
  - eexists. vm_compute. reflexivity.
  - reflexivity.
  - apply NoDup_singleton.
  - apply list.Forall_singleton. exists (set_msg_type MSG_PUBLISH (mbuf_of 12 w_pub)).
    split_and!; [apply lookup_insert_eq|vm_compute; discriminate|reflexivity|vm_compute; reflexivity].
Defined.
