(* ===== verification/Waiting.v ===== *)
(** * The messages that wait

    What the server's thread does between two notifications, seen from the messages
    that the other threads have put into the queue: nothing.  Nobody else refers to
    their buffers, each is a publication that can be decoded, and an event of a
    connection leaves them alone, by the frame property of Locality.v; the next
    notification publishes them all. *)

From S2P Require Import Prelude Pkt Msg Mbuf MemStore Context World Handler Delivery SubMgr.
From S2P Require Import Connection Invariant Poller Safety Sessions Server Publish Notify Locality.
From stdpp Require Import options.

(** ** The invariant *)

(** Over the parts of the state: most operations change none of them. *)
Section parts.
Context (objs : gmap Z object) (ctxs : gmap Z CTMqttClientContext) (topics : gmap str CTopicNode).

(** A connection, a session or a topic refers to the buffer. *)
Inductive references (b : Z) : Prop :=
  | in_connection p o : objs !! p = Some o → b ∈ m_send_msg_queue (o_handler o) → references b
  | in_session x c : ctxs !! x = Some c → b ∈ send_msg_queue c → references b
  | in_topic t n : topics !! t = Some n → m_retian_msg_buf n = Some b → references b.

Record intact (mbufs : gmap Z CMbuf) (q : list Z) : Prop := {
  wt_nodup : NoDup q;
  wt_intact : ∀ b, b ∈ q → ∃ msg m, mbufs !! b = Some m ∧ contents m ≠ [] ∧ m_msg_type m = MSG_PUBLISH ∧
    run_decode CMqttPublish_decode (from_read_ptr m) (mbuf_length m) = Ok msg;
  wt_free : ∀ b, b ∈ q → ¬ references b;
}.

End parts.

Definition referenced (w : World) (b : Z) : Prop := references (w_objs w) (w_ctxs w) (w_topics w) b.

Definition queue_of (w : World) : list Z := m_notify_deque (w_poller w).

(** Each message of the queue is there once, is a publication that can be decoded, and
    belongs to nobody else. *)
Definition waiting (w : World) : Prop := intact (w_objs w) (w_ctxs w) (w_topics w) (w_mbufs w) (queue_of w).

Lemma referenced_live w b : Inv w → referenced w b → live (w_mbufs w) b.
Proof.
  intros Hi [p o Ho Hb|x c Hc Hb|t n Ht Hb].
  - destruct (i_objs _ _ _ _ _ _ _ _ _ _ Hi p o Ho) as [Hq _]. by apply Hq.
  - by eapply (i_ctxs _ _ _ _ _ _ _ _ _ _ Hi).
  - by eapply (i_retain _ _ _ _ _ _ _ _ _ _ Hi).
Qed.

Lemma Inv_writer w : Inv w → ∀ p, m_notify_writer (w_poller w) = Some p → is_Some (w_objs w !! p).
Proof. intros Hi p Hp. destruct (i_writer _ _ _ _ _ _ _ _ _ _ Hi p Hp) as [h Ho]. by eexists. Qed.

Lemma waiting_nil w : queue_of w = [] → waiting w.
Proof.
  intros Hq. split; rewrite Hq; [apply NoDup_nil_2|by intros b Hb%elem_of_nil..].
Qed.

(** A buffer that is full with the packet [l] and unread. *)
Lemma full_buffer m l :
  wf_mbuf m → contents m = l → m_read_pos m = 0 → max_size m = zlen l →
  from_read_ptr m = l ∧ mbuf_length m = zlen l.
Proof.
  intros Hwf Hc Hr Hs. pose proof (zlen_contents m Hwf) as Hl. rewrite Hc in Hl. split; [|done].
  unfold contents in Hc. rewrite <- Hl in Hc. rewrite take_ge in Hc; [done|].
  unfold from_read_ptr, max_size in *. rewrite Hr, length_drop. change (Z.to_nat 0) with 0%nat. unfold zlen in *. lia.
Qed.

Lemma waits_full w b m l msg :
  Inv w → w_mbufs w !! b = Some m → contents m = l → m_read_pos m = 0 → max_size m = zlen l →
  m_msg_type m = MSG_PUBLISH → l ≠ [] → run_decode CMqttPublish_decode l (zlen l) = Ok msg → waits w b msg.
Proof.
  intros Hi Hb Hc Hr Hs Ht Hl Hd. destruct (full_buffer m l) as [Hf Hm]; [by eapply Inv_mbuf|done..|].
  exists m. split_and!; [done|by rewrite Hc|done|by rewrite Hf, Hm].
Qed.

(** The messages of the queue, in order. *)
Lemma waiting_list w : waiting w →
  ∃ l, map fst l = queue_of w ∧ NoDup (map fst l) ∧ Forall (λ '(b, msg), waits w b msg) l.
Proof.
  intros [Hnd Hm _]. enough (∃ l, map fst l = queue_of w ∧ Forall (λ '(b, msg), waits w b msg) l) as (l&Hl&Hw).
  { exists l. rewrite Hl. by split_and!. }
  clear Hnd. induction (queue_of w) as [|b q IH]; [by exists []|].
  destruct (Hm b) as [msg Hmsg]; [by left|]. destruct IH as (l&Hl&Hw); [intros c Hc; apply Hm; by right|].
  exists ((b, msg) :: l). split; [cbn; by rewrite Hl|by constructor].
Qed.

(** A new buffer, which no one refers to, and perhaps a new message at the end. *)
Lemma waiting_more b w w' :
  Inv w → waiting w → w_mbufs w !! b = None → (∃ m, w_mbufs w' = <[b := m]> (w_mbufs w)) →
  w_objs w' = w_objs w → w_ctxs w' = w_ctxs w → w_topics w' = w_topics w →
  queue_of w' = queue_of w ∨ queue_of w' = queue_of w ++ [b] ∧ (∃ msg, waits w' b msg) → waiting w'.
Proof.
  intros Hi [Hnd Hin Hfree] Hb [m Hm] Ho Hc Ht Hq.
  assert (∀ c, referenced w' c → referenced w c) as Href.
  { intros c [p o Hp Hcq|y d Hy Hcq|t n Hn Hcq]; rewrite ?Ho, ?Hc, ?Ht in *;
      [by eapply in_connection|by eapply in_session|by eapply in_topic]. }
  assert (∀ c, c ∈ queue_of w → (∃ msg, waits w' c msg) ∧ ¬ referenced w' c) as Hold.
  { intros c Hcq. split; [|by intros Hr%Href; eapply Hfree].
    destruct (Hin c Hcq) as (msg&m'&Hm'&Hw'). exists msg, m'. rewrite Hm, lookup_insert_ne; [done|]. intros ->. congruence. }
  destruct Hq as [Hq|[Hq Hmsg]]; split; rewrite ?Hq; [done|by intros c [? _]%Hold|by intros c [_ ?]%Hold|..].
  - apply list.NoDup_app. split_and!; [done| |apply NoDup_singleton].
    intros c Hcq ->%list_elem_of_singleton. destruct (Hin b Hcq) as (msg&m'&Hm'&_). congruence.
  - intros c [Hcq%Hold|Hcb]%elem_of_app; [by destruct Hcq|]. by apply list_elem_of_singleton in Hcb as ->.
  - intros c [Hcq%Hold|Hcb]%elem_of_app; [by destruct Hcq|].
    apply list_elem_of_singleton in Hcb as ->. intros Hr%Href. destruct (referenced_live w b Hi Hr). congruence.
Qed.

(** What another thread does to the server: it appends messages to the queue. *)
Record grew (w w' : World) : Prop := {
  gr_objs : w_objs w' = w_objs w;
  gr_ctxs : w_ctxs w' = w_ctxs w;
  gr_topics : w_topics w' = w_topics w;
  gr_clients : w_clients w' = w_clients w;
  gr_writer : m_notify_writer (w_poller w') = m_notify_writer (w_poller w);
  gr_queue : queue_of w `prefix_of` queue_of w';
  gr_mbufs : ∀ b, b ∈ queue_of w → w_mbufs w' !! b = w_mbufs w !! b;
}.

#[export] Instance grew_preorder : PreOrder grew.
Proof.
  split; [by intros w; split|]. intros w1 w2 w3 [] []. split; [congruence..|by etrans|].
  intros b Hb. rewrite gr_mbufs1, gr_mbufs0; [done..|]. by eapply elem_of_prefix.
Qed.

(** A new buffer does not disturb those that wait. *)
Lemma grew_more b w w' :
  Inv w → w_mbufs w !! b = None → (∃ m, w_mbufs w' = <[b := m]> (w_mbufs w)) →
  w_objs w' = w_objs w → w_ctxs w' = w_ctxs w → w_topics w' = w_topics w → w_clients w' = w_clients w →
  m_notify_writer (w_poller w') = m_notify_writer (w_poller w) →
  queue_of w' = queue_of w ∨ queue_of w' = queue_of w ++ [b] → grew w w'.
Proof.
  intros Hi Hb [m Hm] ????? Hq. split; try done.
  - destruct Hq as [->| ->]; [done|by eexists].
  - intros c Hc. rewrite Hm, lookup_insert_ne; [done|]. intros ->.
    destruct (i_deque _ _ _ _ _ _ _ _ _ _ Hi c Hc). congruence.
Qed.

(** ** The server without the messages *)

Definition without (w : World) : World :=
  upd_mbufs (filter (λ '(b, _), b ∉ queue_of w)) (upd_poller (upd_notify_deque (λ _, []))
    (upd_store (λ s, mkStore (m_last_msg_id s) ∅ 0) w)).

(** The messages, and the table of the message store. *)
Definition messages (w : World) : gmap Z CMbuf := filter (λ '(b, _), b ∈ queue_of w) (w_mbufs w).
Definition table (w : World) : gmap Z Z * Z := (m_msg_db (w_store w), m_last_update_time (w_store w)).

Lemma without_join w : join (messages w) (queue_of w) (table w) (without w) = w.
Proof.
  assert (messages w ∪ w_mbufs (without w) = w_mbufs w) as Hm by apply map_filter_union_complement.
  transitivity (mkWorld (w_calls w) (w_errno w) (w_objs w) (w_ctxs w) (messages w ∪ w_mbufs (without w)) (w_next w)
    (w_topics w) (w_clients w) (mkStore (m_last_msg_id (w_store w)) (table w).1 (table w).2) (w_stats w)
    (upd_notify_deque (λ _, queue_of w) (upd_notify_deque (λ _, []) (w_poller w))) (w_out w)); [reflexivity|].
  rewrite Hm. clear Hm. destruct w as [? ? ? ? ? ? ? ? s ? p ?]. by destruct s, p.
Qed.

Lemma without_apart w : Inv w → apart (messages w) (without w).
Proof.
  intros Hi b [m Hb]. apply map_lookup_filter_Some in Hb as [Hb Hq]. split.
  - cbn. apply map_lookup_filter_None. right. intros m' _. by intros Hn.
  - eapply (i_fresh _ _ _ _ _ _ _ _ _ _ Hi). right; right. by exists m.
Qed.

Lemma without_inv w : Inv w → waiting w → Inv (without w).
Proof.
  intros Hi [_ _ Hfree].
  assert (∀ b, live (w_mbufs w) b → b ∉ queue_of w → live (w_mbufs (without w)) b) as Hlive.
  { intros b [m Hb] Hq. exists m. by apply map_lookup_filter_Some. }
  assert (∀ b, referenced w b → live (w_mbufs (without w)) b) as Href.
  { intros b Hr. apply Hlive; [by apply referenced_live|]. intros Hq. by eapply Hfree. }
  destruct Hi. split; try done.
  - intros p o Ho. destruct (i_objs p o Ho) as [_ Hd]. split; [|done]. intros b Hb. by eapply Href, in_connection.
  - intros x c b Hc Hb. by eapply Href, in_session.
  - intros t n b Ht Hb. by eapply Href, in_topic.
  - intros b Hb. by apply elem_of_nil in Hb.
  - intros b m Hb. apply map_lookup_filter_Some in Hb as [Hb _]. by eapply i_mbufs.
  - intros k [Hk|[Hk|[m Hk]]]; apply i_fresh; [by left|by right; left|right; right].
    apply map_lookup_filter_Some in Hk as [Hk _]. by exists m.
Qed.

(** ** Events *)

(** The messages of the queue of [w] are in [w'] as they were, and still the queue. *)
Record untouched (w w' : World) : Prop := {
  un_notified : notified w' = notified w;
  un_mbufs : ∀ b, b ∈ queue_of w → w_mbufs w' !! b = w_mbufs w !! b;
}.

#[export] Instance untouched_preorder : PreOrder untouched.
Proof.
  split; [by intros w; split|]. intros w1 w2 w3 [N1 M1] [N2 M2]. split; [congruence|].
  intros b Hb. assert (queue_of w2 = queue_of w1) as Hq by exact (f_equal snd N1).
  rewrite M2; [by apply M1|by rewrite Hq].
Qed.

Lemma untouched_waiting w w' :
  waiting w → untouched w w' → (∀ b, b ∈ queue_of w → ¬ referenced w' b) → waiting w'.
Proof.
  intros [Hnd Hin _] [Hn Hm] Hfree. assert (queue_of w' = queue_of w) as Hq by exact (f_equal snd Hn).
  split; rewrite Hq; [done| |done]. intros b Hb. destruct (Hin b Hb) as (msg&m&Hw). exists msg, m. by rewrite Hm.
Qed.

(** The destruction of buffers keeps those that wait. *)
Lemma collect_untouched w : untouched w (collect w).
Proof.
  split; [done|]. intros b Hb.
  assert (b ∈ live_mbufs (collect_ctxs w)) as Hl by (apply live_mbufs_spec; auto).
  unfold collect, collect_mbufs. revert Hl. generalize (live_mbufs (collect_ctxs w)). intros X Hl. cbn.
  destruct (w_mbufs w !! b) as [m|] eqn:Hm; [by apply filter_Some|].
  apply map_lookup_filter_None. by left.
Qed.

Lemma collect_referenced w b : referenced (collect w) b → referenced w b.
Proof.
  assert (∀ x c, w_ctxs (collect w) !! x = Some c → w_ctxs w !! x = Some c) as Hc.
  { unfold collect, collect_mbufs, collect_ctxs. generalize (live_ctxs w). intros X x c. cbn. intros H.
    by apply filter_Some in H as [H _]. }
  intros [p o Ho Hb|x c Hx Hb|t n Ht Hb]; [by eapply in_connection|eapply in_session; [by apply Hc|done]|].
  by eapply in_topic.
Qed.

Section events.
Context {E : Env} {C : Calm}.

Lemma event_ok_not_notifier event p w : event_ok event p w → not_notifier w p.
Proof. unfold event_ok, not_notifier. intros Hok h Hp. by rewrite Hp in Hok. Qed.

(** An event of a connection or of the acceptor. *)
Lemma handle_event_waiting event p w :
  Inv w → waiting w → event_ok event p w →
  safe (handle_event event p) (λ _ w', Inv w' ∧ waiting w' ∧ untouched w w') w.
Proof using C.
  intros Hi Hw Hok. pose proof (event_ok_not_notifier event p w Hok) as Hn.
  destruct (safe_inv _ _ _ (handle_event_safe event p w Hi Hok)) as ([]&w'&Hr&Hi'&Hn').
  destruct (safe_inv _ _ _ (handle_event_safe event p (without w) (without_inv w Hi Hw) Hok))
    as ([]&v&Hv&Hiv&_).
  destruct (local_handle_event (messages w) (queue_of w) event p (without w) Hn (table w) tt v
    (without_apart w Hi) Hv) as [Hap [db Hj]].
  rewrite without_join, Hr in Hj. injection Hj as ->. unfold safe, wp. rewrite Hr. cbn [fst snd].
  assert (untouched w (join (messages w) (queue_of w) db v)) as Hun.
  { split; [exact Hn'|]. intros b Hb. destruct (wt_intact _ _ _ _ _ Hw b Hb) as (msg&m&Hm&_). rewrite Hm.
    change (w_mbufs (join _ _ _ v)) with (messages w ∪ w_mbufs v). apply lookup_union_Some_l.
    by apply map_lookup_filter_Some. }
  split_and!; [exact Hi'| |exact Hun]. apply (untouched_waiting w); [done|done|]. intros b Hb Hr'.
  assert (referenced v b) as Hrv by (destruct Hr'; [by eapply in_connection|by eapply in_session|by eapply in_topic]).
  destruct (referenced_live v b Hiv Hrv) as [m Hm]. destruct (wt_intact _ _ _ _ _ Hw b Hb) as (msg&m'&Hm'&_).
  destruct (Hap b) as [Hnone _]; [exists m'; by apply map_lookup_filter_Some|]. congruence.
Qed.

Lemma event_step_waiting event p w :
  Inv w → waiting w → event_ok event p w →
  safe (event_step event p) (λ _ w', Inv w' ∧ waiting w' ∧ untouched w w') w.
Proof using C.
  intros Hi Hw Hok. unfold event_step. apply safe_bind. eapply safe_mono; [by apply handle_event_waiting|].
  intros [] w1 (Hi1&Hw1&Hu1). apply safe_modify. pose proof (collect_untouched w1) as Hc.
  split_and!; [by apply collect_inv| |by etrans]. apply (untouched_waiting w1); [done|done|].
  intros b Hb Hr%collect_referenced. by eapply (wt_free _ _ _ _ _ Hw1).
Qed.

(** The eventfd has been written to: the kernel reports what it was asked for. *)
Definition notice_ok (event p : Z) (w : World) : Prop :=
  event = EPOLLIN ∧ m_notify_writer (w_poller w) = Some p.

(** The queue [l] of [w] has been published: every session that is registered has got
    its messages, in order. *)
Record flushed (l : list (Z * CMqttPublish)) (w w' : World) : Prop := {
  fl_list : map fst l = queue_of w ∧ Forall (λ '(b, msg), waits w b msg) l;
  fl_notified : notified w' = (m_notify_writer (w_poller w), []);
  fl_clients : w_clients w' = w_clients w;
  fl_queues : ∀ id x, w_clients w !! id = Some x →
    w_ctxs w' !! x = queue_more (appended w l x) <$> w_ctxs w !! x;
}.

Lemma collect_session id x w : w_clients w !! id = Some x → w_ctxs (collect w) !! x = w_ctxs w !! x.
Proof using.
  intros Hid. assert (x ∈ live_ctxs w) as Hl by (apply live_ctxs_registered; left; by exists id).
  unfold collect, collect_mbufs, collect_ctxs. revert Hl. generalize (live_ctxs w). intros X Hl. cbn.
  destruct (w_ctxs w !! x) as [c|] eqn:Hc; [by apply filter_Some|]. apply map_lookup_filter_None. by left.
Qed.

Lemma notice_step_waiting event p w :
  Inv w → waiting w → notice_ok event p w →
  safe (event_step event p) (λ _ w', Inv w' ∧ waiting w' ∧ ∃ l, flushed l w w') w.
Proof using C.
  intros Hi Hw [-> Hp]. destruct (i_writer _ _ _ _ _ _ _ _ _ _ Hi p Hp) as [h Ho].
  destruct (waiting_list w Hw) as (l&Hl&Hnd&Hall). unfold event_step, handle_event.
  apply safe_bind, safe_bind. eapply safe_get_handler; [exact Ho|].
  change (has EPOLLIN (Z.lor EPOLLHUP EPOLLERR)) with false. change (has EPOLLIN EPOLLIN) with true.
  change (has EPOLLIN EPOLLOUT) with false. cbv iota.
  apply safe_bind, safe_bind. unfold v_handle_input. apply safe_bind. eapply safe_get_obj; [exact Ho|].
  cbn [o_derived]. eapply safe_mono.
  { apply (notify_input_spreads p l w); [done|by eexists|by rewrite Hl|done|done]. }
  intros r w1 (->&Hi1&Hn1&[Hq1 Hc1 Hk1]). apply safe_ret, safe_ret, safe_modify.
  split_and!; [by apply collect_inv|apply waiting_nil; exact (f_equal snd Hn1)|]. exists l.
  split; [done|done|exact Hk1|]. intros id x Hid. rewrite (collect_session id); [apply Hq1|by rewrite Hk1].
Qed.

End events.
