(* ===== verification/Framing.v ===== *)
(** * The packets of the input

    [process_mqtt] cuts the bytes of the receive buffer into packets while the
    handlers of the packets change the buffer under it.  [frames] is the
    specification: where the packets are, computed once from the bytes received.
    The loop processes exactly these, in order, and a packet that is cut by the end
    of a read is found when the rest has arrived. *)

From S2P Require Import Prelude Pkt Msg Mbuf MemStore Context World Sample Handler Delivery.
From S2P Require Import SubMgr Connection Invariant Poller Scenarios Safety Sessions Server.
From stdpp Require Import options.

(** ** Specification *)

(** How the bytes end: at the end of a packet, inside a packet that starts at
    [off], or with a malformed length. *)
Inductive ending : Type := Done | Wait (off : Z) | Bad.

(** The places and the lengths of the packets in the bytes from [off] to [len] of
    the buffer [l]; fuel above the number of bytes suffices. *)
Fixpoint frames (fuel : nat) (l : list Z) (len off : Z) : list (Z * Z) * ending :=
  match fuel with
  | O => ([], Done)
  | S fuel =>
      if off <? len then
        match remain_length (drop (Z.to_nat off) l) (len - off) with
        | Ok rl =>
            if rl_ret rl =? NEED_MORE_DATA then ([], Wait off)
            else if rl_ret rl =? FAILTURE then ([], Bad)
            else
              let total := rl_ret rl + remain_length_bytes rl + 1 in
              ((off, total) :: (frames fuel l len (off + total)).1, (frames fuel l len (off + total)).2)
        | _ => ([], Bad)
        end
      else ([], Done)
  end.

Section framing.
Context {E : Env}.

(** Process the packets [fs] until one closes the connection, then go on with [k]. *)
Fixpoint run_frames (p : Z) (fs : list (Z * Z)) (k : M Z) : M Z :=
  match fs with
  | [] => k
  | (off, len) :: fs =>
      do r <- process p off len;
      if r <? 0 then ret (-1) else run_frames p fs k
  end.

(** The end of the loop: the buffer is emptied, or the rest is moved to its start. *)
Definition finish (p len : Z) (e : ending) : M Z :=
  match e with
  | Done => do_ upd_conn p (upd_cur_buf_pos (λ _, 0)); ret 0
  | Wait off =>
      do_ (when negb (off =? 0) then_
             (do_ upd_conn p (upd_recv_buffer
                    (λ b, splice 0 (take (Z.to_nat (len - off)) (drop (Z.to_nat off) b)) b));
              upd_conn p (upd_cur_buf_pos (λ _, len - off))));
      ret 0
  | Bad => ret (-1)
  end.

Context {C : Calm}.

Lemma process_loop_frames fuel p x len off c l w :
  Inv w → conn_is w p c → m_client_context c = Some x →
  drop (Z.to_nat off) (m_recv_buffer c) = drop (Z.to_nat off) l →
  0 <= off <= len → len <= MAX_BUF_SIZE - 4 → len - off < Z.of_nat fuel →
  CONNECT ∉ packet_types fuel (drop (Z.to_nat off) l) (len - off) →
  process_loop fuel p len off w =
  run_frames p (frames fuel l len off).1 (finish p len (frames fuel l len off).2) w.
Proof using C.
  unfold MAX_BUF_SIZE. revert off c w. induction fuel as [|fuel IH];
    intros off c w Hi Hc Hx Hl Hoff Hlen Hf Hty; [lia|].
  destruct (conn_ok w p c Hi Hc) as [Hbl Hbp]. unfold MAX_BUF_SIZE in *.
  cbn [process_loop frames]. destruct (Z.ltb_spec off len) as [Hlt|Hge]; [|done].
  assert (recv_from p off w = (Ok (drop (Z.to_nat off) l), w)) as Hrecv.
  { destruct Hc as [h Hp]. unfold recv_from, get_conn, get_obj, bind. rewrite Hp. cbn.
    by rewrite Hl. }
  erewrite bind_Ok by exact Hrecv. set (b := drop (Z.to_nat off) l) in *.
  assert (5 <= zlen b) as Hbz by (rewrite <- Hl, zlen_drop by lia; lia).
  destruct (remain_length_spec b (len - off)) as (rl&Hrl&Hcases); [done|lia|].
  rewrite Hrl. erewrite bind_Ok by (unfold lift; reflexivity).
  unfold FAILTURE, NEED_MORE_DATA in *.
  destruct (Z.eqb_spec (rl_ret rl) (-2)) as [Hn|Hn]; [done|].
  destruct (Z.eqb_spec (rl_ret rl) (-1)) as [Hm|Hm]; [done|].
  destruct Hcases as [?|[?|(Hr1&Hr2&Hr3&Hr4)]]; [lia..|].
  set (total := rl_ret rl + remain_length_bytes rl + 1) in *. cbn [fst snd run_frames].
  rewrite (u32_small total) by (unfold total; lia).
  cbn [packet_types] in Hty. rewrite Hrl in Hty.
  destruct (first_type b) as [t|] eqn:Hft; [|destruct b; [zlia|done]].
  destruct (Z.ltb_spec 0 (len - off)); [|lia]. destruct (Z.leb_spec 0 (rl_ret rl)); [|lia].
  simpl in Hty. fold total in Hty. apply not_elem_of_cons in Hty as [Hty1 Hty2].
  assert (safe (process p off total) (λ _ w', Inv w' ∧ conn_after p (off + total) w w') w) as Hs.
  { apply (process_safe p x off total c); [done|done|done| |].
    - unfold packet_at, MAX_BUF_SIZE. unfold total in *. lia.
    - rewrite Hl. congruence. }
  apply safe_inv in Hs as (r&w1&Hr&Hi1&_&Ha1). rewrite !(bind_Ok _ _ _ _ _ Hr).
  destruct (r <? 0); [done|]. destruct (Ha1 c Hc) as (c1&Hc1&Hx1&Hd1).
  rewrite u32_small by (unfold total in *; lia).
  assert (Z.to_nat (off + total) = Z.to_nat off + Z.to_nat total)%nat as Hadd
    by (unfold total in *; lia).
  apply (IH _ c1); try done; [congruence| |unfold total in *; lia..|].
  - rewrite Hd1, Hadd, <- !drop_drop, Hl. reflexivity.
  - replace (len - (off + total)) with (len - off - total) by lia.
    rewrite Hadd, <- drop_drop. exact Hty2.
Qed.

End framing.

(** ** Reassembly *)

Lemma rd_prefix l1 l2 n i :
  take (Z.to_nat n) l1 = take (Z.to_nat n) l2 → 0 <= i < n → rd l1 i = rd l2 i.
Proof.
  intros Ht Hi. unfold rd. destruct (Z.ltb_spec i 0); [lia|].
  assert (l1 !! Z.to_nat i = l2 !! Z.to_nat i) as ->; [|done].
  rewrite <- (lookup_take_lt l1 (Z.to_nat n)) by lia. rewrite Ht. by rewrite lookup_take_lt by lia.
Qed.

Lemma remain_length_loop_prefix k b1 b2 n off v off' v' :
  take (Z.to_nat n) b1 = take (Z.to_nat n) b2 → 0 <= off → off' < n →
  remain_length_loop k b1 off v = Ok (true, off', v') →
  remain_length_loop k b2 off v = Ok (true, off', v').
Proof.
  intros Ht. revert off v. induction k as [|k IH]; intros off v Hoff Hn; cbn [remain_length_loop]; [done|].
  assert (∀ o w, remain_length_loop k b1 o w = Ok (true, off', v') → o <= off') as Hmono.
  { clear. revert off' v'. induction k as [|k IH]; intros off' v' o w; cbn [remain_length_loop]; [done|].
    destruct (rd b1 o) as [b| |]; cbn [mbind res_bind]; [|done..].
    destruct (_ =? 0); [intros [= -> _]; lia|]. intros Hr. apply IH in Hr. lia. }
  destruct (rd b1 off) as [b| |] eqn:Hrd; cbn [mbind res_bind]; [|done..].
  destruct (Z.land b 128 =? 0) eqn:Htop.
  - intros [= <- <-]. rewrite <- (rd_prefix b1 b2 n) by (done || lia). rewrite Hrd.
    cbn [mbind res_bind]. by rewrite Htop.
  - intros Hr. pose proof (Hmono _ _ Hr). rewrite <- (rd_prefix b1 b2 n) by (done || lia).
    rewrite Hrd. cbn [mbind res_bind]. rewrite Htop. apply IH; [lia|done|exact Hr].
Qed.

(** A complete packet is found again whatever follows it. *)
Lemma remain_length_prefix b1 b2 n1 n2 rl :
  5 <= zlen b1 → 0 <= n1 < 2 ^ 31 → n1 <= n2 →
  take (Z.to_nat n1) b1 = take (Z.to_nat n1) b2 →
  remain_length b1 n1 = Ok rl → rl_ret rl ≠ NEED_MORE_DATA → rl_ret rl ≠ FAILTURE →
  remain_length b2 n2 = Ok rl.
Proof.
  intros Hb Hn1 Hn2 Ht Hr Hne1 Hne2.
  destruct (remain_length_spec b1 n1 Hb Hn1) as (rl'&Hr'&Hc). rewrite Hr in Hr'. injection Hr' as <-.
  destruct Hc as [?|[?|(Hv1&Hv2&Hv3&Hv4)]]; [done..|].
  unfold remain_length in *. 
  destruct (remain_length_loop 4 (drop 1 b1) 0 0) as [[[f o] v]| |] eqn:Hloop; cbn [mbind res_bind] in Hr; try done.
  destruct f; cbv [negb] in Hr.
  2:{ injection Hr as <-. simpl in Hv3. lia. }
  destruct (remain_length_loop_spec 4 (drop 1 b1) 0 0) as (f'&o'&v'&Hl'&Hs1&Hs2&Hs3&Hs4);
    [lia| |lia|].
  { replace 1%nat with (Z.to_nat 1) by lia. rewrite zlen_drop; lia. }
  rewrite Hloop in Hl'. injection Hl' as <- <- <-. specialize (Hs3 eq_refl).
  cbv zeta in Hr. rewrite u8_small, u32_small in Hr by lia.
  destruct (Z.ltb_spec n1 (v + (o + 1) + 1)) as [Hlt|Hge].
  { injection Hr as <-. done. }
  assert (remain_length_loop 4 (drop 1 b2) 0 0 = Ok (true, o, v)) as Hloop2.
  { apply (remain_length_loop_prefix 4 (drop 1 b1) _ (n1 - 1)); [|lia|lia|exact Hloop].
    replace (Z.to_nat (n1 - 1)) with (Z.to_nat n1 - 1)%nat by lia.
    rewrite !take_drop_commute. replace (1 + (Z.to_nat n1 - 1))%nat with (Z.to_nat n1) by lia.
    by rewrite Ht. }
  rewrite Hloop2. cbn [mbind res_bind]. cbv [negb]. cbv zeta. rewrite u8_small, u32_small by lia.
  destruct (Z.ltb_spec n2 (v + (o + 1) + 1)); [lia|done].
Qed.

(** The outcome of [remain_length] that [frames] looks at. *)
Definition complete (b : list Z) (n : Z) : option Z :=
  match remain_length b n with
  | Ok rl => if (rl_ret rl =? NEED_MORE_DATA) || (rl_ret rl =? FAILTURE) then None
             else Some (rl_ret rl + remain_length_bytes rl + 1)
  | _ => None
  end.

Lemma complete_prefix b1 b2 n1 n2 t :
  5 <= zlen b1 → 0 <= n1 < 2 ^ 31 → n1 <= n2 → take (Z.to_nat n1) b1 = take (Z.to_nat n1) b2 →
  complete b1 n1 = Some t → complete b2 n2 = Some t.
Proof.
  intros Hb Hn1 Hn2 Ht. unfold complete. destruct (remain_length b1 n1) as [rl| |] eqn:Hr; try done.
  destruct (Z.eqb_spec (rl_ret rl) NEED_MORE_DATA) as [|H1]; [done|].
  destruct (Z.eqb_spec (rl_ret rl) FAILTURE) as [|H2]; [done|]. simpl. intros [= <-].
  rewrite (remain_length_prefix b1 b2 n1 n2 rl) by done.
  by rewrite (proj2 (Z.eqb_neq _ _) H1), (proj2 (Z.eqb_neq _ _) H2).
Qed.

Lemma complete_same b1 b2 n :
  5 <= zlen b1 → 5 <= zlen b2 → 0 <= n < 2 ^ 31 → take (Z.to_nat n) b1 = take (Z.to_nat n) b2 →
  complete b1 n = complete b2 n.
Proof.
  intros H1 H2 Hn Ht. destruct (complete b1 n) as [t|] eqn:Hc.
  - symmetry. by apply (complete_prefix b1 b2 n n).
  - destruct (complete b2 n) as [t|] eqn:Hc2; [|done].
    rewrite (complete_prefix b2 b1 n n t) in Hc; done.
Qed.

Lemma complete_bound b n t :
  5 <= zlen b → 0 <= n < 2 ^ 31 → complete b n = Some t → 2 <= t <= n.
Proof.
  intros Hb Hn. unfold complete. destruct (remain_length_spec b n Hb Hn) as (rl&->&Hc).
  destruct (Z.eqb_spec (rl_ret rl) NEED_MORE_DATA) as [|H1]; [done|].
  destruct (Z.eqb_spec (rl_ret rl) FAILTURE) as [|H2]; [done|]. simpl. intros [= <-].
  destruct Hc as [?|[?|(?&?&?&?)]]; [done..|lia].
Qed.

(** The bytes of the packets between [off] and [len]. *)
Fixpoint packets (fuel : nat) (l : list Z) (len off : Z) : list (list Z) :=
  match fuel with
  | O => []
  | S fuel =>
      if off <? len then
        match complete (drop (Z.to_nat off) l) (len - off) with
        | Some t => take (Z.to_nat t) (drop (Z.to_nat off) l) :: packets fuel l len (off + t)
        | None => []
        end
      else []
  end.

Lemma packets_S fuel l len off :
  packets (S fuel) l len off =
  if off <? len then
    match complete (drop (Z.to_nat off) l) (len - off) with
    | Some t => take (Z.to_nat t) (drop (Z.to_nat off) l) :: packets fuel l len (off + t)
    | None => []
    end
  else [].
Proof. reflexivity. Qed.

Lemma packets_frames fuel l len off :
  packets fuel l len off =
  map (λ '(o, t), take (Z.to_nat t) (drop (Z.to_nat o) l)) (frames fuel l len off).1.
Proof.
  revert off. induction fuel as [|fuel IH]; intros off; cbn [packets frames]; [done|].
  destruct (off <? len); [|done]. unfold complete.
  destruct (remain_length _ _) as [rl| |]; [|done..].
  destruct (rl_ret rl =? NEED_MORE_DATA); [done|]. destruct (rl_ret rl =? FAILTURE); [done|].
  cbn. by rewrite IH.
Qed.

Lemma packets_fuel f1 f2 l len off :
  len - off < Z.of_nat f1 → len - off < Z.of_nat f2 → zlen l >= len + 4 → 0 <= off →
  len < 2 ^ 31 → packets f1 l len off = packets f2 l len off.
Proof.
  revert f2 off. induction f1 as [|f1 IH]; intros f2 off H1 H2 Hl Ho Hm;
    destruct f2 as [|f2]; cbn [packets]; [done|..]; destruct (Z.ltb_spec off len) as [Hlt|];
    try lia; try done.
  destruct (complete _ _) as [t|] eqn:Hc; [|done]. f_equal.
  apply complete_bound in Hc as [? ?]; [|rewrite zlen_drop; lia|lia].
  apply IH; lia.
Qed.

(** Moving the bytes to the start of the buffer, and other bytes after them. *)
Lemma packets_move fuel l l' len off o :
  0 <= o → 0 <= off → o + off <= len → len < 2 ^ 31 → zlen l >= len + 4 → zlen l' >= len - o + 4 →
  take (Z.to_nat (len - o)) (drop (Z.to_nat o) l) = take (Z.to_nat (len - o)) l' →
  packets fuel l len (o + off) = packets fuel l' (len - o) off.
Proof.
  intros Ho. revert off. induction fuel as [|fuel IH]; intros off Hoff Hlen Hm Hl Hl' Ht;
    cbn [packets]; [done|].
  replace (o + off <? len) with (off <? len - o)
    by (destruct (Z.ltb_spec off (len - o)), (Z.ltb_spec (o + off) len); (done || lia)).
  destruct (Z.ltb_spec off (len - o)); [|done].
  assert (∀ n, n <= len - (o + off) → take (Z.to_nat n) (drop (Z.to_nat (o + off)) l) =
    take (Z.to_nat n) (drop (Z.to_nat off) l')) as Hsame.
  { intros n Hn. replace (Z.to_nat (o + off)) with (Z.to_nat o + Z.to_nat off)%nat by lia.
    rewrite <- drop_drop. rewrite !(take_drop_commute _ _ (Z.to_nat off)).
    f_equal. apply (f_equal (take (Z.to_nat off + Z.to_nat n))) in Ht. rewrite !take_take in Ht.
    replace ((Z.to_nat off + Z.to_nat n) `min` Z.to_nat (len - o))%nat
      with (Z.to_nat off + Z.to_nat n)%nat in Ht by lia. exact Ht. }
  replace (len - (o + off)) with (len - o - off) in * by lia.
  rewrite (complete_same _ (drop (Z.to_nat off) l'));
    [|rewrite zlen_drop; lia|rewrite zlen_drop; lia|lia|by apply Hsame].
  destruct (complete (drop (Z.to_nat off) l') _) as [t|] eqn:Hc; [|done].
  apply complete_bound in Hc as [? ?]; [|rewrite zlen_drop; lia|lia].
  f_equal; [apply Hsame; lia|]. replace (o + off + t) with (o + (off + t)) by lia.
  apply IH; lia || done.
Qed.

(** Where the complete packets end. *)
Fixpoint cut (fuel : nat) (l : list Z) (len off : Z) : Z :=
  match fuel with
  | O => off
  | S fuel =>
      if off <? len then
        match complete (drop (Z.to_nat off) l) (len - off) with
        | Some t => cut fuel l len (off + t)
        | None => off
        end
      else off
  end.

Lemma cut_range fuel l len off :
  0 <= off <= len → len < 2 ^ 31 → zlen l >= len + 4 → off <= cut fuel l len off <= len.
Proof.
  revert off. induction fuel as [|fuel IH]; intros off Ho Hm Hl; cbn [cut]; [lia|].
  destruct (Z.ltb_spec off len); [|lia]. destruct (complete _ _) as [t|] eqn:Hc; [|lia].
  apply complete_bound in Hc as [? ?]; [|rewrite zlen_drop; lia|lia]. 
  assert (off + t <= cut fuel l len (off + t) <= len); [apply IH|]; lia.
Qed.

(** More bytes: the packets that were complete, and then those after them. *)
Lemma packets_extend fuel l1 l2 n1 n2 off :
  0 <= off <= n1 → n1 <= n2 → n2 < 2 ^ 31 → zlen l1 >= n1 + 4 → zlen l2 >= n2 + 4 →
  take (Z.to_nat n1) l1 = take (Z.to_nat n1) l2 → n2 - off < Z.of_nat fuel →
  packets fuel l2 n2 off =
  packets fuel l1 n1 off ++ packets fuel l2 n2 (cut fuel l1 n1 off).
Proof.
  intros Ho Hn Hm Hl1 Hl2 Ht. revert off Ho.
  induction fuel as [|fuel IH]; intros off Ho Hf; [lia|].
  cbn [cut]. rewrite (packets_S fuel l1 n1 off). destruct (Z.ltb_spec off n1); [|done].
  destruct (complete (drop (Z.to_nat off) l1) (n1 - off)) as [t|] eqn:Hc; [|done].
  assert (take (Z.to_nat (n1 - off)) (drop (Z.to_nat off) l1) =
          take (Z.to_nat (n1 - off)) (drop (Z.to_nat off) l2)) as Hsame.
  { rewrite !take_drop_commute.
    replace (Z.to_nat off + Z.to_nat (n1 - off))%nat with (Z.to_nat n1) by lia. by rewrite Ht. }
  destruct (complete_bound (drop (Z.to_nat off) l1) (n1 - off) t) as [? ?];
    [rewrite zlen_drop; lia|lia|exact Hc|].
  assert (complete (drop (Z.to_nat off) l2) (n2 - off) = Some t) as Hc2.
  { eapply (complete_prefix _ _ (n1 - off)); [| | |exact Hsame|done]; [rewrite zlen_drop; lia|lia..]. }
  rewrite (packets_S fuel l2 n2 off). destruct (Z.ltb_spec off n2); [|lia]. rewrite Hc2. cbn [app]. f_equal.
  { apply (f_equal (take (Z.to_nat t))) in Hsame. rewrite !take_take in Hsame.
    by rewrite Nat.min_l in Hsame by lia. }
  rewrite (IH (off + t)) by lia. f_equal.
  pose proof (cut_range fuel l1 n1 (off + t)).
  apply packets_fuel; lia.
Qed.

(** Where [process_mqtt] leaves the first byte that it has not processed. *)
Definition rest (len : Z) (e : ending) : Z := match e with Wait off => off | _ => len end.

Lemma cut_rest fuel l len off :
  0 <= off <= len → len < 2 ^ 31 → zlen l >= len + 4 → len - off < Z.of_nat fuel →
  (frames fuel l len off).2 ≠ Bad → cut fuel l len off = rest len (frames fuel l len off).2.
Proof.
  revert off. induction fuel as [|fuel IH]; intros off Ho Hm Hl Hf; [lia|].
  cbn [cut frames]. destruct (Z.ltb_spec off len); [|intros _; simpl; lia].
  destruct (complete _ _) as [t|] eqn:Hc.
  - pose proof Hc as Hb. apply complete_bound in Hb as [? ?]; [|rewrite zlen_drop; lia|lia].
    revert Hc. unfold complete. destruct (remain_length _ _) as [rl| |]; [|done..].
    destruct (rl_ret rl =? NEED_MORE_DATA); [done|]. destruct (rl_ret rl =? FAILTURE); [done|].
    cbn [orb fst snd]. intros [= Ht]. rewrite Ht. apply IH; lia.
  - revert Hc. unfold complete. destruct (remain_length _ _) as [rl| |]; [|done..].
    destruct (rl_ret rl =? NEED_MORE_DATA); [done|]. destruct (rl_ret rl =? FAILTURE); done.
Qed.

(** ** Properties *)

Lemma stamp_ok {E : Env} p c x w :
  Inv w → conn_is w p c → is_Some (w_ctxs w !! x) →
  safe (do now <- std_time; upd_ctx x (upd_last_msg_time (λ _, now)))
    (λ _ w', Inv w' ∧ conn_is w' p c) w.
Proof.
  intros Hi [h Hp] [ctx Hctx]. unfold std_time. apply safe_bind, safe_sys.
  eapply safe_upd_ctx_inv; [exact Hi|done..|].
  intros w1 Hi1 _ Ho1 _. split; [done|]. exists h. by rewrite Ho1.
Qed.

(** Claim C4: the bytes of a connection with a session are cut into packets before
    any of them is processed: [process_mqtt] stamps the context, then processes the
    packets at the places that [frames] computes from the bytes received, in their
    order, up to the first whose handler closes the connection, although the
    handlers run on the same buffer; when all are processed the buffer is empty, or
    the incomplete packet at the end is moved to its start, and a malformed length
    closes the connection. *)
Theorem packets_processed_in_order {E : Env} {C : Calm} p c x n w :
  Inv w → conn_is w p c → m_client_context c = Some x → 0 <= n <= MAX_BUF_SIZE - 4 →
  CONNECT ∉ packet_types (S (Z.to_nat n)) (m_recv_buffer c) n →
  process_mqtt p n w =
  (do now <- std_time;
   do_ upd_ctx x (upd_last_msg_time (λ _, now));
   let fs := frames (S (Z.to_nat n)) (m_recv_buffer c) n 0 in
   run_frames p fs.1 (finish p n fs.2)) w.
Proof.
  intros Hi Hc Hx Hn Hty. pose proof Hc as [h Hp].
  destruct (attached_ctx p x w Hi) as (ctx&Hctx&_); [by eapply conn_attached|].
  destruct (safe_inv _ _ _ (stamp_ok p c x w Hi Hc ltac:(by eexists))) as ([]&w1&Hw1&Hi1&Hc1).
  unfold process_mqtt. erewrite bind_Ok by (unfold get_conn, get_obj, bind; rewrite Hp; reflexivity).
  rewrite Hx, (bind_Ok _ _ _ _ _ Hw1).
  etrans; [|apply bind_assoc_at]. rewrite (bind_Ok _ _ _ _ _ Hw1). cbv zeta.
  apply (process_loop_frames _ p x n 0 c); try done; [lia..|by rewrite Z.sub_0_r].
Qed.

Lemma packets_processed_in_order_witness :
  let w := after (run_all (subscribed false)) in
  let buf := m_recv_buffer (conn_of client_a w) in
  frames 11 buf 10 0 = ([(0, 8)], Wait 8) ∧
  @process_mqtt sample_env client_a 10 w =
  (do now <- @std_time sample_env;
   do_ upd_ctx ctx_a (upd_last_msg_time (λ _, now));
   let fs := frames 11 buf 10 0 in
   @run_frames sample_env client_a fs.1 (finish client_a 10 fs.2)) w.
Proof.
  split; [vm_compute; reflexivity|].
  apply (@packets_processed_in_order sample_env (quiet_calm [] 0) _ _ ctx_a 10).
  - apply reachable_inv, subscribed_reachable.
  - eexists. vm_compute. reflexivity.
  - vm_compute. reflexivity.
  - vm_compute. split; discriminate.
  - apply (bool_decide_unpack _). vm_compute. reflexivity.
Defined.


