(* ===== verification/Copy.v ===== *)
(** * A packet and its copy

    The connections decode a packet where it lies in their buffer, with other bytes
    behind it; what they pass on is a copy that ends with the packet.  A decoder that
    succeeds on the first gives the same message for the second. *)

From S2P Require Import Prelude Framing Pkt Msg.
From stdpp Require Import options.

(** ** Cursors that agree up to the end of the packet *)

Record twins (s1 s2 : CMqttPkt) : Prop := {
  tw_left : wf_pkt s1;
  tw_right : wf_pkt s2;
  tw_offset : m_offset s1 = m_offset s2;
  tw_size : m_max_size s1 = m_max_size s2;
  tw_bytes : take (Z.to_nat (m_max_size s1)) (m_buf_ptr s1) = take (Z.to_nat (m_max_size s1)) (m_buf_ptr s2);
}.

Lemma twins_rest s1 s2 : twins s1 s2 → rest s1 = rest s2.
Proof.
  intros [(?&?&?) _ Ho Hm Hb]. unfold rest. rewrite <- Ho, <- Hm.
  replace (Z.to_nat (m_max_size s1 - m_offset s1)) with (Z.to_nat (m_max_size s1) - Z.to_nat (m_offset s1))%nat by lia.
  rewrite <- !skipn_firstn_comm. by rewrite Hb.
Qed.

Lemma twins_advance n s1 s2 : twins s1 s2 → 0 <= n <= zlen (rest s1) → twins (advance n s1) (advance n s2).
Proof.
  intros Ht Hn. pose proof (twins_rest _ _ Ht) as Hr. destruct Ht. split; try done.
  - by apply wf_advance.
  - apply wf_advance; [done|]. by rewrite <- Hr.
  - cbn. by rewrite tw_offset0.
Qed.

(** The reader does not look behind the packet. *)
Definition bounded {A} (m : reader A) : Prop :=
  ∀ s1 s2, twins s1 s2 → (m s1).1 = (m s2).1 ∧ twins (m s1).2 (m s2).2.

Lemma bounded_ret {A} (a : A) : bounded (ret a).
Proof. done. Qed.

Lemma bounded_bind {A B} (m : reader A) (f : A → reader B) :
  bounded m → (∀ a, bounded (f a)) → bounded (bind m f).
Proof.
  intros Hm Hf s1 s2 Ht. destruct (Hm s1 s2 Ht) as [Hr Hs]. unfold bind.
  destruct (m s1) as [r1 t1], (m s2) as [r2 t2]. cbn [fst snd] in Hr, Hs. subst r2.
  destruct r1; [by apply Hf|done..].
Qed.

Lemma bounded_length : bounded (gets length_).
Proof. intros s1 s2 Ht. split; [|done]. cbn. unfold length_. by rewrite (tw_offset _ _ Ht). Qed.

Lemma bounded_read_short : bounded read_short.
Proof.
  intros s1 s2 Ht. pose proof (twins_rest _ _ Ht) as Hr. destruct (rest s1) as [|hi [|lo t]] eqn:H1.
  1-2: rewrite !read_short_fail; [done|apply Ht|by rewrite <- Hr|apply Ht|by rewrite H1].
  rewrite (read_short_ok s1 hi lo t), (read_short_ok s2 hi lo t); [|apply Ht|done|apply Ht|done].
  split; [done|]. apply twins_advance; [done|]. rewrite H1, !zlen_cons. pose proof (zlen_nonneg t). lia.
Qed.

Lemma bounded_read_string : bounded read_string.
Proof.
  intros s1 s2 Ht. pose proof (twins_rest _ _ Ht) as Hr. destruct (rest s1) as [|hi [|lo t]] eqn:H1.
  1-2: unfold read_string; rewrite (bind_Fail read_short _ s1 s1), (bind_Fail read_short _ s2 s2);
    [by split|apply read_short_fail; [apply Ht|by rewrite <- Hr]|apply read_short_fail; [apply Ht|by rewrite H1]].
  pose proof (short_range hi lo) as Hs. symmetry in Hr.
  destruct (decide (short hi lo <= zlen t)) as [Hle|Hgt].
  - set (v := take (Z.to_nat (short hi lo)) t). set (k := drop (Z.to_nat (short hi lo)) t).
    assert (t = v ++ k) as Hvk by (symmetry; apply take_drop).
    assert (zlen v = short hi lo) as Hv by (apply zlen_take; lia). rewrite Hvk in H1, Hr.
    rewrite (read_string_ok s1 hi lo v k), (read_string_ok s2 hi lo v k);
      [|apply Ht|exact Hr|by rewrite Hv|apply Ht|exact H1|by rewrite Hv].
    split; [done|]. apply twins_advance; [done|].
    rewrite H1, !zlen_cons, zlen_app. pose proof (zlen_nonneg v). pose proof (zlen_nonneg k). lia.
  - unfold read_string. rewrite (bind_Ok read_short _ s1 (short hi lo) (advance 2 s1)),
      (bind_Ok read_short _ s2 (short hi lo) (advance 2 s2));
      [|eapply read_short_ok; [apply Ht|exact Hr]|eapply read_short_ok; [apply Ht|exact H1]].
    erewrite !bind_Ok by reflexivity. destruct (rest_advance_app s1 [hi; lo] t (tw_left _ _ Ht) H1) as [Hw1 Hr1].
    destruct (rest_advance_app s2 [hi; lo] t (tw_right _ _ Ht) Hr) as [Hw2 Hr2].
    change (zlen [hi; lo]) with 2 in *. rewrite !left_size_rest, Hr1, Hr2 by done.
    destruct (Z.ltb_spec (zlen t) (short hi lo)); [|lia]. split; [done|]. apply twins_advance; [done|].
    rewrite H1, !zlen_cons. pose proof (zlen_nonneg t). lia.
Qed.

Lemma bounded_read_left : bounded (do n <- gets left_size; read_bytes [] n).
Proof.
  intros s1 s2 Ht. pose proof (twins_rest _ _ Ht) as Hr. erewrite !bind_Ok by reflexivity.
  rewrite !left_size_rest by apply Ht. rewrite <- Hr.
  rewrite (read_bytes_ok s1 (rest s1) []), (read_bytes_ok s2 (rest s1) []);
    [|apply Ht|by rewrite app_nil_r|apply Ht|by rewrite app_nil_r].
  split; [done|]. apply twins_advance; [done|]. pose proof (zlen_nonneg (rest s1)). lia.
Qed.

#[local] Hint Resolve bounded_ret bounded_bind bounded_length bounded_read_short bounded_read_string
  bounded_read_left : pkt.

(** ** PUBLISH *)

Lemma twins_new buf len : 0 <= len <= zlen buf → len < 2 ^ 31 →
  twins (new_CMqttPkt buf len) (new_CMqttPkt (take (Z.to_nat len) buf) len).
Proof.
  intros Hl Hm. split; try done; [by split_and!; cbn; try lia|split_and!; cbn; [lia..|by rewrite zlen_take by lia]|].
  cbn. by rewrite take_take, Nat.min_id.
Qed.

(** The fixed header. *)
Lemma header_copy buf len base s1 :
  5 <= zlen buf → 0 <= len <= zlen buf → len < 2 ^ 31 →
  CMqttMsg_decode (new_CMqttPkt buf len) = (Ok base, s1) →
  ∃ s2, CMqttMsg_decode (new_CMqttPkt (take (Z.to_nat len) buf) len) = (Ok base, s2) ∧ twins s1 s2.
Proof.
  intros H5 Hl Hm. pose proof (twins_new buf len Hl Hm) as Ht. pose proof (twins_rest _ _ Ht) as Hr.
  unfold CMqttMsg_decode. destruct (rest (new_CMqttPkt buf len)) as [|b t] eqn:H1.
  { rewrite (bind_Fail read_byte _ _ _ (read_byte_fail _ (tw_left _ _ Ht) H1)). done. }
  symmetry in Hr. rewrite (bind_Ok read_byte _ _ _ _ (read_byte_ok _ b t (tw_left _ _ Ht) H1)),
    (bind_Ok read_byte _ _ _ _ (read_byte_ok _ b t (tw_right _ _ Ht) Hr)).
  apply (twins_advance 1) in Ht; [|rewrite H1, zlen_cons; pose proof (zlen_nonneg t); lia].
  set (s := advance 1 (new_CMqttPkt buf len)) in *. set (c := advance 1 (new_CMqttPkt (take (Z.to_nat len) buf) len)) in *.
  unfold bind at 1. unfold read_remain_length at 1. destruct (left_size s <? 2) eqn:Hleft; [done|].
  change (m_buf_ptr s) with buf. change (m_max_size s) with len.
  destruct (remain_length buf len) as [rl| |] eqn:Hrl; [|done..].
  destruct (Z.ltb_spec (rl_ret rl) 0) as [|Hnn]; [done|]. intros [= <- <-].
  destruct (remain_length_spec buf len H5) as (rl'&Hrl'&Hc); [lia|].
  rewrite Hrl in Hrl'. injection Hrl' as <-. unfold NEED_MORE_DATA, FAILTURE in *.
  destruct Hc as [?|[?|(Hv1&Hv2&Hv3&Hv4)]]; [lia..|].
  assert (read_remain_length c = (Ok (remain_length_value rl, remain_length_bytes rl),
    advance (remain_length_bytes rl) c)) as Hc.
  { unfold read_remain_length. change (left_size c) with (left_size s). rewrite Hleft. change (m_max_size c) with len.
    change (m_buf_ptr c) with (take (Z.to_nat len) buf).
    rewrite (remain_length_prefix buf _ len len rl) by (done || lia || (unfold NEED_MORE_DATA, FAILTURE; lia) || (by rewrite take_take, Nat.min_id)).
    destruct (Z.ltb_spec (rl_ret rl) 0); [lia|done]. }
  eexists. erewrite bind_Ok by exact Hc. split; [reflexivity|].
  apply twins_advance; [exact Ht|]. rewrite zlen_rest by apply Ht. change (m_max_size s) with len.
  change (m_offset s) with 1. lia.
Qed.

Lemma publish_decode_copy buf len m :
  5 <= zlen buf → 0 <= len <= zlen buf → len < 2 ^ 31 →
  run_decode CMqttPublish_decode buf len = Ok m →
  run_decode CMqttPublish_decode (take (Z.to_nat len) buf) len = Ok m.
Proof.
  intros H5 Hl Hm. unfold run_decode, CMqttPublish_decode.
  destruct (CMqttMsg_decode (new_CMqttPkt buf len)) as [[base| |u] s1] eqn:Hd.
  2:{ by rewrite (bind_Fail _ _ _ _ Hd). }
  2:{ by rewrite (bind_Stop _ _ _ _ _ Hd). }
  destruct (header_copy buf len base s1 H5 Hl Hm Hd) as (s2&Hd2&Ht).
  rewrite (bind_Ok _ _ _ _ _ Hd), (bind_Ok _ _ _ _ _ Hd2). cbv beta.
  match goal with |- (?f s1).1 = _ → _ => assert (bounded f) as Hb by auto 10 with pkt end.
  destruct (Hb _ _ Ht) as [-> _]. done.
Qed.
