(* ===== verification/Defects.v ===== *)
(** * Runs that show a defect

    The hypotheses of the properties in Server.v and Delivery.v exclude some runs;
    here are those runs, as theorems: what the code does on a concrete sequence of
    events, or in every state of the invariant. *)

From S2P Require Import Prelude Pkt Msg Mbuf MemStore Context World Sample Handler Delivery.
From S2P Require Import SubMgr Connection Invariant Poller Scenarios Safety Sessions Server.
From stdpp Require Import options.

(** ** Crashes *)

(** Claim C39: a peer that connects and goes away crashes the server.  A connection has
    no context before its first message; when it is closed then - a hang-up, an end
    of file, a malformed CONNECT - [handle_close] dereferences a null pointer. *)
Theorem close_without_context_crashes {E : Env} {C : Calm} p c w :
  conn_is w p c → m_client_context c = None → (handle_event EPOLLHUP p w).1 = Stop NullDeref.
Proof.
  intros [h Hp] Hx. unfold handle_event. erewrite bind_Ok by (unfold get_handler, get_obj, bind; by rewrite Hp).
  change (has EPOLLHUP (Z.lor EPOLLHUP EPOLLERR)) with true. cbv iota.
  assert ((handle_close p w).1 = Stop NullDeref) as Hs.
  { unfold handle_close. erewrite bind_Ok by (unfold get_obj; by rewrite Hp). cbn [o_derived].
    assert (safe (handler_close p) (λ _ w', conn_is w' p c) w) as Hcl.
    { eapply safe_handler_close; [done|]. intros w' h' Ho _ _ _ _ _ _ _ _ _. exists h'.
      rewrite Ho. apply lookup_insert_eq. }
    apply safe_inv in Hcl as (r&w1&Hr&[h1 Hp1]). unfold connection_handle_close.
    erewrite bind_Ok by exact Hr. erewrite bind_Ok.
    2:{ unfold get_conn, get_obj, bind. rewrite Hp1. reflexivity. }
    by rewrite Hx. }
  unfold bind. destruct (handle_close p w) as [[] w1]; simpl in *; congruence.
Qed.

Lemma close_without_context_crashes_witness :
  let w := after (run_all (third_client true)) in
  (@handle_event sample_env EPOLLHUP client_c w).1 = Stop NullDeref.
Proof.
  apply (@close_without_context_crashes sample_env (quiet_calm [] 0) client_c
           (conn_of client_c (after (run_all (third_client true))))); [eexists|]; vm_compute; reflexivity.
Defined.

(** Claim C40: a second CONNECT deletes its own connection.  When the identifier of a
    CONNECT is that of the session its own connection holds, [handle_connect_msg]
    closes and deletes the connection it runs in, and goes on to use it. *)
Theorem second_connect_uses_deleted {E : Env} {C : Calm} p c x m w :
  Inv w → conn_is w p c → m_client_context c = Some x → w_clients w !! client_id m = Some x →
  (attach_context p m w).1 = Stop UseAfterFree.
Proof.
  intros Hi Hc Hx Hid. destruct (attached_ctx p x w Hi) as (ctx&Hctx&Hp); [by eapply conn_attached|].
  unfold attach_context, find_by_client_id.
  erewrite bind_Ok by (unfold gets; reflexivity). rewrite Hid.
  assert (safe (handle_close p) (λ _ w', Inv w' ∧ closed p x w w') w) as Hs.
  { eapply handle_close_safe; [done..|]. intros; by split. }
  apply safe_inv in Hs as (r&w1&Hr&Hi1&Ho1&_&_&_&_&c1&c1'&_&Hc1'&_).
  unfold bind at 1 2. unfold get_ctx at 1. rewrite Hctx, Hp. unfold bind at 1 2.
  change (v_handle_close p w) with (handle_close p w). rewrite Hr. unfold ret at 1.
  unfold upd_ctx, get_ctx, bind, modify. rewrite Hc1', lookup_insert_eq. cbn [w_ctxs upd_ctxs].
  rewrite lookup_insert_eq. unfold upd_conn, bind, get_obj. cbn [w_objs upd_ctxs].
  by rewrite Ho1, lookup_delete_eq.
Qed.

Lemma second_connect_uses_deleted_witness :
  let w := after (run_all (subscribed true)) in
  (@attach_context sample_env client_a (connect_msg (of_string "a") true) w).1 = Stop UseAfterFree.
Proof.
  apply (@second_connect_uses_deleted sample_env (quiet_calm [] 0) client_a
           (conn_of client_a (after (run_all (subscribed true)))) ctx_a).
  - apply reachable_inv, (subscribed_reachable true).
  - eexists. vm_compute. reflexivity.
  - vm_compute. reflexivity.
  - vm_compute. reflexivity.
Defined.

(** Writes to [fd] fail with EPIPE. *)
Definition write_fails (fd s : Z) (l : list Z) : io_result :=
  if s =? fd then IoErr 32 else IoOk (zlen l).

(** [fd] accepts at most [n] bytes of a write. *)
Definition write_some (fd n s : Z) (l : list Z) : io_result :=
  if s =? fd then IoOk (Z.min n (zlen l)) else IoOk (zlen l).

(** Any clients, one of which sends a malformed CONNECT as its first packet. *)
Definition malformed_connect_run : list (M unit) :=
  [accept_on 10; arrive write_all [0x10; 2; 0; 0] client_a].

(** A CONNECT that does not decode closes a connection that has no context. *)
Lemma malformed_connect_crashes : status (run_all malformed_connect_run) = Stop NullDeref.
Proof. vm_compute. reflexivity. Qed.

(** A write that fails closes and deletes the connection, and the handler of the
    message, and then [run], use it again. *)
Definition write_error_run : list (M unit) :=
  two_clients true ++ [arrive (write_fails 10) [0xC0; 0] client_a].

Lemma write_error_uses_deleted : status (run_all write_error_run) = Stop UseAfterFree.
Proof. vm_compute. reflexivity. Qed.

Definition publish_t : list Z := publish_bytes false 77 (of_string "t") [1; 2; 3].

(** A write that fails while a message is published closes a subscriber with a clean
    session, which erases the element that the loop of [publish] is at. *)
Definition publish_error_run : list (M unit) :=
  subscribed true ++ [arrive (write_fails 10) publish_t client_b].

Lemma publish_invalidates_iterator : status (run_all publish_error_run) = Stop UseAfterFree.
Proof. vm_compute. reflexivity. Qed.

(** An environment whose [epoll_wait] returns the events [l]. *)
Definition batch_env (input : list Z) (l : list (Z * Z)) : Env := {|
  env_write := λ _ s l, write_all s l;
  env_read := λ _ _ k, ReadOk (take (Z.to_nat k) input);
  env_accept := λ _, IoErr EAGAIN;
  env_epoll_wait := λ _ _, WaitOk l;
  env_epoll_ctl := λ _, None;
  env_peer := λ _ _, [];
  env_time := λ _, 1000;
  env_junk := λ _ _, 0;
  env_order := λ _ X, elements X;
  env_topic_order := λ _ X, elements X;
  env_mqtt_bridge := 0;
|}.

(** A take-over deletes a connection that has an event later in the batch of
    [epoll_wait]: the loop uses the pointer of the deleted handler. *)
Lemma take_over_in_batch :
  (@run (batch_env (connect_bytes (of_string "a") true) [(EPOLLIN, client_c); (EPOLLIN, client_a)])
     (after (run_all (third_client true)))).1 = Stop UseAfterFree.
Proof. vm_compute. reflexivity. Qed.

(** ** Wrong results *)

(** A CONNECT with protocol version 9. *)
Definition bad_version : list Z :=
  [0x10; 15; 0; 6; 77; 81; 73; 115; 100; 112; 9; 2; 0; 60; 0; 1; 97].

Definition bad_version_run : list (M unit) :=
  [accept_on 10; arrive write_all bad_version client_a;
   arrive write_all (subscribe_bytes 5 (of_string "t") 1) client_a].

(** A refused client is connected.  A client with an unsupported protocol
    version gets CONNACK with the code 1, but the status -1 is overwritten by that of
    the reply: the connection stays open, its session is connected, and its
    SUBSCRIBE is acknowledged. *)
Theorem refused_client_connected :
  status (run_all bad_version_run) = Ok tt ∧
  sent_to 10 (after (run_all bad_version_run)) = [0x20; 2; 0; 1] ++ [0x90; 3; 0; 5; 1] ∧
  client_status <$> ctx_on 10 (after (run_all bad_version_run)) = Some CS_CONNECTED.
Proof. vm_compute. done. Qed.

(** "a", with a clean session, connects again on another connection. *)
Definition reconnect_run : list (M unit) :=
  third_client true ++ [arrive write_all (connect_bytes (of_string "a") true) client_c].

(** The identifier of a client that takes over its own clean session is not
    registered: the next CONNECT with it does not find this connection. *)
Lemma reconnected_not_registered :
  status (run_all reconnect_run) = Ok tt ∧
  client_status <$> ctx_on 12 (after (run_all reconnect_run)) = Some CS_CONNECTED ∧
  w_clients (after (run_all reconnect_run)) !! of_string "a" = None.
Proof. vm_compute. done. Qed.

Definition unsubscribe_run : list (M unit) :=
  subscribed false ++ [arrive write_all (unsubscribe_bytes 6 (of_string "t")) client_a].

(** UNSUBSCRIBE leaves the topic in the context, which is what is stored for a
    restart and written to the client record. *)
Lemma unsubscribe_keeps_topic :
  status (run_all unsubscribe_run) = Ok tt ∧
  subcribe_topics <$> ctx_on 10 (after (run_all unsubscribe_run)) = Some [mkTopic (of_string "t") 1] ∧
  (m_subcriber_clients <$> w_topics (after (run_all unsubscribe_run)) !! of_string "t") = Some ∅.
Proof. vm_compute. done. Qed.

(** "a" and "b" subscribe to "t", and a third client publishes while the socket of
    "b" accepts four bytes; then it accepts the rest. *)
Definition partial_write_run : list (M unit) :=
  subscribed true ++
  [arrive write_all (subscribe_bytes 6 (of_string "t") 1) client_b;
   accept_on 12; arrive write_all (connect_bytes (of_string "c") true) 11;
   arrive (write_some 11 4) publish_t 11; writable write_all client_b].

(** A slow subscriber truncates the message of the others.  The buffer of a
    publication is shared by the subscribers, and a partial write moves its read
    position: "b" gets the whole packet in two writes, and "a" only the part that
    "b" had not accepted at first - not a packet. *)
Theorem partial_write_truncates_others :
  let w := after (run_all partial_write_run) in
  status (run_all partial_write_run) = Ok tt ∧
  sent_to 11 w = [0x20; 2; 0; 0] ++ [0x90; 3; 0; 6; 1] ++ [0x32; 8; 0; 1; 116; 0; 1; 1; 2; 3] ∧
  sent_to 10 w = [0x20; 2; 0; 0] ++ [0x90; 3; 0; 5; 1] ++ [116; 0; 1; 1; 2; 3].
Proof. vm_compute. done. Qed.

Definition many_topics : list Z :=
  encoded_by (CMqttSubscribe_encode (header_of_type SUBSCRIBE) 9
                (replicate 61 (mkTopic (of_string "t") 1))).

Definition many_topics_run : list (M unit) :=
  two_clients true ++ [arrive write_all many_topics client_a].

(** A SUBSCRIBE with more topics than SUBACK has room for in its buffer of 64 bytes
    closes the connection. *)
Lemma many_topics_closes :
  status (run_all many_topics_run) = Ok tt ∧ conn_on 10 (after (run_all many_topics_run)) = None.
Proof. vm_compute. done. Qed.

(** PUBLISH with QoS 0, the topic "t" and the payload 1 2 3 4. *)
Definition qos0_run : list (M unit) :=
  subscribed true ++ [arrive write_all [0x30; 7; 0; 1; 116; 1; 2; 3; 4] client_b].

(** QoS 0 is read as if it had a message identifier.  The first two bytes of
    the payload are taken for the identifier: the publisher gets a PUBACK it did not
    ask for, and the subscribers get a payload whose first two bytes are the
    server's number of the message. *)
Theorem qos0_payload_overwritten :
  let w := after (run_all qos0_run) in
  status (run_all qos0_run) = Ok tt ∧
  sent_to 11 w = [0x20; 2; 0; 0] ++ [0x40; 2; 1; 2] ∧
  sent_to 10 w = [0x20; 2; 0; 0] ++ [0x90; 3; 0; 5; 1] ++ [0x30; 7; 0; 1; 116; 0; 1; 3; 4].
Proof. vm_compute. done. Qed.

(** The start of a PUBLISH of 4115 bytes, and the rest. *)
Definition large_publish : list Z :=
  [0x32; 0x90; 0x20; 0; 1; 116; 0; 77] ++ replicate 4107 65.

Definition large_publish_run : list (M unit) :=
  two_clients true ++ [arrive write_all large_publish client_b;
                       arrive write_all (drop 4096 large_publish) client_b].

(** A packet longer than the receive buffer fills it; the next read has no room, and
    its result 0 is taken for the end of the stream. *)
Lemma large_packet_closes :
  status (run_all large_publish_run) = Ok tt ∧ conn_on 11 (after (run_all large_publish_run)) = None.
Proof. vm_compute. done. Qed.

(** Five PINGREQ and the first byte of a sixth, after [before]. *)
Definition pings_run (before : list (M unit)) : list (M unit) :=
  two_clients true ++ before ++
  [arrive write_all ([0xC0; 0; 0xC0; 0; 0xC0; 0; 0xC0; 0; 0xC0; 0] ++ [0xC0]) client_b].

Definition publish_ff : list Z := publish_bytes false 77 (of_string "t") (replicate 20 0xFF).

(** What is left in the buffer decides.  [remain_length] looks at four bytes
    whatever the number of bytes received: when the first byte of a packet arrives
    alone, stale bytes of an earlier payload after it are read as a malformed length
    and the connection is closed; without them it stays open. *)
Theorem stale_bytes_close_connection :
  status (run_all (pings_run [])) = Ok tt ∧
  conn_on 11 (after (run_all (pings_run []))) = Some client_b ∧
  status (run_all (pings_run [arrive write_all publish_ff client_b])) = Ok tt ∧
  conn_on 11 (after (run_all (pings_run [arrive write_all publish_ff client_b]))) = None.
Proof. vm_compute. done. Qed.

(** The acceptor's socket has no descriptor left, and -1 cannot be registered. *)
Definition accept_fails_env : Env := {|
  env_write := λ _ s l, write_all s l;
  env_read := λ _ _ k, ReadErr EAGAIN;
  env_accept := λ _, IoErr 24;
  env_epoll_wait := λ _ _, WaitOk [];
  env_epoll_ctl := λ _, Some 9;
  env_peer := λ _ _, [];
  env_time := λ _, 1000;
  env_junk := λ _ _, 0;
  env_order := λ _ X, elements X;
  env_topic_order := λ _ X, elements X;
  env_mqtt_bridge := 0;
|}.

(** The connection that was made for a client that could not be accepted is never
    deleted: nothing refers to it. *)
Lemma failed_accept_leaks :
  let w := (@event_step accept_fails_env EPOLLIN acceptor started).2 in
  is_Some (w_objs w !! 3) ∧ w_objs started !! 3 = None ∧
  m_map_event_handlers (w_poller w) = m_map_event_handlers (w_poller started) ∧
  interest_list (w_poller w) = interest_list (w_poller started).
Proof. vm_compute. split_and!; (done || by eexists). Qed.
