(* ===== verification/Pack.v ===== *)
(** * MessagePack: the writer

    Model of include/msgpack/msgpack/pack.hpp, the vendored library by which the
    server writes its sessions to disk, and of the parts of the adaptors that the
    stored types use.  What a function appends to the stream is the list it returns;
    [object] of include/msgpack/msgpack/object.hpp is the tree below.  The machine is
    little-endian; [_msgpack_store16] and the like reverse the bytes. *)

From S2P Require Import Prelude.
From stdpp Require Import options.

(** ** Objects *)

#[local] Unset Elimination Schemes.

(** [FLOAT] holds the 64 bits of its value; [EXT] the type and the data. *)
Inductive mp_object : Type :=
  | NIL
  | BOOLEAN (b : bool)
  | POSITIVE_INTEGER (u : Z)
  | NEGATIVE_INTEGER (i : Z)
  | FLOAT (d : Z)
  | STR (l : list Z)
  | BIN (l : list Z)
  | EXT (l : list Z)
  | ARRAY (l : list mp_object)
  | MAP (l : list (mp_object * mp_object)).

#[local] Set Elimination Schemes.

Section object_ind.
Context (P : mp_object → Prop).
Hypothesis (Pnil : P NIL) (Pbool : ∀ b, P (BOOLEAN b))
  (Ppos : ∀ u, P (POSITIVE_INTEGER u)) (Pneg : ∀ i, P (NEGATIVE_INTEGER i))
  (Pfloat : ∀ d, P (FLOAT d)) (Pstr : ∀ l, P (STR l)) (Pbin : ∀ l, P (BIN l)) (Pext : ∀ l, P (EXT l))
  (Parray : ∀ l, Forall P l → P (ARRAY l))
  (Pmap : ∀ l, Forall (λ p, P p.1 ∧ P p.2) l → P (MAP l)).

Fixpoint mp_object_ind (o : mp_object) : P o :=
  match o with
  | NIL => Pnil
  | BOOLEAN b => Pbool b
  | POSITIVE_INTEGER u => Ppos u
  | NEGATIVE_INTEGER i => Pneg i
  | FLOAT d => Pfloat d
  | STR l => Pstr l
  | BIN l => Pbin l
  | EXT l => Pext l
  | ARRAY l =>
      Parray l ((fix go (l : list mp_object) : Forall P l :=
        match l with
        | [] => Forall_nil_2 _
        | o :: l => Forall_cons_2 _ _ _ (mp_object_ind o) (go l)
        end) l)
  | MAP l =>
      Pmap l ((fix go (l : list (mp_object * mp_object)) : Forall (λ p, P p.1 ∧ P p.2) l :=
        match l with
        | [] => Forall_nil_2 _
        | (k, v) :: l => Forall_cons_2 _ (k, v) _ (conj (mp_object_ind k) (mp_object_ind v)) (go l)
        end) l)
  end.
End object_ind.

(** ** Big-endian numbers *)

(** [_msgpack_store16], [_msgpack_store32] and [_msgpack_store64]. *)
Fixpoint store_be (k : nat) (n : Z) : list Z :=
  match k with
  | O => []
  | S k => u8 (n / 256 ^ Z.of_nat k) :: store_be k n
  end.

Definition load_be (l : list Z) : Z := foldl (λ a b, 256 * a + b) 0 l.

Lemma length_store_be k n : length (store_be k n) = k.
Proof. induction k; simpl; congruence. Qed.

Lemma foldl_be a l : foldl (λ a b, 256 * a + b) a l = a * 256 ^ zlen l + load_be l.
Proof.
  unfold load_be. revert a. induction l as [|b l IH]; intros a; cbn [foldl].
  - unfold zlen. simpl. lia.
  - rewrite IH, (IH (256 * 0 + b)), zlen_cons, Z.pow_add_r by (pose proof (zlen_nonneg l); lia). lia.
Qed.

Lemma load_be_cons b l : load_be (b :: l) = b * 256 ^ zlen l + load_be l.
Proof. unfold load_be at 1. cbn [foldl]. rewrite foldl_be. lia. Qed.

Lemma load_store k n : load_be (store_be k n) = n mod 256 ^ Z.of_nat k.
Proof.
  induction k as [|k IH]; cbn [store_be].
  - by rewrite Z.mod_1_r.
  - rewrite load_be_cons, IH. unfold zlen. rewrite length_store_be, Nat2Z.inj_succ, Z.pow_succ_r by lia.
    unfold u8. rewrite (Z.mul_comm 256), Z.rem_mul_r by lia. change (2 ^ 8) with 256. lia.
Qed.

Lemma bytes_store_be k n : bytes (store_be k n).
Proof. induction k; simpl; constructor; [apply u8_range|done]. Qed.

(** ** The packer *)

Definition pack_nil : list Z := [0xc0].
Definition pack_true : list Z := [0xc3].
Definition pack_false : list Z := [0xc2].

Definition pack_imp_uint8 (d : Z) : list Z :=
  if d <? 2 ^ 7 then [u8 d] else [0xcc; u8 d].

Definition pack_imp_uint16 (d : Z) : list Z :=
  if d <? 2 ^ 7 then [u8 d]
  else if d <? 2 ^ 8 then [0xcc; u8 d]
  else 0xcd :: store_be 2 d.

Definition pack_imp_uint32 (d : Z) : list Z :=
  if d <? 2 ^ 8 then
    if d <? 2 ^ 7 then [u8 d] else [0xcc; u8 d]
  else if d <? 2 ^ 16 then 0xcd :: store_be 2 d
  else 0xce :: store_be 4 d.

Definition pack_imp_uint64 (d : Z) : list Z :=
  if d <? 2 ^ 8 then
    if d <? 2 ^ 7 then [u8 d] else [0xcc; u8 d]
  else if d <? 2 ^ 16 then 0xcd :: store_be 2 d
  else if d <? 2 ^ 32 then 0xce :: store_be 4 d
  else 0xcf :: store_be 8 d.

Definition pack_imp_int8 (d : Z) : list Z :=
  if d <? - 2 ^ 5 then [0xd0; u8 d] else [u8 d].

Definition pack_imp_int16 (d : Z) : list Z :=
  if d <? - 2 ^ 5 then
    if d <? - 2 ^ 7 then 0xd1 :: store_be 2 d else [0xd0; u8 d]
  else if d <? 2 ^ 7 then [u8 d]
  else if d <? 2 ^ 8 then [0xcc; u8 d]
  else 0xcd :: store_be 2 d.

Definition pack_imp_int32 (d : Z) : list Z :=
  if d <? - 2 ^ 5 then
    if d <? - 2 ^ 15 then 0xd2 :: store_be 4 d
    else if d <? - 2 ^ 7 then 0xd1 :: store_be 2 d
    else [0xd0; u8 d]
  else if d <? 2 ^ 7 then [u8 d]
  else if d <? 2 ^ 8 then [0xcc; u8 d]
  else if d <? 2 ^ 16 then 0xcd :: store_be 2 d
  else 0xce :: store_be 4 d.

Definition pack_imp_int64 (d : Z) : list Z :=
  if d <? - 2 ^ 5 then
    if d <? - 2 ^ 15 then
      if d <? - 2 ^ 31 then 0xd3 :: store_be 8 d else 0xd2 :: store_be 4 d
    else if d <? - 2 ^ 7 then 0xd1 :: store_be 2 d
    else [0xd0; u8 d]
  else if d <? 2 ^ 7 then [u8 d]
  else if d <? 2 ^ 16 then
    if d <? 2 ^ 8 then [0xcc; u8 d] else 0xcd :: store_be 2 d
  else if d <? 2 ^ 32 then 0xce :: store_be 4 d
  else 0xcf :: store_be 8 d.

(** [pack_float] and [pack_double] of the bits of a number. *)
Definition pack_float (bits : Z) : list Z := 0xca :: store_be 4 bits.
Definition pack_double (bits : Z) : list Z := 0xcb :: store_be 8 bits.

Definition pack_array (n : Z) : list Z :=
  if n <? 16 then [Z.lor 0x90 n]
  else if n <? 65536 then 0xdc :: store_be 2 n
  else 0xdd :: store_be 4 n.

Definition pack_map (n : Z) : list Z :=
  if n <? 16 then [Z.lor 0x80 n]
  else if n <? 65536 then 0xde :: store_be 2 n
  else 0xdf :: store_be 4 n.

Definition pack_str (l : Z) : list Z :=
  if l <? 32 then [Z.lor 0xa0 (u8 l)]
  else if l <? 256 then [0xd9; u8 l]
  else if l <? 65536 then 0xda :: store_be 2 l
  else 0xdb :: store_be 4 l.

Definition pack_bin (l : Z) : list Z :=
  if l <? 256 then [0xc4; u8 l]
  else if l <? 65536 then 0xc5 :: store_be 2 l
  else 0xc6 :: store_be 4 l.

Definition pack_ext (l type : Z) : list Z :=
  if l =? 1 then [0xd4; type]
  else if l =? 2 then [0xd5; type]
  else if l =? 4 then [0xd6; type]
  else if l =? 8 then [0xd7; type]
  else if l =? 16 then [0xd8; type]
  else if l <? 256 then [0xc7; u8 l; type]
  else if l <? 65536 then 0xc8 :: store_be 2 l ++ [type]
  else 0xc9 :: store_be 4 l ++ [type].

(** The formats of an integer do not depend on the type of its variable. *)
Ltac same_format := repeat (case_match; rewrite ?Z.ltb_lt, ?Z.ltb_ge in *; try done; try lia).

Lemma pack_imp_uint_agree d :
  0 <= d →
  (d < 2 ^ 8 → pack_imp_uint8 d = pack_imp_uint64 d) ∧
  (d < 2 ^ 16 → pack_imp_uint16 d = pack_imp_uint64 d) ∧
  (d < 2 ^ 32 → pack_imp_uint32 d = pack_imp_uint64 d).
Proof.
  intros Hd. unfold pack_imp_uint8, pack_imp_uint16, pack_imp_uint32, pack_imp_uint64.
  repeat split; intros H; same_format.
Qed.

Lemma pack_imp_int_agree d :
  (- 2 ^ 7 <= d < 2 ^ 7 → pack_imp_int8 d = pack_imp_int64 d) ∧
  (- 2 ^ 15 <= d < 2 ^ 15 → pack_imp_int16 d = pack_imp_int64 d) ∧
  (- 2 ^ 31 <= d < 2 ^ 31 → pack_imp_int32 d = pack_imp_int64 d).
Proof.
  unfold pack_imp_int8, pack_imp_int16, pack_imp_int32, pack_imp_int64.
  repeat split; intros H; same_format.
Qed.

Lemma pack_imp_int_nonneg d : 0 <= d < 2 ^ 63 → pack_imp_int64 d = pack_imp_uint64 d.
Proof. intros H. unfold pack_imp_int64, pack_imp_uint64. same_format. Qed.

(** [pack<object>]. *)
Fixpoint pack_object (o : mp_object) : list Z :=
  match o with
  | NIL => pack_nil
  | BOOLEAN b => if b then pack_true else pack_false
  | POSITIVE_INTEGER u => pack_imp_uint64 u
  | NEGATIVE_INTEGER i => pack_imp_int64 i
  | FLOAT d => pack_double d
  | STR l => pack_str (zlen l) ++ l
  | BIN l => pack_bin (zlen l) ++ l
  | EXT l => pack_ext (zlen l - 1) (default 0 (l !! 0%nat)) ++ drop 1 l
  | ARRAY l => pack_array (zlen l) ++ (l ≫= pack_object)
  | MAP l => pack_map (zlen l) ++ (l ≫= λ p, pack_object p.1 ++ pack_object p.2)
  end.

(** What a stored object may be: numbers of at most 64 bits, sizes of at most 32. *)
Fixpoint wf_object (o : mp_object) : Prop :=
  match o with
  | NIL | BOOLEAN _ => True
  | POSITIVE_INTEGER u => 0 <= u < 2 ^ 64
  | NEGATIVE_INTEGER i => - 2 ^ 63 <= i < 0
  | FLOAT d => 0 <= d < 2 ^ 64
  | STR l | BIN l => bytes l ∧ zlen l < 2 ^ 32
  | EXT l => bytes l ∧ 2 <= zlen l < 2 ^ 32
  | ARRAY l => zlen l < 2 ^ 32 ∧ foldr (λ o P, wf_object o ∧ P) True l
  | MAP l => zlen l < 2 ^ 32 ∧ foldr (λ p P, wf_object p.1 ∧ wf_object p.2 ∧ P) True l
  end.

Lemma wf_ARRAY l : wf_object (ARRAY l) ↔ zlen l < 2 ^ 32 ∧ Forall wf_object l.
Proof.
  cbn [wf_object]. apply and_iff_compat_l. induction l as [|o l IH]; simpl; [by split|].
  by rewrite IH, list.Forall_cons.
Qed.

Lemma wf_MAP l : wf_object (MAP l) ↔ zlen l < 2 ^ 32 ∧ Forall (λ p, wf_object p.1 ∧ wf_object p.2) l.
Proof.
  cbn [wf_object]. apply and_iff_compat_l. induction l as [|p l IH]; simpl; [by split|].
  rewrite IH, list.Forall_cons. tauto.
Qed.
