(* ===== verification/Unpack.v ===== *)
(** * MessagePack: the reader

    Model of include/msgpack/msgpack/unpack.hpp: the state machine
    [context::execute], its stack of containers, and [unpack].  Its positions are
    indices into the data; memory for the objects is taken to be available, and an
    exception is [Fail]. *)

From S2P Require Import Prelude Pack.
From stdpp Require Import options.

(** ** The machine *)

(** [msgpack_unpack_state]. *)
Definition MSGPACK_CS_HEADER : Z := 0x00.
Definition MSGPACK_ACS_STR_VALUE : Z := 0x20.
Definition MSGPACK_ACS_BIN_VALUE : Z := 0x21.
Definition MSGPACK_ACS_EXT_VALUE : Z := 0x22.

Inductive msgpack_container_type : Type :=
  | MSGPACK_CT_ARRAY_ITEM | MSGPACK_CT_MAP_KEY | MSGPACK_CT_MAP_VALUE.

Record unpack_stack : Type := mkFrame {
  fr_obj : mp_object;
  fr_count : Z;                            (* size_t *)
  fr_container_type : msgpack_container_type;
  fr_map_key : mp_object;
}.

Definition new_unpack_stack : unpack_stack := mkFrame NIL 0 MSGPACK_CT_ARRAY_ITEM NIL.

(** The back of the vector is the head of the list. *)
Record context : Type := mkContextState {
  m_cs : Z;                                (* uint32_t *)
  m_trail : Z;                             (* size_t *)
  m_stack : list unpack_stack;
  m_current : Z;
}.

(** The limits of [unpack_limit] by default. *)
Definition unpack_limit : Z := 0xffffffff.

(** Either [execute] returns a status, with [off], or it goes on; the boolean is
    [fixed_trail_again]. *)
Inductive outcome : Type :=
  | Return (ret off : Z) (c : context)
  | Loop (fixed_trail_again : bool) (c : context).

(** [push_item]: put an object into the container that waits for it, and a container
    that is complete into the next; the flag tells that none is left. *)
Fixpoint push_item (below : list unpack_stack) (top : unpack_stack) (obj : mp_object)
    : res (bool * mp_object * list unpack_stack) :=
  match below with
  | [] => Ok (true, obj, [top])
  | sp :: below =>
      match fr_container_type sp, fr_obj sp with
      | MSGPACK_CT_ARRAY_ITEM, ARRAY l =>
          let count := u64 (fr_count sp - 1) in
          let sp := mkFrame (ARRAY (l ++ [obj])) count (fr_container_type sp) (fr_map_key sp) in
          if count =? 0 then push_item below sp (fr_obj sp)
          else Ok (false, obj, top :: sp :: below)
      | MSGPACK_CT_MAP_KEY, MAP l =>
          Ok (false, obj, top :: mkFrame (MAP l) (fr_count sp) MSGPACK_CT_MAP_VALUE obj :: below)
      | MSGPACK_CT_MAP_VALUE, MAP l =>
          let count := u64 (fr_count sp - 1) in
          let sp := mkFrame (MAP (l ++ [(fr_map_key sp, obj)])) count
                      (if count =? 0 then MSGPACK_CT_MAP_VALUE else MSGPACK_CT_MAP_KEY) (fr_map_key sp) in
          if count =? 0 then push_item below sp (fr_obj sp)
          else Ok (false, obj, top :: sp :: below)
      | _, _ => Stop OutOfBounds
      end
  end.

Definition push_proc (obj : mp_object) (c : context) : res outcome :=
  match m_stack c with
  | [] => Stop OutOfBounds
  | top :: below =>
      '(finished, obj, stack) ← push_item below top obj;
      Ok (if finished : bool then
            let stack := match stack with
                         | [] => []
                         | sp :: stack => mkFrame obj (fr_count sp) (fr_container_type sp) (fr_map_key sp) :: stack
                         end in
            Return 1 (m_current c + 1) (mkContextState (m_cs c) (m_trail c) stack (m_current c + 1))
          else Loop false (mkContextState MSGPACK_CS_HEADER (m_trail c) stack (m_current c + 1)))
  end.

(** [push_aggregate] for a container of [tmp] elements, empty as [empty]. *)
Definition push_aggregate (empty : mp_object) (container_type : msgpack_container_type) (tmp : Z) (c : context)
    : res outcome :=
  match m_stack c with
  | [] => Stop OutOfBounds
  | sp :: below =>
      if unpack_limit <? tmp then Fail
      else if tmp =? 0 then
        push_proc empty (mkContextState (m_cs c) (m_trail c)
          (mkFrame empty (fr_count sp) (fr_container_type sp) (fr_map_key sp) :: below) (m_current c))
      else if zlen (m_stack c) <=? unpack_limit then
        Ok (Loop false (mkContextState MSGPACK_CS_HEADER (m_trail c)
              (new_unpack_stack :: mkFrame empty tmp container_type (fr_map_key sp) :: below)
              (m_current c + 1)))
      else Fail
  end.

(** The [k] bytes at [n]. *)
Definition rd_bytes (data : list Z) (n k : Z) : res (list Z) :=
  if (0 <=? n) && (0 <=? k) && (n + k <=? zlen data) then Ok (take (Z.to_nat k) (drop (Z.to_nat n) data))
  else Stop OutOfBounds.

Definition load (data : list Z) (n k : Z) : res Z := l ← rd_bytes data n k; Ok (load_be l).

(** [unpack_int8] and the like: [z] is the value as a signed number of [k] bytes. *)
Definition signed_value (k z : Z) : Z := (z + 2 ^ (8 * k - 1)) mod 2 ^ (8 * k) - 2 ^ (8 * k - 1).

Definition unpack_int (k z : Z) : mp_object :=
  let d := signed_value k z in
  if 0 <=? d then POSITIVE_INTEGER d else NEGATIVE_INTEGER d.

(** The conversion of the bits of a [float] to those of a [double]. *)
Definition float_bits (b : Z) : Z :=
  let sign := Z.shiftl (b / 2 ^ 31) 63 in
  let e := (b / 2 ^ 23) mod 256 in
  let m := b mod 2 ^ 23 in
  if e =? 255 then sign + 2047 * 2 ^ 52 + m * 2 ^ 29
  else if e =? 0 then
    if m =? 0 then sign
    else let k := Z.log2 m in sign + (k + 874) * 2 ^ 52 + (m * 2 ^ (52 - k) - 2 ^ 52)
  else sign + (e + 896) * 2 ^ 52 + m * 2 ^ 29.

Definition unpack_ext (l : list Z) : res mp_object :=
  if unpack_limit <? zlen l then Fail else Ok (EXT l).

Definition set_value (cs trail : Z) (c : context) : context :=
  mkContextState cs trail (m_stack c) (m_current c).

(** A value of [m_trail] bytes follows; if that is 0, it is complete. *)
Definition value_follows (cs trail : Z) (empty : mp_object) (c : context) : res outcome :=
  if trail =? 0 then push_proc empty (set_value (m_cs c) trail c)
  else Ok (Loop true (set_value cs trail c)).

(** The trail of the header bytes 0xc4 to 0xdf. *)
Definition trails : list Z :=
  [1; 2; 4; 1; 2; 4; 4; 8; 1; 2; 4; 8; 1; 2; 4; 8; 2; 3; 5; 9; 17; 1; 2; 4; 2; 4; 2; 4].

(** The part of an iteration that reads a value: [n] is where it begins. *)
Definition read_value (data : list Z) (n : Z) (c : context) : res outcome :=
  let value k f := z ← load data n k; push_proc (f z) c in
  let ext k := l ← rd_bytes data n k; o ← unpack_ext l; push_proc o c in
  let follows k cs empty := z ← load data n k; value_follows cs z empty c in
  let ext_follows k := z ← load data n k; Ok (Loop true (set_value MSGPACK_ACS_EXT_VALUE (z + 1) c)) in
  let aggregate k empty ct := z ← load data n k; push_aggregate empty ct z c in
  match m_cs c with
  | 0x0a => value 4 (λ z, FLOAT (float_bits z))
  | 0x0b => value 8 FLOAT
  | 0x0c => value 1 POSITIVE_INTEGER
  | 0x0d => value 2 POSITIVE_INTEGER
  | 0x0e => value 4 POSITIVE_INTEGER
  | 0x0f => value 8 POSITIVE_INTEGER
  | 0x10 => value 1 (unpack_int 1)
  | 0x11 => value 2 (unpack_int 2)
  | 0x12 => value 4 (unpack_int 4)
  | 0x13 => value 8 (unpack_int 8)
  | 0x14 => ext (1 + 1)
  | 0x15 => ext (2 + 1)
  | 0x16 => ext (4 + 1)
  | 0x17 => ext (8 + 1)
  | 0x18 => ext (16 + 1)
  | 0x19 => follows 1 MSGPACK_ACS_STR_VALUE (STR [])
  | 0x04 => follows 1 MSGPACK_ACS_BIN_VALUE (BIN [])
  | 0x07 => ext_follows 1
  | 0x1a => follows 2 MSGPACK_ACS_STR_VALUE (STR [])
  | 0x05 => follows 2 MSGPACK_ACS_BIN_VALUE (BIN [])
  | 0x08 => ext_follows 2
  | 0x1b => follows 4 MSGPACK_ACS_STR_VALUE (STR [])
  | 0x06 => follows 4 MSGPACK_ACS_BIN_VALUE (BIN [])
  | 0x09 => ext_follows 4
  | 0x20 => l ← rd_bytes data n (m_trail c); push_proc (STR l) c
  | 0x21 => l ← rd_bytes data n (m_trail c); push_proc (BIN l) c
  | 0x22 => ext (m_trail c)
  | 0x1c => aggregate 2 (ARRAY []) MSGPACK_CT_ARRAY_ITEM
  | 0x1d => aggregate 4 (ARRAY []) MSGPACK_CT_ARRAY_ITEM
  | 0x1e => aggregate 2 (MAP []) MSGPACK_CT_MAP_KEY
  | 0x1f => aggregate 4 (MAP []) MSGPACK_CT_MAP_KEY
  | _ => Ok (Return (-1) (m_current c) c)
  end.

(** The second half of an iteration. *)
Definition value_step (data : list Z) (again : bool) (c : context) : res outcome :=
  let cur := if again then m_current c + 1 else m_current c in
  let c := mkContextState (m_cs c) (m_trail c) (m_stack c) cur in
  if zlen data - cur <? m_trail c then Ok (Return 0 cur c)
  else read_value data cur (mkContextState (m_cs c) (m_trail c) (m_stack c) (cur + m_trail c - 1)).

(** The first half, on the byte that begins an object. *)
Definition header_step (data : list Z) (c : context) : res outcome :=
  selector ← rd data (m_current c);
  if (0x00 <=? selector) && (selector <=? 0x7f) then push_proc (POSITIVE_INTEGER selector) c
  else if (0xe0 <=? selector) && (selector <=? 0xff) then push_proc (unpack_int 1 selector) c
  else if (0xc4 <=? selector) && (selector <=? 0xdf) then
    trail ← rd trails (selector - 0xc4);
    value_step data true (set_value (Z.land selector 0x1f) trail c)
  else if (0xa0 <=? selector) && (selector <=? 0xbf) then
    let trail := Z.land selector 0x1f in
    if trail =? 0 then push_proc (STR []) (set_value (m_cs c) trail c)
    else value_step data true (set_value MSGPACK_ACS_STR_VALUE trail c)
  else if (0x90 <=? selector) && (selector <=? 0x9f) then
    push_aggregate (ARRAY []) MSGPACK_CT_ARRAY_ITEM (Z.land selector 0x0f) c
  else if (0x80 <=? selector) && (selector <=? 0x8f) then
    push_aggregate (MAP []) MSGPACK_CT_MAP_KEY (Z.land selector 0x0f) c
  else if selector =? 0xc2 then push_proc (BOOLEAN false) c
  else if selector =? 0xc3 then push_proc (BOOLEAN true) c
  else if selector =? 0xc0 then push_proc NIL c
  else Ok (Return (-1) (m_current c) c).

Definition step (data : list Z) (again : bool) (c : context) : res outcome :=
  if m_cs c =? MSGPACK_CS_HEADER then header_step data c else value_step data again c.

(** The loop; every iteration advances. *)
Fixpoint execute_loop (fuel : nat) (data : list Z) (again : bool) (c : context) : res (Z * Z * context) :=
  match fuel with
  | O => Stop FuelOut
  | S fuel =>
      o ← step data again c;
      match o with
      | Return ret off c => Ok (ret, off, c)
      | Loop again c =>
          if m_current c =? zlen data then Ok (0, m_current c, c)
          else execute_loop fuel data again c
      end
  end.

(** [execute(data, len, off)] of a context in the state [c]. *)
Definition execute (data : list Z) (off : Z) (c : context) : res (Z * Z * context) :=
  let c := mkContextState (m_cs c) (m_trail c) (m_stack c) off in
  if off =? zlen data then Ok (0, off, c)
  else execute_loop (length data) data false c.

(** ** [unpack] *)

Inductive unpack_return : Type :=
  | UNPACK_SUCCESS (o : mp_object) | UNPACK_EXTRA_BYTES (o : mp_object) | UNPACK_CONTINUE | UNPACK_PARSE_ERROR.

Definition unpack_imp (data : list Z) (off : Z) : res unpack_return :=
  if zlen data <=? off then Ok UNPACK_CONTINUE
  else
    '(e, noff, ctx) ← execute data off (mkContextState MSGPACK_CS_HEADER 0 [new_unpack_stack] 0);
    if e <? 0 then Ok UNPACK_PARSE_ERROR
    else if e =? 0 then Ok UNPACK_CONTINUE
    else
      let o := match m_stack ctx with [] => NIL | sp :: _ => fr_obj sp end in
      Ok (if noff <? zlen data then UNPACK_EXTRA_BYTES o else UNPACK_SUCCESS o).

Definition unpack (data : list Z) : res mp_object :=
  r ← unpack_imp data 0;
  match r with
  | UNPACK_SUCCESS o | UNPACK_EXTRA_BYTES o => Ok o
  | UNPACK_CONTINUE | UNPACK_PARSE_ERROR => Fail
  end.

Example unpack_sample :
  let o := MAP [(STR [97], ARRAY [POSITIVE_INTEGER 70000; NEGATIVE_INTEGER (-5); NEGATIVE_INTEGER (-70000); STR []; BIN [1; 2]]);
                (NIL, ARRAY [ARRAY []; MAP []; BOOLEAN true; EXT [7; 8; 9; 9]])] in
  unpack (pack_object o) = Ok o.
Proof. vm_compute. reflexivity. Qed.
