(* ===== verification/Msgpack.v ===== *)
(** * MessagePack: the reader inverts the writer

    The state machine of Unpack.v reads back every object that Pack.v writes, and on
    any bytes it ends, without a read outside the data. *)

From S2P Require Import Prelude Pack Unpack.
From stdpp Require Import options.

(** ** Reading what is at a position *)

Lemma rd_bytes_app pre l post : rd_bytes (pre ++ l ++ post) (zlen pre) (zlen l) = Ok l.
Proof.
  unfold rd_bytes. pose proof (zlen_nonneg pre). pose proof (zlen_nonneg l). pose proof (zlen_nonneg post).
  rewrite !zlen_app. rewrite !(proj2 (Z.leb_le _ _)) by lia. cbn [andb]. f_equal.
  unfold zlen. rewrite !Nat2Z.id, drop_app_length. apply take_app_length.
Qed.

(** The same one byte later, after a header. *)
Lemma rd_bytes_next pre b l post :
  rd_bytes (pre ++ b :: l ++ post) (zlen pre + 1) (zlen l) = Ok l.
Proof.
  replace (pre ++ b :: l ++ post) with ((pre ++ [b]) ++ l ++ post) by by rewrite <- app_assoc.
  replace (zlen pre + 1) with (zlen (pre ++ [b])) by (rewrite zlen_app; done).
  apply rd_bytes_app.
Qed.

Lemma signed_value_of k i : 0 < k → - 2 ^ (8 * k - 1) <= i < 2 ^ (8 * k - 1) → signed_value k (i mod 256 ^ k) = i.
Proof.
  intros Hk Hi. unfold signed_value. change 256 with (2 ^ 8). rewrite <- Z.pow_mul_r by lia.
  assert (2 ^ (8 * k) = 2 * 2 ^ (8 * k - 1)) as H2 by (rewrite <- Z.pow_succ_r by lia; f_equal; lia).
  rewrite Zplus_mod_idemp_l, Z.mod_small by lia. lia.
Qed.

Lemma or_small b n k : 0 <= k → 0 <= n < 2 ^ k → Z.lor (Z.shiftl b k) n = b * 2 ^ k + n.
Proof.
  intros Hk Hn. rewrite <- Z.shiftl_mul_pow2 by done. symmetry. apply Z.add_nocarry_lor.
  apply Z.bits_inj'. intros i Hi. rewrite Z.land_spec, Z.bits_0.
  destruct (Z.lt_ge_cases i k).
  - by rewrite Z.shiftl_spec_low by lia.
  - destruct (decide (n = 0)) as [->|]; [by rewrite Z.bits_0, andb_false_r|].
    rewrite (Z.bits_above_log2 n i); [apply andb_false_r|lia|]. apply Z.log2_lt_pow2; [lia|].
    pose proof (Z.pow_le_mono_r 2 k i). lia.
Qed.

(** ** One object *)

(** What the loop does with the outcome of an iteration. *)
Definition after (fuel : nat) (data : list Z) (r : res outcome) : res (Z * Z * context) :=
  o ← r;
  match o with
  | Return ret off c => Ok (ret, off, c)
  | Loop again c =>
      if m_current c =? zlen data then Ok (0, m_current c, c) else execute_loop fuel data again c
  end.

Lemma execute_loop_S fuel data again c :
  execute_loop (S fuel) data again c = after fuel data (step data again c).
Proof. reflexivity. Qed.

(** The machine at the beginning of an object. *)
Abbreviation at_header trail stack n := (mkContextState MSGPACK_CS_HEADER trail stack n) (only parsing).

(** From the position [n] on, the machine reads [o] and pushes it when it is at its
    last byte. *)
Definition reads (data : list Z) (n : Z) (o : mp_object) (len : nat) (below : list unpack_stack) : Prop :=
  ∀ trail top fuel, ∃ fuel' cs' trail' top', (fuel <= fuel')%nat ∧
    execute_loop (len + fuel) data false (at_header trail (top :: below) n) =
    after fuel' data (push_proc o (mkContextState cs' trail' (top' :: below) (n + Z.of_nat len - 1))).

Lemma reads_step data n o len below :
  (0 < len)%nat →
  (∀ trail top, ∃ cs' trail' top',
     header_step data (at_header trail (top :: below) n) =
     push_proc o (mkContextState cs' trail' (top' :: below) (n + Z.of_nat len - 1))) →
  reads data n o len below.
Proof.
  intros Hlen H trail top fuel. destruct (H trail top) as (cs'&trail'&top'&Hs).
  exists (pred len + fuel)%nat, cs', trail', top'. split; [lia|].
  replace (len + fuel)%nat with (S (pred len + fuel)) by lia.
  rewrite execute_loop_S. unfold step. cbn [m_cs]. by rewrite Z.eqb_refl, Hs.
Qed.

(** The header byte of an object with a trail. *)
Lemma header_trail data pre b args post trail stack :
  data = pre ++ b :: args ++ post → 0xc4 <= b <= 0xdf → rd trails (b - 0xc4) = Ok (zlen args) →
  header_step data (at_header trail stack (zlen pre)) =
  read_value data (zlen pre + 1) (mkContextState (Z.land b 0x1f) (zlen args) stack (zlen pre + zlen args)).
Proof.
  intros -> Hb Ht. unfold header_step. cbn [m_current]. rewrite rd_app. cbn [mbind res_bind].
  rewrite !(proj2 (Z.leb_gt _ 127)), !(proj2 (Z.leb_gt 224 _)), !(proj2 (Z.leb_le _ _)) by lia.
  cbn [andb]. rewrite Ht. cbn [mbind res_bind]. unfold value_step, set_value. cbn [m_current m_trail m_cs m_stack].
  pose proof (zlen_nonneg post). rewrite (proj2 (Z.ltb_ge _ _)) by (rewrite zlen_app, zlen_cons, zlen_app; lia).
  f_equal. f_equal. lia.
Qed.

(** An object of a header and a number. *)
Lemma reads_number f data pre b k z post o below :
  data = pre ++ (b :: store_be k z) ++ post →
  0xc4 <= b <= 0xdf → rd trails (b - 0xc4) = Ok (Z.of_nat k) →
  (∀ n c, m_cs c = Z.land b 0x1f →
    read_value data n c = (z ← load data n (Z.of_nat k); push_proc (f z) c)) →
  f (z mod 256 ^ Z.of_nat k) = o →
  reads data (zlen pre) o (S k) below.
Proof.
  intros Hdata Hb Ht Hread Hf. apply reads_step; [lia|]. intros trail top.
  assert (zlen (store_be k z) = Z.of_nat k) as Hk by (unfold zlen; by rewrite length_store_be).
  rewrite (header_trail data pre b (store_be k z) post) by (done || by rewrite Hk).
  rewrite Hread by done. unfold load. rewrite Hdata, <- Hk, <- app_comm_cons, rd_bytes_next. cbn [mbind res_bind].
  rewrite load_store, Hf. eexists _, _, top. do 2 f_equal. unfold zlen in *. lia.
Qed.

(** An object of one byte. *)
Lemma reads_byte data pre b post o below :
  data = pre ++ [b] ++ post →
  (∀ c, m_current c = zlen pre → header_step data c = push_proc o c) →
  reads data (zlen pre) o 1 below.
Proof.
  intros _ H. apply reads_step; [lia|]. intros trail top. rewrite H by done.
  eexists _, _, top. do 2 f_equal. lia.
Qed.

Lemma store_be_1 z : [u8 z] = store_be 1 z.
Proof. cbn [store_be]. change (256 ^ Z.of_nat 0) with 1. by rewrite Z.div_1_r. Qed.

Ltac number b f :=
  match goal with
  | H : ?data = ?pre ++ (b :: store_be ?k ?z) ++ ?post |- reads _ _ _ ?len _ =>
      change len with (S k);
      apply (reads_number f data pre b k z post); [exact H|lia|reflexivity|intros ? ? Hcs; unfold read_value; by rewrite Hcs|]
  end.

Lemma reads_uint data pre u post below :
  0 <= u < 2 ^ 64 → data = pre ++ pack_imp_uint64 u ++ post →
  reads data (zlen pre) (POSITIVE_INTEGER u) (length (pack_imp_uint64 u)) below.
Proof.
  intros Hu. unfold pack_imp_uint64. destruct (Z.ltb_spec u (2 ^ 8)).
  { destruct (Z.ltb_spec u (2 ^ 7)).
    - rewrite u8_small by lia. intros Hd. apply (reads_byte data pre u post); [done|].
      intros c Hc. unfold header_step. rewrite Hc, Hd. change ([u] ++ post) with (u :: post).
      rewrite rd_app. cbn [mbind res_bind]. by rewrite !(proj2 (Z.leb_le _ _)) by lia.
    - rewrite store_be_1. intros Hd. number 0xcc POSITIVE_INTEGER. by rewrite Z.mod_small by lia. }
  destruct (Z.ltb_spec u (2 ^ 16)); [|destruct (Z.ltb_spec u (2 ^ 32))]; intros Hd.
  - number 0xcd POSITIVE_INTEGER. by rewrite Z.mod_small by lia.
  - number 0xce POSITIVE_INTEGER. by rewrite Z.mod_small by lia.
  - number 0xcf POSITIVE_INTEGER. by rewrite Z.mod_small by lia.
Qed.

Lemma unpack_int_of k i :
  0 < k → - 2 ^ (8 * k - 1) <= i < 0 → unpack_int k (i mod 256 ^ k) = NEGATIVE_INTEGER i.
Proof.
  intros Hk Hi. unfold unpack_int. rewrite signed_value_of by lia. by rewrite (proj2 (Z.leb_gt 0 i)) by lia.
Qed.

Lemma reads_negative data pre i post below :
  - 2 ^ 63 <= i < 0 → data = pre ++ pack_imp_int64 i ++ post →
  reads data (zlen pre) (NEGATIVE_INTEGER i) (length (pack_imp_int64 i)) below.
Proof.
  intros Hi. unfold pack_imp_int64. rewrite store_be_1.
  destruct (Z.ltb_spec i (- 2 ^ 5)).
  { destruct (Z.ltb_spec i (- 2 ^ 15)); [destruct (Z.ltb_spec i (- 2 ^ 31))|destruct (Z.ltb_spec i (- 2 ^ 7))];
      intros Hd.
    - number 0xd3 (unpack_int 8). apply unpack_int_of; lia.
    - number 0xd2 (unpack_int 4). apply unpack_int_of; lia.
    - number 0xd1 (unpack_int 2). apply unpack_int_of; lia.
    - number 0xd0 (unpack_int 1). apply unpack_int_of; lia. }
  rewrite (proj2 (Z.ltb_lt i (2 ^ 7))), <- store_be_1 by lia.
  assert (u8 i = 256 + i) as Hu. { unfold u8. rewrite <- (Z_mod_plus_full i 1), Z.mod_small; lia. }
  intros Hd. apply (reads_byte data pre (u8 i) post); [done|]. intros c Hc.
  unfold header_step. rewrite Hc, Hd. change ([u8 i] ++ post) with (u8 i :: post).
  rewrite rd_app. cbn [mbind res_bind].
  rewrite (proj2 (Z.leb_gt (u8 i) 127)), !(proj2 (Z.leb_le _ _)) by lia. cbn [andb].
  unfold u8. change (2 ^ 8) with (256 ^ 1). rewrite unpack_int_of by lia. done.
Qed.

Lemma reads_double data pre d post below :
  0 <= d < 2 ^ 64 → data = pre ++ pack_double d ++ post →
  reads data (zlen pre) (FLOAT d) (length (pack_double d)) below.
Proof.
  intros Hd. unfold pack_double. intros Hdata. cbn [length]. rewrite length_store_be.
  number 0xcb FLOAT. by rewrite Z.mod_small by lia.
Qed.

(** ** Sized objects *)

(** A header and a number from which the size of the value follows. *)
Lemma reads_sized data pre b k z cs l post o below (mk : list Z → mp_object) :
  data = pre ++ (b :: store_be k z ++ l) ++ post →
  0 <= z < 256 ^ Z.of_nat k → (0 < k)%nat →
  0xc4 <= b <= 0xdf → rd trails (b - 0xc4) = Ok (Z.of_nat k) →
  (∀ n c, m_cs c = Z.land b 0x1f → load data n (Z.of_nat k) = Ok z →
    read_value data n c = value_follows cs (zlen l) (mk []) c) →
  (∀ n c, m_cs c = cs → rd_bytes data n (m_trail c) = Ok l → read_value data n c = push_proc (mk l) c) →
  cs ≠ MSGPACK_CS_HEADER → mk l = o →
  reads data (zlen pre) o (S (k + length l)) below.
Proof.
  intros Hdata Hl Hk Hb Ht Hhead Hread Hcs <-. set (s := store_be k z) in *.
  assert (zlen s = Z.of_nat k) as Hs by (unfold s, zlen; by rewrite length_store_be).
  assert (load_be s = z) as Hload by (unfold s; rewrite load_store; apply Z.mod_small; lia).
  assert (data = pre ++ b :: s ++ (l ++ post)) as Hdata1.
  { rewrite Hdata, <- app_comm_cons. by rewrite <- app_assoc. }
  intros trail top fuel.
  assert (header_step data (at_header trail (top :: below) (zlen pre)) =
    value_follows cs (zlen l) (mk []) (mkContextState (Z.land b 0x1f) (zlen s) (top :: below) (zlen pre + zlen s)))
    as Hhs.
  { rewrite (header_trail data pre b s (l ++ post)) by (done || by rewrite Hs).
    rewrite Hhead; [done|done|]. unfold load. rewrite Hdata1, <- Hs, rd_bytes_next. cbn [mbind res_bind].
    by rewrite Hload. }
  cbn [plus]. rewrite execute_loop_S. unfold step at 1. cbn [m_cs]. rewrite Z.eqb_refl, Hhs.
  unfold value_follows. destruct (Z.eqb_spec (zlen l) 0) as [H0|H0].
  { assert (l = []) as -> by (destruct l; [done|rewrite zlen_cons in H0; pose proof (zlen_nonneg l); lia]).
    eexists _, _, _, top. split; [|do 2 f_equal]; [|].
    2:{ unfold set_value. cbn [m_cs m_stack m_current]. f_equal. rewrite Hs. simpl. lia. }
    lia. }
  unfold set_value. cbn [m_cs m_stack m_current]. unfold after at 1. cbn [mbind res_bind m_current].
  pose proof (zlen_nonneg post). pose proof (zlen_nonneg l).
  assert (zlen data = zlen pre + 1 + zlen s + zlen l + zlen post) as Hlen.
  { rewrite Hdata1, zlen_app, zlen_cons, !zlen_app. lia. }
  rewrite (proj2 (Z.eqb_neq (zlen pre + zlen s) _)) by lia.
  destruct (length l + k)%nat as [|fuel'] eqn:Hfuel; [lia|].
  replace (k + length l + fuel)%nat with (S (fuel' + fuel)) by lia.
  rewrite execute_loop_S. unfold step. cbn [m_cs]. rewrite (proj2 (Z.eqb_neq cs _)) by done.
  unfold value_step. cbn [m_cs m_stack m_current m_trail].
  rewrite (proj2 (Z.ltb_ge _ _)) by lia. rewrite Hread; [|done|].
  - eexists (fuel' + fuel)%nat, _, _, top. split; [lia|]. do 3 f_equal. unfold zlen in *. lia.
  - cbn [m_trail]. replace data with ((pre ++ b :: s) ++ l ++ post) by by rewrite Hdata1, <- app_assoc.
    replace (zlen pre + zlen s + 1) with (zlen (pre ++ b :: s)) by (rewrite zlen_app, zlen_cons; lia).
    apply rd_bytes_app.
Qed.

Ltac sized b cs :=
  match goal with
  | H : ?data = ?pre ++ ((b :: store_be ?k ?z) ++ ?l) ++ ?post |- reads _ _ (?mk _) ?len _ =>
      replace len with (S (k + length l)) by (rewrite length_app; cbn [length]; rewrite length_store_be; done);
      apply (reads_sized data pre b k z cs l post _ _ mk);
      [exact H|cbn; lia|lia|lia|reflexivity
      |intros n c Hcs Hz; transitivity (size ← load data n (Z.of_nat k); value_follows cs size (mk []) c);
       [unfold read_value; by rewrite Hcs|by rewrite Hz]
      |intros n c Hcs Hrd; transitivity (value ← rd_bytes data n (m_trail c); push_proc (mk value) c);
       [unfold read_value; by rewrite Hcs|by rewrite Hrd]
      |done|done]
  end.

(** A header byte that holds a small size. *)
Lemma small_size b n k : 0 <= k → 0 <= n < 2 ^ k → b mod 2 ^ k = 0 → 0 <= b →
  Z.lor b n = b + n ∧ Z.land (b + n) (Z.ones k) = n.
Proof.
  intros Hk Hn Hb Hb0. assert (b = b / 2 ^ k * 2 ^ k) as Heq by (pose proof (Z.div_mod b (2 ^ k)); lia).
  split.
  - rewrite Heq at 1. rewrite <- Z.shiftl_mul_pow2, or_small by done. by rewrite <- Heq.
  - rewrite Z.land_ones by done. rewrite Heq, Z.add_comm, Z.mod_add by lia. apply Z.mod_small. lia.
Qed.

Lemma reads_str data pre l post below :
  zlen l < 2 ^ 32 → data = pre ++ (pack_str (zlen l) ++ l) ++ post →
  reads data (zlen pre) (STR l) (length (pack_str (zlen l) ++ l)) below.
Proof.
  intros Hl. pose proof (zlen_nonneg l) as Hl0. unfold pack_str.
  destruct (Z.ltb_spec (zlen l) 32) as [Hs|Hs].
  - destruct (small_size 0xa0 (zlen l) 5) as [Hor Hand]; [lia|lia|done|lia|].
    rewrite u8_small, Hor by lia. intros Hd. apply reads_step; [rewrite length_app; simpl; lia|].
    intros trail top. unfold header_step. cbn [m_current]. 
    assert (data = pre ++ (160 + zlen l) :: l ++ post) as Hd' by (by rewrite Hd).
    assert (rd data (zlen pre) = Ok (160 + zlen l)) as -> by by rewrite Hd', rd_app.
    cbn [mbind res_bind].
    rewrite (proj2 (Z.leb_gt _ 127)), (proj2 (Z.leb_gt 224 _)), (proj2 (Z.leb_gt 196 _)) by lia.
    rewrite !(proj2 (Z.leb_le _ _)) by lia. cbn [andb].
    change 0x1f with (Z.ones 5). rewrite Hand. rewrite length_app. cbn [length].
    destruct (Z.eqb_spec (zlen l) 0) as [H0|H0].
    + assert (l = []) as -> by (destruct l; [done|rewrite zlen_cons in H0; pose proof (zlen_nonneg l); lia]).
      eexists _, _, top. unfold set_value. cbn [m_cs m_stack m_current]. do 2 f_equal. simpl. lia.
    + unfold value_step, set_value. cbn [m_cs m_stack m_current m_trail].
      pose proof (zlen_nonneg post).
      rewrite (proj2 (Z.ltb_ge _ _)) by (rewrite Hd', zlen_app, zlen_cons, zlen_app; lia).
      change (read_value data ?n ?c) with (l ← rd_bytes data n (zlen l); push_proc (STR l) c).
      assert (rd_bytes data (zlen pre + 1) (zlen l) = Ok l) as -> by by rewrite Hd', rd_bytes_next.
      cbn [mbind res_bind].
      eexists _, _, top. do 2 f_equal. unfold zlen. lia.
  - rewrite store_be_1. destruct (Z.ltb_spec (zlen l) 256); [|destruct (Z.ltb_spec (zlen l) 65536)]; intros Hd.
    + sized 0xd9 MSGPACK_ACS_STR_VALUE.
    + sized 0xda MSGPACK_ACS_STR_VALUE.
    + sized 0xdb MSGPACK_ACS_STR_VALUE.
Qed.

Lemma reads_bin data pre l post below :
  zlen l < 2 ^ 32 → data = pre ++ (pack_bin (zlen l) ++ l) ++ post →
  reads data (zlen pre) (BIN l) (length (pack_bin (zlen l) ++ l)) below.
Proof.
  intros Hl. pose proof (zlen_nonneg l) as Hl0. unfold pack_bin. rewrite store_be_1.
  destruct (Z.ltb_spec (zlen l) 256); [|destruct (Z.ltb_spec (zlen l) 65536)]; intros Hd.
  - sized 0xc4 MSGPACK_ACS_BIN_VALUE.
  - sized 0xc5 MSGPACK_ACS_BIN_VALUE.
  - sized 0xc6 MSGPACK_ACS_BIN_VALUE.
Qed.

Lemma unpack_ext_ok l : zlen l < 2 ^ 32 → unpack_ext l = Ok (EXT l).
Proof. intros. unfold unpack_ext, unpack_limit. by rewrite (proj2 (Z.ltb_ge _ _)) by lia. Qed.

(** The sizes that have a header of their own. *)
Lemma reads_fixext data pre b k t d post below :
  data = pre ++ (b :: t :: d) ++ post → zlen (t :: d) = k →
  0xc4 <= b <= 0xdf → rd trails (b - 0xc4) = Ok k → k < 2 ^ 32 →
  (∀ n c, m_cs c = Z.land b 0x1f →
    read_value data n c = (l ← rd_bytes data n k; o ← unpack_ext l; push_proc o c)) →
  reads data (zlen pre) (EXT (t :: d)) (S (length (t :: d))) below.
Proof.
  intros Hd Hk Hb Ht Hk32 Hread. apply reads_step; [lia|]. intros trail top.
  rewrite (header_trail data pre b (t :: d) post) by (done || by rewrite Hk).
  rewrite Hread by done. rewrite Hd, <- Hk. change (pre ++ (b :: t :: d) ++ post) with (pre ++ b :: (t :: d) ++ post).
  rewrite rd_bytes_next. cbn [mbind res_bind]. rewrite unpack_ext_ok by lia. cbn [mbind res_bind].
  eexists _, _, top. do 2 f_equal. unfold zlen. cbn [length]. lia.
Qed.

Ltac fixext b k :=
  match goal with
  | |- ?data = ?pre ++ ((_ :: ?t :: _) ++ ?d) ++ ?post → _ =>
      intros ?; apply (reads_fixext data pre b k t d post);
      [done|rewrite zlen_cons; lia|lia|done|lia|intros n c Hcs; unfold read_value; by rewrite Hcs]
  end.

Lemma reads_ext data pre l post below :
  2 <= zlen l < 2 ^ 32 → data = pre ++ pack_object (EXT l) ++ post →
  reads data (zlen pre) (EXT l) (length (pack_object (EXT l))) below.
Proof.
  intros Hl. destruct l as [|t d]; [rewrite zlen_nil in Hl; lia|]. cbn [pack_object]. change (drop 1 (t :: d)) with d.
  rewrite zlen_cons in Hl |- *. replace (1 + zlen d - 1) with (zlen d) by lia.
  change (default 0 ((t :: d) !! 0%nat)) with t.
  assert (zlen (t :: d) = 1 + zlen d) as Ht by apply zlen_cons.
  unfold pack_ext.
  destruct (Z.eqb_spec (zlen d) 1) as [E|_]; [fixext 0xd4 2|].
  destruct (Z.eqb_spec (zlen d) 2) as [E|_]; [fixext 0xd5 3|].
  destruct (Z.eqb_spec (zlen d) 4) as [E|_]; [fixext 0xd6 5|].
  destruct (Z.eqb_spec (zlen d) 8) as [E|_]; [fixext 0xd7 9|].
  destruct (Z.eqb_spec (zlen d) 16) as [E|_]; [fixext 0xd8 17|].
  (* the others *)
  assert (∀ b k, data = pre ++ ((b :: store_be k (zlen d) ++ [t]) ++ d) ++ post →
    (0 < k)%nat → zlen d < 256 ^ Z.of_nat k → 0xc4 <= b <= 0xdf → rd trails (b - 0xc4) = Ok (Z.of_nat k) →
    (∀ n c, m_cs c = Z.land b 0x1f → read_value data n c =
       (z ← load data n (Z.of_nat k); Ok (Loop true (set_value MSGPACK_ACS_EXT_VALUE (z + 1) c)))) →
    reads data (zlen pre) (EXT (t :: d)) (length ((b :: store_be k (zlen d) ++ [t]) ++ d)) below) as Hext.
  { intros b k Hd Hk Hlen Hb Htr Hread.
    replace (length ((b :: store_be k (zlen d) ++ [t]) ++ d)) with (S (k + length (t :: d))).
    2:{ rewrite length_app. cbn [length]. rewrite length_app, length_store_be. simpl. lia. }
    apply (reads_sized data pre b k (zlen d) MSGPACK_ACS_EXT_VALUE (t :: d) post _ _ EXT); try done; try lia.
    - rewrite Hd. f_equal. rewrite <- !app_comm_cons. f_equal. by rewrite <- !app_assoc.
    - intros n c Hcs Hz. rewrite Hread, Hz by done. cbn [mbind res_bind]. unfold value_follows.
      rewrite Ht, Z.add_comm. rewrite (proj2 (Z.eqb_neq _ 0)) by lia. by rewrite Z.add_comm.
    - intros n c Hcs Hrd.
      transitivity (l ← rd_bytes data n (m_trail c); o ← unpack_ext l; push_proc o c).
      { unfold read_value. by rewrite Hcs. }
      rewrite Hrd. cbn [mbind res_bind]. by rewrite unpack_ext_ok by lia. }
  destruct (Z.ltb_spec (zlen d) 256); [|destruct (Z.ltb_spec (zlen d) 65536)]; intros Hd.
  - change [0xc7; u8 (zlen d); t] with (0xc7 :: [u8 (zlen d)] ++ [t]) in *. rewrite store_be_1 in *.
    apply Hext; try done; try lia. intros n c Hcs. unfold read_value. by rewrite Hcs.
  - apply Hext; try done; try lia. intros n c Hcs. unfold read_value. by rewrite Hcs.
  - apply Hext; try done; try lia. intros n c Hcs. unfold read_value. by rewrite Hcs.
Qed.

(** ** Containers *)

(** [b] holds sizes below 16, and the headers [b16] and [b32] the others. *)
Definition pack_container (b b16 b32 n : Z) : list Z :=
  if n <? 16 then [Z.lor b n]
  else if n <? 65536 then b16 :: store_be 2 n
  else b32 :: store_be 4 n.

Lemma aggregate_header data pre b b16 b32 n post trail stack empty ct :
  data = pre ++ pack_container b b16 b32 n ++ post → 0 <= n < 2 ^ 32 →
  b = 0x90 ∧ b16 = 0xdc ∧ b32 = 0xdd ∧ empty = ARRAY [] ∧ ct = MSGPACK_CT_ARRAY_ITEM ∨
  b = 0x80 ∧ b16 = 0xde ∧ b32 = 0xdf ∧ empty = MAP [] ∧ ct = MSGPACK_CT_MAP_KEY →
  ∃ cs' trail', header_step data (at_header trail stack (zlen pre)) =
    push_aggregate empty ct n
      (mkContextState cs' trail' stack (zlen pre + zlen (pack_container b b16 b32 n) - 1)).
Proof.
  intros Hdata Hn Hb. unfold pack_container in *.
  assert (∀ k c b', data = pre ++ (b' :: store_be k n) ++ post → 0 <= n < 256 ^ Z.of_nat k →
    0xc4 <= b' <= 0xdf → rd trails (b' - 0xc4) = Ok (Z.of_nat k) → c = Z.land b' 0x1f →
    (∀ m ctx, m_cs ctx = c → read_value data m ctx = (z ← load data m (Z.of_nat k); push_aggregate empty ct z ctx)) →
    ∃ cs' trail', header_step data (at_header trail stack (zlen pre)) =
      push_aggregate empty ct n
        (mkContextState cs' trail' stack (zlen pre + zlen (b' :: store_be k n) - 1))) as Hlong.
  { intros k c b' Hd Hk Hb' Ht Hc Hread.
    assert (zlen (store_be k n) = Z.of_nat k) as Hs by (unfold zlen; by rewrite length_store_be).
    rewrite (header_trail data pre b' (store_be k n) post) by (done || by rewrite Hs).
    rewrite Hread by done. unfold load. rewrite Hd, <- Hs, <- app_comm_cons, rd_bytes_next. cbn [mbind res_bind].
    rewrite load_store, Z.mod_small by done. eexists _, _. do 2 f_equal. rewrite zlen_cons. lia. }
  destruct (Z.ltb_spec n 16); [|destruct (Z.ltb_spec n 65536)].
  - assert (∀ b, b mod 2 ^ 4 = 0 → 0 <= b → Z.lor b n = b + n ∧ Z.land (b + n) 0x0f = n) as Hor.
    { intros. apply (small_size _ n 4); done || lia. }
    unfold header_step. cbn [m_current]. rewrite Hdata. change ([Z.lor b n] ++ post) with (Z.lor b n :: post).
    rewrite rd_app. cbn [mbind res_bind].
    destruct Hb as [(->&_&_&->&->)|(->&_&_&->&->)].
    + destruct (Hor 0x90) as [-> Hand]; [done|lia|]. rewrite Hand.
      rewrite (proj2 (Z.leb_gt _ 127)), (proj2 (Z.leb_gt 224 _)), (proj2 (Z.leb_gt 196 _)), (proj2 (Z.leb_gt 160 _)) by lia.
      rewrite !(proj2 (Z.leb_le _ _)) by lia. cbn [andb]. eexists _, _. do 2 f_equal. rewrite zlen_cons, zlen_nil. lia.
    + destruct (Hor 0x80) as [-> Hand]; [done|lia|]. rewrite Hand.
      rewrite (proj2 (Z.leb_gt _ 127)), (proj2 (Z.leb_gt 224 _)), (proj2 (Z.leb_gt 196 _)),
        (proj2 (Z.leb_gt 160 _)), (proj2 (Z.leb_gt 144 _)) by lia.
      rewrite !(proj2 (Z.leb_le _ _)) by lia. cbn [andb]. eexists _, _. do 2 f_equal. rewrite zlen_cons, zlen_nil. lia.
  - destruct Hb as [(->&->&->&->&->)|(->&->&->&->&->)].
    + apply (Hlong 2%nat 0x1c 0xdc); try done; try lia. intros m ctx Hm. unfold read_value. by rewrite Hm.
    + apply (Hlong 2%nat 0x1e 0xde); try done; try lia. intros m ctx Hm. unfold read_value. by rewrite Hm.
  - destruct Hb as [(->&->&->&->&->)|(->&->&->&->&->)].
    + apply (Hlong 4%nat 0x1d 0xdd); try done; try lia. intros m ctx Hm. unfold read_value. by rewrite Hm.
    + apply (Hlong 4%nat 0x1f 0xdf); try done; try lia. intros m ctx Hm. unfold read_value. by rewrite Hm.
Qed.

(** The machine reads the elements of a container, whose frame is the second of the
    stack, and pushes the container when it is at the last byte. *)
Definition reads_rest (data : list Z) (n : Z) (sp : unpack_stack) (o : mp_object) (len : nat)
    (below : list unpack_stack) : Prop :=
  ∀ trail top fuel, ∃ fuel' cs' trail' top', (fuel <= fuel')%nat ∧
    execute_loop (len + fuel) data false (at_header trail (top :: sp :: below) n) =
    after fuel' data (push_proc o (mkContextState cs' trail' (top' :: below) (n + Z.of_nat len - 1))).

(** An element after which the container is complete, or not. *)
Lemma reads_rest_last data n sp o len below sp' o' :
  reads data n o len (sp :: below) →
  (∀ top, push_item (sp :: below) top o = push_item below sp' o') →
  reads_rest data n sp o' len below.
Proof.
  intros Ho Hpush trail top fuel. destruct (Ho trail top fuel) as (fuel'&cs'&trail'&top'&Hf&->).
  exists fuel', cs', trail', sp'. split; [done|]. f_equal. unfold push_proc. cbn [m_stack]. by rewrite Hpush.
Qed.

Lemma reads_rest_next data pre l k rest post sp sp' o o' len below :
  data = pre ++ l ++ k :: rest ++ post → len = length l →
  reads data (zlen pre) o len (sp :: below) →
  (∀ top, push_item (sp :: below) top o = Ok (false, o, top :: sp' :: below)) →
  reads_rest data (zlen (pre ++ l)) sp' o' (length (k :: rest)) below →
  reads_rest data (zlen pre) sp o' (length (l ++ k :: rest)) below.
Proof.
  intros Hd -> Ho Hpush Hrest trail top fuel. rewrite length_app, <- Nat.add_assoc.
  destruct (Ho trail top (length (k :: rest) + fuel)%nat) as (fuel1&cs1&trail1&top1&Hf1&->).
  unfold push_proc at 1. cbn [m_stack]. rewrite Hpush. cbn [mbind res_bind after m_current].
  unfold after at 1. cbn [mbind res_bind m_current].
  replace (zlen pre + Z.of_nat (length l) - 1 + 1) with (zlen (pre ++ l)) by (rewrite zlen_app; unfold zlen; lia).
  rewrite (proj2 (Z.eqb_neq (zlen (pre ++ l)) (zlen data))).
  2:{ rewrite Hd, !zlen_app, zlen_cons. pose proof (zlen_nonneg (rest ++ post)). lia. }
  destruct (Hrest trail1 top1 (fuel1 - length (k :: rest))%nat) as (fuel'&cs'&trail'&top'&Hf'&Heq).
  replace (length (k :: rest) + (fuel1 - length (k :: rest)))%nat with fuel1 in Heq by lia.
  cbn [m_trail]. rewrite Heq. exists fuel', cs', trail', top'. split; [lia|]. do 3 f_equal.
  rewrite zlen_app. unfold zlen. lia.
Qed.

Lemma pack_nonempty o : wf_object o → (0 < length (pack_object o))%nat.
Proof.
  destruct o; intros _; cbn [pack_object]; try (simpl; lia);
    unfold pack_imp_uint64, pack_imp_int64, pack_str, pack_bin, pack_ext, pack_array, pack_map;
    repeat match goal with |- context [if ?b then _ else _] => destruct b end;
    rewrite ?length_app; simpl; lia.
Qed.

(** What the machine does with one object: the statement of the induction. *)
Definition readable (o : mp_object) : Prop := ∀ data pre post below,
  data = pre ++ pack_object o ++ post → zlen below + zlen (pack_object o) < 2 ^ 32 →
  reads data (zlen pre) o (length (pack_object o)) below.

Lemma count_last {A} (x : A) : u64 (zlen [x] - 1) = 0.
Proof. done. Qed.

Lemma count_more {A} (x y : A) l : zlen (x :: y :: l) < 2 ^ 32 →
  u64 (zlen (x :: y :: l) - 1) = zlen (y :: l) ∧ zlen (y :: l) ≠ 0.
Proof. rewrite !zlen_cons. pose proof (zlen_nonneg l). intros. rewrite u64_small; lia. Qed.

Lemma reads_array_items l : l ≠ [] → Forall wf_object l → Forall readable l → zlen l < 2 ^ 32 →
  ∀ data pre post below d key,
  data = pre ++ (l ≫= pack_object) ++ post →
  zlen below + 1 + zlen (l ≫= pack_object) < 2 ^ 32 →
  reads_rest data (zlen pre) (mkFrame (ARRAY d) (zlen l) MSGPACK_CT_ARRAY_ITEM key) (ARRAY (d ++ l))
    (length (l ≫= pack_object)) below.
Proof.
  induction l as [|o l IH]; [done|]. intros _ Hwf Hread Hlen data pre post below d key Hd Hsize.
  apply list.Forall_cons in Hwf as [Hwo Hwf]. apply list.Forall_cons in Hread as [Ho Hread].
  rewrite bind_cons in Hd, Hsize |- *. rewrite zlen_app in Hsize.
  pose proof (zlen_nonneg (l ≫= pack_object)).
  destruct l as [|o2 l].
  - change ([] ≫= pack_object) with (@nil Z) in *. rewrite app_nil_r in *. eapply reads_rest_last.
    + apply (Ho data pre post); [done|]. rewrite zlen_cons. lia.
    + intros top. cbn [push_item fr_container_type fr_obj fr_count]. by rewrite count_last.
  - pose proof (pack_nonempty o2 ltac:(by apply list.Forall_cons in Hwf as [? _])) as Hne.
    rewrite bind_cons in Hd |- *. destruct (pack_object o2) as [|k rest] eqn:Hk; [simpl in Hne; lia|].
    rewrite <- app_comm_cons in Hd |- *.
    destruct (count_more o o2 l Hlen) as [Hcount Hnz].
    eapply (reads_rest_next data pre (pack_object o) k (rest ++ (l ≫= pack_object)) post _
              (mkFrame (ARRAY (d ++ [o])) (zlen (o2 :: l)) MSGPACK_CT_ARRAY_ITEM key)).
    + rewrite Hd, <- app_assoc. done.
    + reflexivity.
    + apply (Ho data pre ((k :: rest ++ (l ≫= pack_object)) ++ post)); [by rewrite Hd, <- app_assoc|].
      rewrite zlen_cons. lia.
    + intros top. cbn [push_item fr_container_type fr_obj fr_count fr_map_key]. rewrite Hcount.
      by rewrite (proj2 (Z.eqb_neq _ _)) by done.
    + replace (d ++ o :: o2 :: l) with ((d ++ [o]) ++ o2 :: l) by by rewrite <- app_assoc.
      assert (k :: rest ++ (l ≫= pack_object) = (o2 :: l) ≫= pack_object) as -> by by rewrite bind_cons, Hk.
      apply (IH ltac:(done) Hwf Hread ltac:(rewrite zlen_cons in Hlen; lia) data _ post).
      * rewrite Hd, bind_cons, Hk. by rewrite <- ?app_assoc, <- ?app_comm_cons, <- ?app_assoc.
      * pose proof (zlen_nonneg (pack_object o)). lia.
Qed.

Abbreviation pack_pair := (λ p : mp_object * mp_object, pack_object p.1 ++ pack_object p.2) (only parsing).

Lemma reads_map_items l : l ≠ [] → Forall (λ p, wf_object p.1 ∧ wf_object p.2) l →
  Forall (λ p, readable p.1 ∧ readable p.2) l → zlen l < 2 ^ 32 →
  ∀ data pre post below d key,
  data = pre ++ (l ≫= pack_pair) ++ post →
  zlen below + 1 + zlen (l ≫= pack_pair) < 2 ^ 32 →
  reads_rest data (zlen pre) (mkFrame (MAP d) (zlen l) MSGPACK_CT_MAP_KEY key) (MAP (d ++ l))
    (length (l ≫= pack_pair)) below.
Proof.
  induction l as [|[k v] l IH]; [done|]. intros _ Hwf Hread Hlen data pre post below d key Hd Hsize.
  apply list.Forall_cons in Hwf as [[Hwk Hwv] Hwf]. apply list.Forall_cons in Hread as [[Hk Hv] Hread].
  cbn [fst snd] in *. rewrite bind_cons in Hd, Hsize |- *. cbn [fst snd] in *. rewrite !zlen_app in Hsize.
  pose proof (zlen_nonneg (l ≫= pack_pair)). pose proof (zlen_nonneg (pack_object k)).
  pose proof (zlen_nonneg (pack_object v)).
  destruct (pack_object v) as [|v0 vs] eqn:Hpv.
  { pose proof (pack_nonempty v Hwv) as Hne. rewrite Hpv in Hne. simpl in Hne. lia. }
  (* the key *)
  set (sp := mkFrame (MAP d) (zlen ((k, v) :: l)) MSGPACK_CT_MAP_VALUE k).
  assert ((pack_object k ++ v0 :: vs) ++ (l ≫= pack_pair) = pack_object k ++ v0 :: (vs ++ (l ≫= pack_pair)))
    as Heq by by rewrite <- app_assoc.
  rewrite Heq in Hd |- *.
  apply (reads_rest_next data pre (pack_object k) v0 (vs ++ (l ≫= pack_pair)) post _ sp k _ (length (pack_object k)) below); [|done| |done|].
  { by rewrite Hd, <- app_assoc, <- app_comm_cons. }
  { apply (Hk data pre ((v0 :: vs ++ (l ≫= pack_pair)) ++ post)); [by rewrite Hd, <- app_assoc|].
    rewrite zlen_cons. lia. }
  (* the value *)
  assert (data = (pre ++ pack_object k) ++ (v0 :: vs) ++ (l ≫= pack_pair) ++ post) as Hdv.
  { rewrite Hd. by rewrite <- ?app_assoc, <- ?app_comm_cons, <- ?app_assoc. }
  assert (reads data (zlen (pre ++ pack_object k)) v (length (v0 :: vs)) (sp :: below)) as Hrv.
  { rewrite <- Hpv. apply (Hv data (pre ++ pack_object k) ((l ≫= pack_pair) ++ post)); [by rewrite Hpv|].
    rewrite Hpv, zlen_cons. lia. }
  destruct l as [|[k2 v2] l].
  - change ([] ≫= pack_pair) with (@nil Z). rewrite app_nil_r.
    eapply reads_rest_last; [exact Hrv|]. intros top. unfold sp.
    cbn [push_item fr_container_type fr_obj fr_count fr_map_key]. by rewrite count_last.
  - destruct (count_more (k, v) (k2, v2) l Hlen) as [Hcount Hnz].
    pose proof (pack_nonempty k2 ltac:(by apply list.Forall_cons in Hwf as [[? ?] _])) as Hne.
    destruct (pack_object k2) as [|b rest] eqn:Hk2; [simpl in Hne; lia|].
    assert (((k2, v2) :: l) ≫= pack_pair = b :: (rest ++ pack_object v2) ++ (l ≫= pack_pair)) as Hbind.
    { rewrite bind_cons. cbn [fst snd]. by rewrite Hk2. }
    change (v0 :: vs ++ (((k2, v2) :: l) ≫= pack_pair)) with ((v0 :: vs) ++ (((k2, v2) :: l) ≫= pack_pair)).
    rewrite Hbind.
    eapply (reads_rest_next data _ (v0 :: vs) b _ post _
              (mkFrame (MAP (d ++ [(k, v)])) (zlen ((k2, v2) :: l)) MSGPACK_CT_MAP_KEY k)).
    + rewrite Hdv, Hbind. by rewrite <- ?app_assoc, <- ?app_comm_cons, <- ?app_assoc.
    + reflexivity.
    + exact Hrv.
    + intros top. unfold sp. cbn [push_item fr_container_type fr_obj fr_count fr_map_key]. rewrite Hcount.
      by rewrite (proj2 (Z.eqb_neq _ _)) by done.
    + replace (d ++ (k, v) :: (k2, v2) :: l) with ((d ++ [(k, v)]) ++ (k2, v2) :: l) by by rewrite <- app_assoc.
      rewrite <- Hbind.
      apply (IH ltac:(done) Hwf Hread ltac:(rewrite zlen_cons in Hlen; lia) data _ post).
      * rewrite Hdv. by rewrite <- !app_assoc.
      * rewrite zlen_cons in Hsize. pose proof (zlen_nonneg vs). lia.
Qed.

(** A container: its header, and its elements unless it is empty. *)
Lemma reads_container data pre b b16 b32 n empty ct full items post below :
  data = pre ++ (pack_container b b16 b32 n ++ items) ++ post → 0 <= n < 2 ^ 32 →
  b = 0x90 ∧ b16 = 0xdc ∧ b32 = 0xdd ∧ empty = ARRAY [] ∧ ct = MSGPACK_CT_ARRAY_ITEM ∨
  b = 0x80 ∧ b16 = 0xde ∧ b32 = 0xdf ∧ empty = MAP [] ∧ ct = MSGPACK_CT_MAP_KEY →
  zlen below + 1 < 2 ^ 32 →
  (n = 0 → items = [] ∧ full = empty) →
  (n ≠ 0 → items ≠ [] ∧ ∀ key, reads_rest data (zlen (pre ++ pack_container b b16 b32 n))
     (mkFrame empty n ct key) full (length items) below) →
  reads data (zlen pre) full (length (pack_container b b16 b32 n ++ items)) below.
Proof.
  intros Hd Hn Hb Hdepth Hempty Hitems trail top fuel. set (h := pack_container b b16 b32 n) in *.
  assert (∃ h0, length h = S h0) as [h0 Hh0].
  { unfold h, pack_container. destruct (n <? 16); [by exists 0%nat|]. destruct (n <? 65536); by eexists. }
  destruct (aggregate_header data pre b b16 b32 n (items ++ post) trail (top :: below) empty ct) as (cs'&trail'&Hhead);
    [by rewrite Hd, <- app_assoc|done|done|]. fold h in Hhead.
  rewrite length_app, Hh0. cbn [plus]. rewrite execute_loop_S. unfold step. cbn [m_cs].
  rewrite Z.eqb_refl, Hhead. unfold push_aggregate. cbn [m_stack m_cs m_trail m_current].
  rewrite (proj2 (Z.ltb_ge _ _)) by (unfold unpack_limit; lia).
  assert (zlen h = 1 + Z.of_nat h0) as Hz by (unfold zlen; lia).
  destruct (Z.eqb_spec n 0) as [H0|H0].
  - destruct (Hempty H0) as [-> ->]. eexists (h0 + 0 + fuel)%nat, _, _, _. split; [lia|].
    do 3 f_equal. simpl. lia.
  - destruct (Hitems H0) as [Hne Hrest]. rewrite zlen_cons, (proj2 (Z.leb_le _ _)) by (unfold unpack_limit; lia).
    unfold after at 1. cbn [mbind res_bind m_current].
    replace (zlen pre + zlen h - 1 + 1) with (zlen (pre ++ h)) by (rewrite zlen_app; lia).
    rewrite (proj2 (Z.eqb_neq _ _)).
    2:{ rewrite Hd, !zlen_app. destruct items; [done|]. rewrite zlen_cons.
        pose proof (zlen_nonneg items). pose proof (zlen_nonneg post). lia. }
    destruct (Hrest (fr_map_key top) trail' new_unpack_stack (h0 + fuel)%nat)
      as (fuel'&cs2&trail2&top2&Hf&Heq).
    replace (h0 + length items + fuel)%nat with (length items + (h0 + fuel))%nat by lia.
    rewrite Heq. exists fuel', cs2, trail2, top2. split; [lia|]. do 3 f_equal.
    rewrite zlen_app. unfold zlen in *. lia.
Qed.

Lemma all_readable o : wf_object o → readable o.
Proof.
  induction o as [|b|u|i|d|l|l|l|l IH|l IH] using mp_object_ind; intros Hwf data pre post below Hd Hsize.
  - apply (reads_byte data pre 0xc0 post); [done|]. intros c Hc. unfold header_step.
    rewrite Hc, Hd. change (pre ++ pack_object NIL ++ post) with (pre ++ 0xc0 :: post). by rewrite rd_app.
  - cbn [pack_object] in *. destruct b.
    + apply (reads_byte data pre 0xc3 post); [done|]. intros c Hc. unfold header_step.
      rewrite Hc, Hd. change (pack_true ++ post) with (0xc3 :: post). by rewrite rd_app.
    + apply (reads_byte data pre 0xc2 post); [done|]. intros c Hc. unfold header_step.
      rewrite Hc, Hd. change (pack_false ++ post) with (0xc2 :: post). by rewrite rd_app.
  - by apply (reads_uint data pre u post).
  - by apply (reads_negative data pre i post).
  - by apply (reads_double data pre d post).
  - apply (reads_str data pre l post); [apply Hwf|done].
  - apply (reads_bin data pre l post); [apply Hwf|done].
  - apply (reads_ext data pre l post); [apply Hwf|done].
  - apply wf_ARRAY in Hwf as [Hlen Hwf].
    assert (Forall readable l) as Hl 
      by (rewrite list.Forall_forall in IH, Hwf |- *; auto).
    cbn [pack_object] in *. rewrite zlen_app in Hsize. pose proof (zlen_nonneg l). pose proof (zlen_nonneg (l ≫= pack_object)).
    assert (1 <= zlen (pack_array (zlen l))) as H1.
    { unfold pack_array. destruct (_ <? _); [done|]. destruct (_ <? _); by rewrite zlen_cons; zlia. }
    apply (reads_container data pre 0x90 0xdc 0xdd (zlen l) (ARRAY []) MSGPACK_CT_ARRAY_ITEM (ARRAY l) (l ≫= pack_object) post);
      [done|lia|left; done|lia| |].
    + intros Hz. destruct l; [done|rewrite zlen_cons in Hz; pose proof (zlen_nonneg l); lia].
    + intros Hnz. split.
      * destruct l as [|o l]; [done|]. apply list.Forall_cons in Hwf as [Ho _]. apply pack_nonempty in Ho.
        rewrite bind_cons. by destruct (pack_object o); [simpl in Ho; lia|].
      * intros key. apply (reads_array_items l ltac:(by intros ->) Hwf Hl Hlen data _ post below [] key); [|lia].
        by rewrite Hd, <- !app_assoc.
  - apply wf_MAP in Hwf as [Hlen Hwf].
    assert (Forall (λ p, readable p.1 ∧ readable p.2) l) as Hl
      by (rewrite list.Forall_forall in IH, Hwf |- *; intros p Hp; destruct (IH p Hp), (Hwf p Hp); auto).
    cbn [pack_object] in *. rewrite zlen_app in Hsize. pose proof (zlen_nonneg l). pose proof (zlen_nonneg (l ≫= pack_pair)).
    assert (1 <= zlen (pack_map (zlen l))) as H1.
    { unfold pack_map. destruct (_ <? _); [done|]. destruct (_ <? _); by rewrite zlen_cons; zlia. }
    apply (reads_container data pre 0x80 0xde 0xdf (zlen l) (MAP []) MSGPACK_CT_MAP_KEY (MAP l) (l ≫= pack_pair) post);
      [done|lia|right; done|lia| |].
    + intros Hz. destruct l; [done|rewrite zlen_cons in Hz; pose proof (zlen_nonneg l); lia].
    + intros Hnz. split.
      * destruct l as [|[k v] l]; [done|]. apply list.Forall_cons in Hwf as [[Ho _] _]. apply pack_nonempty in Ho.
        rewrite bind_cons. cbn [fst snd] in *. by destruct (pack_object k); [simpl in Ho; lia|].
      * intros key. apply (reads_map_items l ltac:(by intros ->) Hwf Hl Hlen data _ post below [] key); [|lia].
        by rewrite Hd, <- !app_assoc.
Qed.

Lemma unpack_imp_packed o rest :
  wf_object o → zlen (pack_object o) < 2 ^ 32 →
  ∃ r, unpack_imp (pack_object o ++ rest) 0 = Ok r ∧ (r = UNPACK_SUCCESS o ∨ r = UNPACK_EXTRA_BYTES o).
Proof.
  intros Hwf Hsize. pose proof (pack_nonempty o Hwf) as Hne. pose proof (zlen_nonneg rest).
  assert (zlen (pack_object o) = Z.of_nat (length (pack_object o))) as Hz by done.
  unfold unpack_imp, execute. cbn [m_cs m_trail m_stack].
  rewrite zlen_app, (proj2 (Z.leb_gt _ _)), (proj2 (Z.eqb_neq 0 _)) by lia.
  destruct (all_readable o Hwf (pack_object o ++ rest) [] rest [] eq_refl ltac:(rewrite zlen_nil; lia)
    0 new_unpack_stack (length rest)) as (fuel'&cs'&trail'&top'&_&Heq).
  rewrite length_app. change (zlen []) with 0 in Heq. rewrite Heq.
  unfold after, push_proc. cbn [m_stack push_item mbind res_bind m_current].
  rewrite Z.sub_add. cbn [Z.ltb Z.eqb Z.compare m_stack fr_obj].
  destruct (_ <? _); eauto.
Qed.

(** Claim C22: what MessagePack writes, it reads back: the state machine of [unpack],
    with its stack of containers, inverts the writer on every object, whatever
    follows it. *)
Theorem unpack_pack o rest :
  wf_object o → zlen (pack_object o) < 2 ^ 32 → unpack (pack_object o ++ rest) = Ok o.
Proof.
  intros Hwf Hsize. destruct (unpack_imp_packed o rest Hwf Hsize) as (r&Hr&Ho).
  unfold unpack. rewrite Hr. by destruct Ho as [-> | ->].
Qed.

Lemma unpack_pack_witness :
  let o := MAP [(STR [97], ARRAY [POSITIVE_INTEGER 70000; NEGATIVE_INTEGER (-5); STR []; BIN [1; 2]]);
                (NIL, MAP [(BOOLEAN true, EXT [7; 8; 9; 9])])] in
  unpack (pack_object o ++ [1; 2; 3]) = Ok o.
Proof.
  apply unpack_pack.
  - repeat (cbn; first [split | apply (bool_decide_unpack _); reflexivity | lia | done]).
  - vm_compute. reflexivity.
Defined.
