(* ===== verification/MsgpackTotal.v ===== *)
(** * MessagePack: the reader on any bytes

    Whatever the bytes are, the state machine of Unpack.v ends, and it reads only
    inside the data: [unpack] has an object or reports an error. *)

From S2P Require Import Prelude Pack Unpack.
From stdpp Require Import options.

(** ** The invariant of the loop *)

(** A frame that waits for an element is a container of the kind it says. *)
Definition frame_ok (sp : unpack_stack) : Prop :=
  match fr_container_type sp, fr_obj sp with
  | MSGPACK_CT_ARRAY_ITEM, ARRAY _ | MSGPACK_CT_MAP_KEY, MAP _ | MSGPACK_CT_MAP_VALUE, MAP _ => True
  | _, _ => False
  end.

Definition stack_ok (st : list unpack_stack) : Prop :=
  ∃ top below, st = top :: below ∧ Forall frame_ok below.

(** At the beginning of an iteration: a header comes, or the value whose header has
    just been read. *)
Definition loop_ok (again : bool) (c : context) : Prop :=
  stack_ok (m_stack c) ∧
  if again then 0x20 <= m_cs c <= 0x22 ∧ 0 < m_trail c else m_cs c = MSGPACK_CS_HEADER.

(** An iteration ends, or goes on further than [n]. *)
Definition advances (data : list Z) (n : Z) (r : res outcome) : Prop :=
  match r with
  | Ok (Return _ _ _) | Fail => True
  | Ok (Loop again c) => n < m_current c <= zlen data ∧ (again = true → m_current c < zlen data) ∧ loop_ok again c
  | Stop _ => False
  end.

(** ** Pushing *)

Lemma push_item_total below top obj :
  Forall frame_ok below →
  ∃ fin o st, push_item below top obj = Ok (fin, o, st) ∧ stack_ok st.
Proof.
  revert top obj. induction below as [|sp below IH]; intros top obj Hb; cbn [push_item].
  - eexists _, _, _. split; [done|]. by exists top, [].
  - apply list.Forall_cons in Hb as [Hsp Hb]. unfold frame_ok in Hsp.
    destruct (fr_container_type sp); destruct (fr_obj sp); try done.
    1,3: destruct (_ =? 0); [by apply IH|].
    all: eexists _, _, _; (split; [done|]); eexists _, _; (split; [done|]).
    all: by apply list.Forall_cons.
Qed.

Lemma push_proc_total data n o c :
  stack_ok (m_stack c) → n <= m_current c < zlen data → advances data n (push_proc o c).
Proof.
  intros (top&below&Hst&Hb) Hn. unfold push_proc. rewrite Hst.
  destruct (push_item_total below top o Hb) as (fin&o'&st&->&Hok).
  cbn [mbind res_bind]. destruct fin; [done|]. split; [cbn; lia|]. split; [done|]. by split.
Qed.

Lemma push_aggregate_total data n empty ct tmp c :
  (empty = ARRAY [] ∧ ct = MSGPACK_CT_ARRAY_ITEM ∨ empty = MAP [] ∧ ct = MSGPACK_CT_MAP_KEY) →
  stack_ok (m_stack c) → n <= m_current c < zlen data → advances data n (push_aggregate empty ct tmp c).
Proof.
  intros He (top&below&Hst&Hb) Hn. unfold push_aggregate. rewrite Hst.
  destruct (_ <? tmp); [done|]. destruct (tmp =? 0).
  - apply push_proc_total; [|done]. by eexists _, _.
  - destruct (_ <=? _); [|done]. split; [cbn; lia|]. split; [done|]. split; [|done].
    eexists _, _. split; [done|]. apply list.Forall_cons. split; [|done].
    by destruct He as [[-> ->]|[-> ->]].
Qed.

(** ** Reading *)

Lemma rd_bytes_ok data n k :
  0 <= n → 0 <= k → n + k <= zlen data → ∃ l, rd_bytes data n k = Ok l ∧ (bytes data → bytes l).
Proof.
  intros. unfold rd_bytes. rewrite !(proj2 (Z.leb_le _ _)) by lia. eexists. split; [done|].
  intros. by apply list.Forall_take, list.Forall_drop.
Qed.

Lemma load_be_nonneg l : bytes l → 0 <= load_be l.
Proof.
  induction l as [|b l IH]; [done|]. intros [Hb Hl]%list.Forall_cons. rewrite load_be_cons.
  unfold is_byte in Hb. pose proof (zlen_nonneg l). specialize (IH Hl).
  pose proof (Z.pow_nonneg 256 (zlen l)). nia.
Qed.

Lemma load_total data n k (f : Z → res outcome) m :
  bytes data → 0 <= n → 0 <= k → n + k <= zlen data →
  (∀ z, 0 <= z → advances data m (f z)) → advances data m (z ← load data n k; f z).
Proof.
  intros Hd Hn Hk Hsize Hf. unfold load. destruct (rd_bytes_ok data n k) as (l&->&Hl); [done..|].
  cbn [mbind res_bind]. apply Hf, load_be_nonneg, Hl, Hd.
Qed.

Lemma bytes_total data n k (f : list Z → res outcome) m :
  0 <= n → 0 <= k → n + k <= zlen data →
  (∀ l, advances data m (f l)) → advances data m (l ← rd_bytes data n k; f l).
Proof.
  intros Hn Hk Hsize Hf. destruct (rd_bytes_ok data n k) as (l&->&Hl); [done..|]. apply Hf.
Qed.

Lemma ext_total data m c l : 
  stack_ok (m_stack c) → m <= m_current c < zlen data →
  advances data m (o ← unpack_ext l; push_proc o c).
Proof.
  intros. unfold unpack_ext. destruct (_ <? _); [done|]. by apply push_proc_total.
Qed.

Lemma value_follows_total data m cs z empty c :
  0x20 <= cs <= 0x22 → 0 <= z → stack_ok (m_stack c) → m < m_current c < zlen data →
  advances data m (value_follows cs z empty c).
Proof.
  intros Hcs Hz Hst Hm. unfold value_follows. destruct (Z.eqb_spec z 0).
  - apply push_proc_total; [done|cbn; lia].
  - split; [cbn; lia|]. split; [cbn; lia|]. split; [done|cbn; lia].
Qed.

(** The states in which a value of [trail] bytes is read. *)
Definition value_state (cs trail : Z) : Prop :=
  0x20 <= cs <= 0x22 ∧ 0 < trail ∨ ∃ i : nat, cs = 4 + Z.of_nat i ∧ trails !! i = Some trail.

Lemma value_state_trail cs trail : value_state cs trail → 0 < trail.
Proof.
  intros [[_ H]|(i&_&H)]; [done|].
  assert (Forall (λ t, 0 < t) trails) as Ht by (unfold trails; repeat constructor).
  by apply (proj1 (list.Forall_lookup _ _) Ht i).
Qed.

Lemma selector_state selector :
  (0xc4 <=? selector) && (selector <=? 0xdf) = true →
  ∃ trail, rd trails (selector - 0xc4) = Ok trail ∧ value_state (Z.land selector 0x1f) trail.
Proof.
  intros [H1 H2]%andb_prop. apply Z.leb_le in H1, H2.
  destruct (lookup_lt_is_Some_2 trails (Z.to_nat (selector - 0xc4))) as [trail Ht]; [cbn; lia|].
  exists trail. split.
  - unfold rd. rewrite (proj2 (Z.ltb_ge _ _)), Ht by lia. done.
  - right. exists (Z.to_nat (selector - 0xc4)). split; [|done].
    change 0x1f with (Z.ones 5). rewrite Z.land_ones by lia. change (2 ^ 5) with 32.
    Z.to_euclidean_division_equations; lia.
Qed.

Ltac read_case :=
  lazymatch goal with
  | |- advances _ _ (z ← load _ _ _; _) => apply load_total; [done|lia|lia|lia|intros z Hz]; read_case
  | |- advances _ _ (l ← rd_bytes _ _ _; _) => apply bytes_total; [lia|lia|lia|intros l]; read_case
  | |- advances _ _ (o ← unpack_ext _; _) => apply ext_total; [done|cbn; lia]
  | |- advances _ _ (push_proc _ _) => apply push_proc_total; [done|cbn; lia]
  | |- advances _ _ (value_follows _ _ _ _) => apply value_follows_total; [done|lia|done|cbn; lia]
  | |- advances _ _ (push_aggregate _ _ _ _) => apply push_aggregate_total; [tauto|done|cbn; lia]
  | |- _ => idtac
  end.

Lemma read_value_total data m n cs trail st :
  bytes data → value_state cs trail → stack_ok st → 0 <= n → m <= n → n + trail <= zlen data →
  (m < n ∨ 0x20 <= cs) →
  advances data m (read_value data n (mkContextState cs trail st (n + trail - 1))).
Proof.
  intros Hd Hv Hst Hn Hm Hsize Hcs. destruct Hv as [[Hrange Ht]|(i&Hi2&Hi)].
  - assert (cs = 0x20 ∨ cs = 0x21 ∨ cs = 0x22) as [->|[->| ->]] by lia.
    all: cbn -[rd_bytes load]; read_case.
  - do 28 (destruct i as [|i];
      [cbn in Hi; injection Hi as <-; vm_compute in Hi2; subst cs; destruct Hcs as [Hlt|Hge]; [|lia];
       cbn -[rd_bytes load load_be unpack_ext push_proc value_follows push_aggregate]; read_case;
       try (split; [cbn; lia|]; split; [cbn; lia|]; split; [done|cbn; unfold MSGPACK_ACS_EXT_VALUE; lia])|]).
    done.
Qed.

Lemma value_step_total data m again c :
  bytes data → value_state (m_cs c) (m_trail c) → stack_ok (m_stack c) →
  0 <= m_current c → m <= m_current c < zlen data →
  (again = true ∨ 0x20 <= m_cs c) → advances data m (value_step data again c).
Proof.
  intros Hd Hv Hst H0 Hm Hagain. unfold value_step. destruct c as [cs trail st cur]. cbn [m_cs m_trail m_stack m_current] in *.
  destruct (Z.ltb_spec (zlen data - (if again then cur + 1 else cur)) trail); [done|].
  apply read_value_total; try done; destruct again; try lia. all: destruct Hagain; [done|]. all: lia.
Qed.

Lemma header_step_total data c :
  bytes data → stack_ok (m_stack c) → 0 <= m_current c < zlen data →
  advances data (m_current c) (header_step data c).
Proof.
  intros Hd Hst Hc. unfold header_step. destruct (rd_in data (m_current c) Hc) as (sel&->&Hin).
  cbn [mbind res_bind].
  assert (is_byte sel) as Hsel by (by apply (proj1 (list.Forall_forall _ _) Hd)). unfold is_byte in Hsel.
  repeat case_match; try done;
    try (apply push_proc_total; [done|cbn; lia]); try (apply push_aggregate_total; [tauto|done|lia]).
  - destruct (selector_state sel) as (trail&->&Hv); [done|].
    cbn [mbind res_bind]. apply value_step_total; try done; cbn; [lia|lia|by left].
  - assert (0 <= Z.land sel 0x1f) by (apply Z.land_nonneg; lia).
    apply value_step_total; try done; cbn; [|lia|lia|by left].
    left. unfold MSGPACK_ACS_STR_VALUE. lia.
Qed.

Lemma step_total data again c :
  bytes data → loop_ok again c → 0 <= m_current c < zlen data →
  advances data (m_current c) (step data again c).
Proof.
  intros Hd [Hst Hc] Hcur. unfold step. destruct again.
  - destruct Hc as [Hcs Htrail]. rewrite (proj2 (Z.eqb_neq _ _)) by (unfold MSGPACK_CS_HEADER; lia).
    apply value_step_total; try done; [by left|lia|lia|by left].
  - rewrite Hc, Z.eqb_refl. by apply header_step_total.
Qed.

(** ** The loop *)

Lemma execute_loop_total data fuel again c :
  bytes data → loop_ok again c → 0 <= m_current c < zlen data →
  zlen data - m_current c <= Z.of_nat fuel →
  ∀ u, execute_loop fuel data again c ≠ Stop u.
Proof.
  intros Hd. revert again c. induction fuel as [|fuel IH]; intros again c Hok Hc Hf u; [lia|].
  cbn [execute_loop]. pose proof (step_total data again c Hd Hok Hc) as Hadv.
  destruct (step data again c) as [[ret off c'|again' c']| |u']; cbn [mbind res_bind]; try done.
  destruct Hadv as (Hadv&_&Hok'). destruct (Z.eqb_spec (m_current c') (zlen data)); [done|].
  apply IH; [done|lia|lia].
Qed.

(** Claim C36: on any bytes the reader ends, within one iteration per byte, and never
    reads outside the data or takes an element into a frame that is no container: it
    has an object, or it reports an error. *)
Theorem unpack_total data : bytes data → unpack data = Fail ∨ ∃ o, unpack data = Ok o.
Proof.
  intros Hd. unfold unpack, unpack_imp. destruct (Z.leb_spec (zlen data) 0); [by left|].
  unfold execute. rewrite (proj2 (Z.eqb_neq 0 _)) by lia.
  pose proof (execute_loop_total data (length data) false (mkContextState MSGPACK_CS_HEADER 0 [new_unpack_stack] 0) Hd) as Ht.
  destruct (execute_loop _ _ _ _) as [[[ret off] c]| |u].
  - cbn [mbind res_bind]. repeat case_match; simplify_eq; cbn; eauto.
  - by left.
  - destruct (Ht ltac:(split; [by eexists _, []|done]) ltac:(cbn; lia) ltac:(cbn; unfold zlen; lia) u eq_refl).
Qed.

Lemma unpack_total_witness :
  bytes [0x92; 0xa3; 1] ∧ (unpack [0x92; 0xa3; 1] = Fail ∨ ∃ o, unpack [0x92; 0xa3; 1] = Ok o).
Proof. split; [by apply (bool_decide_unpack _)|]. apply unpack_total. by apply (bool_decide_unpack _). Defined.
