(* ===== verification/Adaptor.v ===== *)
(** * MessagePack: values and classes

    Model of the adaptors of include/msgpack/msgpack/adaptor that the server uses:
    how a C++ value is written, and how it is read back from an object, for the
    integer types, [bool], [std::string], [raw_ref], [std::vector] and the classes
    with [MSGPACK_DEFINE].  A conversion that does not fit throws [type_error], which
    is [Fail]. *)

From S2P Require Import Prelude Pack.
From stdpp Require Import options.

(** ** Adaptors *)

(** [pack<A>] and [convert<A>]. *)
Record adaptor (A : Type) : Type := mkAdaptor {
  a_pack : A → list Z;
  a_convert : mp_object → res A;
}.
Arguments a_pack {A} ad a : rename.
Arguments a_convert {A} ad o : rename.
Arguments mkAdaptor {A} _ _.

(** [convert_integer_sign<T, false>] and [<T, true>]. *)
Definition convert_unsigned (max : Z) (o : mp_object) : res Z :=
  match o with
  | POSITIVE_INTEGER u => if max <? u then Fail else Ok u
  | _ => Fail
  end.

Definition convert_signed (min max : Z) (o : mp_object) : res Z :=
  match o with
  | POSITIVE_INTEGER u => if max <? u then Fail else Ok u
  | NEGATIVE_INTEGER i => if i <? min then Fail else Ok i
  | _ => Fail
  end.

Definition uint8_t : adaptor Z := mkAdaptor pack_imp_uint8 (convert_unsigned (2 ^ 8 - 1)).
Definition uint16_t : adaptor Z := mkAdaptor pack_imp_uint16 (convert_unsigned (2 ^ 16 - 1)).
Definition uint32_t : adaptor Z := mkAdaptor pack_imp_uint32 (convert_unsigned (2 ^ 32 - 1)).
Definition uint64_t : adaptor Z := mkAdaptor pack_imp_uint64 (convert_unsigned (2 ^ 64 - 1)).
Definition time_t : adaptor Z := mkAdaptor pack_imp_int64 (convert_signed (- 2 ^ 63) (2 ^ 63 - 1)).

Definition bool_t : adaptor bool :=
  mkAdaptor (λ b : bool, if b then pack_true else pack_false)
    (λ o, match o with BOOLEAN b => Ok b | _ => Fail end).

Definition string_t : adaptor str :=
  mkAdaptor (λ l, pack_str (zlen l) ++ l)
    (λ o, match o with BIN l | STR l => Ok l | _ => Fail end).

Definition raw_ref : adaptor (list Z) :=
  mkAdaptor (λ l, pack_bin (zlen l) ++ l)
    (λ o, match o with BIN l => Ok l | _ => Fail end).

Fixpoint convert_all {A} (convert : mp_object → res A) (l : list mp_object) : res (list A) :=
  match l with
  | [] => Ok []
  | o :: l => a ← convert o; l ← convert_all convert l; Ok (a :: l)
  end.

Definition vector {A} (ad : adaptor A) : adaptor (list A) :=
  mkAdaptor (λ l, pack_array (zlen l) ++ (l ≫= a_pack ad))
    (λ o, match o with ARRAY l => convert_all (a_convert ad) l | _ => Fail end).

(** ** Classes *)

(** A member that [MSGPACK_DEFINE] lists. *)
Record member (T : Type) : Type := mkMember {
  mem_pack : T → list Z;
  mem_convert : mp_object → T → res T;
}.
Arguments mem_pack {T} m t : rename.
Arguments mem_convert {T} m o t : rename.
Arguments mkMember {T} _ _.

Definition member_of {T A} (ad : adaptor A) (get : T → A) (upd : (A → A) → T → T) : member T :=
  mkMember (λ t, a_pack ad (get t)) (λ o t, v ← a_convert ad o; Ok (upd (λ _, v) t)).

(** [define_array::msgpack_pack] and [msgpack_unpack]: an array that is too short
    leaves the last members as they are. *)
Definition define_pack {T} (ms : list (member T)) (t : T) : list Z :=
  pack_array (zlen ms) ++ (ms ≫= λ m, mem_pack m t).

Fixpoint define_members {T} (ms : list (member T)) (l : list mp_object) (t : T) : res T :=
  match ms, l with
  | m :: ms, o :: l => t ← mem_convert m o t; define_members ms l t
  | _, _ => Ok t
  end.

Definition define_unpack {T} (ms : list (member T)) (o : mp_object) (t : T) : res T :=
  match o with
  | ARRAY l => define_members ms l t
  | _ => Fail
  end.

(** The adaptor of a class whose constructor makes [new]. *)
Definition class_t {T} (ms : list (member T)) (new : T) : adaptor T :=
  mkAdaptor (define_pack ms) (λ o, define_unpack ms o new).

(** ** The interface

    What an adaptor promises of the values that its type holds: they are written as
    an object, from which they are read back. *)

Class Lawful {A} (ad : adaptor A) (valid : A → Prop) : Type := {
  object_of : A → mp_object;
  object_wf a : valid a → wf_object (object_of a);
  pack_object_of a : valid a → a_pack ad a = pack_object (object_of a);
  convert_object_of a : valid a → a_convert ad (object_of a) = Ok a;
}.
Arguments object_of {A} ad {valid _} a : rename.
Arguments object_wf {A ad valid _} a _ : rename.
Arguments pack_object_of {A ad valid _} a _ : rename.
Arguments convert_object_of {A ad valid _} a _ : rename.

Definition below (max n : Z) : Prop := 0 <= n < max.

Definition text (l : list Z) : Prop := bytes l ∧ zlen l < 2 ^ 32.

#[export] Instance below_dec max n : Decision (below max n).
Proof. unfold below. apply _. Defined.

#[export] Instance text_dec l : Decision (text l).
Proof. unfold text. apply _. Defined.

#[export] Instance uint8_lawful : Lawful uint8_t (below (2 ^ 8)).
Proof.
  refine {| object_of := POSITIVE_INTEGER |}; unfold below; intros a Ha; cbn.
  - lia.
  - apply (pack_imp_uint_agree a); lia.
  - by rewrite (proj2 (Z.ltb_ge _ _)) by lia.
Defined.

#[export] Instance uint16_lawful : Lawful uint16_t (below (2 ^ 16)).
Proof.
  refine {| object_of := POSITIVE_INTEGER |}; unfold below; intros a Ha; cbn.
  - lia.
  - apply (pack_imp_uint_agree a); lia.
  - by rewrite (proj2 (Z.ltb_ge _ _)) by lia.
Defined.

#[export] Instance uint32_lawful : Lawful uint32_t (below (2 ^ 32)).
Proof.
  refine {| object_of := POSITIVE_INTEGER |}; unfold below; intros a Ha; cbn.
  - lia.
  - apply (pack_imp_uint_agree a); lia.
  - by rewrite (proj2 (Z.ltb_ge _ _)) by lia.
Defined.

#[export] Instance uint64_lawful : Lawful uint64_t (below (2 ^ 64)).
Proof.
  refine {| object_of := POSITIVE_INTEGER |}; unfold below; intros a Ha; cbn; [lia|done|].
  by rewrite (proj2 (Z.ltb_ge _ _)) by lia.
Defined.

#[export] Instance time_lawful : Lawful time_t (λ t, - 2 ^ 63 <= t < 2 ^ 63).
Proof.
  refine {| object_of := λ t, if t <? 0 then NEGATIVE_INTEGER t else POSITIVE_INTEGER t |};
    intros a Ha; destruct (Z.ltb_spec a 0); cbn.
  - lia.
  - lia.
  - done.
  - apply pack_imp_int_nonneg. lia.
  - by rewrite (proj2 (Z.ltb_ge _ _)) by lia.
  - by rewrite (proj2 (Z.ltb_ge _ _)) by lia.
Defined.

#[export] Instance bool_lawful : Lawful bool_t (λ _, True).
Proof. by refine {| object_of := BOOLEAN |}. Defined.

#[export] Instance string_lawful : Lawful string_t text.
Proof. by refine {| object_of := STR |}. Defined.

#[export] Instance raw_ref_lawful : Lawful raw_ref text.
Proof. by refine {| object_of := BIN |}. Defined.

Lemma bind_pack_objects {A} (ad : adaptor A) valid `{!Lawful ad valid} l :
  Forall valid l → l ≫= a_pack ad = (object_of ad <$> l) ≫= pack_object.
Proof.
  induction 1 as [|a l Ha Hl IH]; [done|].
  rewrite bind_cons, fmap_cons, bind_cons. by rewrite IH, (pack_object_of a Ha).
Qed.

#[export] Instance vector_lawful {A} (ad : adaptor A) valid `{!Lawful ad valid} :
  Lawful (vector ad) (λ l, Forall valid l ∧ zlen l < 2 ^ 32).
Proof.
  refine {| object_of := λ l, ARRAY (object_of ad <$> l) |}; intros l [Hl Hlen].
  - apply wf_ARRAY. unfold zlen in *. rewrite length_fmap. split; [done|].
    rewrite list.Forall_fmap. eapply list.Forall_impl; [exact Hl|]. intros a. apply object_wf.
  - cbn. unfold zlen. rewrite length_fmap. f_equal. by apply bind_pack_objects.
  - cbn. induction Hl as [|a l Ha Hl IH]; [done|]. cbn [fmap list_fmap convert_all].
    rewrite (convert_object_of a Ha). cbn [mbind res_bind].
    rewrite IH; [done|]. unfold zlen in *. cbn [length] in Hlen. lia.
Defined.

(** The members of [t] are written as the objects [os]. *)
Definition written {T} (t : T) (m : member T) (o : mp_object) : Prop :=
  mem_pack m t = pack_object o ∧ wf_object o.

Lemma written_member {T A} (ad : adaptor A) valid `{!Lawful ad valid} get upd (t : T) :
  valid (get t) → written t (member_of ad get upd) (object_of ad (get t)).
Proof. intros H. split; [by apply pack_object_of|by apply object_wf]. Qed.

Lemma define_pack_objects {T} (ms : list (member T)) t os :
  Forall2 (written t) ms os → zlen ms < 2 ^ 32 →
  define_pack ms t = pack_object (ARRAY os) ∧ wf_object (ARRAY os).
Proof.
  intros H Hlen. assert (zlen ms = zlen os) as Hl by (unfold zlen; by erewrite Forall2_length).
  split.
  - unfold define_pack. cbn [pack_object]. rewrite Hl. f_equal. clear Hlen Hl.
    induction H as [|m o ms os [Hm _] _ IH]; [done|]. rewrite !bind_cons. by rewrite IH, Hm.
  - apply wf_ARRAY. rewrite <- Hl. split; [done|]. clear Hlen Hl.
    induction H as [|m o ms os [_ Ho] _ IH]; by constructor.
Qed.

Lemma convert_member {T A} (ad : adaptor A) valid `{!Lawful ad valid} get (upd : (A → A) → T → T) (a : A) t :
  valid a → mem_convert (member_of ad get upd) (object_of ad a) t = Ok (upd (λ _, a) t).
Proof. intros H. cbn. by rewrite (convert_object_of a H). Qed.
