(* ===== verification/Persist.v ===== *)
(** * The sessions on disk

    Model of src/mqtt_server/persist_msg_pack.cpp: what [CPersistMsgPack] writes when
    the timer asks for it and when the server ends, and how it reads it back when the
    server starts.  The file is the list of the bytes that [fwrite] has accepted;
    [p_stream] is what is left to read.  An exception of MessagePack, which nothing
    catches, is [Fail]. *)

From stdpp Require Import sorting.
From S2P Require Import Prelude Msg Mbuf MemStore Context World Handler SubMgr Connection Poller.
From S2P Require Import Pack Unpack Adaptor.
From stdpp Require Import options.

(** ** The stored classes *)

(** [CMbuf] is only written; it is read as a [CMbuf_tmp]. *)
Definition CMbuf_members : list (member CMbuf) := [
  member_of raw_ref m_data upd_data;
  member_of uint32_t m_msg_type (λ f b, set_msg_type (f (m_msg_type b)) b);
  member_of uint32_t m_read_pos upd_read_pos;
  member_of uint32_t m_write_pos upd_write_pos;
  member_of uint64_t m_msg_id (λ f b, set_msg_id (f (m_msg_id b)) b);
  member_of uint32_t m_time (λ f b, mkMbuf (m_data b) (m_msg_type b) (m_read_pos b)
                                      (m_write_pos b) (m_msg_id b) (f (m_time b)) (m_mem_db b))].

Record CMbuf_tmp : Type := mkMbufTmp {
  t_data : list Z;
  t_msg_type : Z;
  t_read_pos : Z;
  t_write_pos : Z;
  t_msg_id : Z;
  t_time : Z;
}.

Definition eta_tmp (t : CMbuf_tmp) : CMbuf_tmp :=
  mkMbufTmp (t_data t) (t_msg_type t) (t_read_pos t) (t_write_pos t) (t_msg_id t) (t_time t).

Definition CMbuf_tmp_members : list (member CMbuf_tmp) := [
  member_of raw_ref t_data (ltac:(update_field eta_tmp t_data));
  member_of uint32_t t_msg_type (ltac:(update_field eta_tmp t_msg_type));
  member_of uint32_t t_read_pos (ltac:(update_field eta_tmp t_read_pos));
  member_of uint32_t t_write_pos (ltac:(update_field eta_tmp t_write_pos));
  member_of uint64_t t_msg_id (ltac:(update_field eta_tmp t_msg_id));
  member_of uint32_t t_time (ltac:(update_field eta_tmp t_time))].

(** The members of built-in type are not initialised. *)
Definition new_CMbuf_tmp (junk : nat → Z) : CMbuf_tmp :=
  mkMbufTmp [] (u32 (junk 0%nat)) (u32 (junk 1%nat)) (u32 (junk 2%nat)) (u64 (junk 3%nat)) (u32 (junk 4%nat)).

Definition CMsgMemStore_members : list (member CMsgMemStore) := [
  member_of uint64_t m_last_msg_id (λ f s, set_last_msg_id (f (m_last_msg_id s)) s);
  member_of uint32_t m_last_update_time (λ f s,
    mkStore (m_last_msg_id s) (m_msg_db s) (f (m_last_update_time s)))].

Definition CTopic_members : list (member CTopic) := [
  member_of string_t topic_name (λ f t, mkTopic (f (topic_name t)) (topic_qos t));
  member_of uint8_t topic_qos (λ f t, mkTopic (topic_name t) (f (topic_qos t)))].

Definition CTopic_t : adaptor CTopic := class_t CTopic_members (mkTopic [] 0).

Definition CTMqttClientContext_members : list (member CTMqttClientContext) := [
  member_of string_t remote_addr upd_remote_addr;
  member_of string_t protocal_name (ltac:(update_field eta_ctx protocal_name));
  member_of uint8_t protocal_ver (ltac:(update_field eta_ctx protocal_ver));
  member_of string_t ctx_client_id (ltac:(update_field eta_ctx ctx_client_id));
  member_of string_t ctx_user_name (ltac:(update_field eta_ctx ctx_user_name));
  member_of string_t user_password (ltac:(update_field eta_ctx user_password));
  member_of uint16_t keep_alive_timer (ltac:(update_field eta_ctx keep_alive_timer));
  member_of uint16_t max_inflight_msgs (ltac:(update_field eta_ctx max_inflight_msgs));
  member_of time_t accept_time upd_accept_time;
  member_of time_t connect_time upd_connect_time;
  member_of time_t last_pub_time upd_last_pub_time;
  member_of time_t last_msg_time upd_last_msg_time;
  member_of uint64_t last_pub_msg_id upd_last_pub_msg_id;
  member_of bool_t ctx_clean_session (ltac:(update_field eta_ctx ctx_clean_session));
  member_of bool_t will_flag (ltac:(update_field eta_ctx will_flag));
  member_of (vector uint64_t) send_msg_ids upd_send_msg_ids;
  member_of (vector CTopic_t) subcribe_topics upd_subcribe_topics].

(** ** The file *)

(** [CHUNK_TYPE]. *)
Definition GLOBAL_INFO : Z := 1.
Definition DB_MSG : Z := 2.
Definition CLIENT_MSG : Z := 3.
Definition TOPIC_INFO : Z := 4.

(** The state: the world and the members of [CPersistMsgPack], with the file of the
    name [m_file_name]; [p_open] tells that [m_db_file] is not null, and
    [p_last_db_update_time] is the static variable of [store]. *)
Record CPersistMsgPack : Type := mkPersist {
  p_world : World;
  p_file : option (list Z);
  p_stream : list Z;
  p_open : bool;
  p_tmp_msg_db : gmap Z Z;
  p_last_db_update_time : Z;
}.

Definition eta_persist (p : CPersistMsgPack) : CPersistMsgPack :=
  mkPersist (p_world p) (p_file p) (p_stream p) (p_open p) (p_tmp_msg_db p) (p_last_db_update_time p).

Definition upd_p_world : (World → World) → CPersistMsgPack → CPersistMsgPack :=
  ltac:(update_field eta_persist p_world).
Definition upd_p_file : (option (list Z) → option (list Z)) → CPersistMsgPack → CPersistMsgPack :=
  ltac:(update_field eta_persist p_file).
Definition upd_p_stream : (list Z → list Z) → CPersistMsgPack → CPersistMsgPack :=
  ltac:(update_field eta_persist p_stream).
Definition upd_p_open : (bool → bool) → CPersistMsgPack → CPersistMsgPack :=
  ltac:(update_field eta_persist p_open).
Definition upd_p_tmp_msg_db : (gmap Z Z → gmap Z Z) → CPersistMsgPack → CPersistMsgPack :=
  ltac:(update_field eta_persist p_tmp_msg_db).
Definition upd_p_last_db_update_time : (Z → Z) → CPersistMsgPack → CPersistMsgPack :=
  ltac:(update_field eta_persist p_last_db_update_time).

Abbreviation P := (st CPersistMsgPack) (only parsing).

(** The calls of the C library, by the number of the call as in [Env], and
    [CONFIG->get_max_idle_timeout()]. *)
Class FileEnv : Type := {
  env_fopen : nat → bool;              (* fopen succeeds *)
  env_fwrite : nat → Z → Z;            (* how many of the bytes fwrite accepts *)
  env_fread_error : nat → bool;        (* fread fails, not at the end of the file *)
  env_max_idle_timeout : Z;
}.

(** A disk without errors. *)
Class FileCalm {F : FileEnv} : Prop := {
  calm_fopen : ∀ n, env_fopen n = true;
  calm_fwrite : ∀ n k, env_fwrite n k = k;
  calm_fread : ∀ n, env_fread_error n = false;
}.

Section persist.
Context {E : Env} {V : Virtual} {F : FileEnv}.

(** An operation on the server. *)
Definition world {A} (m : M A) : P A := λ p,
  let '(r, w) := m (p_world p) in (r, upd_p_world (λ _, w) p).

Definition open_rb : P Z :=
  do ok <- world (sys env_fopen);
  do file <- gets p_file;
  match file with
  | Some content =>
      do_ modify (upd_p_open (λ _, ok));
      if ok : bool then do_ modify (upd_p_stream (λ _, content)); ret 0 else ret (-1)
  | None => do_ modify (upd_p_open (λ _, false)); ret (-1)
  end.

Definition open_wb : P Z :=
  do ok <- world (sys env_fopen);
  do_ modify (upd_p_open (λ _, ok));
  if ok : bool then do_ modify (upd_p_file (λ _, Some [])); ret 0 else ret (-1).

Definition fclose : P unit := modify (upd_p_open (λ _, false)).

(** [write(buf, len)]. *)
Definition write (buf : list Z) : P Z :=
  do is_open <- gets p_open;
  do_ (when negb is_open then_ crash NullDeref);
  do n <- world (sys (λ k, env_fwrite k (zlen buf)));
  do_ modify (upd_p_file (λ f, Some (default [] f ++ take (Z.to_nat n) buf)));
  ret (if n =? zlen buf then 0 else -1).

(** [ERROR_RETURN(m, -1)], and then [k]. *)
Definition error_return (m k : P Z) : P Z := do r <- m; if r <? 0 then ret (-1) else k.

(** A [uint32_t] in memory. *)
Definition le32 (n : Z) : list Z := rev (store_be 4%nat n).

Definition write_chunk_info (chunk_type chunk_len : Z) : P Z :=
  error_return (write [0xEE])
    (error_return (write [u8 chunk_type])
      (error_return (write (le32 chunk_len)) (ret 0))).

(** The two writes of a chunk; [write] takes the length as a [uint32_t]. *)
Definition write_chunk (chunk_type : Z) (sbuf : list Z) : P Z :=
  error_return (write_chunk_info chunk_type (u32 (zlen sbuf)))
    (error_return (write (take (Z.to_nat (u32 (zlen sbuf))) sbuf)) (ret 0)).

(** A loop that [ERROR_RETURN] leaves. *)
Fixpoint for_each {A} (f : A → P Z) (l : list A) : P Z :=
  match l with
  | [] => ret 0
  | a :: l => error_return (f a) (for_each f l)
  end.

(** ** Storing *)

Definition store_db_info : P Z :=
  do mem_store <- gets (w_store ∘ p_world);
  write_chunk GLOBAL_INFO (define_pack CMsgMemStore_members mem_store).

Definition store_one_msg (b : Z) : P Z :=
  do m <- world (get_mbuf b);
  write_chunk DB_MSG (define_pack CMbuf_members m).

(** The messages in the order of the [unordered_map]. *)
Definition store_db_msg : P Z :=
  do msg_db <- gets (m_msg_db ∘ w_store ∘ p_world);
  do order <- world (sys (λ n, env_order n (dom msg_db)));
  for_each store_one_msg (omap (λ id, msg_db !! id) order).

(** [now - last_msg_in > max_idle_timeout]. *)
Definition close_if_idle (x : Z) : M unit :=
  do c <- get_ctx x;
  match mqtt_connection c with
  | None => ret tt
  | Some p =>
      do now <- std_time;
      do conn <- get_conn p;
      if env_max_idle_timeout <? now - m_last_msg_time conn then do _ <- v_handle_close p; ret tt
      else ret tt
  end.

(** The numbers of the messages of a queue. *)
Fixpoint queue_ids (q : list Z) : M (list Z) :=
  match q with
  | [] => ret []
  | b :: q => do m <- get_mbuf b; do ids <- queue_ids q; ret (m_msg_id m :: ids)
  end.

Definition ctx_prepare_store (x : Z) : M unit :=
  do c <- get_ctx x;
  do ids <- queue_ids (send_msg_queue c);
  upd_ctx x (prepare_store ids).

Definition store_one_client (x : Z) : P Z :=
  do_ world (close_if_idle x);
  do c <- world (get_ctx x);
  if ctx_clean_session c then ret 0
  else
    do_ world (ctx_prepare_store x);
    do c <- world (get_ctx x);
    write_chunk CLIENT_MSG (define_pack CTMqttClientContext_members c).

(** The contexts in the order of the [unordered_map]. *)
Definition store_client_info : P Z :=
  do client_infos <- gets (w_clients ∘ p_world);
  do order <- world (sys (λ n, env_topic_order n (dom client_infos)));
  for_each store_one_client (omap (λ id, client_infos !! id) order).

(** The order of [std::map<std::string, ...>]. *)
Fixpoint string_leb (s t : str) : bool :=
  match s, t with
  | [], _ => true
  | _ :: _, [] => false
  | a :: s, b :: t => (a <? b) || ((a =? b) && string_leb s t)
  end.

Definition string_le (s t : str) : Prop := string_leb s t = true.

#[local] Instance string_le_dec : RelDecision string_le.
Proof. intros s t. unfold string_le. apply _. Defined.

Definition map_order (X : gset str) : list str := merge_sort string_le (elements X).

(** The loop that fills [map_retain_msg]. *)
Fixpoint retained_messages (names : list str) : M (list (str * CMbuf)) :=
  match names with
  | [] => ret []
  | t :: names =>
      do node <- find_topic t;
      match node ≫= m_retian_msg_buf with
      | None => retained_messages names
      | Some b =>
          do m <- get_mbuf b;
          do l <- retained_messages names;
          ret (if mbuf_length m <=? 0 then l else (t, m) :: l)
      end
  end.

Definition store_retain_msg : P Z :=
  do topics <- gets (w_topics ∘ p_world);
  do map_retain_msg <- world (retained_messages (map_order (dom topics)));
  match map_retain_msg with
  | [] => ret 0
  | _ :: _ =>
      write_chunk TOPIC_INFO
        (pack_map (u32 (zlen map_retain_msg)) ++
         (map_retain_msg ≫= λ '(t, m), a_pack string_t t ++ define_pack CMbuf_members m))
  end.

(** [MSG_STAT_MGR->flush()]. *)
Definition flush_stats : M unit := λ w,
  let '(n, out, m) := stat_flush (λ k, env_time (w_calls w + k)%nat) (w_stats w) in
  (Ok tt, upd_calls (λ c, (c + n)%nat) (upd_stats (λ _, m) (upd_out (λ l, l ++ (MsgRecord <$> out)) w))).

Definition store_all : P Z :=
  do_ fclose;
  do r <- open_wb;
  if r =? -1 then ret (-1)
  else
    error_return store_db_info
      (error_return store_db_msg
        (error_return store_client_info
          (error_return store_retain_msg
            (do_ fclose; ret 0)))).

Definition store (force_flush : bool) : P Z :=
  do_ world flush_stats;
  if force_flush then store_all
  else
    do db_update_time <- gets (m_last_update_time ∘ w_store ∘ p_world);
    do last_db_update_time <- gets p_last_db_update_time;
    if db_update_time <=? last_db_update_time then ret 0
    else
      do_ modify (upd_p_last_db_update_time (λ _, db_update_time));
      store_all.

(** ** Restoring *)

Definition restore_db_info (buf : list Z) : P Z :=
  do o <- lift (unpack buf);
  do s <- gets (w_store ∘ p_world);
  do s <- lift (define_unpack CMsgMemStore_members o s);
  do_ world (modify (upd_store (λ _, s)));
  ret 0.

(** [copy] reads [buf_len] bytes of the object from the read marker on. *)
Definition restore_mbuf (o : mp_object) : P Z :=
  do junk <- world (sys env_junk);
  do tmp <- lift (define_unpack CMbuf_tmp_members o (new_CMbuf_tmp junk));
  let buf_len := s32 (t_write_pos tmp - t_read_pos tmp) in
  do mbuf <- world (new_mbuf (u32 buf_len));
  do_ world (upd_mbuf mbuf (set_msg_id (t_msg_id tmp)));
  do l <- lift (rd_bytes (t_data tmp) (t_read_pos tmp) buf_len);
  do _ <- world (mbuf_copy_to mbuf l);
  ret mbuf.

Definition restore_db_msg (buf : list Z) : P Z :=
  do o <- lift (unpack buf);
  do b <- restore_mbuf o;
  do m <- world (get_mbuf b);
  do_ (when negb (m_msg_id m =? 0) then_
         (do_ world (regist_mem_store b);
          modify (upd_p_tmp_msg_db <[m_msg_id m := b]>)));
  ret 0.

(** The messages of a session; those that are not stored are left out. *)
Definition restore_queue (x : Z) (ids : list Z) : P unit :=
  iter (λ msg_id,
    do pos <- gets (λ p, p_tmp_msg_db p !! msg_id);
    match pos with
    | None => ret tt
    | Some b => world (upd_ctx x (add_send_msg b))
    end) ids.

Definition restore_client_info (buf : list Z) : P Z :=
  do o <- lift (unpack buf);
  do x <- world (new_ctx None);
  do c <- world (get_ctx x);
  do c <- lift (define_unpack CTMqttClientContext_members o c);
  do_ world (upd_ctx x (λ _, c));
  do _ <- world (add_by_client_id (ctx_client_id c) x);
  do_ world (iter (λ t, do _ <- add_client_context (topic_name t) x; ret tt) (subcribe_topics c));
  do_ restore_queue x (send_msg_ids c);
  ret 0.

(** The topic nodes are shared between the map and its copy. *)
Definition restore_retained (kv : mp_object * mp_object) : P unit :=
  do topic_name <- lift (a_convert string_t kv.1);
  do mbuf <- restore_mbuf kv.2;
  do it <- world (find_topic topic_name);
  match it with
  | None => ret tt
  | Some node => world (set_topic topic_name (update_retain_msg mbuf node))
  end.

(** An object that is no map is taken for one: its members are garbage. *)
Definition restore_retain_msg (buf : list Z) : P Z :=
  do o <- lift (unpack buf);
  match o with
  | MAP l => do_ iter restore_retained l; ret 0
  | _ => crash OutOfBounds
  end.

Inductive fread_result : Type :=
  | FreadOk (l : list Z) | FreadEof | FreadError.

(** [fread] of [k] bytes; fewer are an error or the end of the file. *)
Definition fread (k : Z) : P fread_result :=
  if k =? 0 then ret (FreadOk [])
  else
    do error <- world (sys env_fread_error);
    if error : bool then ret FreadError
    else
      do s <- gets p_stream;
      if zlen s <? k then do_ modify (upd_p_stream (λ _, [])); ret FreadEof
      else
        do_ modify (upd_p_stream (drop (Z.to_nat k)));
        ret (FreadOk (take (Z.to_nat k) s)).

Inductive chunk_result : Type :=
  | Chunk (type : Z) (buf : list Z) | LastChunk | BadChunk.

Definition MAX_CHUNK : Z := 1024 * 1024.

(** The part of an iteration that reads a chunk. *)
Definition read_chunk : P chunk_result :=
  do tag <- fread 1;
  match tag with
  | FreadEof => ret LastChunk
  | FreadError => ret BadChunk
  | FreadOk tag =>
      if bool_decide (tag = [0xEE]) then
        do type <- fread 1;
        do len <- match type with FreadOk _ => fread 4 | _ => ret FreadError end;
        match type, len with
        | FreadOk type, FreadOk len =>
            let chunk_len := load_be (rev len) in
            if MAX_CHUNK <? chunk_len then ret BadChunk
            else
              do buf <- fread chunk_len;
              match buf with
              | FreadOk buf => ret (Chunk (load_be type) buf)
              | _ => ret BadChunk
              end
        | _, _ => ret BadChunk
        end
      else ret BadChunk
  end.

Definition restore_chunk (chunk_type : Z) (buf : list Z) : P Z :=
  if chunk_type =? GLOBAL_INFO then restore_db_info buf
  else if chunk_type =? DB_MSG then restore_db_msg buf
  else if chunk_type =? CLIENT_MSG then restore_client_info buf
  else if chunk_type =? TOPIC_INFO then restore_retain_msg buf
  else ret (-1).

(** The loop; a chunk has at least six bytes. *)
Fixpoint restore_loop (fuel : nat) (res : Z) : P Z :=
  match fuel with
  | O => crash FuelOut
  | S fuel =>
      do chunk <- read_chunk;
      match chunk with
      | LastChunk => ret res
      | BadChunk => ret (-1)
      | Chunk chunk_type buf =>
          do res <- restore_chunk chunk_type buf;
          if res =? -1 then ret res else restore_loop fuel res
      end
  end.

(** The messages that only [m_tmp_msg_db] holds are destroyed when it is cleared. *)
Definition restore : P Z :=
  do file <- gets p_file;
  match file with
  | None => ret 0
  | Some content =>
      error_return open_rb
        (if zlen content =? 0 then ret 0
         else
           do res <- restore_loop (S (length content)) 0;
           do_ modify (upd_p_tmp_msg_db (λ _, ∅));
           do_ world (modify collect);
           do_ fclose;
           ret res)
  end.

(** ** The server *)

(** [CTimerHandler::handle_input] on the timer's descriptor. *)
Definition timer_handle_input (fd : Z) : P Z :=
  do times <- world (sys_read fd 8);
  match times with
  | Some (_ :: _) => do _ <- store false; ret 0
  | _ => ret 0
  end.

(** [TCPServer::open]; the signals and the timer follow. *)
Definition tcp_server_open (acceptor notify_fd listen eventfd : Z) : P Z :=
  do r <- restore;
  if r =? -1 then ret (-1) else world (server_open acceptor notify_fd listen eventfd).

(** The constructor of [TCPServer], and [open]. *)
Definition tcp_server_start (listen eventfd : Z) : P Z :=
  do acceptor <- world (new_object Acceptor);
  do notify_fd <- world (new_object PollerNotifyFd);
  tcp_server_open acceptor notify_fd listen eventfd.

(** The end of [TCPServer::loop]. *)
Definition tcp_server_end : P Z := do _ <- store true; ret 0.

End persist.
