(* ===== verification/Stored.v ===== *)
(** * What the server stores

    The file that [store] of Persist.v writes, as a list of objects: one chunk for the
    message numbers, one per message, one per persistent session, and one for the
    retained messages. *)

From S2P Require Import Prelude Msg Mbuf MemStore Context World Handler SubMgr Connection.
From S2P Require Import Invariant Pack Adaptor Persist.
From stdpp Require Import options.

(** ** The objects of the stored classes *)

Definition store_object (s : CMsgMemStore) : mp_object :=
  ARRAY [object_of uint64_t (m_last_msg_id s); object_of uint32_t (m_last_update_time s)].

Definition mbuf_object (m : CMbuf) : mp_object :=
  ARRAY [object_of raw_ref (m_data m); object_of uint32_t (m_msg_type m);
         object_of uint32_t (m_read_pos m); object_of uint32_t (m_write_pos m);
         object_of uint64_t (m_msg_id m); object_of uint32_t (m_time m)].

Definition topic_object (t : CTopic) : mp_object :=
  ARRAY [object_of string_t (topic_name t); object_of uint8_t (topic_qos t)].

Definition store_ok (s : CMsgMemStore) : Prop :=
  below (2 ^ 64) (m_last_msg_id s) ∧ below (2 ^ 32) (m_last_update_time s).

Definition mbuf_ok (m : CMbuf) : Prop :=
  wf_mbuf m ∧ bytes (m_data m) ∧ below (2 ^ 32) (m_msg_type m) ∧
  below (2 ^ 64) (m_msg_id m) ∧ below (2 ^ 32) (m_time m).

Definition topic_ok (t : CTopic) : Prop := text (topic_name t) ∧ below (2 ^ 8) (topic_qos t).

#[export] Instance store_ok_dec s : Decision (store_ok s).
Proof. unfold store_ok. apply _. Defined.

#[export] Instance mbuf_ok_dec m : Decision (mbuf_ok m).
Proof. unfold mbuf_ok. apply _. Defined.

#[export] Instance topic_ok_dec t : Decision (topic_ok t).
Proof. unfold topic_ok. apply _. Defined.

(** Every member is written as its object. *)
Ltac written_all := repeat (constructor; [by apply written_member|]); constructor.

Lemma store_written s : store_ok s →
  define_pack CMsgMemStore_members s = pack_object (store_object s) ∧ wf_object (store_object s).
Proof. intros (?&?). apply define_pack_objects; [written_all|done]. Qed.

Lemma mbuf_written m : mbuf_ok m →
  define_pack CMbuf_members m = pack_object (mbuf_object m) ∧ wf_object (mbuf_object m).
Proof.
  intros ((Hr&Hw&Hs)&Hd&?&?&?).
  assert (text (m_data m)) by (split; [done|unfold max_size in Hs; lia]).
  assert (below (2 ^ 32) (m_read_pos m)) by (unfold below; lia).
  assert (below (2 ^ 32) (m_write_pos m)) by (unfold below; lia).
  apply define_pack_objects; [written_all|done].
Qed.

#[export] Instance topic_lawful : Lawful CTopic_t topic_ok.
Proof.
  refine {| object_of := topic_object |}; intros t (?&?).
  - apply (define_pack_objects CTopic_members t); [written_all|done].
  - apply (define_pack_objects CTopic_members t); [written_all|done].
  - unfold topic_object, CTopic_t, class_t. cbn [a_convert define_unpack CTopic_members define_members].
    rewrite (convert_member string_t) by done. cbn [mbind res_bind define_members].
    rewrite (convert_member uint8_t) by done. by destruct t.
Defined.

Definition context_object (c : CTMqttClientContext) : mp_object :=
  ARRAY [object_of string_t (remote_addr c); object_of string_t (protocal_name c);
         object_of uint8_t (protocal_ver c); object_of string_t (ctx_client_id c);
         object_of string_t (ctx_user_name c); object_of string_t (user_password c);
         object_of uint16_t (keep_alive_timer c); object_of uint16_t (max_inflight_msgs c);
         object_of time_t (accept_time c); object_of time_t (connect_time c);
         object_of time_t (last_pub_time c); object_of time_t (last_msg_time c);
         object_of uint64_t (last_pub_msg_id c); object_of bool_t (ctx_clean_session c);
         object_of bool_t (will_flag c); object_of (vector uint64_t) (send_msg_ids c);
         object_of (vector CTopic_t) (subcribe_topics c)].

Definition is_time (t : Z) : Prop := - 2 ^ 63 <= t < 2 ^ 63.

#[export] Instance is_time_dec t : Decision (is_time t).
Proof. unfold is_time. apply _. Defined.

Record context_ok (c : CTMqttClientContext) : Prop := {
  co_addr : text (remote_addr c);
  co_protocal_name : text (protocal_name c);
  co_protocal_ver : below (2 ^ 8) (protocal_ver c);
  co_client_id : text (ctx_client_id c);
  co_user_name : text (ctx_user_name c);
  co_password : text (user_password c);
  co_keep_alive : below (2 ^ 16) (keep_alive_timer c);
  co_inflight : below (2 ^ 16) (max_inflight_msgs c);
  co_accept_time : is_time (accept_time c);
  co_connect_time : is_time (connect_time c);
  co_last_pub_time : is_time (last_pub_time c);
  co_last_msg_time : is_time (last_msg_time c);
  co_last_pub_msg_id : below (2 ^ 64) (last_pub_msg_id c);
  co_ids : Forall (below (2 ^ 64)) (send_msg_ids c) ∧ zlen (send_msg_ids c) < 2 ^ 32;
  co_topics : Forall topic_ok (subcribe_topics c) ∧ zlen (subcribe_topics c) < 2 ^ 32;
}.

Lemma context_written c : context_ok c →
  define_pack CTMqttClientContext_members c = pack_object (context_object c) ∧
  wf_object (context_object c).
Proof. intros []. apply define_pack_objects; [written_all|done]. Qed.

(** ** The chunks *)

Definition chunk (type : Z) (data : list Z) : list Z := [0xEE; type] ++ le32 (zlen data) ++ data.

Inductive item : Type :=
  | IStore (s : CMsgMemStore)
  | IMsg (m : CMbuf)
  | ISession (c : CTMqttClientContext)
  | IRetained (l : list (str * CMbuf)).

Definition item_type (i : item) : Z :=
  match i with
  | IStore _ => GLOBAL_INFO
  | IMsg _ => DB_MSG
  | ISession _ => CLIENT_MSG
  | IRetained _ => TOPIC_INFO
  end.

Definition retained_object (l : list (str * CMbuf)) : mp_object :=
  MAP ((λ p, (STR p.1, mbuf_object p.2)) <$> l).

Definition item_object (i : item) : mp_object :=
  match i with
  | IStore s => store_object s
  | IMsg m => mbuf_object m
  | ISession c => context_object c
  | IRetained l => retained_object l
  end.

Definition item_ok (i : item) : Prop :=
  match i with
  | IStore s => store_ok s
  | IMsg m => mbuf_ok m
  | ISession c => context_ok c
  | IRetained l => Forall (λ p, text p.1 ∧ mbuf_ok p.2) l
  end ∧ zlen (pack_object (item_object i)) <= MAX_CHUNK.

Definition item_bytes (i : item) : list Z := chunk (item_type i) (pack_object (item_object i)).

Lemma retained_written l :
  Forall (λ p, text p.1 ∧ mbuf_ok p.2) l →
  l ≫= (λ '(t, m), a_pack string_t t ++ define_pack CMbuf_members m) =
  ((λ p, (STR p.1, mbuf_object p.2)) <$> l) ≫= (λ p, pack_object p.1 ++ pack_object p.2).
Proof.
  induction 1 as [|[t m] l [Ht Hm] Hl IH]; [done|]. cbn [fst snd] in *.
  rewrite bind_cons, fmap_cons, bind_cons, IH. cbn [fst snd]. by rewrite (proj1 (mbuf_written m Hm)).
Qed.

(** A packed object has a byte for each of its elements. *)
Lemma retained_size l :
  Forall (λ p, text p.1 ∧ mbuf_ok p.2) l → zlen l <= zlen (pack_object (retained_object l)).
Proof.
  intros H. cbn [retained_object pack_object]. rewrite zlen_app.
  pose proof (zlen_nonneg (pack_map (zlen ((λ p, (STR p.1, mbuf_object p.2)) <$> l)))) as Hp.
  assert (zlen l <= zlen (((λ p, (STR p.1, mbuf_object p.2)) <$> l) ≫= (λ p, pack_object p.1 ++ pack_object p.2))); [|lia].
  clear Hp. induction H as [|[t m] l [Ht Hm] Hl IH]; [done|]. cbn [fst snd] in *.
  rewrite fmap_cons, bind_cons, !zlen_app, zlen_cons. cbn [fst snd].
  assert (1 <= zlen (pack_object (mbuf_object m))).
  { cbn [mbuf_object pack_object]. rewrite zlen_app. apply (Z.le_trans _ (zlen (pack_array 6)) _); [done|].
    pose proof (zlen_nonneg ([object_of raw_ref (m_data m); object_of uint32_t (m_msg_type m);
         object_of uint32_t (m_read_pos m); object_of uint32_t (m_write_pos m);
         object_of uint64_t (m_msg_id m); object_of uint32_t (m_time m)] ≫= pack_object)).
    change (zlen [_; _; _; _; _; _]) with 6. lia. }
  pose proof (zlen_nonneg (pack_object (STR t))). lia.
Qed.

Lemma item_wf i : item_ok i → wf_object (item_object i).
Proof.
  intros [Hi Hsize]. destruct i as [s|m|c|l]; cbn [item_object] in *.
  - by apply store_written.
  - by apply mbuf_written.
  - by apply context_written.
  - apply wf_MAP. pose proof (retained_size l Hi). unfold zlen, MAX_CHUNK in *. rewrite length_fmap.
    split; [lia|]. rewrite list.Forall_fmap. eapply list.Forall_impl; [exact Hi|].
    intros [t m] [Ht Hm]. split; [exact Ht|]. by apply mbuf_written.
Qed.

(** ** Writing *)

(** What storing leaves alone: of a context, only the list of its messages' numbers
    changes. *)
Record untouched (w w' : World) : Prop := {
  u_objs : w_objs w' = w_objs w;
  u_mbufs : w_mbufs w' = w_mbufs w;
  u_topics : w_topics w' = w_topics w;
  u_clients : w_clients w' = w_clients w;
  u_store : w_store w' = w_store w;
  u_ctxs : ∀ x, prepare_store [] <$> w_ctxs w' !! x = prepare_store [] <$> w_ctxs w !! x;
}.

#[export] Instance untouched_preorder : PreOrder untouched.
Proof.
  split; [by intros w; split|]. intros w1 w2 w3 [] []. split; congruence.
Qed.

Lemma untouched_sys {A} (f : nat → A) w : untouched w (sys f w).2.
Proof. done. Qed.

Lemma untouched_ctx w w' x c : untouched w w' → w_ctxs w !! x = Some c →
  ∃ ids, w_ctxs w' !! x = Some (prepare_store ids c).
Proof.
  intros Hu Hc. pose proof (u_ctxs _ _ Hu x) as Hx. rewrite Hc in Hx. cbn in Hx.
  destruct (w_ctxs w' !! x) as [c'|]; [|done]. exists (send_msg_ids c'). f_equal.
  apply Some_inj in Hx. apply (f_equal (prepare_store (send_msg_ids c'))) in Hx.
  change (prepare_store (send_msg_ids c') c' = prepare_store (send_msg_ids c') c) in Hx.
  rewrite <- Hx. by destruct c'.
Qed.

(** The bytes [l] have been added to the open file. *)
Record wrote (l : list Z) (p p' : CPersistMsgPack) : Prop := {
  wr_open : p_open p' = true;
  wr_file : p_file p' = Some (default [] (p_file p) ++ l);
  wr_world : untouched (p_world p) (p_world p');
}.

Lemma wrote_trans l1 l2 p1 p2 p3 : wrote l1 p1 p2 → wrote l2 p2 p3 → wrote (l1 ++ l2) p1 p3.
Proof.
  intros [O1 F1 W1] [O2 F2 W2]. split; [done| |by etransitivity].
  rewrite F2, F1. cbn. by rewrite app_assoc.
Qed.

Lemma wrote_nil p p' :
  p_open p' = true → p_file p' = p_file p → is_Some (p_file p) → untouched (p_world p) (p_world p') → wrote [] p p'.
Proof. intros Ho Hf [f Hs] Hu. split; [done| |done]. rewrite Hf, Hs. cbn. by rewrite app_nil_r. Qed.

Lemma upd_p_world_same p : upd_p_world (λ _, p_world p) p = p.
Proof. by destruct p. Qed.

Section writing.
Context {E : Env} {V : Virtual} {F : FileEnv} {C : FileCalm}.

(** [m] writes [l] and returns 0. *)
Definition writes (m : P Z) (l : list Z) (p : CPersistMsgPack) : Prop :=
  safe m (λ r p', r = 0 ∧ wrote l p p') p.

Lemma safe_world {A} (m : M A) (Q : A → CPersistMsgPack → Prop) p :
  safe m (λ a w, Q a (upd_p_world (λ _, w) p)) (p_world p) → safe (world m) Q p.
Proof. unfold safe, wp, world. by destruct (m (p_world p)) as [[a| |u] w]. Qed.

Lemma writes_return l p m k :
  writes m l p → (∀ p', wrote l p p' → safe k (λ r p', r = 0 ∧ wrote l p p') p') →
  writes (error_return m k) l p.
Proof.
  intros Hm Hk. apply safe_bind. eapply safe_mono; [exact Hm|]. intros r p' [-> Hp]. by apply Hk.
Qed.

Lemma writes_then l1 l2 m k p :
  writes m l1 p → (∀ p', wrote l1 p p' → writes k l2 p') → writes (error_return m k) (l1 ++ l2) p.
Proof.
  intros Hm Hk. apply safe_bind. eapply safe_mono; [exact Hm|]. intros r p1 [-> Hp1]. cbn.
  eapply safe_mono; [by apply Hk|]. intros r2 p2 [-> Hp2]. split; [done|]. by eapply wrote_trans.
Qed.

Lemma writes_ret0 p : p_open p = true → is_Some (p_file p) → writes (ret 0) [] p.
Proof. intros Ho Hf. apply safe_ret. split; [done|]. by apply wrote_nil. Qed.

Lemma wrote_open l p p' : wrote l p p' → p_open p' = true ∧ is_Some (p_file p').
Proof. intros [Ho Hf _]. split; [done|]. by rewrite Hf. Qed.

Lemma writes_write l p : p_open p = true → writes (write l) l p.
Proof using C.
  intros Ho. unfold write. apply safe_bind, safe_gets. rewrite Ho. cbn [negb].
  apply safe_bind, safe_ret, safe_bind, safe_world, safe_sys, safe_bind, safe_modify, safe_ret.
  rewrite calm_fwrite, Z.eqb_refl. split; [done|]. split; [done| |done]. cbn.
  unfold zlen. by rewrite Nat2Z.id, firstn_all.
Qed.

Lemma writes_chunk type l p :
  p_open p = true → 0 <= type < 256 → zlen l < 2 ^ 32 → writes (write_chunk type l) (chunk type l) p.
Proof using C.
  intros Ho Ht Hl. pose proof (zlen_nonneg l). unfold write_chunk, write_chunk_info.
  rewrite u32_small by lia. replace (take _ l) with l by (unfold zlen; by rewrite Nat2Z.id, firstn_all).
  replace (chunk type l) with (([0xEE] ++ [u8 type] ++ le32 (zlen l) ++ []) ++ l ++ []).
  2:{ unfold chunk. rewrite u8_small by lia. cbn [app]. by rewrite !app_nil_r. }
  repeat first [by apply writes_write | by apply writes_ret0 |
    apply writes_then; [|intros ? [??]%wrote_open]].
Qed.

Lemma writes_item i p type data :
  p_open p = true → item_ok i → type = item_type i → data = pack_object (item_object i) →
  writes (write_chunk type data) (item_bytes i) p.
Proof using C.
  intros Ho [_ Hs] -> ->. apply writes_chunk; [done| |unfold MAX_CHUNK in Hs; lia]. by destruct i.
Qed.

(** A loop whose body writes [g a] for every element. *)
Lemma writes_for_each {A} (f : A → P Z) (g : A → list Z) l p :
  p_open p = true → is_Some (p_file p) →
  (∀ a p', a ∈ l → p_open p' = true → is_Some (p_file p') → untouched (p_world p) (p_world p') →
     writes (f a) (g a) p') →
  writes (for_each f l) (l ≫= g) p.
Proof using C.
  revert p. induction l as [|a l IH]; intros p Ho Hs Hf; cbn [for_each]; [by apply writes_ret0|].
  rewrite bind_cons. apply writes_then; [apply Hf; [set_solver|done..]|].
  intros p1 Hp1. destruct (wrote_open _ _ _ Hp1). apply IH; [done..|].
  intros b p2 Hb Ho2 Hs2 Hu. apply Hf; [set_solver|done..|]. etransitivity; [apply Hp1|done].
Qed.

End writing.

(** ** The items of a state *)

(** A session that outlives the connection of its client. *)
Definition persistent (w : World) (id : str) (x : Z) (c : CTMqttClientContext) : Prop :=
  w_clients w !! id = Some x ∧ w_ctxs w !! x = Some c ∧ ctx_clean_session c = false.

Definition ids_of (w : World) (q : list Z) : list Z := omap (λ b, m_msg_id <$> w_mbufs w !! b) q.

(** What is stored of a context. *)
Definition prepared (w : World) (c : CTMqttClientContext) : CTMqttClientContext :=
  prepare_store (ids_of w (send_msg_queue c)) c.

Definition stored_msgs (w : World) (order : list Z) : list CMbuf :=
  omap (λ id, m_msg_db (w_store w) !! id ≫= λ b, w_mbufs w !! b) order.

Definition stored_session (w : World) (x : Z) : option CTMqttClientContext :=
  c ← w_ctxs w !! x; if ctx_clean_session c then None else Some (prepared w c).

Definition stored_sessions (w : World) (order : list str) : list CTMqttClientContext :=
  omap (λ id, w_clients w !! id ≫= stored_session w) order.

(** The retained message of a topic, unless it is empty. *)
Definition retained_of (w : World) (t : str) : option CMbuf :=
  b ← w_topics w !! t ≫= m_retian_msg_buf;
  m ← w_mbufs w !! b;
  if mbuf_length m <=? 0 then None else Some m.

Definition stored_retained (w : World) : list (str * CMbuf) :=
  omap (λ t, (t,.) <$> retained_of w t) (map_order (dom (w_topics w))).

Definition retained_items (l : list (str * CMbuf)) : list item :=
  match l with [] => [] | _ :: _ => [IRetained l] end.

Definition stored_items (w : World) (msgs : list Z) (clients : list str) : list item :=
  [IStore (w_store w)] ++ (IMsg <$> stored_msgs w msgs) ++ (ISession <$> stored_sessions w clients) ++
  retained_items (stored_retained w).

(** What must hold of a state for its file to be readable: the values are those their
    types hold, and no chunk is larger than the reader's buffer. *)
Record storable (w : World) : Prop := {
  st_store : item_ok (IStore (w_store w));
  st_msgs : ∀ id b m, m_msg_db (w_store w) !! id = Some b → w_mbufs w !! b = Some m → item_ok (IMsg m);
  st_sessions : ∀ id x c, persistent w id x c → ctx_client_id c = id ∧ item_ok (ISession (prepared w c));
  st_retained : item_ok (IRetained (stored_retained w));
}.

(** No connection is closed while the sessions are stored. *)
Definition no_idle {F : FileEnv} {E : Env} (w : World) : Prop :=
  ∀ p h k n, w_objs w !! p = Some (mkObject h (Connection k)) →
    env_time n - m_last_msg_time k <= env_max_idle_timeout.

Lemma queue_ids_spec q w :
  (∀ b, b ∈ q → is_Some (w_mbufs w !! b)) → queue_ids q w = (Ok (ids_of w q), w).
Proof.
  induction q as [|b q IH]; intros Hq; [done|]. cbn [queue_ids].
  destruct (Hq b ltac:(set_solver)) as [m Hm].
  assert (get_mbuf b w = (Ok m, w)) as Hget by (unfold get_mbuf; by rewrite Hm).
  rewrite (bind_Ok _ _ _ _ _ Hget), (bind_Ok _ _ _ _ _ (IH ltac:(set_solver))).
  unfold ids_of. cbn [omap list_omap]. by rewrite Hm.
Qed.

Lemma retained_messages_spec names w :
  (∀ t n b, w_topics w !! t = Some n → m_retian_msg_buf n = Some b → is_Some (w_mbufs w !! b)) →
  retained_messages names w = (Ok (omap (λ t, (t,.) <$> retained_of w t) names), w).
Proof.
  intros Hlive. induction names as [|t names IH]; [done|]. cbn [retained_messages].
  assert (find_topic t w = (Ok (w_topics w !! t), w)) as Hf by done.
  rewrite (bind_Ok _ _ _ _ _ Hf). cbn [omap list_omap].
  destruct (w_topics w !! t) as [n|] eqn:Hn; cbn [mbind option_bind].
  2:{ assert (retained_of w t = None) as -> by (unfold retained_of; by rewrite Hn). apply IH. }
  destruct (m_retian_msg_buf n) as [b|] eqn:Hb.
  2:{ assert (retained_of w t = None) as -> by (unfold retained_of; rewrite Hn; cbn; by rewrite Hb). apply IH. }
  destruct (Hlive t n b Hn Hb) as [m Hm].
  assert (get_mbuf b w = (Ok m, w)) as Hget by (unfold get_mbuf; by rewrite Hm).
  rewrite (bind_Ok _ _ _ _ _ Hget), (bind_Ok _ _ _ _ _ IH).
  assert (retained_of w t = if mbuf_length m <=? 0 then None else Some m) as ->
    by (unfold retained_of; rewrite Hn; cbn; rewrite Hb; cbn; by rewrite Hm).
  by destruct (mbuf_length m <=? 0).
Qed.

(** A loop over the elements that exist writes their items. *)
Lemma bind_omap {A B D} (f : A → option B) (g : B → list D) l :
  omap f l ≫= g = l ≫= λ a, from_option g [] (f a).
Proof.
  induction l as [|a l IH]; [done|]. cbn [omap list_omap]. rewrite bind_cons, <- IH.
  by destruct (f a).
Qed.

Lemma bind_items {A B} (mk : B → item) (f : A → option B) l :
  (mk <$> omap f l) ≫= item_bytes = l ≫= λ a, from_option (λ b, item_bytes (mk b)) [] (f a).
Proof.
  induction l as [|a l IH]; [done|]. cbn [omap list_omap]. rewrite bind_cons, <- IH.
  by destruct (f a).
Qed.

(** ** What [store] writes *)

Section storing.
Context {E : Env} {L : EnvLaws} {V : Virtual} {F : FileEnv} {C : FileCalm}.
Context (w : World) (Hinv : Inv w) (Hst : storable w) (Hidle : no_idle w).

Lemma safe_close_if_idle x c w' :
  untouched w w' → registered (w_topics w) (w_clients w) x → w_ctxs w !! x = Some c →
  safe (close_if_idle x) (λ _ w2, untouched w' w2) w'.
Proof using Hinv Hidle.
  intros Hu Hr Hc. destruct (untouched_ctx _ _ _ _ Hu Hc) as [ids Hc'].
  unfold close_if_idle. apply safe_bind. eapply safe_get_ctx; [exact Hc'|].
  change (mqtt_connection (prepare_store ids c)) with (mqtt_connection c).
  destruct (mqtt_connection c) as [p|] eqn:Hp; [|by apply safe_ret].
  destruct (i_link _ _ _ _ _ _ _ _ _ _ Hinv x c p Hr Hc Hp) as (h&k&Ho&_).
  unfold std_time. apply safe_bind, safe_sys, safe_bind.
  eapply safe_get_conn; [cbn; rewrite (u_objs _ _ Hu); exact Ho|].
  rewrite (proj2 (Z.ltb_ge _ _)) by eauto. by apply safe_ret.
Qed.

Lemma ids_of_untouched w' q : untouched w w' → ids_of w' q = ids_of w q.
Proof. intros Hu. unfold ids_of. by rewrite (u_mbufs _ _ Hu). Qed.

Lemma safe_prepare x c w' :
  untouched w w' → w_ctxs w !! x = Some c →
  safe (ctx_prepare_store x) (λ _ w2, untouched w' w2 ∧ w_ctxs w2 !! x = Some (prepared w c)) w'.
Proof using Hinv.
  intros Hu Hc. destruct (untouched_ctx _ _ _ _ Hu Hc) as [ids Hc'].
  unfold ctx_prepare_store. apply safe_bind. eapply safe_get_ctx; [exact Hc'|].
  change (send_msg_queue (prepare_store ids c)) with (send_msg_queue c). apply safe_bind.
  unfold safe at 1, wp. rewrite queue_ids_spec.
  2:{ intros b Hb. rewrite (u_mbufs _ _ Hu). by apply (i_ctxs _ _ _ _ _ _ _ _ _ _ Hinv x c b). }
  cbn. eapply safe_upd_ctx; [exact Hc'|]. rewrite (ids_of_untouched _ _ Hu). split.
  - split; try done. intros y. cbn. destruct (decide (y = x)) as [->|Hne].
    + by rewrite lookup_insert_eq, Hc'.
    + by rewrite lookup_insert_ne by done.
  - cbn. by rewrite lookup_insert_eq.
Qed.

Lemma wrote_world p w' : p_open p = true → is_Some (p_file p) → untouched (p_world p) w' →
  wrote [] p (upd_p_world (λ _, w') p).
Proof. intros. by apply wrote_nil. Qed.

Lemma writes_client id x c p :
  p_open p = true → is_Some (p_file p) → untouched w (p_world p) →
  w_clients w !! id = Some x → w_ctxs w !! x = Some c →
  writes (store_one_client x)
    (from_option (λ c, item_bytes (ISession c)) [] (stored_session w x)) p.
Proof using Hinv Hst Hidle C.
  intros Ho Hf Hu Hid Hc. unfold store_one_client.
  apply safe_bind, safe_world. eapply safe_mono; [apply (safe_close_if_idle x c); [done|left; by exists id|done]|].
  intros [] w1 Hu1.
  assert (untouched w w1) as Hw1 by (by etransitivity).
  destruct (untouched_ctx _ _ _ _ Hw1 Hc) as [ids1 Hc1].
  apply safe_bind, safe_world. eapply safe_get_ctx; [exact Hc1|].
  unfold stored_session. rewrite Hc. cbn [mbind option_bind].
  change (ctx_clean_session (prepare_store ids1 c)) with (ctx_clean_session c).
  destruct (ctx_clean_session c) eqn:Hclean.
  { apply safe_ret. split; [done|]. by apply wrote_nil. }
  apply safe_bind, safe_world. eapply safe_mono; [by apply (safe_prepare x c)|].
  intros [] w2 [Hu2 Hc2]. apply safe_bind, safe_world. eapply safe_get_ctx; [exact Hc2|].
  destruct (st_sessions _ Hst id x c) as [_ Hok]; [done|].
  eapply safe_mono; [apply (writes_item (ISession (prepared w c)))|].
  - done.
  - done.
  - done.
  - by apply context_written, Hok.
  - intros r p' [-> [Ho' Hf' Hw']]. split; [done|]. split; [done|exact Hf'|].
    etransitivity; [|exact Hw']. cbn. by etransitivity.
Qed.

Lemma safe_gets_world {A} (f : World → A) (Q : A → CPersistMsgPack → Prop) p :
  Q (f (p_world p)) p → safe (gets (f ∘ p_world)) Q p.
Proof. done. Qed.

Lemma untouched_sys_world p w' :
  untouched (p_world (upd_p_world (λ _, upd_calls S (p_world p)) p)) w' → untouched (p_world p) w'.
Proof. intros Hu. etransitivity; [|exact Hu]. by split. Qed.

Lemma untouched_after_sys p w' :
  untouched w (p_world p) →
  untouched (p_world (upd_p_world (λ _, upd_calls S (p_world p)) p)) w' → untouched w w'.
Proof. intros Hu Hw. etransitivity; [exact Hu|]. by apply untouched_sys_world. Qed.

Lemma writes_info p :
  p_open p = true → untouched w (p_world p) →
  writes store_db_info (item_bytes (IStore (w_store w))) p.
Proof using Hst C.
  intros Ho Hu. unfold store_db_info. apply safe_bind, safe_gets. unfold compose. rewrite (u_store _ _ Hu).
  pose proof (st_store _ Hst) as Hok. apply writes_item; [done|done|done|]. apply store_written, Hok.
Qed.

Lemma writes_msgs p :
  p_open p = true → is_Some (p_file p) → untouched w (p_world p) →
  safe store_db_msg (λ r p', r = 0 ∧ ∃ order, order ≡ₚ elements (dom (m_msg_db (w_store w))) ∧
    wrote ((IMsg <$> stored_msgs w order) ≫= item_bytes) p p') p.
Proof using L Hinv Hst C.
  intros Ho Hf Hu. unfold store_db_msg. apply safe_bind, safe_gets. unfold compose. rewrite (u_store _ _ Hu).
  apply safe_bind, safe_world, safe_sys.
  set (order := env_order _ _). set (p1 := upd_p_world _ p). set (db := m_msg_db (w_store w)).
  eapply safe_mono.
  - eapply (writes_for_each store_one_msg (λ b, from_option (λ m, item_bytes (IMsg m)) [] (w_mbufs w !! b)));
      [done|done|].
    intros b p2 Hb Ho2 Hf2 Hu2. apply list_elem_of_omap in Hb as (id&_&Hid).
    destruct (i_db _ _ _ _ _ _ _ _ _ _ Hinv id b Hid) as (m&Hm&_&_).
    assert (untouched w (p_world p2)) as Hw2 by (by apply (untouched_after_sys p)).
    rewrite Hm. cbn [from_option]. unfold store_one_msg. apply safe_bind, safe_world.
    eapply safe_get_mbuf; [by rewrite (u_mbufs _ _ Hw2)|].
    pose proof (st_msgs _ Hst id b m Hid Hm) as Hok.
    rewrite upd_p_world_same.
    eapply safe_mono; [apply (writes_item (IMsg m)); [done|done|done|by apply mbuf_written, Hok]|].
    intros r p' [-> [Ho' Hf' Hw']]. done.
  - intros r p' [-> [Ho' Hf' Hw']]. split; [done|]. exists order. split; [apply env_order_ok|].
    split; [done| |by apply (untouched_sys_world p)]. rewrite Hf'. f_equal. f_equal.
    rewrite bind_omap. unfold stored_msgs. rewrite bind_items. apply list_bind_ext; [|done].
    intros id. fold db. by destruct (db !! id).
Qed.

Lemma writes_clients p :
  p_open p = true → is_Some (p_file p) → untouched w (p_world p) →
  safe store_client_info (λ r p', r = 0 ∧ ∃ order, order ≡ₚ elements (dom (w_clients w)) ∧
    wrote ((ISession <$> stored_sessions w order) ≫= item_bytes) p p') p.
Proof using L Hinv Hst Hidle C.
  intros Ho Hf Hu. unfold store_client_info. apply safe_bind, safe_gets. unfold compose. rewrite (u_clients _ _ Hu).
  apply safe_bind, safe_world, safe_sys.
  set (order := env_topic_order _ _). set (p1 := upd_p_world _ p).
  eapply safe_mono.
  - eapply (writes_for_each store_one_client
      (λ x, from_option (λ c, item_bytes (ISession c)) [] (stored_session w x))); [done|done|].
    intros x p2 Hx Ho2 Hf2 Hu2. apply list_elem_of_omap in Hx as (id&_&Hid).
    destruct (i_reg _ _ _ _ _ _ _ _ _ _ Hinv x) as [c Hc]; [left; by exists id|].
    eapply writes_client; [done|done| |exact Hid|exact Hc]. by apply (untouched_after_sys p).
  - intros r p' [-> [Ho' Hf' Hw']]. split; [done|]. exists order. split; [apply env_topic_order_ok|].
    split; [done| |by apply (untouched_sys_world p)]. rewrite Hf'. f_equal. f_equal.
    rewrite bind_omap. unfold stored_sessions. rewrite bind_items. apply list_bind_ext; [|done].
    intros id. by destruct (w_clients w !! id).
Qed.

Lemma retained_of_untouched w' t : untouched w w' → retained_of w' t = retained_of w t.
Proof. intros Hu. unfold retained_of. by rewrite (u_topics _ _ Hu), (u_mbufs _ _ Hu). Qed.

Lemma writes_retained p :
  p_open p = true → is_Some (p_file p) → untouched w (p_world p) →
  writes store_retain_msg (retained_items (stored_retained w) ≫= item_bytes) p.
Proof using Hinv Hst C.
  intros Ho Hf Hu. unfold store_retain_msg. apply safe_bind, safe_gets. unfold compose.
  apply safe_bind, safe_world. unfold safe at 1, wp. rewrite retained_messages_spec; cbn [fst snd].
  2:{ rewrite (u_topics _ _ Hu), (u_mbufs _ _ Hu). intros t n b Ht Hb.
      by apply (i_retain _ _ _ _ _ _ _ _ _ _ Hinv t n b). }
  rewrite upd_p_world_same.
  rewrite (u_topics _ _ Hu).
  assert (omap (λ t, (t,.) <$> retained_of (p_world p) t) (map_order (dom (w_topics w))) = stored_retained w)
    as ->.
  { unfold stored_retained. apply list_omap_ext, list.Forall_Forall2_diag, list.Forall_forall.
    intros t _. by rewrite (retained_of_untouched _ _ Hu). }
  pose proof (st_retained _ Hst) as [Hok Hsize].
  destruct (stored_retained w) as [|r l] eqn:Hl; [by apply writes_ret0|].
  assert (retained_items (r :: l) ≫= item_bytes = item_bytes (IRetained (r :: l))) as ->
    by apply app_nil_r.
  eapply writes_item; [done|by split|done|].
  rewrite (retained_written _ Hok). cbn [item_object retained_object pack_object].
  pose proof (retained_size _ Hok) as Hs. cbn [item_object] in Hsize. unfold MAX_CHUNK in Hsize.
  pose proof (zlen_nonneg (r :: l)). rewrite u32_small by lia. f_equal.
  unfold zlen. by rewrite length_fmap.
Qed.

Lemma safe_return (m k : P Z) (Q : Z → CPersistMsgPack → Prop) p :
  safe m (λ r p', r = 0 ∧ safe k Q p') p → safe (error_return m k) Q p.
Proof. intros Hm. apply safe_bind. eapply safe_mono; [exact Hm|]. by intros r p' [-> Hp]. Qed.

Lemma store_all_writes p :
  untouched w (p_world p) →
  safe store_all (λ r p', r = 0 ∧ ∃ msgs clients,
    msgs ≡ₚ elements (dom (m_msg_db (w_store w))) ∧ clients ≡ₚ elements (dom (w_clients w)) ∧
    p_file p' = Some (stored_items w msgs clients ≫= item_bytes) ∧ untouched w (p_world p')) p.
Proof using L Hinv Hst Hidle C.
  intros Hu. unfold store_all, fclose, open_wb. apply safe_bind, safe_modify, safe_bind, safe_bind, safe_world, safe_sys.
  rewrite calm_fopen. apply safe_bind, safe_modify, safe_bind, safe_modify, safe_ret.
  set (p0 := upd_p_file _ _). assert (untouched w (p_world p0)) as Hu0.
  { etransitivity; [exact Hu|]. by split. }
  assert (p_file p0 = Some []) as Hf0 by done. assert (p_open p0 = true) as Ho0 by done.
  clearbody p0. change (0 =? -1) with false. cbv iota.
  apply safe_return. eapply safe_mono; [by apply writes_info|]. intros r p1 [-> H1]. split; [done|].
  assert (untouched w (p_world p1)) as Hu1 by (etransitivity; [exact Hu0|apply H1]).
  destruct (wrote_open _ _ _ H1) as [Ho1 Hf1].
  apply safe_return. eapply safe_mono; [by apply writes_msgs|].
  intros r p2 [-> (msgs&Hmsgs&H2)]. split; [done|].
  assert (untouched w (p_world p2)) as Hu2 by (etransitivity; [exact Hu1|apply H2]).
  destruct (wrote_open _ _ _ H2) as [Ho2 Hf2].
  apply safe_return. eapply safe_mono; [by apply writes_clients|].
  intros r p3 [-> (clients&Hclients&H3)]. split; [done|].
  assert (untouched w (p_world p3)) as Hu3 by (etransitivity; [exact Hu2|apply H3]).
  destruct (wrote_open _ _ _ H3) as [Ho3 Hf3].
  apply safe_return. eapply safe_mono; [by apply writes_retained|].
  intros r p4 [-> H4]. split; [done|]. apply safe_bind, safe_modify, safe_ret. split; [done|].
  exists msgs, clients. split; [done|]. split; [done|].
  split; [|cbn; etransitivity; [exact Hu3|apply H4]].
  pose proof (wrote_trans _ _ _ _ _ (wrote_trans _ _ _ _ _ (wrote_trans _ _ _ _ _ H1 H2) H3) H4) as [_ Hf _].
  change (p_file p4 = Some (stored_items w msgs clients ≫= item_bytes)). rewrite Hf, Hf0.
  change (default [] (Some [])) with (@nil Z). unfold stored_items. rewrite !bind_app.
  change ([IStore (w_store w)] ≫= item_bytes) with (item_bytes (IStore (w_store w)) ++ []).
  by rewrite app_nil_r, !app_assoc.
Qed.

Lemma flush_untouched w' : untouched w' (flush_stats w').2.
Proof. unfold flush_stats. destruct (stat_flush _ _) as [[n out] m]. by split. Qed.

Lemma flush_ok w' : (flush_stats w').1 = Ok tt.
Proof. unfold flush_stats. by destruct (stat_flush _ _) as [[n out] m]. Qed.

Lemma store_writes p :
  p_world p = w →
  ∃ p', store true p = (Ok 0, p') ∧ ∃ msgs clients,
    msgs ≡ₚ elements (dom (m_msg_db (w_store w))) ∧ clients ≡ₚ elements (dom (w_clients w)) ∧
    p_file p' = Some (stored_items w msgs clients ≫= item_bytes) ∧ untouched w (p_world p').
Proof using L Hinv Hst Hidle C.
  intros Hw. assert (safe (store true) (λ r p', r = 0 ∧ ∃ msgs clients,
    msgs ≡ₚ elements (dom (m_msg_db (w_store w))) ∧ clients ≡ₚ elements (dom (w_clients w)) ∧
    p_file p' = Some (stored_items w msgs clients ≫= item_bytes) ∧ untouched w (p_world p')) p) as H.
  { unfold store. apply safe_bind, safe_world.
    pose proof (flush_untouched (p_world p)) as Hu. pose proof (flush_ok (p_world p)) as Hok.
    unfold safe at 1, wp. revert Hu Hok. generalize (flush_stats (p_world p)). intros [r w'] Hu Hr.
    cbn [fst snd] in *. rewrite Hr. apply store_all_writes. by rewrite <- Hw. }
  destruct (safe_inv _ _ _ H) as (r&p'&Hr&->&Hp'). exists p'. split; [exact Hr|exact Hp'].
Qed.

End storing.
