(* ===== verification/Restart.v ===== *)
(** * The server after a restart

    What [restore] of Persist.v makes of a file that [store] has written: the sessions,
    their subscriptions and messages, and the retained messages. *)

From S2P Require Import Prelude Msg Mbuf MemStore Context World Handler SubMgr Connection.
From S2P Require Import Invariant Sessions Pack Unpack Msgpack Adaptor Persist Stored.
From stdpp Require Import options.

(** ** Reading the chunks *)

(** The file has been read up to [s]; the rest of the state is the same. *)
Record advanced (s : list Z) (p p' : CPersistMsgPack) : Prop := {
  a_stream : p_stream p' = s;
  a_tmp : p_tmp_msg_db p' = p_tmp_msg_db p;
  a_world : ∃ n, p_world p' = upd_calls (λ _, n) (p_world p);
}.

Lemma advanced_trans s1 s2 p1 p2 p3 : advanced s1 p1 p2 → advanced s2 p2 p3 → advanced s2 p1 p3.
Proof.
  intros [S1 T1 [n1 W1]] [S2 T2 [n2 W2]]. split; [done|by rewrite T2|].
  exists n2. by rewrite W2, W1.
Qed.

Lemma le32_load n : 0 <= n < 2 ^ 32 → load_be (rev (le32 n)) = n.
Proof.
  intros Hn. unfold le32. rewrite rev_involutive, load_store. apply Z.mod_small.
  change (256 ^ Z.of_nat 4) with (2 ^ 32). done.
Qed.

Lemma unpack_packed o : wf_object o → zlen (pack_object o) < 2 ^ 32 → unpack (pack_object o) = Ok o.
Proof.
  intros Hwf Hsize. destruct (unpack_imp_packed o [] Hwf Hsize) as (r&Hr&Ho).
  rewrite app_nil_r in Hr. unfold unpack. rewrite Hr. by destruct Ho as [-> | ->].
Qed.

Section reading.
Context {E : Env} {V : Virtual} {F : FileEnv} {C : FileCalm}.

Lemma safe_fread l s (Q : fread_result → CPersistMsgPack → Prop) p :
  p_stream p = l ++ s →
  (∀ p', advanced s p p' → Q (FreadOk l) p') → safe (fread (zlen l)) Q p.
Proof using C.
  intros Hs HQ. unfold fread. destruct (Z.eqb_spec (zlen l) 0) as [H0|H0].
  - assert (l = []) as -> by (destruct l; [done|rewrite zlen_cons in H0; pose proof (zlen_nonneg l); lia]).
    apply safe_ret, HQ. split; [done|done|]. exists (w_calls (p_world p)). by destruct (p_world p).
  - apply safe_bind, safe_world, safe_sys. rewrite calm_fread. apply safe_bind, safe_gets. cbn.
    rewrite Hs, zlen_app, (proj2 (Z.ltb_ge _ _)) by (pose proof (zlen_nonneg s); lia).
    apply safe_bind, safe_modify, safe_ret. unfold zlen. rewrite Nat2Z.id, take_app_length.
    apply HQ. split; cbn; [|done|].
    + by rewrite Hs, drop_app_length.
    + by eexists.
Qed.

Lemma safe_read_chunk type data rest (Q : chunk_result → CPersistMsgPack → Prop) p :
  0 <= type < 256 → zlen data <= MAX_CHUNK → p_stream p = chunk type data ++ rest →
  (∀ p', advanced rest p p' → Q (Chunk type data) p') → safe read_chunk Q p.
Proof using C.
  intros Ht Hsize Hs HQ. pose proof (zlen_nonneg data).
  assert (p_stream p = [0xEE] ++ [type] ++ le32 (zlen data) ++ data ++ rest) as Hs'
    by (rewrite Hs; unfold chunk; by rewrite <- !app_assoc).
  unfold read_chunk. apply safe_bind.
  change 1 with (zlen [0xEE]) at 1. eapply safe_fread; [exact Hs'|]. intros p1 H1.
  rewrite bool_decide_true by done. apply safe_bind.
  change 1 with (zlen [type]). eapply safe_fread; [exact (a_stream _ _ _ H1)|]. intros p2 H2.
  apply safe_bind. change 4 with (zlen (le32 (zlen data))).
  eapply safe_fread; [exact (a_stream _ _ _ H2)|]. intros p3 H3.
  rewrite le32_load by (unfold MAX_CHUNK in Hsize; lia).
  rewrite (proj2 (Z.ltb_ge _ _)) by lia. apply safe_bind.
  eapply safe_fread; [exact (a_stream _ _ _ H3)|]. intros p4 H4. apply safe_ret.
  replace (load_be [type]) with type by (unfold load_be; cbn; lia).
  apply HQ. eauto using advanced_trans.
Qed.

(** A chunk that is too long is refused. *)
Lemma safe_read_large type n rest (Q : chunk_result → CPersistMsgPack → Prop) p :
  MAX_CHUNK < n < 2 ^ 32 → p_stream p = [0xEE; type] ++ le32 n ++ rest →
  (∀ p', Q BadChunk p') → safe read_chunk Q p.
Proof using C.
  intros Hn Hs HQ. unfold MAX_CHUNK in Hn. unfold read_chunk. apply safe_bind.
  change 1 with (zlen [0xEE]) at 1. eapply safe_fread; [exact Hs|]. intros p1 H1.
  rewrite bool_decide_true by done. apply safe_bind.
  change 1 with (zlen [type]). eapply safe_fread; [exact (a_stream _ _ _ H1)|]. intros p2 H2.
  apply safe_bind. change 4 with (zlen (le32 n)).
  eapply safe_fread; [exact (a_stream _ _ _ H2)|]. intros p3 _.
  rewrite le32_load by lia. unfold MAX_CHUNK. rewrite (proj2 (Z.ltb_lt _ _)) by lia.
  by apply safe_ret.
Qed.

(** The loop reads an item and goes on. *)
Lemma loop_item i rest fuel (Q : Z → CPersistMsgPack → Prop) p :
  item_ok i → p_stream p = item_bytes i ++ rest →
  (∀ p1, advanced rest p p1 →
     safe (restore_chunk (item_type i) (pack_object (item_object i)))
       (λ r p', r = 0 ∧ safe (restore_loop fuel 0) Q p') p1) →
  safe (restore_loop (S fuel) 0) Q p.
Proof using C.
  intros [_ Hok] Hs Hi. cbn [restore_loop]. apply safe_bind.
  eapply safe_read_chunk; [|exact Hok|exact Hs|]; [by destruct i|].
  intros p1 H1. apply safe_bind. eapply safe_mono; [by apply Hi|]. by intros r p2 [-> Hp2].
Qed.

Lemma loop_end fuel (Q : Z → CPersistMsgPack → Prop) p :
  p_stream p = [] → (∀ p', advanced [] p p' → Q 0 p') → safe (restore_loop (S fuel) 0) Q p.
Proof using C.
  intros Hs HQ. cbn [restore_loop]. unfold read_chunk, fread. apply safe_bind, safe_bind.
  change (1 =? 0) with false. cbv iota. apply safe_bind, safe_world, safe_sys. rewrite calm_fread.
  apply safe_bind, safe_gets. cbn. rewrite Hs. cbn. apply HQ. split; [done|done|]. by eexists.
Qed.

End reading.

(** ** What has been restored *)

(** The buffer [b] holds the message [m]. *)
Definition holds (w : World) (b : Z) (m : CMbuf) : Prop :=
  ∃ m', w_mbufs w !! b = Some m' ∧ m_msg_id m' = m_msg_id m ∧ contents m' = contents m.

(** The first message of a number, and the first of a topic. *)
Definition find_msg (ms : list CMbuf) (id : Z) : option CMbuf :=
  head (filter (λ m, m_msg_id m = id) ms).

Definition find_retained (rs : list (str * CMbuf)) (t : str) : option CMbuf :=
  head (snd <$> filter (λ p, p.1 = t) rs).

Definition topic_clients (w : World) (t : str) : gset Z :=
  default ∅ (m_subcriber_clients <$> w_topics w !! t).

(** The members of a session that are stored, but for its messages. *)
Definition session_of (c : CTMqttClientContext) :=
  ((remote_addr c, protocal_name c, protocal_ver c, ctx_client_id c, ctx_user_name c, user_password c),
   (keep_alive_timer c, max_inflight_msgs c, accept_time c, connect_time c, last_pub_time c, last_msg_time c),
   (last_pub_msg_id c, ctx_clean_session c, will_flag c, subcribe_topics c)).

(** After the messages [ms], the sessions [cs] and the retained messages [rs]. *)
Record restored (last : Z) (ms : list CMbuf) (cs : list CTMqttClientContext) (rs : list (str * CMbuf))
    (w : World) (tmp : gmap Z Z) : Prop := {
  rd_last : m_last_msg_id (w_store w) = last;
  rd_mbufs : ∀ b, is_Some (w_mbufs w !! b) → b < w_next w;
  rd_ctxs : ∀ x, is_Some (w_ctxs w !! x) → x < w_next w;
  rd_msg : ∀ m, m ∈ ms → ∃ b, tmp !! m_msg_id m = Some b ∧ holds w b m;
  rd_tmp : ∀ id, is_Some (tmp !! id) → id ∈ m_msg_id <$> ms;
  rd_client : ∀ c, c ∈ cs → ∃ x c', w_clients w !! ctx_client_id c = Some x ∧
    w_ctxs w !! x = Some c' ∧ mqtt_connection c' = None ∧ session_of c' = session_of c ∧
    Forall2 (holds w) (send_msg_queue c') (omap (find_msg ms) (send_msg_ids c));
  rd_clients : ∀ id, is_Some (w_clients w !! id) → id ∈ ctx_client_id <$> cs;
  rd_topics : ∀ t x, x ∈ topic_clients w t ↔ ∃ c, c ∈ cs ∧ w_clients w !! ctx_client_id c = Some x ∧
    t ∈ topic_name <$> subcribe_topics c;
  rd_nonempty : ∀ t, is_Some (w_topics w !! t) → ∃ x, x ∈ topic_clients w t;
  rd_retained : ∀ t n, w_topics w !! t = Some n →
    match find_retained rs t with
    | Some m => ∃ b, m_retian_msg_buf n = Some b ∧ holds w b m
    | None => m_retian_msg_buf n = None
    end;
}.

Lemma restored_calls f last ms cs rs w tmp :
  restored last ms cs rs w tmp → restored last ms cs rs (upd_calls f w) tmp.
Proof. intros []. by split. Qed.

Lemma restored_advanced s last ms cs rs p p' : advanced s p p' →
  restored last ms cs rs (p_world p) (p_tmp_msg_db p) → restored last ms cs rs (p_world p') (p_tmp_msg_db p').
Proof. intros [_ -> [n ->]]. apply restored_calls. Qed.

(** A new buffer [b] with the message [m]. *)
Record grown (b : Z) (m : CMbuf) (w w' : World) : Prop := {
  g_id : b = w_next w;
  g_next : w_next w' = w_next w + 1;
  g_mbufs : ∃ m', w_mbufs w' = <[b := m']> (w_mbufs w) ∧ m_msg_id m' = m_msg_id m ∧ contents m' = contents m;
  g_ctxs : w_ctxs w' = w_ctxs w;
  g_topics : w_topics w' = w_topics w;
  g_clients : w_clients w' = w_clients w;
  g_last : m_last_msg_id (w_store w') = m_last_msg_id (w_store w);
}.

Lemma grown_holds b m w w' : grown b m w w' → holds w' b m.
Proof. intros [_ _ (m'&Hm&?&?) _ _ _ _]. exists m'. by rewrite Hm, lookup_insert_eq. Qed.

Lemma grown_old b m w w' b0 m0 :
  grown b m w w' → b0 < w_next w → holds w b0 m0 → holds w' b0 m0.
Proof.
  intros [-> _ (m'&Hm&_&_) _ _ _ _] Hb (m1&H1&?&?). exists m1.
  rewrite Hm, lookup_insert_ne by lia. done.
Qed.

Lemma find_msg_last ms m : find_msg (ms ++ [m]) (m_msg_id m) = Some (default m (find_msg ms (m_msg_id m))).
Proof.
  unfold find_msg. rewrite list.filter_app, filter_cons_True by done.
  by destruct (filter _ ms).
Qed.

Lemma find_msg_In ms id m : find_msg ms id = Some m → m ∈ ms ∧ m_msg_id m = id.
Proof.
  unfold find_msg. intros H. assert (m ∈ filter (λ m, m_msg_id m = id) ms) as Hin
    by (destruct (filter _ ms); [done|cbn in H; simplify_eq; by left]).
  by apply list_elem_of_filter in Hin as [? ?].
Qed.

Lemma find_msg_None ms id : find_msg ms id = None → id ∉ m_msg_id <$> ms.
Proof.
  unfold find_msg. intros H (m&->&Hm)%list_elem_of_fmap.
  assert (m ∈ filter (λ m', m_msg_id m' = m_msg_id m) ms) as Hin by (by apply list_elem_of_filter).
  destruct (filter _ ms); [by apply elem_of_nil in Hin|done].
Qed.

(** The table of the messages read so far. *)
Lemma restored_lookup last ms cs rs w tmp id :
  restored last ms cs rs w tmp →
  match find_msg ms id with
  | Some m => ∃ b, tmp !! id = Some b ∧ holds w b m
  | None => tmp !! id = None
  end.
Proof.
  intros H. destruct (find_msg ms id) as [m|] eqn:Hf.
  - apply find_msg_In in Hf as [Hm <-]. by apply (rd_msg _ _ _ _ _ _ H).
  - apply find_msg_None in Hf. destruct (tmp !! id) eqn:Ht; [|done].
    destruct Hf. apply (rd_tmp _ _ _ _ _ _ H). by rewrite Ht.
Qed.

Lemma restored_msg last ms w tmp b m w' :
  restored last ms [] [] w tmp → m_msg_id m ∉ m_msg_id <$> ms → grown b m w w' →
  restored last (ms ++ [m]) [] [] w' (<[m_msg_id m := b]> tmp).
Proof.
  intros [] Hm Hg. pose proof (grown_holds _ _ _ _ Hg) as Hb.
  pose proof (λ b0 m0, grown_old _ _ _ _ b0 m0 Hg) as Hold.
  destruct Hg as [-> Hnext (m'&Hmb&_&_) Hctx Htop Hcl Hlast].
  split; unfold topic_clients in *; rewrite ?Hlast, ?Hnext, ?Hctx, ?Htop, ?Hcl in *; try done.
  - intros b. rewrite Hmb. intros [m1 [[<- _]|[_ H1]]%lookup_insert_Some]; [lia|].
    assert (b < w_next w) by (apply rd_mbufs0; by exists m1). lia.
  - intros x Hx. apply rd_ctxs0 in Hx. lia.
  - intros m0 [Hm0|Hm0]%elem_of_app.
    + destruct (rd_msg0 m0 Hm0) as (b0&Ht&Hh). exists b0.
      rewrite lookup_insert_ne by (intros Heq; apply Hm; rewrite Heq; by apply list_elem_of_fmap_2).
      split; [done|]. apply Hold; [|done]. apply rd_mbufs0. destruct Hh as (m1&?&_). by exists m1.
    + apply list_elem_of_singleton in Hm0 as ->. exists (w_next w). by rewrite lookup_insert_eq.
  - intros id. rewrite fmap_app. intros [b [[<- _]|[_ H1]]%lookup_insert_Some]; [set_solver|].
    apply elem_of_app. left. apply rd_tmp0. by exists b.
  - intros c Hc. by apply elem_of_nil in Hc.
Qed.

(** ** Messages *)

Section messages.
Context {E : Env} {V : Virtual} {F : FileEnv}.

Lemma unpack_tmp m t0 : mbuf_ok m →
  define_unpack CMbuf_tmp_members (mbuf_object m) t0 =
  Ok (mkMbufTmp (m_data m) (m_msg_type m) (m_read_pos m) (m_write_pos m) (m_msg_id m) (m_time m)).
Proof.
  intros ((Hr&Hw&Hs)&Hd&?&?&?). unfold mbuf_object. cbn [define_unpack CMbuf_tmp_members define_members].
  assert (text (m_data m)) by (split; [done|unfold max_size in Hs; lia]).
  assert (below (2 ^ 32) (m_read_pos m)) by (unfold below; lia).
  assert (below (2 ^ 32) (m_write_pos m)) by (unfold below; lia).
  do 6 (rewrite convert_member by done; cbn [mbind res_bind define_members]). by destruct t0.
Qed.

Lemma contents_bytes m : wf_mbuf m →
  rd_bytes (m_data m) (m_read_pos m) (m_write_pos m - m_read_pos m) = Ok (contents m).
Proof.
  intros Hwf. unfold contents. rewrite mbuf_length_wf by done. destruct Hwf as (?&?&?).
  unfold max_size in *. unfold rd_bytes. by rewrite !(proj2 (Z.leb_le _ _)) by lia.
Qed.

Lemma safe_restore_mbuf m (Q : Z → CPersistMsgPack → Prop) p :
  mbuf_ok m → (∀ b w', grown b m (p_world p) w' → Q b (upd_p_world (λ _, w') p)) →
  safe (restore_mbuf (mbuf_object m)) Q p.
Proof.
  intros Hok HQ. unfold restore_mbuf. apply safe_bind, safe_world, safe_sys, safe_bind.
  rewrite unpack_tmp by done. apply safe_ret. cbn [t_write_pos t_read_pos t_msg_id t_data].
  destruct Hok as (Hwf&Hd&_&Hid&_). pose proof (contents_bytes m Hwf) as Hc.
  pose proof (zlen_contents m Hwf) as Hlen. rewrite mbuf_length_wf in Hlen by done.
  pose proof Hwf as (?&?&?). rewrite s32_small, u32_small by lia.
  set (len := m_write_pos m - m_read_pos m) in *.
  apply safe_bind, safe_world. unfold new_mbuf, std_time, fresh_id.
  apply safe_bind, safe_sys, safe_bind, safe_sys, safe_bind, safe_fresh_id, safe_bind, safe_modify, safe_ret.
  set (fresh := map _ _). set (now := env_time _).
  assert (zlen fresh = len) as Hf by (unfold fresh, zlen; rewrite length_map, length_seq; lia).
  apply safe_bind, safe_world. eapply safe_upd_mbuf; [cbn; by rewrite lookup_insert_eq|].
  set (b1 := set_msg_id _ _). rewrite Hc. apply safe_bind, safe_ret, safe_bind, safe_world.
  unfold mbuf_copy_to. apply safe_bind. eapply safe_get_mbuf; [cbn; by rewrite lookup_insert_eq|].
  destruct (mbuf_copy_contents (contents m) b1) as (b2&->&_&Hcont&_&_&_&Hid2&_&_).
  { unfold wf_mbuf, max_size. cbn. rewrite Hf. lia. }
  { unfold max_size. cbn. rewrite Hf, Hlen. lia. }
  apply safe_bind, safe_modify, safe_ret, safe_ret.
  apply (HQ (w_next (p_world p))). split; try done. cbn.
  exists b2. rewrite !insert_insert_eq. by rewrite Hid2.
Qed.

Lemma safe_restore_db_msg m last ms p (Q : Z → CPersistMsgPack → Prop) :
  item_ok (IMsg m) → m_msg_id m ≠ 0 → m_msg_id m ∉ m_msg_id <$> ms →
  restored last ms [] [] (p_world p) (p_tmp_msg_db p) →
  (∀ p', p_stream p' = p_stream p →
    restored last (ms ++ [m]) [] [] (p_world p') (p_tmp_msg_db p') → Q 0 p') →
  safe (restore_db_msg (pack_object (mbuf_object m))) Q p.
Proof.
  intros [Hok Hsize] H0 Hnew Hr HQ. cbn [item_object] in Hsize. unfold restore_db_msg.
  rewrite unpack_packed by (first [by apply mbuf_written|unfold MAX_CHUNK in Hsize; lia]).
  apply safe_bind, safe_ret, safe_bind, safe_restore_mbuf; [done|]. intros b w1 Hg.
  pose proof Hg as [-> Hnext (m'&Hmb&Hid&Hc) Hctx Htop Hcl Hlast].
  apply safe_bind, safe_world. eapply safe_get_mbuf; [cbn; by rewrite Hmb, lookup_insert_eq|].
  rewrite Hid, (proj2 (Z.eqb_neq _ _)) by done. cbn [negb].
  apply safe_bind, safe_bind, safe_world. unfold regist_mem_store, std_time. apply safe_bind.
  eapply safe_upd_mbuf; [cbn; by rewrite Hmb, lookup_insert_eq|]. apply safe_bind.
  eapply safe_get_mbuf; [cbn; by rewrite Hmb, lookup_insert_eq|].
  replace (m_msg_id (set_mem_db true m')) with (m_msg_id m) by (by rewrite <- Hid).
  rewrite (proj2 (Z.eqb_neq _ _)) by done. cbn [negb].
  apply safe_bind, safe_sys, safe_modify. apply safe_modify, safe_ret, HQ; [done|].
  eapply restored_msg; [exact Hr|done|]. split; cbn; try done.
  exists (set_mem_db true m'). by rewrite Hmb, insert_insert_eq.
Qed.

End messages.

(** ** Sessions *)

(** [add_client_context] of a client that is not connected. *)
Definition subscribe_topic (x : Z) (T : gmap str CTopicNode) (t : str) : gmap str CTopicNode :=
  <[t := (add_client x (default new_CTopicNode (T !! t))).2]> T.

Definition node_clients (T : gmap str CTopicNode) (t : str) : gset Z :=
  default ∅ (m_subcriber_clients <$> T !! t).

Lemma subscribe_topic_clients x T t t' y :
  y ∈ node_clients (subscribe_topic x T t) t' ↔ y ∈ node_clients T t' ∨ y = x ∧ t' = t.
Proof.
  unfold node_clients, subscribe_topic. destruct (decide (t' = t)) as [->|Hne].
  - rewrite lookup_insert_eq. cbn. rewrite elem_of_add_client.
    destruct (T !! t) as [n|]; cbn; set_solver.
  - rewrite lookup_insert_ne by done. naive_solver.
Qed.

Lemma subscribe_topics_clients x ts T t' y :
  y ∈ node_clients (foldl (subscribe_topic x) T ts) t' ↔ y ∈ node_clients T t' ∨ y = x ∧ t' ∈ ts.
Proof.
  revert T. induction ts as [|t ts IH]; intros T; cbn [foldl]; [set_solver|].
  rewrite IH, subscribe_topic_clients. set_solver.
Qed.

Lemma subscribe_topics_known x ts T t' :
  is_Some (foldl (subscribe_topic x) T ts !! t') → is_Some (T !! t') ∨ t' ∈ ts.
Proof.
  revert T. induction ts as [|t ts IH]; intros T; cbn [foldl]; [by left|].
  intros [[n Hn]|H]%IH; [|right; by right].
  unfold subscribe_topic in Hn. apply lookup_insert_Some in Hn as [[<- _]|[_ Hn]]; [right; by left|left; by exists n].
Qed.

Lemma subscribe_topics_retain x ts T :
  (∀ t n, T !! t = Some n → m_retian_msg_buf n = None) →
  ∀ t n, foldl (subscribe_topic x) T ts !! t = Some n → m_retian_msg_buf n = None.
Proof.
  revert T. induction ts as [|t ts IH]; intros T HT; cbn [foldl]; [done|]. apply IH.
  intros t' n Hn. unfold subscribe_topic in Hn. apply lookup_insert_Some in Hn as [[<- <-]|[_ Hn]]; [|by eapply HT].
  rewrite retain_add_client. destruct (T !! t) as [n|] eqn:Hn; [by eapply HT|done].
Qed.

(** A new context [x] for the session [c]. *)
Record added (x : Z) (c c' : CTMqttClientContext) (w w' : World) : Prop := {
  n_id : x = w_next w;
  n_next : w_next w' = w_next w + 1;
  n_ctxs : w_ctxs w' = <[x := c']> (w_ctxs w);
  n_clients : w_clients w' = <[ctx_client_id c := x]> (w_clients w);
  n_topics : w_topics w' = foldl (subscribe_topic x) (w_topics w) (topic_name <$> subcribe_topics c);
  n_mbufs : w_mbufs w' = w_mbufs w;
  n_store : w_store w' = w_store w;
}.

Lemma restored_queue last ms cs rs w tmp ids :
  restored last ms cs rs w tmp →
  Forall2 (holds w) (omap (λ id, tmp !! id) ids) (omap (find_msg ms) ids).
Proof.
  intros Hr. induction ids as [|id ids IH]; [constructor|]. cbn [omap list_omap].
  pose proof (restored_lookup _ _ _ _ _ _ id Hr) as Hl. destruct (find_msg ms id) as [m|].
  - destruct Hl as (b&->&Hb). by constructor.
  - by rewrite Hl.
Qed.

Lemma restored_session last ms cs w tmp x c c' w' :
  restored last ms cs [] w tmp → ctx_client_id c ∉ ctx_client_id <$> cs → added x c c' w w' →
  mqtt_connection c' = None → session_of c' = session_of c →
  send_msg_queue c' = omap (λ id, tmp !! id) (send_msg_ids c) →
  restored last ms (cs ++ [c]) [] w' tmp.
Proof.
  intros Hr Hnew [-> Hnext Hctx Hcl Htop Hmb Hst] Hcon Hses Hq.
  pose proof (restored_queue _ _ _ _ _ _ (send_msg_ids c) Hr) as Hqueue. destruct Hr.
  assert (∀ b m, holds w b m → holds w' b m) as Hold by (unfold holds; by rewrite Hmb).
  assert (∀ t y, y ∈ topic_clients w' t ↔ y ∈ topic_clients w t ∨
      y = w_next w ∧ t ∈ topic_name <$> subcribe_topics c) as Hsub
    by (intros t y; unfold topic_clients; rewrite Htop; apply subscribe_topics_clients).
  assert (∀ c0, c0 ∈ cs → ctx_client_id c0 ≠ ctx_client_id c) as Hne
    by (intros c0 Hc0 Heq; apply Hnew; rewrite <- Heq; by apply list_elem_of_fmap_2).
  split; rewrite ?Hst, ?Hnext, ?Hmb; try done.
  - intros b Hb. apply rd_mbufs0 in Hb. lia.
  - intros y. rewrite Hctx. intros [c0 [[<- _]|[_ H1]]%lookup_insert_Some]; [lia|].
    assert (y < w_next w) by (apply rd_ctxs0; by exists c0). lia.
  - intros m Hm. destruct (rd_msg0 m Hm) as (b&?&?). eauto.
  - intros c0 [Hc0|Hc0]%elem_of_app.
    + destruct (rd_client0 c0 Hc0) as (y&c1&Hy&Hc1&?&?&HF). exists y, c1.
      rewrite Hcl, lookup_insert_ne by (by apply not_eq_sym, Hne). split; [done|].
      assert (y < w_next w) by (apply rd_ctxs0; by exists c1).
      rewrite Hctx, lookup_insert_ne by lia. split_and!; [done..|].
      eapply Forall2_impl; [|exact HF]; auto.
    + apply list_elem_of_singleton in Hc0 as ->. exists (w_next w), c'.
      rewrite Hcl, Hctx, !lookup_insert_eq, Hq. split_and!; try done.
      eapply Forall2_impl; [|exact Hqueue]; auto.
  - intros id. rewrite Hcl, fmap_app. intros [y [[<- _]|[_ H1]]%lookup_insert_Some]; [set_solver|].
    apply elem_of_app. left. apply rd_clients0. by exists y.
  - intros t y. rewrite Hsub, rd_topics0. split.
    + intros [(c0&Hc0&Hy&Ht)|[-> Ht]].
      * exists c0. rewrite Hcl, lookup_insert_ne by (by apply not_eq_sym, Hne). set_solver.
      * exists c. rewrite Hcl, lookup_insert_eq. set_solver.
    + intros (c0&[Hc0|Hc0]%elem_of_app&Hy&Ht).
      * left. exists c0. rewrite Hcl, lookup_insert_ne in Hy by (by apply not_eq_sym, Hne). done.
      * apply list_elem_of_singleton in Hc0 as ->. rewrite Hcl, lookup_insert_eq in Hy.
        right. by simplify_eq.
  - intros t. setoid_rewrite Hsub. rewrite Htop.
    intros [Ht|Ht]%subscribe_topics_known; [|by exists (w_next w); right].
    destruct (rd_nonempty0 t Ht) as [y Hy]. exists y. by left.
  - intros t n. rewrite Htop. apply subscribe_topics_retain. intros t0 n0 H0. by apply (rd_retained0 t0 n0).
Qed.

Section sessions.
Context {E : Env} {V : Virtual} {F : FileEnv}.

Lemma unpack_context c t0 : context_ok c →
  define_unpack CTMqttClientContext_members (context_object c) t0 =
  Ok (mkContext (mqtt_connection t0) (client_status t0) (remote_addr c) (protocal_name c) (protocal_ver c)
       (ctx_client_id c) (ctx_user_name c) (user_password c) (keep_alive_timer c) (max_inflight_msgs c)
       (accept_time c) (connect_time c) (discon_time t0) (close_time t0) (last_pub_time c) (last_msg_time c)
       (last_pub_msg_id c) (ctx_clean_session c) (will_flag c) (send_msg_ids c) (send_msg_queue t0)
       (subcribe_topics c)).
Proof.
  intros []. unfold context_object. cbn [define_unpack CTMqttClientContext_members define_members].
  destruct t0 as [k0 k1 k2 k3 k4 k5 k6 k7 k8 k9 k10 k11 k12 k13 k14 k15 k16 k17 k18 k19 k20 k21].
  do 17 (rewrite convert_member by done;
    cbv beta iota delta [mbind res_bind define_members mqtt_connection client_status remote_addr
      protocal_name protocal_ver ctx_client_id ctx_user_name user_password keep_alive_timer
      max_inflight_msgs accept_time connect_time discon_time close_time last_pub_time last_msg_time
      last_pub_msg_id ctx_clean_session will_flag send_msg_ids send_msg_queue subcribe_topics
      upd_remote_addr upd_accept_time upd_connect_time upd_last_pub_time upd_last_msg_time
      upd_last_pub_msg_id upd_send_msg_ids upd_subcribe_topics]).
  reflexivity.
Qed.

Lemma add_client_context_offline t x c w :
  w_ctxs w !! x = Some c → mqtt_connection c = None →
  add_client_context t x w = (Ok 0, upd_topics (λ T, subscribe_topic x T t) w).
Proof.
  intros Hc Hcon. unfold add_client_context.
  assert (find_topic t w = (Ok (w_topics w !! t), w)) as Hf by done.
  rewrite (bind_Ok _ _ _ _ _ Hf). unfold subscribe_topic.
  destruct (w_topics w !! t) as [n|] eqn:Hn; unfold set_topic, modify, bind, ret; cbn.
  - unfold get_ctx. cbn. rewrite Hc, Hcon. destruct (m_retian_msg_buf n); f_equal; unfold upd_topics; f_equal; by rewrite Hn.
  - f_equal. unfold upd_topics. f_equal. by rewrite Hn.
Qed.

Lemma add_topics_offline ts x c w :
  w_ctxs w !! x = Some c → mqtt_connection c = None →
  iter (λ t, do _ <- add_client_context (topic_name t) x; ret tt) ts w =
  (Ok tt, upd_topics (λ T, foldl (subscribe_topic x) T (topic_name <$> ts)) w).
Proof.
  revert w. induction ts as [|t ts IH]; intros w Hc Hcon; cbn [iter]; [by destruct w|].
  pose proof (add_client_context_offline (topic_name t) x c w Hc Hcon) as Hadd.
  rewrite bind_assoc_at, (bind_Ok _ _ _ _ _ Hadd).
  etransitivity; [exact (IH (upd_topics (λ T, subscribe_topic x T (topic_name t)) w) Hc Hcon)|done].
Qed.

(** Another queue for the context [x]. *)
Record requeued (x : Z) (c : CTMqttClientContext) (q : list Z) (w w' : World) : Prop := {
  q_ctxs : w_ctxs w' = <[x := upd_send_msg_queue (λ _, q) c]> (w_ctxs w);
  q_next : w_next w' = w_next w;
  q_clients : w_clients w' = w_clients w;
  q_topics : w_topics w' = w_topics w;
  q_mbufs : w_mbufs w' = w_mbufs w;
  q_store : w_store w' = w_store w;
}.

Lemma safe_restore_queue x ids c p :
  w_ctxs (p_world p) !! x = Some c →
  safe (restore_queue x ids) (λ _ p', ∃ w', p' = upd_p_world (λ _, w') p ∧
    requeued x c (send_msg_queue c ++ omap (λ id, p_tmp_msg_db p !! id) ids) (p_world p) w') p.
Proof.
  revert c p. induction ids as [|id ids IH]; intros c p Hc; cbn [restore_queue iter omap list_omap].
  - apply safe_ret. exists (p_world p). rewrite app_nil_r. split; [by destruct p|]. split; try done.
    rewrite insert_id; [done|]. rewrite Hc. by destruct c.
  - apply safe_bind, safe_bind, safe_gets. destruct (p_tmp_msg_db p !! id) as [b|] eqn:Hb.
    + apply safe_world. eapply safe_upd_ctx; [exact Hc|]. cbn beta.
      set (p1 := upd_p_world _ p).
      eapply safe_mono; [apply (IH (add_send_msg b c)); cbn; apply lookup_insert_eq|].
      intros _ p' (w'&->&[H1 ? ? ? ? ?]). exists w'. split; [done|]. split; try done.
      rewrite H1. cbn. by rewrite insert_insert_eq, <- app_assoc.
    + apply safe_ret. by apply IH.
Qed.

Lemma safe_restore_client c last ms cs p (Q : Z → CPersistMsgPack → Prop) :
  item_ok (ISession c) → ctx_client_id c ∉ ctx_client_id <$> cs →
  restored last ms cs [] (p_world p) (p_tmp_msg_db p) →
  (∀ p', p_stream p' = p_stream p →
    restored last ms (cs ++ [c]) [] (p_world p') (p_tmp_msg_db p') → Q 0 p') →
  safe (restore_client_info (pack_object (context_object c))) Q p.
Proof.
  intros [Hok Hsize] Hnew Hr HQ. cbn [item_object] in Hsize. unfold restore_client_info.
  rewrite unpack_packed by (first [by apply context_written|unfold MAX_CHUNK in Hsize; lia]).
  apply safe_bind, safe_ret, safe_bind, safe_world. unfold new_ctx.
  apply safe_bind, safe_sys, safe_bind, safe_fresh_id, safe_bind, safe_modify, safe_ret.
  set (x := w_next (p_world p)). set (c0 := new_CTMqttClientContext _ None).
  apply safe_bind, safe_world. eapply safe_get_ctx; [cbn; apply lookup_insert_eq|].
  apply safe_bind. rewrite unpack_context by done. apply safe_ret. set (c1 := mkContext _ _ _ _ _ _ _ _ _ _ _ _ _ _ _ _ _ _ _ _ _ _).
  apply safe_bind, safe_world. eapply safe_upd_ctx; [cbn; apply lookup_insert_eq|].
  apply safe_bind, safe_world. unfold add_by_client_id, find_by_client_id. apply safe_bind, safe_gets. cbn.
  assert (w_clients (p_world p) !! ctx_client_id c = None) as Hid.
  { destruct (w_clients (p_world p) !! ctx_client_id c) eqn:Hcl; [|done].
    destruct Hnew. apply (rd_clients _ _ _ _ _ _ Hr). by rewrite Hcl. }
  rewrite Hid. apply safe_bind, safe_modify, safe_ret, safe_bind, safe_world.
  unfold safe at 1, wp. erewrite add_topics_offline; [|cbn; apply lookup_insert_eq|done]. cbn [fst snd].
  apply safe_bind. eapply safe_mono; [apply (safe_restore_queue x _ c1); cbn; apply lookup_insert_eq|].
  intros _ p' (w'&->&[H1 H2 H3 H4 H5 H6]). apply safe_ret, HQ; [done|]. cbn in *.
  eapply (restored_session _ _ _ _ _ x c (upd_send_msg_queue (λ _, omap (λ id, p_tmp_msg_db p !! id) (send_msg_ids c)) c1));
    [exact Hr|done| |done|done|done].
  split; try done. rewrite H1. cbn. by rewrite !insert_insert_eq.
Qed.

End sessions.

(** ** Retained messages *)

Lemma find_retained_None rs t : t ∉ rs.*1 → find_retained rs t = None.
Proof.
  unfold find_retained. induction rs as [|[t' m] rs IH]; [done|]. cbn [fmap list_fmap fst].
  intros [Hne Hrs]%not_elem_of_cons. rewrite filter_cons_False by (cbn; congruence). by apply IH.
Qed.

Lemma find_retained_snoc rs t m t' :
  t ∉ rs.*1 → find_retained (rs ++ [(t, m)]) t' = if decide (t' = t) then Some m else find_retained rs t'.
Proof.
  intros Ht. pose proof (find_retained_None rs t Ht) as HN. unfold find_retained in *.
  rewrite list.filter_app, fmap_app, filter_cons, filter_nil. cbn [fst].
  destruct (decide (t = t')) as [<-|Hne].
  - rewrite decide_True by done. destruct (snd <$> filter _ rs); [done|by cbn in HN].
  - rewrite decide_False by congruence. cbn [fmap list_fmap]. by rewrite app_nil_r.
Qed.

Lemma restored_grown last ms cs rs w tmp b m w' :
  restored last ms cs rs w tmp → grown b m w w' → restored last ms cs rs w' tmp.
Proof.
  intros [] Hg. pose proof (λ b0 m0, grown_old _ _ _ _ b0 m0 Hg) as Hold.
  assert (∀ b0 m0, holds w b0 m0 → holds w' b0 m0) as Hh
    by (intros b0 m0 H; apply Hold; [apply rd_mbufs0; destruct H as (m1&?&_); by exists m1|done]).
  destruct Hg as [-> Hnext (m'&Hmb&_&_) Hctx Htop Hcl Hlast].
  split; unfold topic_clients in *; rewrite ?Hlast, ?Hnext, ?Hctx, ?Htop, ?Hcl in *; try done.
  - intros b. rewrite Hmb. intros [m1 [[<- _]|[_ H1]]%lookup_insert_Some]; [lia|].
    assert (b < w_next w) by (apply rd_mbufs0; by exists m1). lia.
  - intros x Hx. apply rd_ctxs0 in Hx. lia.
  - intros m0 Hm0. destruct (rd_msg0 m0 Hm0) as (b0&?&?). eauto.
  - intros c Hc. destruct (rd_client0 c Hc) as (x&c'&?&?&?&?&HF). exists x, c'.
    split_and!; [done..|]. eapply Forall2_impl; [|exact HF]; auto.
  - intros t n Hn. pose proof (rd_retained0 t n Hn) as Hr.
    destruct (find_retained rs t); [|done]. destruct Hr as (b0&?&?). eauto.
Qed.

(** The node of the topic [t] gets the buffer [b]. *)
Definition retain_in (t : str) (b : Z) (w : World) : World :=
  match w_topics w !! t with
  | None => w
  | Some n => upd_topics <[t := update_retain_msg b n]> w
  end.

Lemma topic_clients_retain t b w t' : topic_clients (retain_in t b w) t' = topic_clients w t'.
Proof.
  unfold retain_in. destruct (w_topics w !! t) as [n|] eqn:Hn; [|done].
  unfold topic_clients. cbn. destruct (decide (t' = t)) as [->|Hne].
  - by rewrite lookup_insert_eq, Hn.
  - by rewrite lookup_insert_ne by done.
Qed.

Lemma retain_known t b w t' : is_Some (w_topics (retain_in t b w) !! t') → is_Some (w_topics w !! t').
Proof.
  unfold retain_in. destruct (w_topics w !! t) as [n|] eqn:Hn; [|done]. cbn.
  destruct (decide (t' = t)) as [->|Hne]; [by rewrite Hn|]. by rewrite lookup_insert_ne by done.
Qed.

Lemma restored_retain last ms cs rs w tmp b t m :
  restored last ms cs rs w tmp → t ∉ rs.*1 → holds w b m →
  restored last ms cs (rs ++ [(t, m)]) (retain_in t b w) tmp.
Proof.
  intros [] Ht Hb.
  assert (w_mbufs (retain_in t b w) = w_mbufs w ∧ w_ctxs (retain_in t b w) = w_ctxs w ∧
    w_next (retain_in t b w) = w_next w ∧ w_clients (retain_in t b w) = w_clients w ∧
    w_store (retain_in t b w) = w_store w) as (Hmb&Hctx&Hnext&Hcl&Hst)
    by (unfold retain_in; by destruct (w_topics w !! t)).
  assert (∀ b0 m0, holds (retain_in t b w) b0 m0 ↔ holds w b0 m0) as Hh by (unfold holds; by rewrite Hmb).
  split; rewrite ?Hst, ?Hnext, ?Hmb, ?Hctx, ?Hcl; try done.
  - intros m0 Hm0. setoid_rewrite Hh. eauto.
  - intros c Hc. destruct (rd_client0 c Hc) as (x&c'&?&?&?&?&HF). exists x, c'.
    split_and!; [done..|]. eapply Forall2_impl; [|exact HF]. intros; by apply Hh.
  - intros t' x. rewrite topic_clients_retain. apply rd_topics0.
  - intros t' Hk%retain_known. rewrite topic_clients_retain. by apply rd_nonempty0.
  - intros t' n Hn. rewrite find_retained_snoc by done.
    assert (∃ n0, w_topics w !! t' = Some n0 ∧
      m_retian_msg_buf n = if decide (t' = t) then Some b else m_retian_msg_buf n0) as (n0&Hn0&Hret).
    { unfold retain_in in Hn. destruct (w_topics w !! t) as [n1|] eqn:H1; cbn in Hn.
      - apply lookup_insert_Some in Hn as [[<- <-]|[Hne Hn]].
        + exists n1. by rewrite decide_True.
        + exists n. by rewrite decide_False by congruence.
      - exists n. rewrite decide_False by congruence. done. }
    rewrite Hret. case_decide; [exists b; by rewrite Hh|].
    pose proof (rd_retained0 t' n0 Hn0) as Hr. destruct (find_retained rs t'); [|done].
    destruct Hr as (b0&?&?). exists b0. by rewrite Hh.
Qed.

Section retaining.
Context {E : Env} {V : Virtual} {F : FileEnv}.

Lemma safe_restore_retained t m last ms cs rs p :
  text t → mbuf_ok m → t ∉ rs.*1 →
  restored last ms cs rs (p_world p) (p_tmp_msg_db p) →
  safe (restore_retained (STR t, mbuf_object m)) (λ _ p', p_stream p' = p_stream p ∧
    restored last ms cs (rs ++ [(t, m)]) (p_world p') (p_tmp_msg_db p')) p.
Proof.
  intros Htext Hok Ht Hr. unfold restore_retained. apply safe_bind. cbn [fst snd].
  change (STR t) with (object_of string_t t). rewrite convert_object_of by done. apply safe_ret.
  apply safe_bind, safe_restore_mbuf; [done|]. intros b w1 Hg.
  apply safe_bind, safe_world. unfold find_topic. apply safe_gets. cbn.
  pose proof (restored_grown _ _ _ _ _ _ _ _ _ Hr Hg) as Hr1.
  pose proof (restored_retain _ _ _ _ _ _ b t m Hr1 Ht (grown_holds _ _ _ _ Hg)) as Hr2.
  unfold retain_in in Hr2. destruct (w_topics w1 !! t) as [n|] eqn:Hn.
  - apply safe_world. unfold set_topic. apply safe_modify. by split.
  - apply safe_ret. by split.
Qed.

Lemma safe_restore_retain_msg l last ms cs p (Q : Z → CPersistMsgPack → Prop) :
  item_ok (IRetained l) → NoDup l.*1 →
  restored last ms cs [] (p_world p) (p_tmp_msg_db p) →
  (∀ p', p_stream p' = p_stream p →
    restored last ms cs l (p_world p') (p_tmp_msg_db p') → Q 0 p') →
  safe (restore_retain_msg (pack_object (retained_object l))) Q p.
Proof.
  intros Hitem Hnd Hr HQ. pose proof (item_wf _ Hitem) as Hwf. destruct Hitem as [Hok Hsize].
  cbn [item_object] in Hsize, Hwf. unfold restore_retain_msg.
  rewrite unpack_packed by (first [done|unfold MAX_CHUNK in Hsize; lia]).
  apply safe_bind, safe_ret. cbn [retained_object]. apply safe_bind.
  assert (∀ rs p1, NoDup (rs ++ l).*1 → p_stream p1 = p_stream p →
    restored last ms cs rs (p_world p1) (p_tmp_msg_db p1) →
    safe (iter restore_retained ((λ p, (STR p.1, mbuf_object p.2)) <$> l))
      (λ _ p', p_stream p' = p_stream p ∧
         restored last ms cs (rs ++ l) (p_world p') (p_tmp_msg_db p')) p1) as Hloop.
  { clear Hsize Hwf Hnd Hr HQ. induction Hok as [|[t m] l [Htext Hm] Hok IH]; intros rs p1 Hnd Hs Hr.
    - cbn. apply safe_ret. by rewrite app_nil_r.
    - rewrite fmap_cons. cbn [iter fst snd]. apply safe_bind.
      rewrite fmap_app, fmap_cons in Hnd. cbn [fst] in Hnd.
      eapply safe_mono; [apply (safe_restore_retained t m last ms cs rs); try done|].
      + apply list.NoDup_app in Hnd as (_&Hd&_). intros Hin. apply (Hd t Hin). by left.
      + intros _ p2 [Hs2 Hr2]. replace (rs ++ (t, m) :: l) with ((rs ++ [(t, m)]) ++ l) by by rewrite <- app_assoc.
        apply IH; [|by rewrite Hs2|done]. rewrite <- app_assoc, !fmap_app. cbn. done. }
  eapply safe_mono; [apply (Hloop [] p); [done|done|done]|].
  intros _ p' [Hs Hr']. apply safe_ret. by apply HQ.
Qed.

End retaining.
