(* ===== verification/Recovery.v ===== *)
(** * Sessions survive a restart

    The file that [store] writes, read by [restore] in an empty server, gives back the
    persistent sessions with their subscriptions and unacknowledged messages, and the
    retained messages of their topics; and what becomes of files and states outside
    the hypotheses. *)

From stdpp Require Import sorting.
From S2P Require Import Prelude Msg Mbuf MemStore Context World Sample Handler SubMgr Connection.
From S2P Require Import Invariant Sessions Pack Unpack Adaptor Persist Stored Restart.
From stdpp Require Import options.

(** ** The whole file *)

Lemma items_length items : (length items <= length (items ≫= item_bytes))%nat.
Proof.
  induction items as [|i items IH]; [done|]. rewrite bind_cons, length_app. cbn [length].
  unfold item_bytes at 1, chunk. rewrite length_app. cbn [length]. lia.
Qed.

(** An empty server. *)
Definition blank (w : World) : Prop :=
  w_topics w = ∅ ∧ w_clients w = ∅ ∧ w_ctxs w = ∅ ∧ w_mbufs w = ∅.

Lemma restored_blank w : blank w → restored (m_last_msg_id (w_store w)) [] [] [] w ∅.
Proof.
  intros (Ht&Hc&Hx&Hm). split; unfold topic_clients; rewrite ?Ht, ?Hc, ?Hx, ?Hm; try done.
  - intros b [m Hb]. by rewrite lookup_empty in Hb.
  - intros b [m Hb]. by rewrite lookup_empty in Hb.
  - intros m Hin. by apply elem_of_nil in Hin.
  - intros id [b Hb]. by rewrite lookup_empty in Hb.
  - intros c Hin. by apply elem_of_nil in Hin.
  - intros id [b Hb]. by rewrite lookup_empty in Hb.
  - intros t x. rewrite lookup_empty. cbn. split; [set_solver|]. intros (c&Hin&_). by apply elem_of_nil in Hin.
  - intros t [b Hb]. by rewrite lookup_empty in Hb.
Qed.

(** The state of a new process that finds the file. *)
Definition reboot (p : CPersistMsgPack) (w : World) : CPersistMsgPack :=
  mkPersist w (p_file p) [] false ∅ 0.

Section loops.
Context {E : Env} {V : Virtual} {F : FileEnv} {C : FileCalm}.

Lemma safe_restore_info s last p (Q : Z → CPersistMsgPack → Prop) :
  item_ok (IStore s) → restored last [] [] [] (p_world p) (p_tmp_msg_db p) →
  (∀ p', p_stream p' = p_stream p →
    restored (m_last_msg_id s) [] [] [] (p_world p') (p_tmp_msg_db p') → Q 0 p') →
  safe (restore_db_info (pack_object (store_object s))) Q p.
Proof.
  intros [Hok Hsize] Hr HQ. cbn [item_object] in Hsize. unfold restore_db_info.
  rewrite unpack_packed by (first [by apply store_written|unfold MAX_CHUNK in Hsize; lia]).
  apply safe_bind, safe_ret, safe_bind, safe_gets. destruct Hok as [H1 H2].
  unfold store_object. cbn [define_unpack CMsgMemStore_members define_members].
  do 2 (rewrite convert_member by done; cbn [mbind res_bind define_members]).
  apply safe_bind, safe_ret, safe_bind, safe_world, safe_modify, safe_ret, HQ; [done|].
  destruct Hr. by split.
Qed.

Lemma loop_msgs last ms2 ms1 fuel rest p (Q : Z → CPersistMsgPack → Prop) :
  Forall (λ m, item_ok (IMsg m) ∧ m_msg_id m ≠ 0) ms2 → NoDup (m_msg_id <$> ms1 ++ ms2) →
  p_stream p = ((IMsg <$> ms2) ≫= item_bytes) ++ rest →
  restored last ms1 [] [] (p_world p) (p_tmp_msg_db p) →
  (∀ p', p_stream p' = rest → restored last (ms1 ++ ms2) [] [] (p_world p') (p_tmp_msg_db p') →
     safe (restore_loop fuel 0) Q p') →
  safe (restore_loop (length ms2 + fuel) 0) Q p.
Proof using C.
  intros Hok. revert ms1 p. induction Hok as [|m ms2 [Hm H0] Hok IH]; intros ms1 p Hnd Hs Hr HQ.
  - apply HQ; [done|]. by rewrite app_nil_r.
  - cbn [length plus]. rewrite fmap_cons, bind_cons, <- app_assoc in Hs.
    eapply loop_item; [exact Hm|exact Hs|]. intros p1 Hp1.
    eapply safe_restore_db_msg; [done|done| |by eapply restored_advanced|].
    { rewrite fmap_app, fmap_cons in Hnd. apply list.NoDup_app in Hnd as (_&Hd&_).
      intros Hin. apply (Hd _ Hin). by left. }
    intros p2 Hs2 Hr2. split; [done|]. apply (IH (ms1 ++ [m])); [by rewrite <- app_assoc| |done|].
    + by rewrite Hs2, (a_stream _ _ _ Hp1).
    + intros p3 Hs3 Hr3. apply HQ; [done|]. by rewrite <- app_assoc in Hr3.
Qed.

Lemma loop_sessions last ms cs2 cs1 fuel rest p (Q : Z → CPersistMsgPack → Prop) :
  Forall (λ c, item_ok (ISession c)) cs2 → NoDup (ctx_client_id <$> cs1 ++ cs2) →
  p_stream p = ((ISession <$> cs2) ≫= item_bytes) ++ rest →
  restored last ms cs1 [] (p_world p) (p_tmp_msg_db p) →
  (∀ p', p_stream p' = rest → restored last ms (cs1 ++ cs2) [] (p_world p') (p_tmp_msg_db p') →
     safe (restore_loop fuel 0) Q p') →
  safe (restore_loop (length cs2 + fuel) 0) Q p.
Proof using C.
  intros Hok. revert cs1 p. induction Hok as [|c cs2 Hc Hok IH]; intros cs1 p Hnd Hs Hr HQ.
  - apply HQ; [done|]. by rewrite app_nil_r.
  - cbn [length plus]. rewrite fmap_cons, bind_cons, <- app_assoc in Hs.
    eapply loop_item; [exact Hc|exact Hs|]. intros p1 Hp1.
    eapply safe_restore_client; [done| |by eapply restored_advanced|].
    { rewrite fmap_app, fmap_cons in Hnd. apply list.NoDup_app in Hnd as (_&Hd&_).
      intros Hin. apply (Hd _ Hin). by left. }
    intros p2 Hs2 Hr2. split; [done|]. apply (IH (cs1 ++ [c])); [by rewrite <- app_assoc| |done|].
    + by rewrite Hs2, (a_stream _ _ _ Hp1).
    + intros p3 Hs3 Hr3. apply HQ; [done|]. by rewrite <- app_assoc in Hr3.
Qed.

Lemma loop_retained last ms cs rs fuel p (Q : Z → CPersistMsgPack → Prop) :
  item_ok (IRetained rs) → NoDup rs.*1 →
  p_stream p = retained_items rs ≫= item_bytes →
  restored last ms cs [] (p_world p) (p_tmp_msg_db p) →
  (∀ p', p_stream p' = [] → restored last ms cs rs (p_world p') (p_tmp_msg_db p') →
     safe (restore_loop fuel 0) Q p') →
  safe (restore_loop (length (retained_items rs) + fuel) 0) Q p.
Proof using C.
  intros Hok Hnd Hs Hr HQ. destruct rs as [|r rs]; [by apply HQ|]. cbn [retained_items length plus].
  eapply loop_item; [exact Hok|exact Hs|]. intros p1 Hp1.
  eapply safe_restore_retain_msg; [done|done|by eapply restored_advanced|].
  intros p2 Hs2 Hr2. split; [done|]. apply HQ; [|done]. by rewrite Hs2, (a_stream _ _ _ Hp1).
Qed.

Lemma safe_restore s ms cs rs w0 file p :
  blank w0 → p_file p = Some file →
  file = ([IStore s] ++ (IMsg <$> ms) ++ (ISession <$> cs) ++ retained_items rs) ≫= item_bytes →
  item_ok (IStore s) → Forall (λ m, item_ok (IMsg m) ∧ m_msg_id m ≠ 0) ms →
  Forall (λ c, item_ok (ISession c)) cs → item_ok (IRetained rs) →
  NoDup (m_msg_id <$> ms) → NoDup (ctx_client_id <$> cs) → NoDup rs.*1 →
  safe restore (λ r p', r = 0 ∧ ∃ w tmp,
    restored (m_last_msg_id s) ms cs rs w tmp ∧ p_world p' = collect w) (reboot p w0).
Proof using C.
  intros Hblank Hfile Hf Hs Hms Hcs Hrs Hd1 Hd2 Hd3.
  unfold restore. apply safe_bind, safe_gets. cbn [p_file reboot]. rewrite Hfile.
  pose proof (items_length ([IStore s] ++ (IMsg <$> ms) ++ (ISession <$> cs) ++ retained_items rs)) as Hlen.
  rewrite <- Hf in Hlen. rewrite !length_app, !length_fmap in Hlen. cbn [length] in Hlen.
  apply safe_return. unfold open_rb. apply safe_bind, safe_world, safe_sys, safe_bind, safe_gets.
  cbn [p_file reboot upd_p_world]. rewrite Hfile. apply safe_bind, safe_modify. rewrite calm_fopen.
  apply safe_bind, safe_modify, safe_ret. split; [done|].
  rewrite (proj2 (Z.eqb_neq _ _)) by (unfold zlen; lia). apply safe_bind.
  set (p0 := upd_p_stream _ _).
  assert (p_stream p0 = file) as Hp0 by done.
  assert (restored (m_last_msg_id (w_store w0)) [] [] [] (p_world p0) (p_tmp_msg_db p0)) as Hr0
    by (apply restored_calls, restored_blank, Hblank).
  clearbody p0.
  replace (S (length file)) with
    (S (length ms + (length cs + (length (retained_items rs) +
       S (length file - 1 - length ms - length cs - length (retained_items rs))))))%nat by lia.
  rewrite Hf in Hp0. rewrite !bind_app in Hp0.
  change ([IStore s] ≫= item_bytes) with (item_bytes (IStore s) ++ []) in Hp0. rewrite app_nil_r in Hp0.
  eapply loop_item; [exact Hs|exact Hp0|]. intros p1 Hp1.
  eapply safe_restore_info; [exact Hs|by eapply restored_advanced|]. intros p2 Hs2 Hr2. split; [done|].
  rewrite (a_stream _ _ _ Hp1) in Hs2.
  apply (loop_msgs (m_last_msg_id s) ms [] _ _ _ _ Hms Hd1 Hs2 Hr2). intros p3 Hs3 Hr3.
  apply (loop_sessions (m_last_msg_id s) ms cs [] _ _ _ _ Hcs Hd2 Hs3 Hr3). intros p4 Hs4 Hr4.
  apply (loop_retained (m_last_msg_id s) ms cs rs _ _ _ Hrs Hd3 Hs4 Hr4). intros p5 Hs5 Hr5.
  apply loop_end; [done|]. intros p6 Hp6.
  unfold fclose. apply safe_bind, safe_modify, safe_bind, safe_world, safe_modify, safe_bind, safe_modify, safe_ret.
  split; [done|]. exists (p_world p6), (p_tmp_msg_db p6). split; [by eapply restored_advanced|done].
Qed.

End loops.

(** ** What a restart keeps *)

(** The messages of a queue that are restored: of each buffer, the one that the message
    store has under its number. *)
Definition kept_messages (w : World) (q : list Z) : list CMbuf :=
  omap (λ b, m ← w_mbufs w !! b; b0 ← m_msg_db (w_store w) !! m_msg_id m; w_mbufs w !! b0) q.

(** The server [w'] has the persistent sessions of [w], and no others. *)
Record recovered (w w' : World) : Prop := {
  rc_last : m_last_msg_id (w_store w') = m_last_msg_id (w_store w);
  rc_session : ∀ id x c, persistent w id x c → ∃ x' c', w_clients w' !! id = Some x' ∧
    w_ctxs w' !! x' = Some c' ∧ mqtt_connection c' = None ∧ session_of c' = session_of c ∧
    Forall2 (holds w') (send_msg_queue c') (kept_messages w (send_msg_queue c));
  rc_only : ∀ id, is_Some (w_clients w' !! id) → ∃ x c, persistent w id x c;
  rc_topics : ∀ t x', x' ∈ topic_clients w' t ↔ ∃ id x c, persistent w id x c ∧
    w_clients w' !! id = Some x' ∧ t ∈ topic_name <$> subcribe_topics c;
  rc_known : ∀ t, is_Some (w_topics w' !! t) → ∃ x', x' ∈ topic_clients w' t;
  rc_retained : ∀ t n, w_topics w' !! t = Some n →
    match retained_of w t with
    | Some m => ∃ b, m_retian_msg_buf n = Some b ∧ holds w' b m
    | None => m_retian_msg_buf n = None
    end;
}.

(** *** The items of a state *)

Lemma NoDup_omap_keys {A B} (f : A → option B) (g : B → A) l :
  (∀ a b, a ∈ l → f a = Some b → g b = a) → NoDup l → NoDup (g <$> omap f l).
Proof.
  intros Hg Hl. induction Hl as [|a l Ha Hl IH]; cbn [omap list_omap]; [constructor|].
  assert (NoDup (g <$> omap f l)) as HN by (apply IH; intros; apply Hg; [by right|done]).
  destruct (f a) as [b|] eqn:Hb; [|exact HN]. rewrite fmap_cons. constructor; [|exact HN].
  rewrite (Hg a b) by (first [by left|done]). intros (b'&Heq&(a'&Ha'&Hf)%list_elem_of_omap)%list_elem_of_fmap.
  apply Ha. by rewrite Heq, (Hg a' b') by (first [by right|done]).
Qed.

Lemma find_retained_omap (f : str → option CMbuf) l t :
  find_retained (omap (λ t, (t,.) <$> f t) l) t = if decide (t ∈ l) then f t else None.
Proof.
  unfold find_retained. induction l as [|t' l IH]; [done|]. cbn [omap list_omap].
  destruct (decide (t' = t)) as [->|Hne].
  - rewrite decide_True by by left. destruct (f t) as [m|] eqn:Hf; cbn [fmap option_fmap option_map].
    + by rewrite filter_cons_True.
    + rewrite IH. by case_decide.
  - transitivity (find_retained (omap (λ t, (t,.) <$> f t) l) t).
    + destruct (f t') as [m|]; cbn [fmap option_fmap option_map]; [|done]. by rewrite filter_cons_False.
    + unfold find_retained. rewrite IH. repeat case_decide; set_solver.
Qed.

Lemma elem_of_map_order t X : t ∈ map_order X ↔ t ∈ X.
Proof. unfold map_order. by rewrite merge_sort_Permutation, elem_of_elements. Qed.

Section items.
Context (w : World) (Hinv : Inv w) (Hst : storable w).

Lemma stored_msg id m :
  m_msg_db (w_store w) !! id ≫= (λ b, w_mbufs w !! b) = Some m → m_msg_id m = id ∧ id ≠ 0 ∧ item_ok (IMsg m).
Proof using Hinv Hst.
  intros (b&Hb&Hm)%bind_Some. destruct (i_db _ _ _ _ _ _ _ _ _ _ Hinv id b Hb) as (m'&Hm'&Hid&_).
  rewrite Hm in Hm'. simplify_eq. split; [done|]. split; [|by eapply st_msgs].
  intros H0. pose proof (i_zero _ _ _ _ _ _ _ _ _ _ Hinv) as Hz. by rewrite H0, Hz in Hb.
Qed.

Lemma stored_msgs_ok order : Forall (λ m, item_ok (IMsg m) ∧ m_msg_id m ≠ 0) (stored_msgs w order).
Proof using Hinv Hst.
  apply list.Forall_forall. intros m (id&_&Hid)%list_elem_of_omap.
  apply stored_msg in Hid as (<-&?&?). done.
Qed.

Lemma stored_msgs_NoDup order : NoDup order → NoDup (m_msg_id <$> stored_msgs w order).
Proof using Hinv Hst. apply NoDup_omap_keys. intros id m _ Hm. by apply stored_msg in Hm as [? _]. Qed.

Lemma find_stored order id :
  order ≡ₚ elements (dom (m_msg_db (w_store w))) →
  find_msg (stored_msgs w order) id = m_msg_db (w_store w) !! id ≫= λ b, w_mbufs w !! b.
Proof using Hinv Hst.
  intros Hord. destruct (find_msg (stored_msgs w order) id) as [m|] eqn:Hf.
  - apply find_msg_In in Hf as [(id'&_&Hid')%list_elem_of_omap <-].
    by pose proof Hid' as [-> _]%stored_msg.
  - apply find_msg_None in Hf. destruct (m_msg_db (w_store w) !! id ≫= _) as [m|] eqn:Hm; [|done].
    destruct Hf. pose proof Hm as [Hid _]%stored_msg. apply list_elem_of_fmap. exists m. split; [done|].
    apply list_elem_of_omap. exists id. split; [|done].
    rewrite Hord. apply elem_of_elements, elem_of_dom.
    destruct (m_msg_db (w_store w) !! id); [by eexists|done].
Qed.

Lemma kept_stored order q :
  order ≡ₚ elements (dom (m_msg_db (w_store w))) →
  omap (find_msg (stored_msgs w order)) (ids_of w q) = kept_messages w q.
Proof using Hinv Hst.
  intros Hord. induction q as [|b q IH]; [done|]. unfold ids_of, kept_messages in *. cbn [omap list_omap].
  destruct (w_mbufs w !! b) as [m|]; cbn [fmap option_fmap option_map mbind option_bind]; [|done].
  cbn [omap list_omap]. rewrite (find_stored _ (m_msg_id m) Hord). by rewrite <- IH.
Qed.

Lemma stored_session_Some id c0 :
  w_clients w !! id ≫= stored_session w = Some c0 ↔ ∃ x c, persistent w id x c ∧ c0 = prepared w c.
Proof.
  unfold persistent, stored_session. split.
  - intros (x&Hx&(c&Hc&H)%bind_Some)%bind_Some. exists x, c.
    destruct (ctx_clean_session c) eqn:Hclean; simplify_eq. done.
  - intros (x&c&(Hx&Hc&Hclean)&->). rewrite Hx. cbn. rewrite Hc. cbn. by rewrite Hclean.
Qed.

Lemma stored_client_id id c0 :
  w_clients w !! id ≫= stored_session w = Some c0 → ctx_client_id c0 = id ∧ item_ok (ISession c0).
Proof using Hst. intros (x&c&Hp&->)%stored_session_Some. by apply (st_sessions _ Hst id x c). Qed.

Lemma stored_sessions_ok order : Forall (λ c, item_ok (ISession c)) (stored_sessions w order).
Proof using Hst.
  apply list.Forall_forall. intros c (id&_&Hid)%list_elem_of_omap. by apply stored_client_id in Hid as [_ ?].
Qed.

Lemma stored_sessions_NoDup order : NoDup order → NoDup (ctx_client_id <$> stored_sessions w order).
Proof using Hst. apply NoDup_omap_keys. intros id c _ Hc. by apply stored_client_id in Hc as [? _]. Qed.

Lemma elem_of_stored_sessions order c0 :
  order ≡ₚ elements (dom (w_clients w)) →
  c0 ∈ stored_sessions w order ↔ ∃ id x c, persistent w id x c ∧ c0 = prepared w c.
Proof.
  intros Hord. unfold stored_sessions. rewrite list_elem_of_omap. split.
  - intros (id&_&Hid). exists id. by apply stored_session_Some.
  - intros (id&Hid). exists id. split; [|by apply stored_session_Some].
    destruct Hid as (x&c&[Hx _]&_). rewrite Hord. apply elem_of_elements, elem_of_dom. by exists x.
Qed.

Lemma find_stored_retained t : find_retained (stored_retained w) t = retained_of w t.
Proof.
  unfold stored_retained. rewrite find_retained_omap. case_decide as Hin; [done|].
  rewrite elem_of_map_order, not_elem_of_dom in Hin. unfold retained_of. by rewrite Hin.
Qed.

Lemma stored_retained_NoDup : NoDup (stored_retained w).*1.
Proof.
  apply NoDup_omap_keys.
  - intros t [t' m] _ H. by apply fmap_Some in H as (m'&_&[= -> ->]).
  - unfold map_order. rewrite merge_sort_Permutation. apply NoDup_elements.
Qed.

Lemma restored_recovered msgs clients w1 tmp :
  msgs ≡ₚ elements (dom (m_msg_db (w_store w))) → clients ≡ₚ elements (dom (w_clients w)) →
  restored (m_last_msg_id (w_store w)) (stored_msgs w msgs) (stored_sessions w clients)
    (stored_retained w) w1 tmp → recovered w w1.
Proof using Hinv Hst.
  intros Hm Hc []. assert (∀ id x c, persistent w id x c → ctx_client_id c = id) as Hname
    by (intros id x c Hp; by apply (st_sessions _ Hst id x c)).
  pose proof (λ c0, elem_of_stored_sessions clients c0 Hc) as Hin.
  split; [done| | | |done|].
  - intros id x c Hp. destruct (rd_client (prepared w c)) as (x'&c'&Hx'&Hc'&?&?&HF).
    { apply Hin. by exists id, x, c. }
    change (ctx_client_id (prepared w c)) with (ctx_client_id c) in Hx'. rewrite (Hname id x c Hp) in Hx'.
    exists x', c'. split_and!; [done..|]. by rewrite <- (kept_stored msgs).
  - intros id (c0&->&(id'&x&c&Hp&->)%Hin)%rd_clients%list_elem_of_fmap. exists x, c.
    by change (ctx_client_id (prepared w c)) with (ctx_client_id c); rewrite (Hname id' x c Hp).
  - intros t x'. rewrite rd_topics. split.
    + intros (c0&(id&x&c&Hp&->)%Hin&Hx'&Ht). exists id, x, c. split; [done|]. split; [|done].
      by rewrite <- (Hname id x c Hp).
    + intros (id&x&c&Hp&Hx'&Ht). exists (prepared w c). split; [apply Hin; by exists id, x, c|].
      split; [|done]. change (ctx_client_id (prepared w c)) with (ctx_client_id c). by rewrite (Hname id x c Hp).
  - intros t n Hn. rewrite <- find_stored_retained. by apply rd_retained.
Qed.

End items.

(** The destructors that run when the reader is done take nothing away. *)
Lemma destroy_last (l : list (Z * CMbuf)) s :
  m_last_msg_id (foldr (λ '(_, m) s, destroy_mbuf m s) s l) = m_last_msg_id s.
Proof.
  induction l as [|[b m] l IH]; [done|]. cbn [foldr]. unfold destroy_mbuf at 1.
  by destruct (negb _ && _).
Qed.

Lemma recovered_collect w w1 : recovered w w1 → recovered w (collect w1).
Proof.
  intros [Hlast Hses Honly Htop Hknown Hret].
  assert (∀ x c, registered (w_topics w1) (w_clients w1) x → w_ctxs w1 !! x = Some c →
    w_ctxs (collect_ctxs w1) !! x = Some c) as Hctx
    by (intros x c Hr Hc; apply filter_Some; split; [done|by apply live_ctxs_registered]).
  assert (∀ b m, b ∈ live_mbufs (collect_ctxs w1) → holds w1 b m → holds (collect w1) b m) as Hmb.
  { intros b m Hb (m'&Hm&?&?). exists m'. split; [|done]. by apply filter_Some. }
  split; [| |done|done|done|].
  - unfold collect, collect_mbufs. cbn. by rewrite destroy_last.
  - intros id x c Hp. destruct (Hses id x c Hp) as (x'&c'&Hx'&Hc'&?&?&HF). exists x', c'.
    assert (w_ctxs (collect_ctxs w1) !! x' = Some c') as Hc2 by (apply Hctx; [left; by exists id|done]).
    split_and!; try done.
    apply Forall2_same_length_lookup_2; [by eapply Forall2_length|].
    intros i b m Hb Hm. apply Hmb; [|by eapply Forall2_lookup_lr].
    apply live_mbufs_spec. right; left. exists x', c'. split; [done|]. by eapply list_elem_of_lookup_2.
  - intros t n Hn. pose proof (Hret t n Hn) as Hr. destruct (retained_of w t); [|done].
    destruct Hr as (b&Hb&Hh). exists b. split; [done|]. apply Hmb; [|done].
    apply live_mbufs_spec. right; right; left. by exists t, n.
Qed.

(** [store], as the server ends, writes a file from which [restore] makes the sessions
    in an empty server. *)
Lemma restart_recovers `{E : Env, L : !EnvLaws, V : Virtual, F : FileEnv, C : !FileCalm} p :
  Inv (p_world p) → storable (p_world p) → no_idle (p_world p) →
  ∃ p1, store true p = (Ok 0, p1) ∧
    ∀ w0, blank w0 → ∃ p2, restore (reboot p1 w0) = (Ok 0, p2) ∧ recovered (p_world p) (p_world p2).
Proof.
  intros Hinv Hst Hidle. set (w := p_world p) in *.
  destruct (store_writes w Hinv Hst Hidle p eq_refl) as (p1&Hstore&msgs&clients&Hm&Hc&Hfile&_).
  exists p1. split; [exact Hstore|]. intros w0 Hblank.
  assert (NoDup msgs) as Hd1 by (rewrite Hm; apply NoDup_elements).
  assert (NoDup clients) as Hd2 by (rewrite Hc; apply NoDup_elements).
  destruct (safe_inv _ _ _ (safe_restore (w_store w) (stored_msgs w msgs) (stored_sessions w clients)
    (stored_retained w) w0 _ p1 Hblank Hfile eq_refl (st_store _ Hst)
    (stored_msgs_ok w Hinv Hst msgs) (stored_sessions_ok w Hst clients) (st_retained _ Hst)
    (stored_msgs_NoDup w Hinv Hst msgs Hd1) (stored_sessions_NoDup w Hst clients Hd2)
    (stored_retained_NoDup w))) as (r&p2&Hr&->&w1&tmp&Hw1&Hp2).
  exists p2. split; [exact Hr|]. rewrite Hp2. apply recovered_collect.
  by apply (restored_recovered w Hinv Hst msgs clients w1 tmp).
Qed.

(** ** A concrete restart

    A connected client with a persistent session, two unacknowledged messages and a
    retained copy, and another with a clean session. *)

Definition sample_disk : FileEnv := {|
  env_fopen := λ _, true; env_fwrite := λ _ k, k; env_fread_error := λ _, false;
  env_max_idle_timeout := 300;
|}.

Lemma sample_disk_calm : @FileCalm sample_disk.
Proof. by split. Qed.

Definition sample_session (con : option Z) (id : str) (clean : bool) (queue : list Z) : CTMqttClientContext :=
  mkContext con CS_CONNECTED (of_string "10.0.0.1:1") (of_string "MQIsdp") 3 id [] [] 0 0 900 901 902 903 904 905
    2 clean false [] queue [mkTopic (of_string "t") 1].

Definition stored_world : World := {|
  w_calls := 0; w_errno := 0;
  w_objs := <[3 := mkObject (sample_handler 9 []) (Connection {| m_client_context := Some 1;
    m_recv_buffer := replicate 4096 0; m_cur_buf_pos := 0; m_conn_accept_time := 900;
    m_last_msg_time := 990 |})]> ∅;
  w_ctxs := <[1 := sample_session (Some 3) (of_string "a") false [5; 6; 7]]>
    (<[2 := sample_session None (of_string "b") true [6]]> ∅);
  w_mbufs := <[5 := set_mem_db true (sample_mbuf [48; 1; 2] 1)]> (<[6 := set_mem_db true (sample_mbuf [50; 9; 9] 2)]>
    (<[7 := sample_mbuf [51; 1] 2]> ∅));
  w_next := 10;
  w_topics := <[of_string "t" := mkTopicNode (Some 7) {[1; 2]}]> ∅;
  w_clients := <[of_string "a" := 1]> (<[of_string "b" := 2]> ∅);
  w_store := mkStore 2 (<[1 := 5]> (<[2 := 6]> ∅)) 77;
  w_stats := ∅;
  w_poller := mkPoller (<[9 := 3]> ∅) None [] true (<[9 := (4, 3)]> ∅);
  w_out := [];
|}.

(** The entries of the small maps. *)
Ltac entries := repeat match goal with
  | H : <[_ := _]> _ !! _ = Some _ |- _ => apply lookup_insert_Some in H as [[<- <-]|[_ H]]
  | H : ∅ !! _ = Some _ |- _ => by rewrite lookup_empty in H
  end.

Lemma stored_world_inv : Inv stored_world.
Proof.
  assert (∀ p x, attached (w_objs stored_world) p x → p = 3 ∧ x = 1) as Hatt.
  { intros p x (h&c&Ho&Hx). cbn [w_objs stored_world] in Ho.
    apply lookup_insert_Some in Ho as [[<- Ho]|[_ Ho]]; [|by rewrite lookup_empty in Ho].
    injection Ho as <- <-. cbn in Hx. by injection Hx as <-. }
  split; cbn [w_objs w_ctxs w_mbufs w_next w_topics w_clients w_store w_poller stored_world m_msg_db
    m_map_event_handlers interest_list m_notify_deque].
  - intros x c p _ Hc Hp. entries; cbn in Hp; simplify_eq. by eexists _, _.
  - intros p x H. destruct (Hatt p x H) as [-> ->]. by eexists.
  - intros x [[id Hid]|(t&n&Ht&Hx)]; entries; try by eexists.
    cbn in Hx. apply elem_of_union in Hx as [->%elem_of_singleton| ->%elem_of_singleton]; by eexists.
  - intros p o Ho. entries. split; [|by split].
    intros b Hb. by apply elem_of_nil in Hb.
  - intros x c b Hc Hb. entries; cbn in Hb;
      repeat (apply elem_of_cons in Hb as [->|Hb]; [by eexists|]); by apply elem_of_nil in Hb.
  - intros t n b Ht Hb. entries. cbn in Hb. simplify_eq. by eexists.
  - intros b Hb. by apply elem_of_nil in Hb.
  - intros b m Hm. entries; by apply (bool_decide_unpack _).
  - intros id b Hb. entries; by eexists.
  - done.
  - intros k [[o H]|[[c H]|[m H]]]; entries; lia.
  - intros fd p H. entries. by eexists.
  - intros fd mask p H. apply lookup_insert_Some in H as [[<- H]|[_ H]]; [|by rewrite lookup_empty in H].
    simplify_eq. by eexists.
  - done.
Qed.

(** The members and the size of an item, computed. *)
Ltac computes := apply (bool_decide_unpack _); vm_compute; exact I.

Ltac item_computes := split; computes.

Lemma stored_world_storable : storable stored_world.
Proof.
  split.
  - item_computes.
  - intros id b m Hb Hm. cbn [w_store w_mbufs m_msg_db stored_world] in *.
    entries; try done; simplify_eq; item_computes.
  - intros id x c (Hid&Hc&Hclean). revert Hc Hclean. cbn [w_clients w_ctxs stored_world] in *.
    entries; intros Hc Hclean; vm_compute in Hc; injection Hc as <-; [|done].
    split; [done|]. split; [split; computes|computes].
  - item_computes.
Qed.

Lemma stored_world_busy E : @env_time E = (λ _, 1000) → @no_idle sample_disk E stored_world.
Proof.
  intros Htime q h k n Hq. rewrite Htime. cbn [w_objs stored_world] in Hq.
  apply lookup_insert_Some in Hq as [[_ Hq]|[_ Hq]]; [|by rewrite lookup_empty in Hq].
  injection Hq as _ <-. by apply (bool_decide_unpack _).
Qed.

(** ** What a restart does not survive *)

(** [write_chunk] writes a chunk of any size; [restore] refuses one of more than 1 MiB,
    and the server does not start any more. *)
Lemma oversized_chunk_refused `{E : Env, V : Virtual, F : FileEnv, C : !FileCalm} p
    acceptor notify_fd listen eventfd type n rest :
  MAX_CHUNK < n < 2 ^ 32 → p_file p = Some ([0xEE; type] ++ le32 n ++ rest) →
  ∃ p', tcp_server_open acceptor notify_fd listen eventfd p = (Ok (-1), p').
Proof.
  intros Hn Hf.
  destruct (safe_inv (tcp_server_open acceptor notify_fd listen eventfd) (λ r _, r = -1) p)
    as (r&p'&Hr&->); [|by exists p'].
  set (file := _ ++ _) in Hf. unfold tcp_server_open, restore. apply safe_bind, safe_bind, safe_gets.
  rewrite Hf. apply safe_return. unfold open_rb. apply safe_bind, safe_world, safe_sys, safe_bind, safe_gets.
  cbn [p_file upd_p_world]. rewrite Hf. apply safe_bind, safe_modify. rewrite calm_fopen.
  apply safe_bind, safe_modify, safe_ret. split; [done|].
  assert (zlen file =? 0 = false) as ->.
  { apply Z.eqb_neq. unfold file. rewrite zlen_app. pose proof (zlen_nonneg (le32 n ++ rest)).
    change (zlen [238; type]) with 2. lia. }
  apply safe_bind. cbn [restore_loop]. apply safe_bind.
   apply (safe_read_large type n rest); [done|done|]. intros p1. apply safe_ret.
  apply safe_bind, safe_modify. apply safe_bind, safe_world, safe_modify. apply safe_bind, safe_modify.
  apply safe_ret. change (-1 =? -1) with true. cbv iota. by apply safe_ret.
Qed.

(** Without a publication since the last time, [store] on the timer writes nothing:
    new subscriptions and acknowledgements wait for the next one. *)
Lemma timer_store_waits `{E : Env, V : Virtual, F : FileEnv} p :
  m_last_update_time (w_store (p_world p)) <= p_last_db_update_time p →
  ∃ p', store false p = (Ok 0, p') ∧ p_file p' = p_file p.
Proof.
  intros Ht.
  destruct (safe_inv (store false) (λ r p', r = 0 ∧ p_file p' = p_file p) p) as (r&p'&Hr&Hr0&Hp); [|exists p'; split; [rewrite <- Hr0; exact Hr|exact Hp]].
  unfold store. apply safe_bind, safe_world.
  pose proof (flush_untouched (p_world p)) as Hu. pose proof (flush_ok (p_world p)) as Hok.
  unfold safe at 1, wp. revert Hu Hok. generalize (flush_stats (p_world p)). intros [r w'] Hu Hok.
  cbn [fst snd] in *. subst r. apply safe_bind, safe_gets, safe_bind, safe_gets. unfold compose.
  cbn [p_world upd_p_world p_last_db_update_time]. rewrite (proj2 (Z.leb_le _ _)); [by apply safe_ret|].
  rewrite (u_store _ _ Hu). exact Ht.
Qed.
