(* ===== verification/Reopen.v ===== *)
(** * The server starts with its file

    Whatever the file of the sessions holds: if [TCPServer::open] returns 0, the
    server that has read it is in a state of the invariant, so that all that is shown
    of a running server holds of it; and a server that stored its sessions itself finds
    them again. *)

From S2P Require Import Prelude Msg Mbuf MemStore Context World Sample Handler SubMgr Connection.
From S2P Require Import Invariant Poller Scenarios Safety Sessions Server Unpack Adaptor Persist Stored Restart.
From S2P Require Import Recovery.
From stdpp Require Import options.

(** ** If it returns

    [okay m Q s]: if [m] has a result, the result and the state satisfy [Q]. *)

Definition okay {S A} (m : st S A) (Q : A → S → Prop) (s : S) : Prop :=
  ∀ a s', m s = (Ok a, s') → Q a s'.

Section okay.
Context {S : Type}.

Lemma okay_bind {A B} (m : st S A) (f : A → st S B) Q s :
  okay m (λ a, okay (f a) Q) s → okay (bind m f) Q s.
Proof.
  intros Hm b s'. unfold bind. destruct (m s) as [[a| |u] s1] eqn:E; [|done..]. by apply Hm.
Qed.

Lemma okay_ret {A} (a : A) (Q : A → S → Prop) s : Q a s → okay (ret a) Q s.
Proof. by intros HQ ?? [= <- <-]. Qed.

Lemma okay_gets {A} (f : S → A) (Q : A → S → Prop) s : Q (f s) s → okay (gets f) Q s.
Proof. by intros HQ ?? [= <- <-]. Qed.

Lemma okay_modify f (Q : unit → S → Prop) s : Q tt (f s) → okay (modify f) Q s.
Proof. by intros HQ ?? [= <- <-]. Qed.

Lemma okay_lift {A} (r : res A) (Q : A → S → Prop) s : (∀ a, r = Ok a → Q a s) → okay (lift r) Q s.
Proof. intros HQ a s'. unfold lift. destruct r; intros [= <- <-]. by apply HQ. Qed.

Lemma okay_safe {A} (m : st S A) Q s : safe m Q s → okay m Q s.
Proof. intros Hs a s' Hr. unfold safe, wp in Hs. by rewrite Hr in Hs. Qed.

Lemma okay_mono {A} (m : st S A) (Q R : A → S → Prop) s : okay m Q s → (∀ a s', Q a s' → R a s') → okay m R s.
Proof. intros Hm HQ a s' Hr. by apply HQ, Hm. Qed.

Lemma okay_iter {A} (f : A → st S unit) (I : S → Prop) l s :
  I s → (∀ a s, I s → okay (f a) (λ _, I) s) → okay (iter f l) (λ _, I) s.
Proof.
  intros Hs Hf. revert s Hs. induction l as [|a l IH]; intros s Hs; cbn [iter]; [by apply okay_ret|].
  apply okay_bind. eapply okay_mono; [by apply Hf|]. intros [] s' Hs'. by apply IH.
Qed.

End okay.

Lemma okay_world {A} (m : M A) (Q : A → CPersistMsgPack → Prop) p :
  okay m (λ a w, Q a (upd_p_world (λ _, w) p)) (p_world p) → okay (world m) Q p.
Proof.
  intros Hm a p'. unfold world. destruct (m (p_world p)) as [r w] eqn:E. intros [= -> <-]. by apply Hm.
Qed.

(** ** Reading the members of a class *)

Lemma define_members_keep {T A} (f : T → A) (ms : list (member T)) l t t' :
  Forall (λ m, ∀ o t t', mem_convert m o t = Ok t' → f t' = f t) ms →
  define_members ms l t = Ok t' → f t' = f t.
Proof.
  intros Hms. revert l t. induction Hms as [|m ms Hm Hms IH]; intros [|o l] t; cbn [define_members];
    try by intros [= ->].
  destruct (mem_convert m o t) as [t1| |] eqn:Ht; [|done..]. cbn [mbind res_bind].
  intros Hr. rewrite (IH l t1 Hr). by eapply Hm.
Qed.

Lemma define_unpack_keep {T A} (f : T → A) (ms : list (member T)) o t t' :
  Forall (λ m, ∀ o t t', mem_convert m o t = Ok t' → f t' = f t) ms →
  define_unpack ms o t = Ok t' → f t' = f t.
Proof. intros Hms. unfold define_unpack. destruct o; try done. by apply define_members_keep. Qed.

Lemma member_keeps {T A B} (f : T → B) (ad : adaptor A) get upd :
  (∀ g t, f (upd g t) = f t) → ∀ o t t', mem_convert (@member_of T A ad get upd) o t = Ok t' → f t' = f t.
Proof.
  intros Hu o t t'. cbn. destruct (a_convert ad o) as [v| |]; [|done..]. cbn. intros [= <-]. apply Hu.
Qed.

(** The stored members of a context are neither its connection nor its queue. *)
Lemma context_unpack_keeps o c c' :
  define_unpack CTMqttClientContext_members o c = Ok c' →
  mqtt_connection c' = mqtt_connection c ∧ send_msg_queue c' = send_msg_queue c.
Proof.
  intros Hu. split; eapply (define_unpack_keep _ _ _ _ _ _ Hu).
  Unshelve.
  - repeat (apply list.Forall_cons_2; [by apply member_keeps|]). constructor.
  - repeat (apply list.Forall_cons_2; [by apply member_keeps|]). constructor.
Qed.

Lemma store_unpack_keeps o s s' :
  define_unpack CMsgMemStore_members o s = Ok s' → m_msg_db s' = m_msg_db s.
Proof.
  apply define_unpack_keep. repeat (apply list.Forall_cons_2; [by apply member_keeps|]). constructor.
Qed.

(** ** Restoring keeps the invariant *)

(** An operation that adds to the server [w], and leaves its objects and its poller. *)
Record adds (w w' : World) : Prop := {
  ad_inv : Inv w';
  ad_objs : w_objs w' = w_objs w;
  ad_poller : w_poller w' = w_poller w;
  ad_live : ∀ b, live (w_mbufs w) b → live (w_mbufs w') b;
}.

Lemma adds_trans w1 w2 w3 : adds w1 w2 → adds w2 w3 → adds w1 w3.
Proof. intros [] []. split; [done|congruence..|auto]. Qed.

Lemma adds_refl w : Inv w → adds w w.
Proof. by split. Qed.

(** The state of the process after [w], while the file is read. *)
Record reads_on (w : World) (p : CPersistMsgPack) : Prop := {
  ro_adds : adds w (p_world p);
  ro_tmp : ∀ id b, p_tmp_msg_db p !! id = Some b → live (w_mbufs (p_world p)) b;
}.

Lemma reads_on_world w p w' : reads_on w p → adds (p_world p) w' → reads_on w (upd_p_world (λ _, w') p).
Proof.
  intros [Ha Ht] Hw. split; [by eapply adds_trans|]. intros id b Hb. by eapply (ad_live _ _ Hw), Ht.
Qed.

Section reopening.
Context {E : Env} {V : Virtual} {F : FileEnv}.

Lemma okay_restore_db_info buf w p :
  reads_on w p → okay (restore_db_info buf) (λ _, reads_on w) p.
Proof.
  intros Hp. unfold restore_db_info. apply okay_bind, okay_lift. intros o _.
  apply okay_bind, okay_gets, okay_bind, okay_lift. intros s Hs. apply store_unpack_keeps in Hs.
  apply okay_bind, okay_world, okay_modify, okay_ret, reads_on_world; [done|].
  pose proof (ad_inv _ _ (ro_adds _ _ Hp)) as Hi. split; [|done..].
  unfold Inv. change (w_store (upd_store _ _)) with s. rewrite Hs. exact Hi.
Qed.

(** A new buffer, with the bytes that the object has between its markers. *)
Lemma okay_restore_mbuf o p :
  Inv (p_world p) →
  okay (restore_mbuf o) (λ b p', ∃ w' m, p' = upd_p_world (λ _, w') p ∧ adds (p_world p) w' ∧
    w_mbufs w' !! b = Some m ∧ ∀ id, m_msg_db (w_store w') !! id ≠ Some b) p.
Proof.
  intros Hi. unfold restore_mbuf. apply okay_bind, okay_world, okay_safe, safe_sys.
  apply okay_bind, okay_lift. intros tmp _. set (len := s32 _). set (w := p_world p).
  apply okay_bind, okay_world, okay_safe. unfold new_mbuf, std_time.
  apply safe_bind, safe_sys, safe_bind, safe_sys, safe_bind, safe_fresh_id, safe_bind, safe_modify, safe_ret.
  set (fresh := map _ _). set (now := env_time _).
  apply okay_bind, okay_world, okay_safe. eapply safe_upd_mbuf; [cbn; by rewrite lookup_insert_eq|].
  set (b1 := set_msg_id _ _). apply okay_bind, okay_lift. intros l Hl.
  assert (0 <= len < 2 ^ 31 ∧ zlen l = len) as [Hlen Hzl].
  { unfold rd_bytes in Hl. destruct (_ && _) eqn:Hc; [|done].
    rewrite !andb_true_iff, !Z.leb_le in Hc. injection Hl as <-.
    assert (len < 2 ^ 31) by (unfold len, s32; pose proof (Z.mod_pos_bound
      (t_write_pos tmp - t_read_pos tmp + 2 ^ 31) (2 ^ 32) ltac:(lia)); lia).
    rewrite zlen_take by (rewrite zlen_drop; lia). lia. }
  assert (zlen fresh = len) as Hf.
  { unfold fresh, zlen. rewrite length_map, length_seq, u32_small by lia. lia. }
  assert (wf_mbuf b1) as Hwf by (apply (wf_mbuf_init fresh now); lia).
  apply okay_bind, okay_world, okay_safe. unfold mbuf_copy_to. apply safe_bind.
  eapply safe_get_mbuf; [cbn; by rewrite lookup_insert_eq|].
  destruct (mbuf_copy_contents l b1 Hwf) as (b2&->&Hwf2&_); [unfold max_size; cbn; lia|].
  apply safe_bind, safe_modify, safe_ret, okay_ret. cbn [p_world upd_p_world eta_persist].
  set (w2 := upd_mbufs _ _).
  assert (w_mbufs w2 = <[w_next w := b2]> (w_mbufs w)) as Hm by (unfold w2; cbn; by rewrite !insert_insert_eq).
  assert (∀ id, m_msg_db (w_store w2) !! id ≠ Some (w_next w)) as Hdb.
  { intros id Hid. destruct (i_db _ _ _ _ _ _ _ _ _ _ Hi id _ Hid) as (m&Hb&_).
    assert (w_next w < w_next w); [|lia]. eapply i_fresh; [exact Hi|]. right; right. by exists m. }
  exists w2, b2. split_and!; [done| |by rewrite Hm, lookup_insert_eq|exact Hdb].
  split; [|done..|intros c Hc; rewrite Hm; by apply live_insert].
  unfold Inv. rewrite Hm. eapply inv_mbuf; [eapply inv_next; [exact Hi|]|..].
  - change (w_next w <= w_next w + 1). lia.
  - exact Hwf2.
  - change (w_next w < w_next w + 1). lia.
  - intros id Hid. by destruct (Hdb id).
Qed.

Lemma regist_adds b m w :
  Inv w → w_mbufs w !! b = Some m → (∀ id, m_msg_db (w_store w) !! id ≠ Some b) →
  safe (regist_mem_store b) (λ _, adds w) w.
Proof using.
  intros Hi Hb Hdb. unfold regist_mem_store, std_time. apply safe_bind. eapply safe_upd_mbuf; [exact Hb|].
  set (w1 := upd_mbufs _ w). assert (w_mbufs w1 !! b = Some (set_mem_db true m)) as Hb1 by apply lookup_insert_eq.
  assert (adds w w1) as Ha1.
  { split; [|done..|intros c; apply live_insert]. eapply inv_mbuf; [exact Hi| | |by intros id Hid%Hdb].
    - exact (i_mbufs _ _ _ _ _ _ _ _ _ _ Hi b m Hb).
    - eapply i_fresh; [exact Hi|]. right; right. by exists m. }
  apply safe_bind. eapply safe_get_mbuf; [exact Hb1|]. destruct (negb _) eqn:Hz; [|by apply safe_ret].
  apply negb_true_iff, Z.eqb_neq in Hz. apply safe_bind, safe_sys, safe_modify.
  apply (adds_trans w w1); [exact Ha1|]. split; [|done..].
  eapply inv_db; [exact (ad_inv _ _ Ha1)|exact Hb1|done|done|exact Hz].
Qed.

Lemma okay_restore_db_msg buf w p :
  reads_on w p → okay (restore_db_msg buf) (λ _, reads_on w) p.
Proof using.
  intros Hp. pose proof (ad_inv _ _ (ro_adds _ _ Hp)) as Hi. unfold restore_db_msg.
  apply okay_bind, okay_lift. intros o _. apply okay_bind. eapply okay_mono; [by apply okay_restore_mbuf|].
  intros b p1 (w1&m&->&Ha&Hb&Hdb). pose proof (reads_on_world _ _ _ Hp Ha) as Hp1.
  apply okay_bind, okay_world, okay_safe. eapply safe_get_mbuf; [exact Hb|].
  destruct (negb _); [|apply okay_bind, okay_ret, okay_ret; exact Hp1].
  apply okay_bind, okay_bind, okay_world, okay_safe.
  eapply safe_mono; [apply (regist_adds b m); [apply Ha|exact Hb|exact Hdb]|].
  intros [] w2 Ha2. apply okay_modify, okay_ret. pose proof (reads_on_world _ _ _ Hp1 Ha2) as [Hadds Ht].
  split; [exact Hadds|]. intros id c Hc. cbn in Hc. apply lookup_insert_Some in Hc as [[_ <-]|[_ Hc]].
  - apply (ad_live _ _ Ha2). by exists m.
  - exact (Ht id c Hc).
Qed.

(** *** Sessions *)

(** The context [x] of a session, which nothing is connected to. *)
Definition offline (x : Z) (w : World) : Prop := ∃ c, w_ctxs w !! x = Some c ∧ mqtt_connection c = None.

Lemma node_live t w b n : Inv w → w_topics w !! t = Some n → m_retian_msg_buf n = Some b → live (w_mbufs w) b.
Proof using. intros Hi. by eapply i_retain. Qed.

Lemma subscribe_adds t x w :
  Inv w → offline x w → adds w (upd_topics (λ T, subscribe_topic x T t) w).
Proof using.
  intros Hi (c&Hc&Hn). split; [|done..]. eapply inv_offline; [exact Hi|exact Hc|exact Hn|..].
  - intros y [Hy|(t'&n&Hn'&Hy)]; [by left; left|]. cbn in Hn'. unfold subscribe_topic in Hn'.
    apply lookup_insert_Some in Hn' as [[<- <-]|[_ Hn']]; [|left; right; by exists t', n].
    apply elem_of_add_client in Hy as [->|Hy]; [by right|]. left; right.
    destruct (w_topics w !! t) as [n|] eqn:Hw; [by exists t, n|]. cbn in Hy. set_solver.
  - intros t' n b Hn'. cbn in Hn'. unfold subscribe_topic in Hn'.
    apply lookup_insert_Some in Hn' as [[<- <-]|[_ Hn']]; [|by eapply i_retain].
    rewrite retain_add_client. destruct (w_topics w !! t) as [n|] eqn:Hw; [by eapply i_retain|done].
Qed.

Lemma okay_subscriptions l x w0 w :
  adds w0 w → offline x w →
  okay (iter (λ t, do _ <- add_client_context (topic_name t) x; ret tt) l) (λ _ w', adds w0 w' ∧ offline x w') w.
Proof using.
  intros Ha Hx. apply (okay_iter _ (λ w, adds w0 w ∧ offline x w)); [done|]. clear. intros t w [Ha (c&Hc&Hn)].
  apply okay_bind. intros r w1 Hr. rewrite (add_client_context_offline _ _ c) in Hr by done.
  injection Hr as <- <-. apply okay_ret. split; [|by exists c].
  eapply adds_trans; [exact Ha|]. apply subscribe_adds; [apply Ha|by exists c].
Qed.

Lemma okay_restore_queue x ids w p :
  reads_on w p → okay (restore_queue x ids) (λ _, reads_on w) p.
Proof using.
  intros Hp. apply okay_iter; [done|]. clear p Hp. intros id p Hp. apply okay_bind, okay_gets.
  destruct (p_tmp_msg_db p !! id) as [b|] eqn:Hb; [|by apply okay_ret]. apply okay_world.
  pose proof (ad_inv _ _ (ro_adds _ _ Hp)) as Hi. unfold upd_ctx. apply okay_bind.
  intros c w1 Hc. unfold get_ctx in Hc. destruct (w_ctxs (p_world p) !! x) as [c'|] eqn:Hx; [|done].
  injection Hc as -> <-. apply okay_modify, reads_on_world; [done|]. split; [|done..].
  eapply inv_ctx; [exact Hi|exact Hx|done|]. cbn. intros b' [Hb'|Hb']%elem_of_app.
  - by eapply (i_ctxs _ _ _ _ _ _ _ _ _ _ Hi).
  - apply list_elem_of_singleton in Hb' as ->. by eapply ro_tmp.
Qed.

Lemma okay_restore_client buf w p :
  reads_on w p → okay (restore_client_info buf) (λ _, reads_on w) p.
Proof using.
  intros Hp. pose proof (ad_inv _ _ (ro_adds _ _ Hp)) as Hi. unfold restore_client_info.
  apply okay_bind, okay_lift. intros o _. apply okay_bind, okay_world, okay_safe. unfold new_ctx.
  apply safe_bind, safe_sys, safe_bind, safe_fresh_id, safe_bind, safe_modify, safe_ret.
  set (x := w_next (upd_calls S (p_world p))). set (c0 := new_CTMqttClientContext _ None).
  apply okay_bind, okay_world, okay_safe. eapply safe_get_ctx; [cbn; apply lookup_insert_eq|].
  apply okay_bind, okay_lift. intros c Hc. apply context_unpack_keeps in Hc as [Hcon Hq].
  apply okay_bind, okay_world, okay_safe. eapply safe_upd_ctx; [cbn; apply lookup_insert_eq|].
  set (w1 := upd_ctxs <[x := c]> (upd_ctxs <[x := c0]> (upd_next (λ n, n + 1) (upd_calls S (p_world p))))).
  match goal with |- okay ?m ?Q _ => change (okay m Q (upd_p_world (λ _, w1) p)) end.
  assert (w_ctxs w1 = <[x := c]> (w_ctxs (p_world p))) as Hw1 by (unfold w1; cbn; by rewrite insert_insert_eq).
  assert (w_ctxs (p_world p) !! x = None) as Hfresh.
  { apply eq_None_not_Some. intros Hx. assert (w_next (p_world p) < w_next (p_world p)); [|lia].
    eapply i_fresh; [exact Hi|]. right; by left. }
  assert (adds (p_world p) w1) as Ha1.
  { split; [|done..]. unfold Inv. rewrite Hw1. eapply inv_new_ctx; [eapply inv_next; [exact Hi|]|..].
    - change (w_next (p_world p) <= w_next (p_world p) + 1). lia.
    - exact Hfresh.
    - exact Hcon.
    - rewrite Hq. intros b Hb. by apply elem_of_nil in Hb.
    - change (w_next (p_world p) < w_next (p_world p) + 1). lia. }
  assert (offline x w1) as Hx1 by (exists c; rewrite Hw1; split; [apply lookup_insert_eq|exact Hcon]).
  apply okay_bind, okay_world. unfold add_by_client_id, find_by_client_id. apply okay_bind, okay_gets.
  match goal with |- okay _ ?Q _ => assert (∀ r w2, adds (p_world p) w2 → offline x w2 → Q r w2) as Hrest end.
  { intros r w2 Ha2 Hx2. cbv beta. apply okay_bind, okay_world.
    eapply okay_mono; [by apply okay_subscriptions|]. intros [] w3 [Ha3 _].
    apply okay_bind. eapply okay_mono; [by apply okay_restore_queue, (reads_on_world _ _ _ Hp)|].
    intros [] p4 Hp4. by apply okay_ret. }
  match goal with |- okay (match ?it with _ => _ end) _ _ => destruct it end; [apply okay_ret; by apply Hrest|].
  apply okay_bind, okay_modify, okay_ret, (Hrest 0 (upd_clients <[ctx_client_id c := x]> w1)); [|exact Hx1].
  eapply adds_trans; [exact Ha1|]. split; [|done..]. destruct Hx1 as (c'&Hc'&Hn').
  eapply inv_offline; [exact (ad_inv _ _ Ha1)|exact Hc'|exact Hn'| |exact (i_retain _ _ _ _ _ _ _ _ _ _ (ad_inv _ _ Ha1))].
  intros y [[id Hy]|Hy]; [|by left; right]. cbn in Hy.
  apply lookup_insert_Some in Hy as [[_ <-]|[_ Hy]]; [by right|]. left; left. by exists id.
Qed.

(** *** The retained messages *)

Lemma okay_restore_retained kv w p :
  reads_on w p → okay (restore_retained kv) (λ _, reads_on w) p.
Proof using.
  intros Hp. unfold restore_retained. apply okay_bind, okay_lift. intros t _.
  apply okay_bind. eapply okay_mono; [by apply okay_restore_mbuf, Hp|].
  intros b p1 (w1&m&->&Ha&Hb&_). pose proof (reads_on_world _ _ _ Hp Ha) as Hp1.
  apply okay_bind, okay_world, okay_gets. cbn [p_world upd_p_world eta_persist].
  destruct (w_topics w1 !! t) as [n|] eqn:Hn; [|by apply okay_ret].
  apply okay_world, okay_modify, (reads_on_world w (upd_p_world (λ _, w1) p)); [exact Hp1|]. pose proof (ad_inv _ _ Ha) as Hi1. split; [|done..].
  eapply inv_registered; [exact Hi1|..]; cbn.
  - intros x [Hx|(t'&n'&Hn'&Hx)]; left; [by left|right].
    apply lookup_insert_Some in Hn' as [[<- <-]|[_ Hn']]; [by exists t, n|by exists t', n'].
  - intros t' n' b' Hn'. apply lookup_insert_Some in Hn' as [[<- <-]|[_ Hn']].
    + intros [= <-]. by exists m.
    + by eapply (i_retain _ _ _ _ _ _ _ _ _ _ Hi1).
Qed.

Lemma okay_restore_retain_msg buf w p :
  reads_on w p → okay (restore_retain_msg buf) (λ _, reads_on w) p.
Proof using.
  intros Hp. unfold restore_retain_msg. apply okay_bind, okay_lift. intros o _. destruct o; try done.
  apply okay_bind. eapply okay_mono; [apply (okay_iter _ (reads_on w)); [exact Hp|]|].
  - intros kv p1 Hp1. by apply okay_restore_retained.
  - intros [] p1 Hp1. by apply okay_ret.
Qed.

(** *** The file *)

Lemma okay_fread k w p : reads_on w p → okay (fread k) (λ _, reads_on w) p.
Proof using.
  intros Hp. unfold fread. destruct (k =? 0); [by apply okay_ret|].
  apply okay_bind, okay_world, okay_safe, safe_sys.
  assert (reads_on w (upd_p_world (λ _, upd_calls S (p_world p)) p)) as Hp1
    by (apply reads_on_world; [done|]; split; [apply Hp|done..]).
  destruct (env_fread_error _); [by apply okay_ret|]. apply okay_bind, okay_gets.
  destruct (_ <? k); apply okay_bind, okay_modify, okay_ret; by destruct Hp1; split.
Qed.

Lemma okay_read_chunk w p : reads_on w p → okay read_chunk (λ _, reads_on w) p.
Proof using.
  intros Hp. unfold read_chunk. apply okay_bind. eapply okay_mono; [by apply okay_fread|].
  intros [tag| |] p1 Hp1; [|by apply okay_ret..]. destruct (bool_decide _); [|by apply okay_ret].
  apply okay_bind. eapply okay_mono; [by apply okay_fread|]. intros type p2 Hp2. apply okay_bind.
  assert (okay (match type with FreadOk _ => fread 4 | _ => ret FreadError end) (λ _, reads_on w) p2) as Hlen
    by (destruct type; [by apply okay_fread|by apply okay_ret..]).
  eapply okay_mono; [exact Hlen|]. intros len p3 Hp3.
  destruct type, len; try by apply okay_ret. destruct (_ <? _); [by apply okay_ret|].
  apply okay_bind. eapply okay_mono; [by apply okay_fread|]. intros buf p4 Hp4. by destruct buf; apply okay_ret.
Qed.

Lemma okay_restore_chunk type buf w p : reads_on w p → okay (restore_chunk type buf) (λ _, reads_on w) p.
Proof using.
  intros Hp. unfold restore_chunk. destruct (_ =? _); [by apply okay_restore_db_info|].
  destruct (_ =? _); [by apply okay_restore_db_msg|]. destruct (_ =? _); [by apply okay_restore_client|].
  destruct (_ =? _); [by apply okay_restore_retain_msg|]. by apply okay_ret.
Qed.

Lemma okay_restore_loop fuel r w p : reads_on w p → okay (restore_loop fuel r) (λ _, reads_on w) p.
Proof using.
  revert r p. induction fuel as [|fuel IH]; intros r p Hp; cbn [restore_loop]; [done|].
  apply okay_bind. eapply okay_mono; [by apply okay_read_chunk|].
  intros [type buf| |] p1 Hp1; [|by apply okay_ret..].
  apply okay_bind. eapply okay_mono; [by apply okay_restore_chunk|]. intros r2 p2 Hp2.
  destruct (_ =? _); [by apply okay_ret|by apply IH].
Qed.

Lemma okay_open_rb w p : reads_on w p → okay open_rb (λ _, reads_on w) p.
Proof using.
  intros Hp. unfold open_rb. apply okay_bind, okay_world, okay_safe, safe_sys.
  assert (reads_on w (upd_p_world (λ _, upd_calls S (p_world p)) p)) as Hp1
    by (apply reads_on_world; [done|]; split; [apply Hp|done..]).
  apply okay_bind, okay_gets. destruct (p_file _).
  - apply okay_bind, okay_modify. destruct (env_fopen _).
    + apply okay_bind, okay_modify, okay_ret. by destruct Hp1; split.
    + apply okay_ret. by destruct Hp1; split.
  - apply okay_bind, okay_modify, okay_ret. by destruct Hp1; split.
Qed.

(** The objects and the poller are those of [w], and the invariant holds. *)
Definition reopened (w : World) (p : CPersistMsgPack) : Prop :=
  Inv (p_world p) ∧ w_objs (p_world p) = w_objs w ∧ w_poller (p_world p) = w_poller w.

Lemma reads_on_reopened w p : reads_on w p → reopened w p.
Proof using. intros [[] _]. by split_and!. Qed.

Lemma okay_restore w p : reads_on w p → okay restore (λ _, reopened w) p.
Proof using.
  intros Hp. unfold restore. apply okay_bind, okay_gets.
  destruct (p_file p) as [content|]; [|apply okay_ret; by apply reads_on_reopened].
  unfold error_return. apply okay_bind. eapply okay_mono; [by apply okay_open_rb|]. intros r p1 Hp1.
  destruct (r <? 0); [apply okay_ret; by apply reads_on_reopened|].
  destruct (_ =? 0); [apply okay_ret; by apply reads_on_reopened|].
  apply okay_bind. eapply okay_mono; [apply (okay_restore_loop _ _ w); exact Hp1|]. intros r2 p2 Hp2.
  apply okay_bind, okay_modify, okay_bind, okay_world, okay_modify, okay_bind, okay_modify, okay_ret.
  destruct (reads_on_reopened w p2 Hp2) as (Hi&Ho&Hpo). split_and!; [by apply collect_inv|exact Ho|exact Hpo].
Qed.

End reopening.

(** ** The start *)

(** A new process, which finds the file. *)
Definition new_process (id : Z) (file : option (list Z)) : CPersistMsgPack :=
  mkPersist (initial_world id) file [] false ∅ 0.

Section starting.
Context {E : Env} {C : Calm} {F : FileEnv}.

(** [safe_construct] in a process. *)
Lemma start_constructed id file listen eventfd :
  ∃ w, constructed id w ∧
    tcp_server_start listen eventfd (new_process id file) =
      tcp_server_open 1 2 listen eventfd (mkPersist w file [] false ∅ 0).
Proof using.
  set (k := λ a n : Z, (λ w, (Ok (a, n), w)) : M (Z * Z)).
  pose proof (safe_construct id k (λ r w, r = (1, 2) ∧ constructed id w) ltac:(intros w Hw; by split)) as Hs.
  destruct (safe_inv _ _ _ Hs) as (r&w&Hr&->&Hw). exists w. split; [exact Hw|].
  unfold k in Hr. unfold tcp_server_start, world. unfold bind at 1. cbn [p_world new_process].
  unfold bind at 1 in Hr. destruct (new_object Acceptor (initial_world id)) as [[a| |u] w1] eqn:H1; [|done..].
  unfold bind at 1. unfold bind at 1 in Hr. cbn [p_world upd_p_world eta_persist].
  destruct (new_object PollerNotifyFd w1) as [[n| |u] w2] eqn:H2; [|done..].
  injection Hr as -> -> ->. reflexivity.
Qed.

(** The sessions do not depend on the objects and the poller. *)
Lemma constructed_reads_on id w file : constructed id w → reads_on w (mkPersist w file [] false ∅ 0).
Proof using. intros Hw. split; [apply adds_refl, Hw|]. intros i b Hb. cbn in Hb. by rewrite lookup_empty in Hb. Qed.

Lemma reopened_safe id w p listen eventfd :
  constructed id w → reopened w p →
  safe (server_open 1 2 listen eventfd) (λ r w', Inv w' ∧ m_notify_deque (w_poller w') = [] ∧
    (r = 0 → is_Some (m_notify_writer (w_poller w'))) ∧ same_sessions (p_world p) w') (p_world p).
Proof using C.
  intros Hw (Hi&Ho&Hp). destruct (ct_objs _ _ Hw) as (ha&hn&Ha&Hn&Hqa&Hqn).
  rewrite (ct_poller _ _ Hw) in Hp. eapply safe_mono.
  { apply (server_open_safe 1 2 ha hn); [exact Hi|by rewrite Ho|by rewrite Ho|done|done|..];
      unfold unregistered; rewrite Hp; by split. }
  intros r w' (Hi'&Hq&Hwr&Hs). split_and!; [done|by rewrite Hq, Hp|done|apply Hs..].
Qed.

(** Whatever the file holds. *)
Lemma start_okay id file listen eventfd :
  okay (tcp_server_start listen eventfd) (λ r p, Inv (p_world p) ∧ m_notify_deque (w_poller (p_world p)) = [] ∧
    (r = 0 → is_Some (m_notify_writer (w_poller (p_world p))))) (new_process id file).
Proof using C.
  destruct (start_constructed id file listen eventfd) as (w&Hw&Hstart). unfold okay. rewrite Hstart.
  change (okay (tcp_server_open 1 2 listen eventfd) (λ r p, Inv (p_world p) ∧ m_notify_deque (w_poller (p_world p)) = [] ∧
    (r = 0 → is_Some (m_notify_writer (w_poller (p_world p))))) (mkPersist w file [] false ∅ 0)).
  unfold tcp_server_open. apply okay_bind. eapply okay_mono; [by apply okay_restore, (constructed_reads_on id)|].
  intros r p Hp. destruct (r =? -1).
  - apply okay_ret. destruct Hp as (Hi&_&Hpo). split_and!; [exact Hi|by rewrite Hpo, (ct_poller _ _ Hw)|done].
  - apply okay_world, okay_safe. eapply safe_mono; [by eapply reopened_safe|].
    intros r2 w2 (?&?&?&_). by split_and!.
Qed.

End starting.

Lemma recovered_same w w1 w2 : same_sessions w1 w2 → recovered w w1 → recovered w w2.
Proof.
  intros (Hc&Hm&Ht&Hk&Hs) Hr. assert (∀ b m, holds w1 b m → holds w2 b m) as Hh by (unfold holds; by rewrite Hm).
  assert (∀ t, topic_clients w2 t = topic_clients w1 t) as Htc by (unfold topic_clients; by rewrite Ht).
  destruct Hr. split; rewrite ?Hc, ?Ht, ?Hk, ?Hs; try done.
  - intros id x c Hp. destruct (rc_session id x c Hp) as (x'&c'&?&?&?&?&HF). exists x', c'.
    split_and!; [done..|]. eapply Forall2_impl; [|exact HF]. auto.
  - intros t x. by rewrite Htc.
  - intros t. setoid_rewrite Htc. apply rc_known.
  - intros t n Hn. pose proof (rc_retained t n Hn) as H. destruct (retained_of w t); [|done].
    destruct H as (b&?&?). eauto.
Qed.

(** ** Properties *)


