(* ===== verification/Blocking.v ===== *)
(** * Blocking writes

    Model of [CEventHandler::write_n] (src/reactor/event_handler.cpp), which is also
    the text of [TCPClient::write_n]: it writes until everything is accepted.  The
    kernel's patience bounds the loop.  The lemmas say that it ends and changes
    nothing but the output, the clock and [errno]. *)

From S2P Require Import Prelude Mbuf Context World Sample Handler Delivery.
From stdpp Require Import options.

(** How often a call is tried again in a row. *)
Class Patience : Type := { env_patience : nat }.

(** A kernel that does not refuse for ever: of [env_patience] writes in a row one
    accepts something or fails. *)
Class PatientWrites `{Env, Patience} : Prop := {
  patient_write : ∀ n fd l, l ≠ [] → ∃ k, (k < env_patience)%nat ∧
    match env_write (n + k) fd l with IoOk m => 0 < m | IoErr e => would_block e = false end;
}.

Section model.
Context {E : Env} {G : Patience}.

(** The loop: [buf] is not moved when a part of it has been written. *)
Fixpoint write_n_loop (fuel : nat) (fd : Z) (buf : list Z) (len : Z) : M Z :=
  if 0 <? len then
    match fuel with
    | O => crash FuelOut
    | S fuel =>
        do res <- sys_write fd (take (Z.to_nat len) buf);
        if res <? len then
          if res =? 0 then write_n_loop fuel fd buf len
          else if res <? 0 then
            do e <- gets w_errno;
            if would_block e then write_n_loop fuel fd buf len else ret (-1)
          else write_n_loop fuel fd buf (u32 (len - res))
        else write_n_loop fuel fd buf (u32 (len - res))
    end
  else ret 0.

(** The status of the loop. *)
Definition write_all_n (fd : Z) (buf : list Z) (len : Z) : M Z :=
  write_n_loop (Z.to_nat len * env_patience) fd buf len.

(** [CEventHandler::write_n]. *)
Definition handler_write_n (fd : Z) (buf : list Z) (len : Z) : M Z :=
  do r <- write_all_n fd buf len; ret (if r =? 0 then len else -1).

End model.

(** ** What talking changes *)

(** [n] calls so far, the error [e], and the output [l]. *)
Definition talk (n : nat) (e : Z) (l : list output) (w : World) : World :=
  upd_calls (λ _, n) (upd_errno (λ _, e) (upd_out (λ o, o ++ l) w)).

Definition talks (w w' : World) : Prop := ∃ n e l, w' = talk n e l w.

(** Only [l] has been written. *)
Definition writes_out (l : list output) (w w' : World) : Prop := ∃ n e, w' = talk n e l w.

Lemma upd_out_ext f g w : f (w_out w) = g (w_out w) → upd_out f w = upd_out g w.
Proof. intros H. unfold upd_out. by rewrite H. Qed.

Lemma talk_nil w : talk (w_calls w) (w_errno w) [] w = w.
Proof. unfold talk. rewrite (upd_out_ext _ (λ o, o)) by apply app_nil_r. by destruct w. Qed.

(** Some calls, and another error. *)
Lemma talk_quiet n e w : talk n e [] w = upd_calls (λ _, n) (upd_errno (λ _, e) w).
Proof. unfold talk. do 2 f_equal. rewrite (upd_out_ext _ (λ o, o)) by apply app_nil_r. by destruct w. Qed.

Lemma talk_talk n1 e1 l1 n2 e2 l2 w : talk n2 e2 l2 (talk n1 e1 l1 w) = talk n2 e2 (l1 ++ l2) w.
Proof.
  transitivity (upd_calls (λ _, n2) (upd_errno (λ _, e2) (upd_out (λ o, (o ++ l1) ++ l2) w))); [reflexivity|].
  unfold talk. do 2 f_equal. apply upd_out_ext. by rewrite app_assoc.
Qed.

#[export] Instance talks_preorder : PreOrder talks.
Proof.
  split.
  - intros w. exists (w_calls w), (w_errno w), []. by rewrite talk_nil.
  - intros w1 w2 w3 (n1&e1&l1&->) (n2&e2&l2&->). exists n2, e2, (l1 ++ l2). by rewrite talk_talk.
Qed.

Lemma writes_out_app l1 l2 w1 w2 w3 :
  writes_out l1 w1 w2 → writes_out l2 w2 w3 → writes_out (l1 ++ l2) w1 w3.
Proof. intros (n1&e1&->) (n2&e2&->). exists n2, e2. by rewrite talk_talk. Qed.

Lemma writes_out_quiet n e w : writes_out [] w (upd_calls (λ _, n) (upd_errno (λ _, e) w)).
Proof. exists n, e. by rewrite talk_quiet. Qed.

Lemma writes_out_refl w : writes_out [] w w.
Proof. exists (w_calls w), (w_errno w). by rewrite talk_nil. Qed.

Lemma writes_out_talks l w w' : writes_out l w w' → talks w w'.
Proof. intros (n&e&->). by exists n, e, l. Qed.

Lemma sent_to_emit fd s l w :
  sent_to fd (upd_out (λ o, o ++ [Sent s l]) w) = sent_to fd w ++ (if s =? fd then l else []).
Proof.
  unfold sent_to. change (w_out (upd_out _ w)) with (w_out w ++ [Sent s l]).
  rewrite sent_bytes_app. unfold sent_bytes at 2. cbn. by rewrite app_nil_r.
Qed.

#[local] Hint Extern 0 (talks _ _) => reflexivity : core.

(** ** The loop ends *)

Section writing.
Context {E : Env} {L : EnvLaws} {G : Patience} {P : PatientWrites}.

(** A call of [write]: what it may answer, and what it changes. *)
Lemma safe_write_call len buf fd (Q : Z → World → Prop) w :
  0 <= len <= zlen buf →
  (∀ res w', talks w w' → w_calls w' = S (w_calls w) →
     match env_write (w_calls w) fd (take (Z.to_nat len) buf) with
     | IoOk m => res = m ∧ 0 <= m <= len
     | IoErr e => res = -1 ∧ w_errno w' = e
     end → Q res w') →
  safe (sys_write fd (take (Z.to_nat len) buf)) Q w.
Proof using L.
  intros Hlen HQ. unfold sys_write. apply safe_bind, safe_sys.
  destruct (env_write _ fd _) as [m|e] eqn:Hw.
  - apply env_write_ok in Hw. rewrite zlen_take in Hw by done.
    apply safe_bind, safe_modify, safe_ret, HQ; [|done|done]. by eexists _, _, _.
  - apply safe_bind, safe_modify, safe_ret, HQ; [|done|done].
    eapply writes_out_talks, (writes_out_quiet (S (w_calls w)) e).
Qed.

(** A write that is tried again and a write that makes progress. *)
Definition moves (r : io_result) : Prop :=
  match r with IoOk m => 0 < m | IoErr e => would_block e = false end.

Definition writes_up_to (fd : Z) (n : nat) (buf : list Z) : Prop := ∀ k fuel len w,
  (Z.to_nat len <= n)%nat → 0 < len <= zlen buf → len < 2 ^ 32 →
  moves (env_write (w_calls w + k) fd (take (Z.to_nat len) buf)) →
  (S k + (Z.to_nat len - 1) * env_patience <= fuel)%nat →
  safe (write_n_loop fuel fd buf len) (λ r w', (r = 0 ∨ r = -1) ∧ talks w w') w.

Lemma take_nonempty n (l : list Z) : 0 < n <= zlen l → take (Z.to_nat n) l ≠ [].
Proof.
  intros Hn Hnil. apply (f_equal zlen) in Hnil. rewrite zlen_take in Hnil by lia.
  change (zlen (@nil Z)) with 0 in Hnil. lia.
Qed.

(** What is left after a part of it has been written. *)
Lemma write_n_rest fd n fuel buf len m w w1 :
  writes_up_to fd n buf → talks w w1 →
  (Z.to_nat len <= S n)%nat → 0 < len <= zlen buf → len < 2 ^ 32 → 0 < m <= len →
  ((Z.to_nat len - 1) * env_patience <= fuel)%nat →
  safe (write_n_loop fuel fd buf (u32 (len - m))) (λ r w', (r = 0 ∨ r = -1) ∧ talks w w') w1.
Proof using L P.
  intros IH Hw1 Hn Hlen Hmax Hm Hf. rewrite u32_small by lia.
  destruct (decide (m = len)) as [->|Hne].
  { rewrite Z.sub_diag. destruct fuel; apply safe_ret; auto. }
  destruct (patient_write (w_calls w1) fd (take (Z.to_nat (len - m)) buf)) as (k&Hk&Hp).
  { apply take_nonempty. lia. }
  eapply safe_mono; [apply (IH k); try lia; [exact Hp|]|].
  - replace (Z.to_nat len - 1)%nat with (S (Z.to_nat (len - m) - 1) + (Z.to_nat m - 1))%nat in Hf by lia.
    nia.
  - intros r w2 [Hr Hw2]. split; [done|]. by etrans.
Qed.

(** [k] more tries, and then it moves on. *)
Lemma write_n_loop_safe fd n buf : writes_up_to fd n buf.
Proof using L P.
  induction n as [|n IHn]; [intros k fuel len w Hn Hlen; lia|].
  intros k fuel len w Hn Hlen Hmax. revert fuel w.
  induction k as [|k IHk]; intros fuel w Hk Hf;
    (destruct fuel as [|fuel]; [by inversion Hf|]); cbn [write_n_loop];
    rewrite (proj2 (Z.ltb_lt 0 len)) by lia; apply safe_bind;
    apply (safe_write_call len); try lia; intros res w1 Hw1 Hc1 Hres.
  - rewrite Nat.add_0_r in Hk. destruct (env_write _ _ _) as [m|e]; cbn [moves] in Hk.
    + destruct Hres as [-> Hm]. rewrite (proj2 (Z.eqb_neq m 0)), (proj2 (Z.ltb_ge m 0)) by lia.
      destruct (m <? len); eapply write_n_rest; eauto with lia.
    + destruct Hres as [-> He]. change (-1 =? 0) with false. change (-1 <? 0) with true.
      rewrite (proj2 (Z.ltb_lt (-1) len)) by lia. cbv iota.
      apply safe_bind, safe_gets. rewrite He, Hk. apply safe_ret. auto.
  - assert (∀ w2, talks w w2 → w_calls w2 = S (w_calls w) →
      safe (write_n_loop fuel fd buf len) (λ r w', (r = 0 ∨ r = -1) ∧ talks w w') w2) as Hagain.
    { intros w2 Hw2 Hc2. eapply safe_mono; [apply IHk; [|lia]|].
      - rewrite Hc2. by replace (S (w_calls w) + k)%nat with (w_calls w + S k)%nat by lia.
      - intros r w3 [Hr Hw3]. split; [done|]. by etrans. }
    destruct (env_write (w_calls w) _ _) as [m|e].
    + destruct Hres as [-> Hm]. destruct (Z.eqb_spec m 0) as [->|Hm0].
      * rewrite (proj2 (Z.ltb_lt 0 len)) by lia. by apply Hagain.
      * rewrite (proj2 (Z.ltb_ge m 0)) by lia. destruct (m <? len); eapply write_n_rest; eauto with lia.
    + destruct Hres as [-> He]. change (-1 =? 0) with false. change (-1 <? 0) with true.
      rewrite (proj2 (Z.ltb_lt (-1) len)) by lia. cbv iota.
      apply safe_bind, safe_gets. rewrite He. destruct (would_block e); [by apply Hagain|].
      apply safe_ret. auto.
Qed.

Lemma write_all_n_safe fd buf len w :
  0 <= len <= zlen buf → len < 2 ^ 32 →
  safe (write_all_n fd buf len) (λ r w', (r = 0 ∨ r = -1) ∧ talks w w') w.
Proof using L P.
  intros Hlen Hmax. unfold write_all_n. destruct (decide (len = 0)) as [->|Hne].
  { change (Z.to_nat 0 * env_patience)%nat with 0%nat. apply safe_ret. auto. }
  destruct (patient_write (w_calls w) fd (take (Z.to_nat len) buf)) as (k&Hk&Hp).
  { apply take_nonempty. lia. }
  eapply (write_n_loop_safe fd (Z.to_nat len) buf k); try lia; [exact Hp|].
  replace (Z.to_nat len) with (S (Z.to_nat len - 1)) at 2 by lia. cbn [Nat.mul]. lia.
Qed.

End writing.

(** A kernel that accepts everything at once. *)
Lemma write_all_n_at_once {E : Env} {G : Patience} {P : PatientWrites} fd buf len w :
  (∀ n l, env_write n fd l = IoOk (zlen l)) → 0 < len <= zlen buf →
  safe (write_all_n fd buf len)
    (λ r w', r = 0 ∧ writes_out [Sent fd (take (Z.to_nat len) buf)] w w') w.
Proof.
  intros Hall Hlen. unfold write_all_n. destruct (patient_write 0 0 [0]) as (j&Hj&_); [done|].
  replace (Z.to_nat len * env_patience)%nat with (S (Z.to_nat len * env_patience - 1)) by nia.
  cbn [write_n_loop]. rewrite (proj2 (Z.ltb_lt 0 len)) by lia.
  apply safe_bind. unfold sys_write. apply safe_bind, safe_sys.
  rewrite Hall, zlen_take by lia. apply safe_bind, safe_modify, safe_ret.
  rewrite Z.ltb_irrefl, Z.sub_diag. change (u32 0) with 0.
  match goal with |- safe _ ?Q ?w1 => assert (Q 0 w1) as Hk end.
  { split; [done|]. exists (S (w_calls w)), (w_errno w). rewrite (take_ge (take _ _)).
    - by destruct w.
    - rewrite length_take. unfold zlen in *. lia. }
  destruct (Z.to_nat len * env_patience - 1)%nat; apply safe_ret, Hk.
Qed.

(** ** Properties *)

(** Claim C38: a partial write spoils the packet.  When the kernel accepts the first [m]
    bytes of a packet and then the rest, [write_n] succeeds, but has sent the first
    [len - m] bytes of the packet in place of the last. *)
Theorem write_n_repeats_prefix {E : Env} {G : Patience} fd buf len m w :
  let n := w_calls w in
  0 < m < len → len <= zlen buf → len < 2 ^ 32 → (0 < env_patience)%nat →
  env_write n fd (take (Z.to_nat len) buf) = IoOk m →
  env_write (S n) fd (take (Z.to_nat (len - m)) buf) = IoOk (len - m) →
  ∃ w', write_all_n fd buf len w = (Ok 0, w') ∧
    sent_to fd w' = sent_to fd w ++ take (Z.to_nat m) buf ++ take (Z.to_nat (len - m)) buf.
Proof.
  intros n Hm Hlen Hmax Hp Hw1 Hw2. unfold write_all_n.
  replace (Z.to_nat len * env_patience)%nat with (S (S (Z.to_nat len * env_patience - 2))) by nia.
  generalize (Z.to_nat len * env_patience - 2)%nat. intros fuel.
  enough (safe (write_n_loop (S (S fuel)) fd buf len) (λ r w', r = 0 ∧ sent_to fd w' = sent_to fd w ++
      take (Z.to_nat m) buf ++ take (Z.to_nat (len - m)) buf) w) as Hs.
  { destruct (safe_inv _ _ _ Hs) as (r&w'&Hr&->&?). by exists w'. }
  cbn [write_n_loop]. rewrite (proj2 (Z.ltb_lt 0 len)) by lia.
  unfold sys_write. apply safe_bind, safe_bind, safe_sys. fold n.
  rewrite Hw1. apply safe_bind, safe_modify, safe_ret.
  rewrite (proj2 (Z.ltb_lt m len)), (proj2 (Z.eqb_neq m 0)), (proj2 (Z.ltb_ge m 0)) by lia.
  rewrite u32_small by lia. rewrite (proj2 (Z.ltb_lt 0 (len - m))) by lia.
  apply safe_bind, safe_bind, safe_sys. cbn [w_calls upd_out upd_calls eta_world]. fold n. rewrite Hw2.
  apply safe_bind, safe_modify, safe_ret. rewrite Z.ltb_irrefl, Z.sub_diag. change (u32 0) with 0.
  match goal with |- safe _ ?Q ?w1 => assert (Q 0 w1) as Hk end.
  { split; [done|]. etrans; [apply sent_to_emit|]. rewrite Z.eqb_refl.
    rewrite app_assoc. f_equal; [|apply take_ge; rewrite length_take; unfold zlen in *; lia].
    etrans; [apply sent_to_emit|]. rewrite Z.eqb_refl. f_equal. rewrite take_take. f_equal. lia. }
  destruct fuel; apply safe_ret, Hk.
Qed.

(** A kernel that takes two bytes in its first call. *)
Definition partial_env : Env := {|
  env_write := λ n _ l, IoOk (if Nat.eqb n 0 then 2 else zlen l);
  env_read := λ _ _ _, ReadErr EAGAIN; env_accept := λ _, IoErr EAGAIN;
  env_epoll_wait := λ _ _, WaitOk []; env_epoll_ctl := λ _, None; env_peer := λ _ _, [];
  env_time := λ _, 1000; env_junk := λ _ _, 0; env_order := λ _ X, elements X;
  env_topic_order := λ _ X, elements X; env_mqtt_bridge := 0;
|}.

(** PUBACK 7 in two writes: 64 2 64 2. *)
Lemma write_n_repeats_prefix_witness :
  ∃ w', @write_all_n partial_env {| env_patience := 1 |} 20 [64; 2; 0; 7] 4 empty_world = (Ok 0, w') ∧
    sent_to 20 w' = sent_to 20 empty_world ++ take 2 [64; 2; 0; 7] ++ take 2 [64; 2; 0; 7].
Proof.
  apply (@write_n_repeats_prefix partial_env {| env_patience := 1 |} 20 [64; 2; 0; 7] 4 2 empty_world);
    vm_compute; repeat split; try discriminate; try lia.
Defined.
