(* ===== verification/StrTools.v ===== *)
(** * Strings

    Model of src/common/str_tools.cpp, the helpers of the HTTP interface, of [atoi]
    and of [strtok_r] with one delimiter; and what they compute: [split] is the list
    of the fields between separators, [trim] the part between the outer spaces. *)

From S2P Require Import Prelude.
From stdpp Require Import options.

(** ** Searching *)

(** [s.find_first_of(sep)]. *)
Fixpoint find_first_of (sep s : str) : option nat :=
  match s with
  | [] => None
  | c :: s => if decide (c ∈ sep) then Some O else S <$> find_first_of sep s
  end.

Fixpoint skip_while (f : Z → bool) (s : str) : str :=
  match s with
  | [] => []
  | c :: l => if f c then skip_while f l else s
  end.

(** [s] without its last characters that satisfy [f]. *)
Definition drop_last_while (f : Z → bool) (s : str) : str := rev (skip_while f (rev s)).

(** ** Splitting *)

Definition push_nonempty (s : str) (l : list str) : list str :=
  match s with [] => l | _ => l ++ [s] end.

(** The loop of [split]; [i] separators have been used. *)
Fixpoint split_loop (fuel : nat) (sep : str) (max i : Z) (s : str) (results : list str) : res (list str) :=
  match find_first_of sep s with
  | None => Ok (push_nonempty s results)
  | Some found =>
      match fuel with
      | O => Stop FuelOut
      | S fuel =>
          let results := push_nonempty (take found s) results in
          let s := drop (S found) s in
          if (-1 <? max) && (i + 1 =? max) then Ok (push_nonempty s results)
          else split_loop fuel sep max (i + 1) s results
      end
  end.

Definition split (s sep : str) (max : Z) : res (list str) := split_loop (length s) sep max 0 s [].

(** ** Spaces *)

Definition isspace (c : Z) : bool := (c =? 32) || ((9 <=? c) && (c <=? 13)).

Definition trim (s : str) : str := drop_last_while isspace (skip_while isspace s).

(** Without a character that is not a space [find_first_not_of] returns [npos], and
    the iterator made from it is outside the string. *)
Definition remove_space (s : str) : res str :=
  match drop_last_while (Z.eqb 32) (skip_while (Z.eqb 32) s) with
  | [] => Stop OutOfBounds
  | s => Ok s
  end.

(** ** The C library *)

(** The C string at the start of an array. *)
Fixpoint c_str (l : list Z) : res str :=
  match l with
  | [] => Stop OutOfBounds
  | c :: l => if c =? 0 then Ok [] else s ← c_str l; Ok (c :: s)
  end.

(** [strtok_r] with the delimiter [d] on the array [l], from the place [pos]: the
    token, the array, in which the delimiter after it has been overwritten, and the
    place to go on from. *)
Definition strtok (d : Z) (l : list Z) (pos : nat) : res (option (str * list Z * nat)) :=
  match c_str (drop pos l) with
  | Ok s =>
      let rest := skip_while (Z.eqb d) s in
      let start := (pos + (length s - length rest))%nat in
      match rest with
      | [] => Ok None
      | _ =>
          match find_first_of [d] rest with
          | None => Ok (Some (rest, l, (start + length rest)%nat))
          | Some n => Ok (Some (take n rest, <[(start + n)%nat := 0]> l, S (start + n)))
          end
      end
  | Fail => Fail
  | Stop u => Stop u
  end.

(** The digits at the start of [s], as the value of the number [n] with them. *)
Fixpoint digits (n : Z) (s : str) : Z :=
  match s with
  | [] => n
  | c :: s => if (48 <=? c) && (c <=? 57) then digits (10 * n + (c - 48)) s else n
  end.

(** [atoi]; its behaviour is undefined when the number is not an [int]. *)
Definition atoi (s : str) : res Z :=
  let s := skip_while isspace s in
  let n := match s with
           | c :: l => if c =? 45 then - digits 0 l else if c =? 43 then digits 0 l else digits 0 s
           | [] => 0
           end in
  if in_int n then Ok n else Stop SignedOverflow.

(** [%d]: at most ten digits, which an [int] does not exceed. *)
Fixpoint dec_digits (fuel : nat) (n : Z) (acc : str) : str :=
  match fuel with
  | O => acc
  | S fuel =>
      let acc := (48 + n mod 10) :: acc in
      if n <? 10 then acc else dec_digits fuel (n / 10) acc
  end.

Definition decimal (z : Z) : str :=
  if z <? 0 then 45 :: dec_digits 10 (- z) [] else dec_digits 10 z [].

(** ** Specification *)

(** The fields of [s] between the first [k] separators. *)
Fixpoint fields (sep : str) (k : nat) (s : str) : list str :=
  match s with
  | [] => [[]]
  | c :: s =>
      match k with
      | S k' => if decide (c ∈ sep) then [] :: fields sep k' s
                else match fields sep k s with f :: fs => (c :: f) :: fs | [] => [[c]] end
      | O => match fields sep O s with f :: fs => (c :: f) :: fs | [] => [[c]] end
      end
  end.

Definition nonempty (l : list str) : list str := filter (λ s, s ≠ []) l.

Lemma push_nonempty_eq s l : push_nonempty s l = l ++ nonempty [s].
Proof. destruct s; cbn; [by rewrite app_nil_r|done]. Qed.

Lemma nonempty_cons f l : nonempty (f :: l) = nonempty [f] ++ nonempty l.
Proof. unfold nonempty. by rewrite <- list.filter_app. Qed.

Lemma fields_O sep s : fields sep 0 s = [s].
Proof. induction s as [|c s IH]; cbn; [done|by rewrite IH]. Qed.

Lemma fields_none sep k s : find_first_of sep s = None → fields sep k s = [s].
Proof.
  revert k. induction s as [|c s IH]; intros k; cbn; [done|]. case_decide; [done|].
  destruct (find_first_of sep s) eqn:Hf; [done|]. intros _. destruct k; by rewrite IH.
Qed.

Lemma fields_some sep k s n : find_first_of sep s = Some n →
  fields sep (S k) s = take n s :: fields sep k (drop (S n) s).
Proof.
  revert n. induction s as [|c s IH]; intros n; cbn; [done|]. case_decide; [by intros [= <-]|].
  destruct (find_first_of sep s) as [m|] eqn:Hf; [|done]. intros [= <-]. by rewrite (IH m).
Qed.

Lemma find_first_length sep s n : find_first_of sep s = Some n → (n < length s)%nat.
Proof.
  revert n. induction s as [|c s IH]; intros n; cbn; [done|]. case_decide; [intros [= <-]; lia|].
  destruct (find_first_of sep s) as [m|]; [|done]. intros [= <-]. specialize (IH m eq_refl). lia.
Qed.

(** More separators than characters. *)
Lemma fields_many sep k s : (length s <= k)%nat → fields sep k s = fields sep (length s) s.
Proof.
  revert k. induction s as [|c s IH]; intros [|k] Hk; cbn in *; [done..|lia|].
  case_decide; [by rewrite (IH k) by lia|]. rewrite (IH (S k)), (IH (S (length s))); [done|lia..].
Qed.

(** How many separators [split] uses: all, if [max] is not positive. *)
Definition split_limit (max : Z) (s : str) : nat :=
  if max <=? 0 then length s else Z.to_nat max.

Lemma split_loop_fields fuel sep max i s results :
  (length s <= fuel)%nat → 0 <= i →
  (max <= 0 ∨ i < max) →
  split_loop fuel sep max i s results =
    Ok (results ++ nonempty (fields sep (if max <=? 0 then length s else Z.to_nat (max - i)) s)).
Proof.
  revert i s results. induction fuel as [|fuel IH]; intros i s results Hf Hi Hm; cbn [split_loop].
  { destruct s; [|cbn in Hf; lia]. cbn. by rewrite app_nil_r. }
  destruct (find_first_of sep s) as [n|] eqn:Hn; [|by rewrite push_nonempty_eq, (fields_none _ _ _ Hn)].
  pose proof (find_first_length _ _ _ Hn) as Hlen. rewrite !push_nonempty_eq.
  assert (nonempty (take n s :: fields sep 0 (drop (S n) s)) = nonempty [take n s] ++ nonempty [drop (S n) s]) as H0.
  { by rewrite (nonempty_cons (take n s) (fields _ _ _)), fields_O. }
  destruct (Z.leb_spec max 0) as [Hneg|Hpos].
  - replace ((-1 <? max) && (i + 1 =? max)) with false by (symmetry; apply andb_false_iff; right; lia).
    rewrite IH; [|rewrite length_drop; lia|lia|by left].
    destruct (length s) as [|k] eqn:Hk; [lia|]. rewrite (fields_some _ k _ _ Hn), <- app_assoc. do 2 f_equal.
    rewrite (nonempty_cons (take n s) (fields _ _ _)). do 2 f_equal. symmetry. apply fields_many. rewrite length_drop. lia.
  - destruct Hm as [?|Hm]; [lia|]. rewrite (proj2 (Z.ltb_lt (-1) max)) by lia. cbn [andb].
    replace (Z.to_nat (max - i)) with (S (Z.to_nat (max - (i + 1)))) by lia. rewrite (fields_some _ _ _ _ Hn).
    destruct (Z.eqb_spec (i + 1) max) as [<-|Hne].
    + rewrite Z.sub_diag. change (Z.to_nat 0) with 0%nat. by rewrite H0, app_assoc.
    + rewrite IH; [|rewrite length_drop; lia|lia|right; lia]. rewrite <- app_assoc.
      do 2 f_equal. by rewrite (nonempty_cons (take n s) (fields _ _ _)).
Qed.

Lemma split_fields s sep max : split s sep max = Ok (nonempty (fields sep (split_limit max s) s)).
Proof.
  unfold split, split_limit. rewrite split_loop_fields; [|lia|lia|lia]. cbn [app].
  by rewrite Z.sub_0_r.
Qed.

(** ** What the functions compute *)

Lemma fields_app sep k a c s :
  Forall (λ x, x ∉ sep) a → c ∈ sep → fields sep (S k) (a ++ c :: s) = a :: fields sep k s.
Proof.
  intros Ha Hc. induction Ha as [|x a Hx Ha IH]; cbn; [by rewrite decide_True|].
  rewrite decide_False by done. by rewrite IH.
Qed.

Lemma fields_plain sep k a : Forall (λ x, x ∉ sep) a → fields sep k a = [a].
Proof.
  intros Ha. revert k. induction Ha as [|x a Hx Ha IH]; intros k; cbn; [done|].
  destruct k; [by rewrite IH|]. rewrite decide_False by done. by rewrite IH.
Qed.

(** The fields are pieces of the string. *)
Lemma fields_incl sep k s f : f ∈ fields sep k s → f ⊆ s ∧ (length f <= length s)%nat.
Proof.
  revert k f. induction s as [|c s IH]; intros k f; cbn.
  { intros ->%list_elem_of_singleton. split; [done|cbn; lia]. }
  assert (∀ k', f ∈ match fields sep k' s with g :: gs => (c :: g) :: gs | [] => [[c]] end →
    f ⊆ c :: s ∧ (length f <= S (length s))%nat) as Hrest.
  { intros k' Hf. pose proof (IH k') as IH'. destruct (fields sep k' s) as [|g gs].
    - apply list_elem_of_singleton in Hf as ->. split; [|cbn; lia]. intros x. rewrite list_elem_of_singleton.
      intros ->. by left.
    - apply elem_of_cons in Hf as [->|Hf].
      + destruct (IH' g) as [Hg Hl]; [by left|]. split; [|cbn; lia]. intros x [->|Hx]%elem_of_cons; [by left|right; by apply Hg].
      + destruct (IH' f) as [Hg Hl]; [by right|]. split; [|lia]. intros x Hx. right. by apply Hg. }
  destruct k as [|k]; [by apply Hrest|]. case_decide; [|by apply Hrest].
  intros [->|Hf]%elem_of_cons; [split; [by intros x ?%elem_of_nil|cbn; lia]|].
  destruct (IH k f Hf) as [Hg Hl]. split; [|lia]. intros x Hx. right. by apply Hg.
Qed.

Lemma nonempty_incl f l : f ∈ nonempty l → f ∈ l ∧ f ≠ [].
Proof. unfold nonempty. rewrite list_elem_of_filter. tauto. Qed.

Lemma skip_while_spec f s : ∃ a, s = a ++ skip_while f s ∧ Forall (λ c, f c = true) a ∧
  match skip_while f s with c :: _ => f c = false | [] => True end.
Proof.
  induction s as [|c s (a&Hs&Ha&Hc)]; cbn; [by exists []|]. destruct (f c) eqn:Hf.
  - exists (c :: a). split_and!; [cbn; congruence|by constructor|done].
  - by exists [].
Qed.

Lemma drop_last_while_spec f s : ∃ b, s = drop_last_while f s ++ b ∧ Forall (λ c, f c = true) b ∧
  match head (rev (drop_last_while f s)) with Some c => f c = false | None => True end.
Proof.
  unfold drop_last_while. destruct (skip_while_spec f (rev s)) as (a&Hs&Ha&Hc). exists (rev a).
  split_and!.
  - rewrite <- rev_app_distr, <- Hs. by rewrite rev_involutive.
  - apply list.Forall_forall. intros c Hin. rewrite list.Forall_forall in Ha. apply Ha.
    by rewrite list_elem_of_In, in_rev, <- list_elem_of_In.
  - rewrite rev_involutive. by destruct (skip_while f (rev s)).
Qed.

(** [trim] takes the spaces at both ends away, and no other character. *)
Lemma trim_spec s : ∃ a b, s = a ++ trim s ++ b ∧
  Forall (λ c, isspace c = true) a ∧ Forall (λ c, isspace c = true) b ∧
  match head (trim s) with Some c => isspace c = false | None => True end ∧
  match head (rev (trim s)) with Some c => isspace c = false | None => True end.
Proof.
  unfold trim. destruct (skip_while_spec isspace s) as (a&Hs&Ha&Hc).
  destruct (drop_last_while_spec isspace (skip_while isspace s)) as (b&Ht&Hb&Hl).
  exists a, b. split_and!; [by rewrite <- Ht|done|done| |done].
  destruct (drop_last_while _ _) as [|c t]; [done|]. rewrite Ht in Hc. cbn in *. exact Hc.
Qed.

Lemma trim_length s : (length (trim s) <= length s)%nat.
Proof.
  destruct (trim_spec s) as (a&b&Hs&_). apply (f_equal length) in Hs. rewrite !length_app in Hs. lia.
Qed.

(** A string without outer spaces, between spaces. *)
Lemma skip_while_app f a s : Forall (λ c, f c = true) a → skip_while f (a ++ s) = skip_while f s.
Proof. induction 1 as [|c a Hc Ha IH]; cbn; [done|]. by rewrite Hc. Qed.

Lemma trim_between a s b c d :
  Forall (λ c, isspace c = true) a → Forall (λ c, isspace c = true) b →
  head s = Some c → isspace c = false → head (rev s) = Some d → isspace d = false →
  trim (a ++ s ++ b) = s.
Proof.
  intros Ha Hb Hh Hc Hl Hd. unfold trim. rewrite skip_while_app by done.
  destruct s as [|c' s]; [done|]. injection Hh as ->. cbn [app skip_while]. rewrite Hc.
  unfold drop_last_while. change (c :: s ++ b) with ((c :: s) ++ b). rewrite rev_app_distr.
  rewrite skip_while_app.
  - destruct (rev (c :: s)) as [|x t] eqn:Hs; [done|]. injection Hl as ->. cbn [skip_while]. rewrite Hd, <- Hs.
    apply rev_involutive.
  - apply list.Forall_forall. intros x Hin. rewrite list.Forall_forall in Hb. apply Hb.
    by rewrite list_elem_of_In, in_rev, <- list_elem_of_In.
Qed.

(** ** Tokens *)

Lemma c_str_app a l : Forall (λ c, c ≠ 0) a → c_str (a ++ 0 :: l) = Ok a.
Proof.
  induction 1 as [|c a Hc Ha IH]; cbn; [done|]. rewrite (proj2 (Z.eqb_neq c 0)) by done. by rewrite IH.
Qed.

Lemma c_str_split l z : l !! z = Some 0 → ∃ a r, l = a ++ 0 :: r ∧ Forall (λ c, c ≠ 0) a ∧ (length a <= z)%nat.
Proof.
  revert z. induction l as [|c l IH]; intros z; [done|]. destruct (decide (c = 0)) as [->|Hc].
  - intros _. exists [], l. split_and!; [done|done|cbn; lia].
  - destruct z as [|z]; [by intros [= ->]|]. cbn. intros Hz. destruct (IH z Hz) as (a&r&->&Ha&Hl).
    exists (c :: a), r. split_and!; [done|by constructor|cbn; lia].
Qed.

(** A call of [strtok_r] on an array that holds a terminating zero at [z]. *)
Lemma strtok_ok d l pos z :
  d ≠ 0 → (pos <= z)%nat → l !! z = Some 0 →
  ∃ t, strtok d l pos = Ok t ∧
    match t with
    | None => True
    | Some (tok, l', pos') =>
        length l' = length l ∧ l' !! z = Some 0 ∧ (pos < pos' <= z)%nat ∧ (length tok <= z)%nat
    end.
Proof.
  intros Hd Hpos Hz. unfold strtok.
  destruct (c_str_split (drop pos l) (z - pos)) as (a&r&Hl&Ha&Hlen).
  { rewrite lookup_drop. by replace (pos + (z - pos))%nat with z by lia. }
  rewrite Hl, c_str_app by done. destruct (skip_while_spec (Z.eqb d) a) as (b&Hab&_&Hh).
  set (rest := skip_while (Z.eqb d) a) in *.
  assert (length a = length b + length rest)%nat as Hla by (rewrite Hab at 1; apply length_app).
  destruct rest as [|c rest'] eqn:Hrest; [by exists None|]. rewrite <- Hrest in *.
  assert (0 < length rest)%nat as Hr0 by (rewrite Hrest; cbn; lia).
  destruct (find_first_of [d] rest) as [n|] eqn:Hn; eexists; (split; [reflexivity|]).
  - pose proof (find_first_length _ _ _ Hn) as Hnl. assert (0 < n)%nat as Hn0.
    { destruct n; [|lia]. rewrite Hrest in Hn. cbn in Hn. case_decide as Hc.
      - apply list_elem_of_singleton in Hc as ->. rewrite Z.eqb_refl in Hh. done.
      - by destruct (find_first_of [d] rest'). }
    cbv beta iota. rewrite length_insert, length_take. split_and!; [done| |lia|lia|lia].
    rewrite list_lookup_insert_ne by lia. done.
  - split_and!; [done|done|lia|lia|lia].
Qed.

(** A line that a delimiter ends. *)
Lemma strtok_line d p line s r :
  d ≠ 0 → Forall (λ c, c ≠ 0 ∧ c ≠ d) line → line ≠ [] → Forall (λ c, c ≠ 0) s →
  strtok d (p ++ line ++ d :: s ++ 0 :: r) (length p) =
    Ok (Some (line, p ++ line ++ 0 :: s ++ 0 :: r, S (length p + length line))).
Proof.
  intros Hd Hline Hne Hs. unfold strtok. rewrite drop_app_length.
  replace (line ++ d :: s ++ 0 :: r) with ((line ++ d :: s) ++ 0 :: r) by (by rewrite <- app_assoc).
  assert (Forall (λ c, c ≠ 0) (line ++ d :: s)) as Hall.
  { apply Forall_app. split; [eapply list.Forall_impl; [exact Hline|by intros c []]|]. by constructor. }
  rewrite c_str_app by done. destruct line as [|c line]; [done|].
  apply list.Forall_cons in Hline as [[Hc0 Hcd] Hline]. cbn [app skip_while].
  rewrite (proj2 (Z.eqb_neq d c)) by congruence. cbn [length]. rewrite Nat.sub_diag, Nat.add_0_r.
  assert (find_first_of [d] (c :: line ++ d :: s) = Some (length (c :: line))) as ->.
  { clear - Hline Hcd. cbn. rewrite decide_False by (rewrite list_elem_of_singleton; congruence).
    induction Hline as [|x line [_ Hx] Hline IH]; cbn.
    - by rewrite decide_True by (by apply list_elem_of_singleton).
    - rewrite decide_False by (rewrite list_elem_of_singleton; congruence). cbn in IH.
      destruct (find_first_of [d] (line ++ d :: s)); [|done]. injection IH as ->. done. }
  do 4 f_equal.
  - cbn. f_equal. by rewrite take_app_length.
  - rewrite insert_app_r. f_equal. rewrite <- app_assoc.
    change (c :: line ++ (d :: s) ++ 0 :: r) with ((c :: line) ++ d :: s ++ 0 :: r).
    rewrite insert_app_r_alt by lia. by rewrite Nat.sub_diag.
Qed.

(** ** Numbers *)

Lemma dec_digits_length fuel n acc : (length (dec_digits fuel n acc) <= fuel + length acc)%nat.
Proof.
  revert n acc. induction fuel as [|fuel IH]; intros n acc; cbn [dec_digits]; [lia|].
  destruct (n <? 10); [cbn; lia|]. etrans; [apply IH|]. cbn. lia.
Qed.

Lemma decimal_length z : (length (decimal z) <= 11)%nat.
Proof.
  unfold decimal. destruct (z <? 0); [cbn [length]; pose proof (dec_digits_length 10 (- z) [])|
    pose proof (dec_digits_length 10 z [])]; cbn in *; lia.
Qed.

Lemma digits_dec fuel n acc : 0 <= n < 10 ^ Z.of_nat fuel → (0 < fuel)%nat →
  digits 0 (dec_digits fuel n acc) = digits n acc.
Proof.
  revert n acc. induction fuel as [|fuel IH]; intros n acc Hn Hf; [lia|]. cbn [dec_digits].
  pose proof (Z.mod_pos_bound n 10 ltac:(lia)) as Hm. pose proof (Z.div_mod n 10 ltac:(lia)) as Hd.
  assert (∀ a l, digits a ((48 + n mod 10) :: l) = digits (10 * a + n mod 10) l) as Hdig.
  { intros a l. cbn [digits]. rewrite (proj2 (Z.leb_le 48 _)), (proj2 (Z.leb_le _ 57)) by lia. cbn. f_equal. lia. }
  destruct (Z.ltb_spec n 10) as [Hlt|Hge].
  - rewrite Hdig. f_equal. rewrite Z.mod_small by lia. lia.
  - rewrite Nat2Z.inj_succ, Z.pow_succ_r in Hn by lia.
    assert (n / 10 < 10 ^ Z.of_nat fuel) as Hq by (apply Z.div_lt_upper_bound; lia).
    assert (0 < n / 10) as Hq0 by (apply Z.div_str_pos; lia).
    destruct fuel as [|fuel]; [cbn in Hq; lia|]. rewrite IH, Hdig by lia. f_equal. lia.
Qed.

Lemma dec_digits_head fuel n acc : (0 < fuel)%nat → 0 <= n →
  ∃ d l, dec_digits fuel n acc = d :: l ∧ 48 <= d <= 57.
Proof.
  revert n acc. induction fuel as [|fuel IH]; intros n acc Hf Hn; [lia|]. cbn [dec_digits].
  pose proof (Z.mod_pos_bound n 10 ltac:(lia)). destruct (n <? 10) eqn:Hlt; [exists (48 + n mod 10), acc; split; [done|lia]|].
  destruct fuel as [|fuel]; [cbn; exists (48 + n mod 10), acc; split; [done|lia]|]. apply IH; [lia|]. by apply Z.div_pos.
Qed.

(** [atoi] reads back what [%d] prints. *)
Lemma atoi_decimal z : in_int z = true → atoi (decimal z) = Ok z.
Proof.
  intros Hin. pose proof Hin as [H1%Z.leb_le H2%Z.ltb_lt]%andb_true_iff. unfold decimal, atoi.
  assert (∀ n, 0 <= n <= 2 ^ 31 → digits 0 (dec_digits 10 n []) = n) as Hdig
    by (intros n Hn; rewrite digits_dec by (cbn; lia); done).
  destruct (Z.ltb_spec z 0) as [Hneg|Hpos].
  - cbn [skip_while isspace Z.eqb Z.leb andb orb]. change (isspace 45) with false. cbv iota.
    rewrite Z.eqb_refl, Hdig by lia. by rewrite Z.opp_involutive, Hin.
  - destruct (dec_digits_head 10 z [] ltac:(lia) Hpos) as (d&l&Hdl&Hd).
    assert (isspace d = false) as Hs.
    { unfold isspace. apply orb_false_iff. split; [lia|]. apply andb_false_iff. right. lia. }
    rewrite Hdl. cbn [skip_while]. rewrite Hs, (proj2 (Z.eqb_neq d 45)), (proj2 (Z.eqb_neq d 43)) by lia.
    by rewrite <- Hdl, Hdig, Hin by lia.
Qed.
