(* ===== verification/Bridge.v ===== *)
(** * The client of the parent server

    Model of src/mqtt_server/tcp_client.cpp: the thread that subscribes to a topic of
    another server and passes what it publishes on to this one, through the queue of
    notifications.  The thread's state is that of the server and its own members; the
    loop of [svc] has no end of its own, and [svc n] is its first [n] rounds.
    [TCPClient::read] is called by nothing. *)

From S2P Require Import Prelude Pkt Msg Mbuf MemStore Context World Handler Blocking SubMgr Connection Poller.
From stdpp Require Import options.

(** The members of [TCPClient] that change. *)
Record TCPClient : Type := mkClient {
  c_recv_buffer : list Z;      (* uint8_t [MAX_BUF_SIZE] *)
  c_cur_buf_pos : Z;           (* uint32_t *)
  c_client_socket : Z;
  c_str_client_id : str;
  c_str_topic_name : str;
  c_topic_qos : Z;             (* uint8_t *)
}.

Definition eta_client (c : TCPClient) : TCPClient :=
  mkClient (c_recv_buffer c) (c_cur_buf_pos c) (c_client_socket c) (c_str_client_id c)
    (c_str_topic_name c) (c_topic_qos c).

Definition upd_client_buffer : (list Z → list Z) → TCPClient → TCPClient :=
  ltac:(update_field eta_client c_recv_buffer).
Definition upd_client_buf_pos : (Z → Z) → TCPClient → TCPClient :=
  ltac:(update_field eta_client c_cur_buf_pos).
Definition upd_client_socket : (Z → Z) → TCPClient → TCPClient :=
  ltac:(update_field eta_client c_client_socket).
Definition upd_topic_qos : (Z → Z) → TCPClient → TCPClient :=
  ltac:(update_field eta_client c_topic_qos).

(** The server, the client, and the arguments of the calls of [sleep] so far. *)
Record Bridge : Type := mkBridge {
  g_world : World;
  g_client : TCPClient;
  g_slept : list Z;
}.

Definition upd_g_world (f : World → World) (g : Bridge) : Bridge :=
  mkBridge (f (g_world g)) (g_client g) (g_slept g).
Definition upd_g_client (f : TCPClient → TCPClient) (g : Bridge) : Bridge :=
  mkBridge (g_world g) (f (g_client g)) (g_slept g).
Definition upd_g_slept (f : list Z → list Z) (g : Bridge) : Bridge :=
  mkBridge (g_world g) (g_client g) (f (g_slept g)).

Abbreviation B := (st Bridge) (only parsing).

(** The calls of the client, by their number as in [Env]; [stop] is called by another
    thread. *)
Class BridgeEnv : Type := {
  bridge_patience :: Patience;
  env_socket : nat → io_result;           (* socket(AF_INET, SOCK_STREAM, 0) *)
  env_connect : nat → Z → option Z;       (* connect: an errno, or success *)
  env_stopped : nat → bool;               (* stop has been called *)
}.

(** A kernel that does not refuse for ever: also, of the attempts to connect, which are
    every second call, one succeeds, or the thread is stopped. *)
Class BridgeLaws `{Env, BridgeEnv} : Prop := {
  bridge_patient :: PatientWrites;
  patient_connect : ∀ n fd, ∃ k, (k < env_patience)%nat ∧
    (env_connect (n + 2 * k) fd = None ∨ env_stopped (S (n + 2 * k)) = true);
}.

Section client.
Context {E : Env} {V : Virtual} {G : BridgeEnv}.

(** An operation on the server. *)
Definition served {A} (m : M A) : B A := λ g,
  let '(r, w) := m (g_world g) in (r, upd_g_world (λ _, w) g).

Definition client : B TCPClient := gets g_client.
Definition upd_client (f : TCPClient → TCPClient) : B unit := modify (upd_g_client f).

(** ** Sending *)

Definition write_n (buf : list Z) (len : Z) : B Z :=
  do c <- client; served (write_all_n (c_client_socket c) buf len).

(** Encode into an array on the stack and write the packet. *)
Definition send_msg (size : Z) (encode : list Z → Z → res Z * list Z) : B Z :=
  do buf <- served (sys (λ n, map (λ i, u8 (env_junk n i)) (seq 0 (Z.to_nat size))));
  let '(r, l) := encode buf size in
  match r with
  | Ok pkt_len => if pkt_len <=? 0 then ret (-1) else write_n l pkt_len
  | Fail => ret (-1)
  | Stop u => crash u
  end.

Definition send_connect_msg : B Z :=
  do c <- client;
  send_msg 256 (run_encode (CMqttConnect_encode (header_of_type CONNECT) (c_str_client_id c) false)).

Definition send_pingreq_msg : B Z := send_msg 16 (run_encode CMqttPingReq_encode).

Definition send_disconnect_msg : B Z := send_msg 16 (run_encode CMqttDisconnect_encode).

Definition send_subscribe_msg (msg_id : Z) : B Z :=
  do_ upd_client (upd_topic_qos (λ _, 1));
  do c <- client;
  send_msg 256 (run_encode (CMqttSubscribe_encode (header_of_type SUBSCRIBE) msg_id
    [mkTopic (c_str_topic_name c) (c_topic_qos c)])).

Definition send_pub_ack_msg (msg_id : Z) : B Z :=
  send_msg 16 (run_encode (CMqttPublishAck_encode (header_of_type PUBACK) msg_id)).

(** ** Connecting *)

(** The loop of [connect]; the time to sleep doubles, and starts again at 32. *)
Fixpoint connect_loop (fuel : nat) (timeout : Z) : B Z :=
  match fuel with
  | O => crash FuelOut
  | S fuel =>
      do c <- client;
      do r <- served (sys (λ n, env_connect n (c_client_socket c)));
      match r with
      | None => ret 0
      | Some e =>
          do_ served (set_errno e);
          do stopped <- served (sys env_stopped);
          if stopped : bool then ret (-1)
          else
            do_ modify (upd_g_slept (λ l, l ++ [timeout]));
            let timeout := u32 (timeout * 2) in
            connect_loop fuel (if 32 <=? timeout then 1 else timeout)
      end
  end.

Definition INVALID_SOCKET : Z := -1.

Definition connect : B Z :=
  do c <- client;
  do_ (when negb (c_client_socket c =? INVALID_SOCKET) then_
         (do _ <- send_disconnect_msg;
          do_ served (sys_close (c_client_socket c));
          upd_client (upd_client_socket (λ _, INVALID_SOCKET))));
  do s <- served (sys env_socket);
  match s with
  | IoErr e =>
      do_ served (set_errno e);
      do_ upd_client (upd_client_socket (λ _, -1));
      ret (-1)
  | IoOk s =>
      do_ upd_client (upd_client_socket (λ _, s));
      if s <? 0 then ret (-1)
      else
        do r <- connect_loop env_patience 1;
        if r <? 0 then ret (-1)
        else
          do _ <- send_connect_msg;
          do_ upd_client (upd_client_buf_pos (λ _, 0));
          ret 0
  end.

(** ** The packets *)

(** [buf + off], for [buf] the receive buffer. *)
Definition client_recv_from (off : Z) : B (list Z) :=
  do c <- client; ret (drop (Z.to_nat off) (c_recv_buffer c)).

(** [process_mqtt(buf + off, len)]. *)
Definition client_process_mqtt (off len : Z) : B Z :=
  do buf <- client_recv_from off;
  match buf with
  | [] => crash OutOfBounds
  | b :: _ =>
      match MqttType_of_Z (Z.shiftr (Z.land b 0xF0) 4) with
      | CONNACK => do _ <- send_subscribe_msg 1; ret 0
      | PUBLISH =>
          do publish <- served (decoded (run_decode CMqttPublish_decode buf len));
          match publish with
          | None => ret (-1)
          | Some publish =>
              do mbuf <- served (new_mbuf len);
              do _ <- served (mbuf_copy_to mbuf (take (Z.to_nat len) buf));
              do_ served (upd_mbuf mbuf (set_msg_id (pub_msg_id publish)));
              do_ served (upd_mbuf mbuf (set_msg_type MSG_PUBLISH));
              do _ <- served (notify mbuf);
              do _ <- send_pub_ack_msg (pub_msg_id publish);
              ret 0
          end
      | SUBACK => ret 0
      | PINGRESP => ret 0
      | _ => ret (-1)
      end
  end.

(** The loop of [process]; every packet takes at least two bytes. *)
Fixpoint client_process_loop (fuel : nat) (len offset : Z) : B Z :=
  match fuel with
  | O => crash FuelOut
  | S fuel =>
      if offset <? len then
        do buf <- client_recv_from offset;
        do rl <- lift (remain_length buf (len - offset));
        let remain_len := rl_ret rl in
        if remain_len =? NEED_MORE_DATA then
          do_ (when negb (offset =? 0) then_
                 (let left_size := len - offset in
                  do_ upd_client (upd_client_buffer
                        (λ b, splice 0 (take (Z.to_nat left_size) (drop (Z.to_nat offset) b)) b));
                  upd_client (upd_client_buf_pos (λ _, left_size))));
          ret 0
        else if remain_len =? FAILTURE then ret (-1)
        else
          let pkt_total_len := u32 (remain_len + remain_length_bytes rl + 1) in
          do r <- client_process_mqtt offset pkt_total_len;
          if r <? 0 then ret (-1)
          else client_process_loop fuel len (u32 (offset + pkt_total_len))
      else
        do_ upd_client (upd_client_buf_pos (λ _, 0));
        ret 0
  end.

Definition client_process (len : Z) : B Z := client_process_loop (S (Z.to_nat len)) len 0.

(** ** The thread *)

(** The local variables of [svc]. *)
Record svc_locals : Type := mkLocals {
  last_msg_time : Z;             (* uint32_t *)
  send_ping_req_time : Z;        (* uint32_t *)
}.

(** [if (connect() < 0) break], and then [k]. *)
Definition reconnect (k : B (svc_locals + unit)) : B (svc_locals + unit) :=
  do r <- connect; if r <? 0 then ret (inr tt) else k.

(** A round of the loop: it goes on with [inl] and leaves the loop with [inr]. *)
Definition svc_read (l : svc_locals) : B (svc_locals + unit) :=
  do c <- client;
  if MAX_BUF_SIZE <=? c_cur_buf_pos c then ret (inr tt)
  else
    do r <- served (sys_read (c_client_socket c) (u32 (MAX_BUF_SIZE - c_cur_buf_pos c)));
    match r with
    | None | Some [] =>
        do e <- gets (w_errno ∘ g_world);
        if would_block e then
          do _ <- send_pingreq_msg;
          ret (inl (mkLocals (last_msg_time l) (u32 (send_ping_req_time l + 1))))
        else reconnect (ret (inl l))
    | Some data =>
        do now <- served std_time;
        let l := mkLocals (u32 now) 0 in
        do_ upd_client (upd_client_buffer (splice (Z.to_nat (c_cur_buf_pos c)) data));
        do_ upd_client (upd_client_buf_pos (λ n, u32 (n + zlen data)));
        do res <- client_process (u32 (c_cur_buf_pos c + zlen data));
        if res =? NEED_MORE_DATA then ret (inl l)
        else if res =? -1 then reconnect (ret (inl l))
        else ret (inl l)
    end.

Definition svc_step (l : svc_locals) : B (svc_locals + unit) :=
  do now <- served std_time;
  if (5 <? send_ping_req_time l) || (5 * 60 <? u32 (u32 now - last_msg_time l)) then
    reconnect (svc_read (mkLocals (last_msg_time l) 0))
  else svc_read l.

(** At most [n] rounds; [inl] if the loop still runs. *)
Fixpoint svc_loop (n : nat) (l : svc_locals) : B (svc_locals + unit) :=
  match n with
  | O => ret (inl l)
  | S n =>
      do stopped <- served (sys env_stopped);
      if stopped : bool then ret (inr tt)
      else
        do r <- svc_step l;
        match r with
        | inl l => svc_loop n l
        | inr _ => ret (inr tt)
        end
  end.

(** Behind the loop. *)
Definition svc_end : B unit :=
  do _ <- send_disconnect_msg;
  do c <- client;
  served (sys_close (c_client_socket c)).

Definition svc (n : nat) : B (svc_locals + unit) :=
  do _ <- connect;
  do now <- served std_time;
  do_ upd_client (upd_client_buf_pos (λ _, 0));
  do r <- svc_loop n (mkLocals (u32 now) 0);
  match r with
  | inl l => ret (inl l)
  | inr _ => do_ svc_end; ret (inr tt)
  end.

(** [open], up to the start of the thread. *)
Definition client_open : B Z :=
  do_ upd_client (upd_client_socket (λ _, INVALID_SOCKET)); ret 0.

End client.
