(* ===== verification/Bridging.v ===== *)
(** * The bridge to the parent server

    The thread of Bridge.v: it never does anything undefined, whatever the parent
    server sends and however often the connection breaks, and every loop inside a
    round of its endless one ends (this file); what it passes on is in Relay.v. *)

From S2P Require Import Prelude Pkt Msg Mbuf MemStore Context World Sample Handler Delivery Blocking.
From S2P Require Import SubMgr Connection Invariant Poller Scenarios Safety Sessions Server Publish Notify.
From S2P Require Import Waiting Copy Bridge.
From stdpp Require Import options.

(** ** What talking to the parent changes *)

(** The clock, [errno] and the output; the members and the rest of the server stay. *)
Record talked (g g' : Bridge) : Prop := {
  ta_client : g_client g' = g_client g;
  ta_world : ∃ n e l, g_world g' = talk n e l (g_world g);
}.

#[export] Instance talked_preorder : PreOrder talked.
Proof.
  split.
  - intros g. split; [done|]. exists (w_calls (g_world g)), (w_errno (g_world g)), []. by rewrite talk_nil.
  - intros g1 g2 g3 [C1 (n1&e1&l1&W1)] [C2 (n2&e2&l2&W2)]. split; [congruence|].
    exists n2, e2, (l1 ++ l2). by rewrite W2, W1, talk_talk.
Qed.

Lemma talked_quiet n e g : talked g (upd_g_world (λ w, upd_calls (λ _, n) (upd_errno (λ _, e) w)) g).
Proof. split; [done|]. exists n, e, []. by rewrite talk_quiet. Qed.

#[local] Hint Extern 0 (talked _ _) => reflexivity : core.

Lemma talked_Inv g g' : talked g g' → Inv (g_world g) → Inv (g_world g').
Proof. intros [_ (n&e&l&->)]. done. Qed.

Lemma talked_world g n e l :
  talked g (upd_g_world (λ _, talk n e l (g_world g)) g).
Proof. split; [done|]. by exists n, e, l. Qed.

Lemma safe_served {E : Env} {A} (m : M A) (Q : A → Bridge → Prop) g :
  safe m (λ a w, Q a (upd_g_world (λ _, w) g)) (g_world g) → safe (served m) Q g.
Proof. unfold safe, wp, served. destruct (m (g_world g)) as [[a| |u] w]; done. Qed.

(** ** Writing *)

Section writing.
Context {E : Env} {L : EnvLaws} {G : BridgeEnv} {P : BridgeLaws}.

Lemma talks_talked w g : talks (g_world g) w → talked g (upd_g_world (λ _, w) g).
Proof. intros (n&e&l&->). apply talked_world. Qed.

Lemma write_n_safe buf len g :
  0 <= len <= zlen buf → len < 2 ^ 32 →
  safe (write_n buf len) (λ r g', (r = 0 ∨ r = -1) ∧ talked g g') g.
Proof using L P.
  intros Hlen Hmax. unfold write_n. apply safe_bind, safe_gets, safe_served.
  eapply safe_mono; [by apply write_all_n_safe|]. intros r w [Hr Hw]. split; [done|by apply talks_talked].
Qed.

Lemma send_msg_safe size enc g :
  0 <= size < 2 ^ 31 → answers size enc →
  safe (send_msg size enc) (λ r g', (r = 0 ∨ r = -1) ∧ talked g g') g.
Proof using L P.
  intros Hs Ha. unfold send_msg. apply safe_bind, safe_served, safe_sys.
  set (buf := map _ _). assert (zlen buf = size) as Hbuf.
  { unfold buf, zlen. rewrite length_map, length_seq. lia. }
  specialize (Ha buf Hbuf). destruct (enc buf size) as [[n| |u] l]; [| |done].
  - destruct Ha as [Hl Hn].
    assert (talked g (upd_g_world (λ _, upd_calls S (g_world g)) g)) as Hg1.
    { apply (talked_quiet (S (w_calls (g_world g))) (w_errno (g_world g))). }
    destruct (Z.leb_spec n 0); [apply safe_ret; auto|].
    eapply safe_mono; [apply write_n_safe; lia|]. intros r g2 [Hr Hg2]. split; [done|]. by etrans.
  - apply safe_ret. split; [auto|]. apply (talked_quiet (S (w_calls (g_world g))) (w_errno (g_world g))).
Qed.

End writing.

(** ** Passing a message on *)

(** The server [w'] has one more buffer [b], with the contents [l], which waits in
    the queue of notifications if there is a reader; the rest is as before. *)
Record relayed (b : Z) (l : list Z) (id : Z) (w w' : World) : Prop := {
  re_fresh : w_mbufs w !! b = None;
  re_mbuf : ∃ m, w_mbufs w' = <[b := m]> (w_mbufs w) ∧ contents m = l ∧ m_read_pos m = 0 ∧
    max_size m = zlen l ∧ m_msg_id m = id ∧ m_msg_type m = MSG_PUBLISH;
  re_inv : Inv w';
  re_objs : w_objs w' = w_objs w;
  re_ctxs : w_ctxs w' = w_ctxs w;
  re_topics : w_topics w' = w_topics w;
  re_clients : w_clients w' = w_clients w;
  re_deque : m_notify_deque (w_poller w') = m_notify_deque (w_poller w) ++
    match m_notify_writer (w_poller w) with Some _ => [b] | None => [] end;
  re_writer : m_notify_writer (w_poller w') = m_notify_writer (w_poller w);
  re_out : ∀ fd, (∀ p o, m_notify_writer (w_poller w) = Some p → w_objs w !! p = Some o →
      m_sock_handle (o_handler o) ≠ fd) → sent_to fd w' = sent_to fd w;
}.

Lemma Inv_push b w :
  Inv w → live (w_mbufs w) b → Inv (upd_poller (upd_notify_deque (λ q, q ++ [b])) w).
Proof.
  intros Hi Hb. apply (Inv_deque (m_notify_deque (w_poller w) ++ [b])); [done|].
  intros c [Hc|Hc]%elem_of_app; [by eapply (i_deque _ _ _ _ _ _ _ _ _ _ Hi)|].
  by apply list_elem_of_singleton in Hc as ->.
Qed.

Lemma safe_relay {E : Env} (l : list Z) (len id : Z) (Q : Z → Bridge → Prop) (k : B Z) g :
  Inv (g_world g) → zlen l = len → len < 2 ^ 31 →
  (∀ p, m_notify_writer (w_poller (g_world g)) = Some p → is_Some (w_objs (g_world g) !! p)) →
  (∀ b w', relayed b l id (g_world g) w' → safe k Q (upd_g_world (λ _, w') g)) →
  safe (do mbuf <- served (new_mbuf len);
        do _ <- served (mbuf_copy_to mbuf l);
        do_ served (upd_mbuf mbuf (set_msg_id id));
        do_ served (upd_mbuf mbuf (set_msg_type MSG_PUBLISH));
        do _ <- served (notify mbuf);
        k) Q g.
Proof.
  set (w := g_world g). intros Hi Hl Hmax Hwr HQ. pose proof (zlen_nonneg l).
  assert (w_mbufs w !! w_next w = None) as Hfresh.
  { apply eq_None_not_Some. intros H1. assert (w_next w < w_next w); [|lia].
    eapply i_fresh; [exact Hi|]. by right; right. }
  apply safe_bind, safe_served. unfold new_mbuf, std_time.
  apply safe_bind, safe_sys, safe_bind, safe_sys, safe_bind, safe_fresh_id, safe_bind, safe_modify.
  apply safe_ret. set (m := mbuf_init _ _). set (b := w_next w).
  assert (max_size m = len) as Hm.
  { unfold m, max_size, mbuf_init; simpl. unfold zlen. rewrite length_map, length_seq. lia. }
  assert (wf_mbuf m) as Hwf by (apply wf_mbuf_init; unfold max_size, m, mbuf_init in Hm; simpl in Hm; lia).
  apply safe_bind, safe_served. unfold mbuf_copy_to. apply safe_bind.
  eapply safe_get_mbuf; [apply lookup_insert_eq|].
  destruct (mbuf_copy_contents l m Hwf) as (m1&->&Hwf1&Hc1&Hs1&Hr1&_&_&Hdb1&_);
    [rewrite Hm; change (m_write_pos m) with 0; lia|].
  apply safe_bind, safe_modify, safe_ret, safe_bind, safe_served.
  eapply safe_upd_mbuf; [apply lookup_insert_eq|].
  apply safe_bind, safe_served. eapply safe_upd_mbuf; [apply lookup_insert_eq|].
  cbn [g_world upd_g_world upd_mbufs w_mbufs upd_next upd_calls eta_world].
  set (m2 := set_msg_type _ _). set (w2 := upd_mbufs _ _).
  assert (w_mbufs w2 = <[b := m2]> (w_mbufs w)) as Hm2.
  { unfold w2. cbn. by rewrite !insert_insert_eq. }
  assert (Inv w2) as Hi2.
  { unfold Inv. rewrite Hm2. eapply inv_mbuf; [eapply inv_next; [exact Hi|]|..].
    - change (w_next w2) with (w_next w + 1). lia.
    - exact Hwf1.
    - change (w_next w2) with (w_next w + 1). unfold b. lia.
    - intros i Hid. destruct (i_db _ _ _ _ _ _ _ _ _ _ Hi _ _ Hid) as (m0&Hm0&_). change b with (w_next w) in Hm0. congruence. }
  assert (contents m2 = l) as Hcm2 by exact Hc1.
  apply safe_bind, safe_served. unfold notify. apply safe_bind, safe_gets.
  cbn [g_world upd_g_world]. change (m_notify_writer (w_poller w2)) with (m_notify_writer (w_poller w)).
  assert (∃ m, w_mbufs w2 = <[b := m]> (w_mbufs w) ∧ contents m = l ∧ m_read_pos m = 0 ∧
    max_size m = zlen l ∧ m_msg_id m = id ∧ m_msg_type m = MSG_PUBLISH) as Hex.
  { exists m2. split_and!; try done. by rewrite Hl, <- Hm, <- Hs1. }
  destruct (m_notify_writer (w_poller w)) as [p|] eqn:Hp.
  2:{ apply safe_ret. refine (HQ b w2 _).
      split; [exact Hfresh|exact Hex|exact Hi2|done..|by rewrite Hp, app_nil_r|done|done]. }
  destruct (Hwr p eq_refl) as [o Ho]. unfold push_back.
  apply safe_bind, safe_bind, safe_modify, safe_ret, safe_bind.
  eapply safe_get_handler; [exact Ho|]. unfold sys_write. apply safe_bind, safe_sys.
  assert (Inv (upd_poller (upd_notify_deque (λ q, q ++ [b])) w2)) as Hi3.
  { apply (Inv_push b w2 Hi2). eexists. rewrite Hm2. apply lookup_insert_eq. }
  destruct (env_write _ _ _) as [n|e].
  - apply safe_bind, safe_modify, safe_ret. refine (HQ b _ _).
    split; [exact Hfresh|exact Hex|exact Hi3|done..|by rewrite Hp|done|].
    intros fd Hfd. rewrite sent_to_emit, (proj2 (Z.eqb_neq _ _)) by (eapply Hfd; [exact Hp|exact Ho]).
    by rewrite app_nil_r.
  - apply safe_bind, safe_modify, safe_ret. refine (HQ b _ _).
    split; [exact Hfresh|exact Hex|exact Hi3|done..|by rewrite Hp|done|done].
Qed.

(** ** The invariant of the thread *)

(** What the packets of the client need: names that fit its arrays. *)
Record bridge_ok (g : Bridge) : Prop := {
  bo_world : Inv (g_world g);
  bo_waiting : waiting (g_world g);
  bo_buffer : zlen (c_recv_buffer (g_client g)) = MAX_BUF_SIZE;
  bo_id : zlen (c_str_client_id (g_client g)) <= 200;
  bo_topic : zlen (c_str_topic_name (g_client g)) <= 200;
}.

(** The rest of an incomplete packet leaves room for the four bytes that
    [remain_length] may read behind it. *)
Definition bridge_ready (g : Bridge) : Prop :=
  bridge_ok g ∧ 0 <= c_cur_buf_pos (g_client g) <= MAX_BUF_SIZE - 4.

Lemma talked_ok g g' : talked g g' → bridge_ok g → bridge_ok g'.
Proof.
  intros Ht []. pose proof (talked_Inv _ _ Ht bo_world0). destruct Ht as [Hc (n&e&l&Hw)].
  split; [done| |by rewrite Hc..]. rewrite Hw. exact bo_waiting0.
Qed.

Lemma talked_ready g g' : talked g g' → bridge_ready g → bridge_ready g'.
Proof. intros Ht [Ho Hp]. split; [by eapply talked_ok|]. by rewrite (ta_client _ _ Ht). Qed.

Lemma talked_grew g g' : talked g g' → grew (g_world g) (g_world g').
Proof. intros [_ (n&e&l&->)]. by split. Qed.

(** The last steps have only talked, or have not touched the server. *)
Ltac grows :=
  match goal with
  | H : grew ?w _ |- grew ?w _ => etrans; [exact H|first [by apply talked_grew|by split]]
  | H : grew ?w ?w1, Ht : talked _ _ |- grew ?w _ => etrans; [exact H|etrans; [|exact (talked_grew _ _ Ht)]; by split]
  | H : talked _ _ |- grew _ _ => etrans; [exact (talked_grew _ _ H)|by split]
  end.

(** A change of the members that the loop may make. *)
Lemma ok_client g c' :
  bridge_ok g → zlen (c_recv_buffer c') = MAX_BUF_SIZE →
  c_str_client_id c' = c_str_client_id (g_client g) →
  c_str_topic_name c' = c_str_topic_name (g_client g) →
  bridge_ok (upd_g_client (λ _, c') g).
Proof. intros [] ? H1 H2. split; cbn; by rewrite ?H1, ?H2. Qed.

Section thread.
Context {E : Env} {L : EnvLaws} {G : BridgeEnv} {P : BridgeLaws}.

Lemma safe_upd_client f (Q : unit → Bridge → Prop) g :
  Q tt (upd_g_client f g) → safe (upd_client f) Q g.
Proof. done. Qed.

(** A send whose status the caller does not look at. *)
Lemma safe_send {A} size enc (k : B A) (Q : A → Bridge → Prop) g :
  0 <= size < 2 ^ 31 → answers size enc →
  (∀ g', talked g g' → safe k Q g') → safe (do _ <- send_msg size enc; k) Q g.
Proof using L P.
  intros Hs Ha HQ. apply safe_bind. eapply safe_mono; [by apply send_msg_safe|].
  intros r g' [_ Ht]. by apply HQ.
Qed.

Lemma connect_answers id : zlen id <= 200 →
  answers 256 (run_encode (CMqttConnect_encode (header_of_type CONNECT) id false)).
Proof.
  intros Hid buf Hb. pose proof (zlen_nonneg id). set (body := connect_body id false).
  assert (zlen body = zlen id + 14) as Hbl
    by (unfold body, connect_body; autorewrite with zlen;
        change (zlen (of_string "MQIsdp")) with 6; lia).
  pose proof (zlen_varint_14 (zlen body)). pose proof (zlen_nonneg (varint 5 (zlen body))).
  pose proof (zlen_packet (header_of_type CONNECT) body).
  rewrite connect_packet by (fold body; lia). unfold encoded. fold body.
  rewrite encoded_answers by lia. lia.
Qed.

Lemma subscribe_answers topic q : zlen topic <= 200 →
  answers 256 (run_encode (CMqttSubscribe_encode (header_of_type SUBSCRIBE) 1 [mkTopic topic q])).
Proof.
  intros Ht buf Hb. pose proof (zlen_nonneg topic). set (body := subscribe_body 1 [mkTopic topic q]).
  assert (zlen body = zlen topic + 5) as Hbl
    by (unfold body, subscribe_body, topic_bytes; cbn; autorewrite with zlen; lia).
  pose proof (zlen_varint_14 (zlen body)). pose proof (zlen_nonneg (varint 5 (zlen body))).
  pose proof (zlen_packet (header_of_type SUBSCRIBE) body).
  rewrite subscribe_packet; [|lia..|done|repeat constructor; cbn; lia|fold body; lia].
  unfold encoded. fold body. rewrite encoded_answers by lia. lia.
Qed.

(** [connect] tries until it succeeds or the thread is stopped. *)
Lemma connect_loop_safe k fuel timeout g :
  (k < fuel)%nat →
  (env_connect (w_calls (g_world g) + 2 * k) (c_client_socket (g_client g)) = None ∨
   env_stopped (S (w_calls (g_world g) + 2 * k)) = true) →
  safe (connect_loop fuel timeout) (λ r g', (r = 0 ∨ r = -1) ∧ talked g g') g.
Proof using E G.
  revert k timeout g. induction fuel as [|fuel IH]; intros k timeout g Hk Hc; [lia|].
  cbn [connect_loop]. apply safe_bind, safe_gets, safe_bind, safe_served, safe_sys.
  set (g1 := upd_g_world _ g).
  assert (talked g g1) as Hg1 by apply (talked_quiet (S (w_calls (g_world g))) (w_errno (g_world g))).
  destruct (env_connect (w_calls (g_world g)) _) as [e|] eqn:He;
    [|apply safe_ret; split; [by left|exact Hg1]].
  apply safe_bind, safe_served, safe_modify, safe_bind, safe_served, safe_sys.
  set (g2 := upd_g_world _ (upd_g_world _ g1)). cbn [w_calls g_world upd_g_world upd_errno].
  assert (w_calls (g_world g2) = S (S (w_calls (g_world g)))) as Hc2 by done.
  assert (talked g1 g2) as Hg2 by apply (talked_quiet (S (w_calls (g_world g1))) e).
  assert (talked g g2) as Hg12 by (by etrans).
  change (w_calls (g_world g1)) with (S (w_calls (g_world g))).
  destruct (env_stopped (S (w_calls (g_world g)))) eqn:Hs; [apply safe_ret; split; [by right|exact Hg12]|].
  apply safe_bind, safe_modify. destruct k as [|k].
  - rewrite Nat.add_0_r in Hc. destruct Hc; congruence.
  - eapply safe_mono; [apply (IH k); [lia|]|].
    + change (w_calls (g_world (upd_g_slept _ g2))) with (w_calls (g_world g2)). rewrite Hc2.
      change (c_client_socket (g_client (upd_g_slept _ g2))) with (c_client_socket (g_client g)).
      by replace (S (S (w_calls (g_world g))) + 2 * k)%nat with (w_calls (g_world g) + 2 * S k)%nat by lia.
    + intros r g3 [Hr [Hg3 Hw3]]. split; [done|].
      etrans; [exact Hg12|]. split; [exact Hg3|exact Hw3].
Qed.

Lemma safe_connect (Q : Z → Bridge → Prop) g :
  bridge_ok g →
  (∀ r g', bridge_ok g' → grew (g_world g) (g_world g') → (bridge_ready g → bridge_ready g') → Q r g') →
  safe connect Q g.
Proof using L P.
  intros Hg HQ. unfold connect. apply safe_bind, safe_gets, safe_bind.
  assert (∀ g1, bridge_ok g1 → grew (g_world g) (g_world g1) → (bridge_ready g → bridge_ready g1) → safe
    (do s <- served (sys env_socket);
     match s with
     | IoErr e => do_ served (set_errno e); do_ upd_client (upd_client_socket (λ _, -1)); ret (-1)
     | IoOk s =>
         do_ upd_client (upd_client_socket (λ _, s));
         if s <? 0 then ret (-1)
         else
           do r <- connect_loop env_patience 1;
           if r <? 0 then ret (-1)
           else do _ <- send_connect_msg; do_ upd_client (upd_client_buf_pos (λ _, 0)); ret 0
     end) Q g1) as Hrest.
  { intros g1 H1 Hw1 Hr1. apply safe_bind, safe_served, safe_sys. destruct (env_socket _) as [s|e].
    2:{ apply safe_bind, safe_served, safe_modify, safe_bind, safe_upd_client, safe_ret.
        apply HQ; [by destruct H1; split|by grows|]. intros Hr. destruct (Hr1 Hr) as [[] ?]. by split. }
    apply safe_bind, safe_upd_client. set (g2 := upd_g_client _ _).
    assert (bridge_ok g2) as H2 by (by destruct H1; split).
    assert (bridge_ready g → bridge_ready g2) as Hr2 by (intros Hr; destruct (Hr1 Hr) as [[] ?]; by split).
    assert (grew (g_world g) (g_world g2)) as Hw2 by grows.
    destruct (s <? 0); [by apply safe_ret, HQ|].
    destruct (patient_connect (w_calls (g_world g2)) (c_client_socket (g_client g2))) as (k&Hk&Hc).
    apply safe_bind. eapply safe_mono; [by eapply connect_loop_safe|].
    intros r g3 [_ Hg3]. pose proof (talked_ok _ _ Hg3 H2) as H3.
    assert (grew (g_world g) (g_world g3)) as Hw3 by (by grows).
    destruct (r <? 0); [apply safe_ret, HQ; [done|done|]; eauto using talked_ready|].
    unfold send_connect_msg. apply safe_bind, safe_bind, safe_gets.
    eapply safe_mono; [apply send_msg_safe; [lia|apply connect_answers; apply H3]|].
    intros r' g4 [_ Hg4]. pose proof (talked_ok _ _ Hg4 H3) as H4.
    apply safe_bind, safe_upd_client, safe_ret, HQ; [by destruct H4; split|by grows|].
    intros _. split; [by destruct H4; split|]. cbn. unfold MAX_BUF_SIZE. lia. }
  destruct (negb _); [|by apply safe_ret, Hrest].
  apply safe_send; [lia|by apply empty_answers|]. intros g1 Ht.
  pose proof (talked_ok _ _ Ht Hg) as H1. apply safe_bind, safe_served, safe_modify, safe_upd_client.
  apply Hrest; [by destruct H1; split|by grows|]. intros Hr. destruct (talked_ready _ _ Ht Hr) as [[] ?]. by split.
Qed.

(** ** A packet *)

Lemma safe_client_recv off (Q : list Z → Bridge → Prop) g :
  Q (drop (Z.to_nat off) (c_recv_buffer (g_client g))) g → safe (client_recv_from off) Q g.
Proof. done. Qed.

(** The client's members are as before, up to those that a handler may change. *)
Record kept (g g' : Bridge) : Prop := {
  ke_ok : bridge_ok g';
  ke_buffer : c_recv_buffer (g_client g') = c_recv_buffer (g_client g);
  ke_pos : c_cur_buf_pos (g_client g') = c_cur_buf_pos (g_client g);
  ke_socket : c_client_socket (g_client g') = c_client_socket (g_client g);
  ke_topic : c_str_topic_name (g_client g') = c_str_topic_name (g_client g);
  ke_grew : grew (g_world g) (g_world g');
}.

Lemma kept_talked g g' : bridge_ok g → talked g g' → kept g g'.
Proof.
  intros Hg Ht. split; [by eapply talked_ok|by rewrite (ta_client _ _ Ht)..|by apply talked_grew].
Qed.

Lemma bridge_kept_trans g1 g2 g3 : kept g1 g2 → kept g2 g3 → kept g1 g3.
Proof. intros [] []. split; [done|congruence..|by etrans]. Qed.

Lemma relayed_waits b l id msg w w' :
  relayed b l id w w' → l ≠ [] → run_decode CMqttPublish_decode l (zlen l) = Ok msg → waits w' b msg.
Proof.
  intros [_ (m&Hm&Hc&Hr&Hs&_&Ht) Hi _ _ _ _ _ _ _] Hl Hd.
  apply (waits_full w' b m l); [done|by rewrite Hm, lookup_insert_eq|done..].
Qed.

Lemma relayed_waiting b l id msg w w' :
  Inv w → waiting w → relayed b l id w w' → l ≠ [] → run_decode CMqttPublish_decode l (zlen l) = Ok msg → waiting w'.
Proof.
  intros Hi Hw Hr Hl Hd. pose proof (relayed_waits b l id msg w w' Hr Hl Hd) as Hwb.
  destruct Hr as [Hb (m&Hm&_) _ Ho Hc Ht _ Hq _ _].
  apply (waiting_more b w); [done|done|done|by exists m|done..|].
  destruct (m_notify_writer (w_poller w)); [by right; split; [|exists msg]|left]. by rewrite app_nil_r in Hq.
Qed.

Lemma relayed_grew b l id w w' : Inv w → relayed b l id w w' → grew w w'.
Proof.
  intros Hi [Hb (m&Hm&_) _ Ho Hc Ht Hk Hq Hw _]. apply (grew_more b); [done|done|by exists m|done..|].
  destruct (m_notify_writer (w_poller w)); [by right|left]. by rewrite app_nil_r in Hq.
Qed.

Lemma relayed_ok b l id msg g w' : bridge_ok g → relayed b l id (g_world g) w' →
  l ≠ [] → run_decode CMqttPublish_decode l (zlen l) = Ok msg → kept g (upd_g_world (λ _, w') g).
Proof.
  intros Hg Hr Hl Hd. destruct Hg. split; [|done..|by eapply relayed_grew].
  split; cbn; try done; [by apply Hr|]. by eapply relayed_waiting.
Qed.

(** A packet of the buffer, and the copy of it that is passed on. *)
Lemma publish_copy buf len msg :
  5 <= zlen buf → 0 < len <= zlen buf → len < 2 ^ 31 → run_decode CMqttPublish_decode buf len = Ok msg →
  let l := take (Z.to_nat len) buf in l ≠ [] ∧ run_decode CMqttPublish_decode l (zlen l) = Ok msg.
Proof.
  intros H5 Hl Hm Hd l. assert (zlen l = len) as Hlen by (apply zlen_take; lia).
  split; [intros Heq; rewrite Heq, zlen_nil in Hlen; lia|]. rewrite Hlen. by apply publish_decode_copy; [|lia|..].
Qed.

Lemma client_process_mqtt_safe off len g :
  bridge_ok g → 0 <= off → 0 < len → off + len <= MAX_BUF_SIZE - 4 →
  safe (client_process_mqtt off len) (λ _ g', kept g g') g.
Proof using L P.
  unfold MAX_BUF_SIZE. intros Hg Hoff Hlen Hmax. pose proof (bo_buffer _ Hg) as Hbuf.
  unfold MAX_BUF_SIZE in Hbuf. unfold client_process_mqtt. apply safe_bind, safe_client_recv.
  set (buf := drop _ _). assert (zlen buf = 4096 - off) as Hb by (unfold buf; rewrite zlen_drop; lia).
  destruct buf as [|b buf'] eqn:Hbufeq; [rewrite zlen_nil in Hb; lia|]. rewrite <- Hbufeq in *.
  destruct (MqttType_of_Z _);
    try (apply safe_ret; split; [exact Hg|done..]).
  - unfold send_subscribe_msg. apply safe_bind, safe_bind, safe_upd_client, safe_bind, safe_gets.
    eapply safe_mono; [apply send_msg_safe; [lia|apply subscribe_answers]|]; [apply Hg|].
    intros r g1 [_ Ht]. apply safe_ret. eapply bridge_kept_trans; [|eapply kept_talked; [|exact Ht]].
    + split; [by destruct Hg; split|done..].
    + by destruct Hg; split.
  - assert (kept g (upd_g_world (λ _, g_world g) g)) as Hk0 by (split; [by destruct Hg; split|done..]).
    apply safe_bind, safe_served, safe_decoded.
    + intros u. apply run_decode_safe; [lia..|]. apply publish_decode_tame; lia.
    + intros _. by apply safe_ret.
    + intros m Hd. destruct (publish_copy buf len m) as [Hne Hcopy]; [lia..|done|].
      apply safe_relay; [apply Hg|apply zlen_take; lia|lia|apply Inv_writer, Hg|].
      intros b0 w' Hr. pose proof (relayed_ok _ _ _ _ _ _ (ke_ok _ _ Hk0) Hr Hne Hcopy) as Hk.
      apply safe_send; [lia|by apply ack_answers|]. intros g2 Ht. apply safe_ret.
      eapply bridge_kept_trans; [exact Hk0|]. eapply bridge_kept_trans; [exact Hk|].
      by apply kept_talked; [apply Hk|].
Qed.

(** ** The packets of a read *)

(** The invariant, and the messages that waited before still do. *)
Definition after_round (g g' : Bridge) : Prop := bridge_ready g' ∧ grew (g_world g) (g_world g').

Lemma after_more g0 g g' : after_round g0 g → bridge_ready g' → grew (g_world g) (g_world g') → after_round g0 g'.
Proof. intros [_ Hg] Hr Hw. split; [done|by etrans]. Qed.

Lemma after_talked g0 g g' : after_round g0 g → talked g g' → after_round g0 g'.
Proof. intros Hg Ht. eapply after_more; [done|eapply talked_ready; [done|apply Hg]|by apply talked_grew]. Qed.

Lemma client_process_loop_safe fuel len off g :
  bridge_ok g → 0 <= off <= len → len <= MAX_BUF_SIZE - 4 → len - off < Z.of_nat fuel →
  c_cur_buf_pos (g_client g) = len →
  safe (client_process_loop fuel len off) (λ r g', (r = 0 ∨ r = -1) ∧ after_round g g') g.
Proof using L P.
  revert off g. induction fuel as [|fuel IH]; intros off g Hg Hoff Hlen Hf Hpos; [lia|].
  pose proof (bo_buffer _ Hg) as Hbuf. unfold MAX_BUF_SIZE in *. cbn [client_process_loop].
  destruct (Z.ltb_spec off len) as [Hlt|Hge].
  2:{ apply safe_bind, safe_upd_client, safe_ret. split; [by left|]. split; [|done].
      split; [by destruct Hg; split|]. cbn. unfold MAX_BUF_SIZE. lia. }
  apply safe_bind, safe_client_recv. set (buf := drop _ _).
  assert (zlen buf = 4096 - off) as Hb by (unfold buf; rewrite zlen_drop; lia).
  destruct (remain_length_spec buf (len - off)) as (rl&Hrl&Hcases); [lia..|].
  unfold NEED_MORE_DATA, FAILTURE in *. rewrite Hrl. apply safe_bind. unfold lift. apply safe_ret.
  destruct (Z.eqb_spec (rl_ret rl) (-2)) as [Hn|Hn].
  { destruct (Z.eqb_spec off 0) as [->|Ho]; cbn [negb].
    - apply safe_ret, safe_ret. split; [by left|]. split; [|done]. split; [done|]. rewrite Hpos. unfold MAX_BUF_SIZE. lia.
    - apply safe_bind, safe_bind, safe_upd_client, safe_upd_client, safe_ret. split; [by left|]. split; [|done].
      split; [|cbn; unfold MAX_BUF_SIZE; lia]. destruct Hg. split; try done.
      cbn. rewrite (zlen_splice 0); unfold zlen in *; rewrite ?length_take, ?length_drop; lia. }
  destruct (Z.eqb_spec (rl_ret rl) (-1)) as [Hm|Hm].
  { apply safe_ret. split; [by right|]. split; [|done]. split; [done|]. rewrite Hpos. unfold MAX_BUF_SIZE. lia. }
  destruct Hcases as [?|[?|(Hr1&Hr2&Hr3&Hr4)]]; [lia..|].
  rewrite u32_small by lia. apply safe_bind. eapply safe_mono.
  { apply client_process_mqtt_safe; [done|lia..|unfold MAX_BUF_SIZE; lia]. }
  intros r g1 Hk. destruct (r <? 0).
  { apply safe_ret. split; [by right|]. split; [|apply Hk]. split; [apply Hk|].
    rewrite (ke_pos _ _ Hk), Hpos. unfold MAX_BUF_SIZE. lia. }
  rewrite u32_small by lia.
  eapply safe_mono; [apply IH; [apply Hk|lia|lia|lia|by rewrite (ke_pos _ _ Hk)]|].
  intros r' g2 [Hr [Hg2 Hw2]]. split; [done|]. split; [done|]. etrans; [apply Hk|done].
Qed.

(** ** Rounds *)

(** A parent that sends its packets one by one never fills the buffer. *)
Definition small_reads : Prop := ∀ n fd k l, env_read n fd k = ReadOk l → zlen l = 0 ∨ zlen l + 4 <= k.

Context (Hsmall : small_reads).

Lemma reconnect_safe {k : B (svc_locals + unit)} g0 g :
  after_round g0 g → (∀ g', after_round g0 g' → safe k (λ _, after_round g0) g') →
  safe (reconnect k) (λ _, after_round g0) g.
Proof using L P.
  intros Hg Hk. unfold reconnect. apply safe_bind, safe_connect; [apply Hg|].
  intros r g' _ Hw Hr. assert (after_round g0 g') as Hg' by (eapply after_more; [done|apply Hr, Hg|done]).
  destruct (r <? 0); [by apply safe_ret|by apply Hk].
Qed.

Lemma svc_read_safe l g0 g : after_round g0 g → safe (svc_read l) (λ _, after_round g0) g.
Proof using L P Hsmall.
  intros Hg. pose proof Hg as [[Hok Hpos] Hw0]. unfold MAX_BUF_SIZE in Hpos. unfold svc_read.
  apply safe_bind, safe_gets. destruct (Z.leb_spec MAX_BUF_SIZE (c_cur_buf_pos (g_client g)));
    [unfold MAX_BUF_SIZE in *; lia|].
  rewrite u32_small by (unfold MAX_BUF_SIZE; lia).
  assert (∀ g1, after_round g0 g1 → safe
    (do e <- gets (w_errno ∘ g_world);
     if would_block e then
       do _ <- send_pingreq_msg; ret (inl (mkLocals (last_msg_time l) (u32 (send_ping_req_time l + 1))))
     else reconnect (ret (inl l))) (λ _, after_round g0) g1) as Hnone.
  { intros g1 H1. apply safe_bind, safe_gets. destruct (would_block _).
    - apply safe_send; [lia|by apply empty_answers|]. intros g2 Ht. apply safe_ret.
      by eapply after_talked.
    - apply reconnect_safe; [done|]. intros g2 H2. by apply safe_ret. }
  apply safe_bind, safe_served. unfold sys_read. apply safe_bind, safe_sys.
  destruct (env_read _ _ _) as [data|e] eqn:Hread.
  2:{ apply safe_bind, safe_modify, safe_ret, Hnone.
      apply (after_talked g0 g); [done|]. exact (talked_quiet (S (w_calls (g_world g))) e g). }
  apply safe_ret. destruct data as [|d data].
  { apply Hnone, (after_talked g0 g); [done|].
    exact (talked_quiet (S (w_calls (g_world g))) (w_errno (g_world g)) g). }
  apply Hsmall in Hread as [Hz|Hread]; [by rewrite zlen_cons in Hz; pose proof (zlen_nonneg data); lia|].
  set (l1 := d :: data) in *. unfold MAX_BUF_SIZE in Hread. pose proof (zlen_nonneg l1).
  apply safe_bind, safe_served, safe_sys, safe_bind, safe_upd_client, safe_bind, safe_upd_client.
  cbv zeta. rewrite !u32_small by lia. set (n := c_cur_buf_pos (g_client g) + zlen l1).
  apply safe_bind. set (g1 := upd_g_client _ (upd_g_client _ _)).
  assert (bridge_ok g1) as H1.
  { destruct Hok. split; try done. cbn. rewrite zlen_splice; unfold MAX_BUF_SIZE, zlen in *; lia. }
  assert (c_cur_buf_pos (g_client g1) = n) as Hn1.
  { cbn. apply u32_small. unfold zlen in *. lia. }
  eapply safe_mono; [apply client_process_loop_safe; [exact H1|unfold n; lia| |lia|exact Hn1]|].
  { unfold n, MAX_BUF_SIZE. lia. }
  intros r g2 [_ [Hr2 Hw2]]. assert (after_round g0 g2) as H2 by (eapply after_more; [exact Hg|done|transitivity (g_world g1); [by split|exact Hw2]]).
  destruct (r =? NEED_MORE_DATA); [by apply safe_ret|].
  destruct (r =? -1); [|by apply safe_ret]. apply reconnect_safe; [done|]. intros g3 H3. by apply safe_ret.
Qed.

Lemma svc_step_safe l g0 g : after_round g0 g → safe (svc_step l) (λ _, after_round g0) g.
Proof using L P Hsmall.
  intros Hg. unfold svc_step. apply safe_bind, safe_served, safe_sys. set (g1 := upd_g_world _ g).
  assert (after_round g0 g1) as H1.
  { apply (after_talked g0 g); [done|]. exact (talked_quiet (S (w_calls (g_world g))) (w_errno (g_world g)) g). }
  destruct (_ || _); [|by apply svc_read_safe].
  apply reconnect_safe; [done|]. intros g2 H2. by apply svc_read_safe.
Qed.

Lemma svc_loop_safe n l g0 g : after_round g0 g → safe (svc_loop n l) (λ _, after_round g0) g.
Proof using L P Hsmall.
  revert l g. induction n as [|n IH]; intros l g Hg; cbn [svc_loop]; [by apply safe_ret|].
  apply safe_bind, safe_served, safe_sys. set (g1 := upd_g_world _ g).
  assert (after_round g0 g1) as H1.
  { apply (after_talked g0 g); [done|]. exact (talked_quiet (S (w_calls (g_world g))) (w_errno (g_world g)) g). }
  destruct (env_stopped _); [by apply safe_ret|]. apply safe_bind.
  eapply safe_mono; [by apply svc_step_safe|]. intros [l1|[]] g2 H2; [by apply IH|by apply safe_ret].
Qed.

Lemma svc_end_safe g0 g : after_round g0 g → safe svc_end (λ _, after_round g0) g.
Proof using L P.
  intros Hg. unfold svc_end. apply safe_send; [lia|by apply empty_answers|]. intros g1 Ht.
  apply safe_bind, safe_gets, safe_served, safe_modify.
  destruct (after_talked _ _ _ Hg Ht) as [[Ho Hp] Hw]. split; [|by grows]. split; [by destruct Ho; split|exact Hp].
Qed.

Lemma svc_safe n g : bridge_ok g → safe (svc n) (λ _, after_round g) g.
Proof using L P Hsmall.
  intros Hg. unfold svc. apply safe_bind, safe_connect; [done|]. intros r g1 H1 Hw1 _.
  apply safe_bind, safe_served, safe_sys, safe_bind, safe_upd_client. set (g2 := upd_g_client _ _).
  assert (after_round g g2) as H2.
  { split; [|by grows]. split; [by destruct H1; split|]. cbn. unfold MAX_BUF_SIZE. lia. }
  apply safe_bind. eapply safe_mono; [by apply svc_loop_safe|]. intros [l|[]] g3 H3; [by apply safe_ret|].
  apply safe_bind. eapply safe_mono; [by apply svc_end_safe|]. intros [] g4 H4. by apply safe_ret.
Qed.

End thread.

(** ** Properties *)


(** A parent that answers every read with [input], if the buffer has room for it. *)
Definition parent_env (input : list Z) : Env := {|
  env_write := λ _ _ l, IoOk (zlen l);
  env_read := λ _ _ k, if zlen input + 4 <=? k then ReadOk (map u8 input) else ReadErr EAGAIN;
  env_accept := λ _, IoErr EAGAIN;
  env_epoll_wait := λ _ _, WaitOk [];
  env_epoll_ctl := λ _, None;
  env_peer := λ _ _, of_string "10.0.0.1:1";
  env_time := λ _, 1000;
  env_junk := λ _ _, 0;
  env_order := λ _ X, elements X;
  env_topic_order := λ _ X, elements X;
  env_mqtt_bridge := 0;
|}.

Definition sample_bridge_env : BridgeEnv := {|
  env_socket := λ _, IoOk 20;
  env_connect := λ n _, if (n <? 3)%nat then Some 111 else None;
  env_stopped := λ _, false;
  bridge_patience := {| env_patience := 3 |};
|}.

Lemma parent_laws input : @EnvLaws (parent_env input).
Proof.
  split; simpl; try done.
  - intros n s l k [= <-]. pose proof (zlen_nonneg l). lia.
  - intros n s k l Hk. destruct (Z.leb_spec (zlen input + 4) k) as [Hle|_]; [|done]. intros [= <-]. split.
    + unfold zlen in *. rewrite length_map. lia.
    + apply list.Forall_forall. intros b Hb. apply list_elem_of_fmap in Hb as (a&->&_). apply u8_range.
  - intros n I l e p [= <-] Hl. by apply elem_of_nil in Hl.
Qed.

Lemma sample_bridge_laws input : @BridgeLaws (parent_env input) sample_bridge_env.
Proof.
  split.
  - split. cbn. intros n fd l Hl. exists 0%nat. split; [lia|]. destruct l as [|a l]; [done|].
    rewrite zlen_cons. pose proof (zlen_nonneg l). lia.
  - intros n fd. exists 2%nat. unfold env_connect, env_patience, bridge_patience, sample_bridge_env. split; [lia|].
    left. destruct (Nat.ltb_spec (n + 2 * 2) 3); [lia|done].
Qed.

Lemma parent_small_reads input : @small_reads (parent_env input).
Proof.
  intros n fd k l. cbn. destruct (Z.leb_spec (zlen input + 4) k) as [Hle|_]; [|done]. intros [= <-].
  right. unfold zlen in *. by rewrite length_map.
Qed.

(** A client beside the server's first state. *)
Definition sample_client (buf : list Z) : TCPClient := {|
  c_recv_buffer := splice 0 buf (replicate (Z.to_nat MAX_BUF_SIZE) 0); c_cur_buf_pos := 0;
  c_client_socket := 20; c_str_client_id := of_string "bridge"; c_str_topic_name := of_string "t";
  c_topic_qos := 0;
|}.

Definition sample_input : list Z := [0x20; 2; 0; 0] ++ publish_bytes false 7 (of_string "t") [1; 2; 3].

Lemma sample_client_ok : bridge_ok (mkBridge started (sample_client []) []).
Proof.
  split; try (vm_compute; discriminate).
  - apply reachable_inv, started_reachable.
  - apply waiting_nil. reflexivity.
  - vm_compute. reflexivity.
Qed.

