(* ===== verification/Relay.v ===== *)
(** * What the bridge passes on

    The functional behaviour of Bridge.v: the publications of the parent server, in
    the order in which they arrive, wait for the server's own thread, which gives each
    to the subscribers of its topic; each is acknowledged. *)

From S2P Require Import Prelude Pkt Msg Mbuf MemStore Context World Sample Handler Delivery Blocking.
From S2P Require Import SubMgr Connection Invariant Poller Scenarios Safety Sessions Server Publish Notify Framing.
From S2P Require Import Waiting Copy Bridge Bridging.
From stdpp Require Import options.

(** ** Specification *)

(** What a packet makes the client pass on and answer; nothing, and the end of the
    connection, if it does not expect it. *)
Definition client_one (topic : str) (buf : list Z) (len : Z) : option (list (list Z) * list Z) :=
  match first_type buf with
  | Some CONNACK =>
      Some ([], packet (header_of_type SUBSCRIBE) (subscribe_body 1 [mkTopic topic 1]))
  | Some PUBLISH =>
      match run_decode CMqttPublish_decode buf len with
      | Ok m => Some ([take (Z.to_nat len) buf], packet (header_of_type PUBACK) (be16 (pub_msg_id m)))
      | _ => None
      end
  | Some SUBACK | Some PINGRESP => Some ([], [])
  | _ => None
  end.

(** The packets at the places [fs] of the bytes [l]. *)
Fixpoint client_spec (topic : str) (l : list Z) (fs : list (Z * Z)) : list (list Z) * list Z :=
  match fs with
  | [] => ([], [])
  | (off, len) :: fs =>
      match client_one topic (drop (Z.to_nat off) l) len with
      | None => ([], [])
      | Some (relayed, answer) =>
          (relayed ++ (client_spec topic l fs).1, answer ++ (client_spec topic l fs).2)
      end
  end.

(** The contents of the messages that wait for the server's thread. *)
Definition pending (w : World) : list (option (list Z)) :=
  map (λ b, contents <$> w_mbufs w !! b) (m_notify_deque (w_poller w)).

(** The socket is not the descriptor of the notifications. *)
Definition own_socket (g : Bridge) : Prop :=
  ∀ p o, m_notify_writer (w_poller (g_world g)) = Some p → w_objs (g_world g) !! p = Some o →
    m_sock_handle (o_handler o) ≠ c_client_socket (g_client g).

(** The client has written [l]; nothing has changed besides. *)
Definition says (l : list output) (g g' : Bridge) : Prop :=
  g_client g' = g_client g ∧ writes_out l (g_world g) (g_world g').

Section relaying.
Context {E : Env} {L : EnvLaws} {G : BridgeEnv} {P : BridgeLaws}.
Context (Hall : accepts_all).

(** A packet that fits is sent as it is. *)
Lemma send_msg_says h body size enc g :
  (∀ buf, zlen buf = size → enc buf size = encoded h buf body) →
  zlen (packet h body) <= size → size < 2 ^ 31 →
  safe (send_msg size enc) (λ _ g', says [Sent (c_client_socket (g_client g)) (packet h body)] g g') g.
Proof using P Hall.
  intros Henc Hl Hs. unfold send_msg. apply safe_bind, safe_served, safe_sys.
  set (buf := map _ _). pose proof (zlen_nonneg (packet h body)).
  assert (zlen buf = size) as Hbuf by (unfold buf, zlen; rewrite length_map, length_seq; lia).
  rewrite Henc by done. unfold encoded. set (n := zlen (packet h body)).
  assert (0 < n) as Hn by (unfold n; rewrite zlen_packet; zlia).
  rewrite (proj2 (Z.leb_gt n 0)) by lia. unfold write_n. set (data := packet h body ++ _).
  apply safe_bind, safe_gets, safe_served.
  eapply safe_mono; [apply write_all_n_at_once; [by intros; apply Hall|]|].
  { unfold data. rewrite zlen_app. pose proof (zlen_nonneg (drop (Z.to_nat n) buf)). unfold n. zlia. }
  intros r w [-> Hw]. split; [done|].
  replace (take (Z.to_nat n) data) with (packet h body) in Hw
    by (unfold n, data; symmetry; apply take_app_length'; unfold zlen; lia).
  eapply (writes_out_app [] [_]); [|exact Hw].
  apply (writes_out_quiet (S (w_calls (g_world g))) (w_errno (g_world g))).
Qed.

Lemma send_msg_packet h body size enc g :
  (∀ buf, zlen buf = size → enc buf size = encoded h buf body) →
  zlen (packet h body) <= size → size < 2 ^ 31 →
  safe (send_msg size enc) (λ _ g', talked g g' ∧ sent_to (c_client_socket (g_client g)) (g_world g') =
     sent_to (c_client_socket (g_client g)) (g_world g) ++ packet h body) g.
Proof using P Hall.
  intros Henc Hl Hs. eapply safe_mono; [by apply (send_msg_says h body)|].
  intros r g' [Hc (n&e&Hw)]. split; [split; [done|]; by exists n, e, [Sent (c_client_socket (g_client g)) (packet h body)]|].
  rewrite Hw. etrans; [apply sent_to_emit|]. by rewrite Z.eqb_refl.
Qed.

Lemma pending_talked g g' : talked g g' → pending (g_world g') = pending (g_world g).
Proof. by intros [_ (n&e&l&->)]. Qed.

Lemma pending_relayed b l id w w' p :
  Inv w → m_notify_writer (w_poller w) = Some p → relayed b l id w w' →
  pending w' = pending w ++ [Some l].
Proof.
  intros Hi Hp [Hfresh (m&Hm&Hc&_) _ _ _ _ _ Hq _ _]. unfold pending. rewrite Hq, Hp, map_app.
  f_equal.
  - apply map_ext_in. intros c Hcq%list_elem_of_In. rewrite Hm, lookup_insert_ne; [done|].
    intros <-. destruct (i_deque _ _ _ _ _ _ _ _ _ _ Hi _ Hcq). congruence.
  - cbn. by rewrite Hm, lookup_insert_eq, <- Hc.
Qed.

(** What the client has passed on and answered. *)
Definition serves (g : Bridge) (spec : list (list Z) * list Z) (g' : Bridge) : Prop :=
  pending (g_world g') = pending (g_world g) ++ (Some <$> spec.1) ∧
  sent_to (c_client_socket (g_client g)) (g_world g') =
    sent_to (c_client_socket (g_client g)) (g_world g) ++ spec.2.

Lemma serves_nothing g : serves g ([], []) g.
Proof. split; by rewrite app_nil_r. Qed.

Lemma serves_trans g1 g2 g3 r1 a1 r2 a2 :
  c_client_socket (g_client g2) = c_client_socket (g_client g1) →
  serves g1 (r1, a1) g2 → serves g2 (r2, a2) g3 → serves g1 (r1 ++ r2, a1 ++ a2) g3.
Proof.
  intros Hs [W1 A1] [W2 A2]. cbn [fst snd] in *. rewrite Hs in A2. split; cbn [fst snd].
  - by rewrite W2, W1, fmap_app, app_assoc.
  - by rewrite A2, A1, app_assoc.
Qed.

Lemma client_process_mqtt_serves off len g :
  bridge_ok g → own_socket g → is_Some (m_notify_writer (w_poller (g_world g))) →
  0 <= off → 0 < len → off + len <= MAX_BUF_SIZE - 4 →
  safe (client_process_mqtt off len) (λ r g', kept g g' ∧
    match client_one (c_str_topic_name (g_client g)) (drop (Z.to_nat off) (c_recv_buffer (g_client g))) len with
    | Some spec => r = 0 ∧ serves g spec g'
    | None => r = -1 ∧ serves g ([], []) g'
    end) g.
Proof using P Hall.
  unfold MAX_BUF_SIZE. intros Hg Hown [p Hp] Hoff Hlen Hmax. pose proof (bo_buffer _ Hg) as Hbuf.
  unfold MAX_BUF_SIZE in Hbuf. unfold client_process_mqtt, client_one. apply safe_bind, safe_client_recv.
  set (buf := drop _ _). assert (zlen buf = 4096 - off) as Hb by (unfold buf; rewrite zlen_drop; lia).
  destruct buf as [|b buf'] eqn:Hbufeq; [rewrite zlen_nil in Hb; lia|]. rewrite <- Hbufeq in *.
  assert (first_type buf = Some (MqttType_of_Z (Z.shiftr (Z.land b 240) 4))) as -> by by rewrite Hbufeq.
  assert (kept g g) as Hkg by (split; [exact Hg|done..]). pose proof (serves_nothing g) as Hnone.
  destruct (MqttType_of_Z _); try (apply safe_ret; split; [exact Hkg|split; [done|exact Hnone]]).
  - unfold send_subscribe_msg. apply safe_bind, safe_bind, safe_upd_client, safe_bind, safe_gets.
    set (g1 := upd_g_client _ g). set (topic := c_str_topic_name (g_client g)).
    set (body := subscribe_body 1 [mkTopic topic 1]). pose proof (bo_topic _ Hg) as Ht. fold topic in Ht.
    assert (zlen body = zlen topic + 5) as Hbl
      by (unfold body, subscribe_body, topic_bytes; cbn; autorewrite with zlen; lia).
    pose proof (zlen_nonneg topic). pose proof (zlen_varint_14 (zlen body)).
    pose proof (zlen_packet (header_of_type SUBSCRIBE) body).
    eapply safe_mono; [apply (send_msg_packet (header_of_type SUBSCRIBE) body); [|lia..]|].
    { intros buf0 Hbuf0. apply subscribe_packet;
      [lia..|done|apply list.Forall_singleton; change (zlen topic < 65536); lia|change (zlen (packet (header_of_type SUBSCRIBE) body) <= 256); lia]. }
    intros r g2 [Ht2 Hs2]. apply safe_ret. split.
    + eapply bridge_kept_trans; [|eapply kept_talked; [|exact Ht2]]; [split; [by destruct Hg; split|done..]|].
      by destruct Hg; split.
    + split; [done|]. split; [by rewrite (pending_talked _ _ Ht2), app_nil_r|exact Hs2].
  - assert (kept g (upd_g_world (λ _, g_world g) g)) as Hk0 by (split; [by destruct Hg; split|done..]).
    apply safe_bind, safe_served, safe_decoded.
    + intros u. apply run_decode_safe; [lia..|]. apply publish_decode_tame; lia.
    + intros ->. by apply safe_ret.
    + intros m Hd. rewrite Hd. destruct (publish_copy buf len m) as [Hne Hcopy]; [lia..|done|].
      apply safe_relay; [apply Hg|apply zlen_take; lia|lia|apply Inv_writer, Hg|].
      intros b0 w' Hr. pose proof (relayed_ok _ _ _ _ _ _ (ke_ok _ _ Hk0) Hr Hne Hcopy) as Hk.
      cbn [g_world upd_g_world] in Hr. apply safe_bind.
      eapply safe_mono; [apply (send_msg_packet (header_of_type PUBACK) (be16 (pub_msg_id m))); [|done..]|].
      { intros buf0 Hbuf0. apply encode_ack_packet; lia. }
      intros r g2 [Ht2 Hs2]. apply safe_ret. split.
      { eapply bridge_kept_trans; [exact Hk0|]. eapply bridge_kept_trans; [exact Hk|]. by apply kept_talked; [apply Hk|]. }
      split; [done|]. split; cbn [fst snd].
      * rewrite (pending_talked _ _ Ht2). by eapply pending_relayed; [apply Hg|..].
      * etrans; [exact Hs2|]. cbn [g_world upd_g_world g_client]. f_equal.
        apply (re_out _ _ _ _ _ Hr). intros q o Hq Ho. by apply (Hown q).
Qed.

(** ** A publication, from the parent to the subscribers *)

Lemma header_type_bits h :
  0 <= qos h < 4 → MqttType_of_Z (Z.shiftr (Z.land (CMqttFixedHeader_encode h) 240) 4) = msg_type h.
Proof.
  destruct h as [t d q r]; cbn [qos msg_type]. intros Hq.
  assert (q = 0 ∨ q = 1 ∨ q = 2 ∨ q = 3) as [->|[->|[->| ->]]] by lia; destruct t, d, r; reflexivity.
Qed.

(** The buffer [b] is new and holds the packet; the PUBACK has been sent. *)
Record passed_on (b id : Z) (l : list Z) (g g' : Bridge) : Prop := {
  po_relayed : ∃ w', relayed b l id (g_world g) w' ∧ talked (upd_g_world (λ _, w') g) g';
  po_sent : sent_to (c_client_socket (g_client g)) (g_world g') =
    sent_to (c_client_socket (g_client g)) (g_world g) ++ packet (header_of_type PUBACK) (be16 id);
}.

Lemma client_publish_passed_on off h topic id payload junk g :
  let body := publish_body topic id payload in
  let l := packet h body in
  bridge_ok g → own_socket g → msg_type h = PUBLISH → 0 <= qos h < 4 → zlen topic < 65536 →
  0 <= id < 65536 → 0 <= off → off + zlen l <= MAX_BUF_SIZE - 4 →
  drop (Z.to_nat off) (c_recv_buffer (g_client g)) = l ++ junk →
  safe (client_process_mqtt off (zlen l)) (λ r g', r = 0 ∧ ∃ b, passed_on b id l g g') g.
Proof using P Hall.
  intros body l Hg Hown Hty Hq Ht Hid Hoff Hmax Hbuf. unfold MAX_BUF_SIZE in Hmax.
  assert (zlen body < 2 ^ 14) as Hbody
    by (unfold l in Hmax; rewrite zlen_packet in Hmax; pose proof (zlen_nonneg (varint 5 (zlen body))); lia).
  unfold client_process_mqtt. apply safe_bind, safe_client_recv. rewrite Hbuf.
  unfold l at 1, packet at 1. cbn [app]. rewrite header_type_bits, Hty by done. rewrite <- Hbuf.
  apply safe_bind, safe_served. rewrite Hbuf. unfold l at 1 2, body at 1 2.
  rewrite publish_decode_packet by done. apply safe_ret.
  cbn [pub_msg_id]. rewrite take_app_length' by (unfold zlen; lia).
  apply safe_relay; [apply Hg|done|lia|apply Inv_writer, Hg|]. intros b w' Hr. cbn [g_world upd_g_world] in Hr.
  apply safe_bind. eapply safe_mono; [apply (send_msg_packet (header_of_type PUBACK) (be16 id)); [|done..]|].
  { intros buf0 Hbuf0. apply encode_ack_packet; lia. }
  intros r g2 [Ht2 Hs2]. apply safe_ret. split; [done|]. exists b. split; [by exists w'|].
  etrans; [exact Hs2|]. cbn [g_world upd_g_world g_client]. f_equal.
  apply (re_out _ _ _ _ _ Hr). intros q o Hq' Ho. by apply (Hown q).
Qed.

Definition published_as (h : CMqttFixedHeader) (topic : str) (id : Z) (payload : list Z) : CMqttPublish :=
  let body := publish_body topic id payload in
  {| pub_base := base_of h body; pub_topic_name := topic; pub_payload := payload; pub_msg_id := id;
     pub_msg_id_offset := 1 + zlen (varint 5 (zlen body)) + 2 + zlen topic |}.

Lemma passed_on_waits b h topic id payload g g' :
  let l := packet h (publish_body topic id payload) in
  0 <= qos h < 4 → zlen topic < 65536 → 0 <= id < 65536 → zlen l < 2 ^ 14 →
  passed_on b id l g g' → waits (g_world g') b (published_as h topic id payload).
Proof.
  intros l Hq Ht Hid Hl [(w'&Hr&[_ (n&e&o&Hw)]) _]. rewrite Hw.
  change (waits w' b (published_as h topic id payload)). apply (relayed_waits b l id _ _ _ Hr); [done|].
  rewrite <- (app_nil_r l) at 1. apply publish_decode_packet; [done..|].
  unfold l in Hl. rewrite zlen_packet in Hl. pose proof (zlen_nonneg (varint 5 (zlen (publish_body topic id payload)))). lia.
Qed.

(** The packets of a read. *)
Lemma client_process_loop_serves fuel len off g :
  bridge_ok g → own_socket g → is_Some (m_notify_writer (w_poller (g_world g))) →
  0 <= off <= len → len <= MAX_BUF_SIZE - 4 → len - off < Z.of_nat fuel →
  safe (client_process_loop fuel len off) (λ r g', (r = 0 ∨ r = -1) ∧ bridge_ok g' ∧
    serves g (client_spec (c_str_topic_name (g_client g)) (c_recv_buffer (g_client g))
                (frames fuel (c_recv_buffer (g_client g)) len off).1) g') g.
Proof using P Hall.
  revert off g. induction fuel as [|fuel IH]; intros off g Hg Hown Hwr Hoff Hlen Hf; [lia|].
  pose proof (bo_buffer _ Hg) as Hbuf. unfold MAX_BUF_SIZE in *. cbn [client_process_loop frames].
  pose proof (serves_nothing g) as Hnone.
  destruct (Z.ltb_spec off len) as [Hlt|Hge].
  2:{ apply safe_bind, safe_upd_client, safe_ret. split; [by left|].
      split; [by destruct Hg; split|exact Hnone]. }
  apply safe_bind, safe_client_recv. set (buf := drop _ _).
  assert (zlen buf = 4096 - off) as Hb by (unfold buf; rewrite zlen_drop; lia).
  destruct (remain_length_spec buf (len - off)) as (rl&Hrl&Hcases); [lia..|].
  unfold NEED_MORE_DATA, FAILTURE in *. rewrite Hrl. apply safe_bind. unfold lift. apply safe_ret.
  destruct (Z.eqb_spec (rl_ret rl) (-2)) as [Hn|Hn].
  { destruct (negb (off =? 0)).
    - apply safe_bind, safe_bind, safe_upd_client, safe_upd_client, safe_ret. split; [by left|].
      split; [|exact Hnone]. destruct Hg. split; try done.
      cbn. rewrite (zlen_splice 0); unfold zlen in *; rewrite ?length_take, ?length_drop; lia.
    - apply safe_ret, safe_ret. split; [by left|]. by split. }
  destruct (Z.eqb_spec (rl_ret rl) (-1)) as [Hm|Hm].
  { apply safe_ret. split; [by right|]. by split. }
  destruct Hcases as [?|[?|(Hr1&Hr2&Hr3&Hr4)]]; [lia..|].
  rewrite u32_small by lia. set (total := rl_ret rl + remain_length_bytes rl + 1).
  apply safe_bind. eapply safe_mono.
  { apply client_process_mqtt_serves; [done..|lia|lia|unfold MAX_BUF_SIZE; lia]. }
  intros r g1 [Hk Hone]. cbn [fst client_spec]. fold buf in Hone |- *. fold total in Hone |- *.
  destruct (client_one _ buf total) as [[rel ans]|].
  2:{ destruct Hone as [-> Hs]. apply safe_ret. split; [by right|]. split; [apply Hk|exact Hs]. }
  destruct Hone as [-> Hs]. change (0 <? 0) with false. cbv iota. rewrite u32_small by lia.
  pose proof (ke_socket _ _ Hk) as Hsock. eapply safe_mono.
  { pose proof (ke_grew _ _ Hk) as [Hobjs _ _ _ Hwriter _ _].
    apply IH; [apply Hk| |by rewrite Hwriter|lia|done|lia].
    intros p o. rewrite Hwriter, Hobjs, Hsock. apply Hown. }
  intros r g2 (Hr&H2&Hs2). split; [done|]. split; [done|].
  rewrite (ke_buffer _ _ Hk), (ke_topic _ _ Hk) in Hs2. by eapply serves_trans.
Qed.

End relaying.

(** ** Properties *)

(** Claim C8: a publication of the parent reaches the local subscribers.  The client's
    thread handles a PUBLISH packet: it answers PUBACK and leaves the packet to the
    server's thread, which then handles its notification: the unchanged packet is
    appended once to the queue of every session that subscribes to its topic, or in the
    other modes once for each topic of each session, and nothing else waits. *)
Theorem parent_publication_delivered {E : Env} {C : Calm} {G : BridgeEnv} {P : BridgeLaws}
    off p h topic id payload junk g :
  let l := packet h (publish_body topic id payload) in
  accepts_all → bridge_ok g → own_socket g → msg_type h = PUBLISH → 0 <= qos h < 4 →
  zlen topic < 65536 → 0 <= id < 65536 → 0 <= off → off + zlen l <= MAX_BUF_SIZE - 4 →
  drop (Z.to_nat off) (c_recv_buffer (g_client g)) = l ++ junk →
  notified (g_world g) = (Some p, []) →
  ∃ b g1 w2, client_process_mqtt off (zlen l) g = (Ok 0, g1) ∧
    sent_to (c_client_socket (g_client g)) (g_world g1) =
      sent_to (c_client_socket (g_client g)) (g_world g) ++ packet (header_of_type PUBACK) (be16 id) ∧
    contents <$> w_mbufs (g_world g1) !! b = Some l ∧
    notify_handle_input p (g_world g1) = (Ok 0, w2) ∧ Inv w2 ∧ m_notify_deque (w_poller w2) = [] ∧
    ∀ x, w_ctxs w2 !! x =
      queue_more (replicate (copies (g_world g) (published_as h topic id payload) x) b)
        <$> w_ctxs (g_world g) !! x.
Proof.
  intros l Hall Hg Hown Hty Hq Ht Hid Hoff Hmax Hbuf [= Hp Hd].
  destruct (safe_inv _ _ _ (client_publish_passed_on Hall off h topic id payload junk g
    Hg Hown Hty Hq Ht Hid Hoff Hmax Hbuf)) as (r&g1&Hr&->&b&Hpo).
  unfold MAX_BUF_SIZE in Hmax. assert (zlen l < 2 ^ 14) as Hl by lia.
  pose proof (passed_on_waits b h topic id payload g g1 Hq Ht Hid Hl Hpo) as Hw.
  destruct Hpo as [(w'&Hr'&Ht') Hsent]. pose proof (re_inv _ _ _ _ _ Hr') as Hi'.
  destruct (re_mbuf _ _ _ _ _ Hr') as (m&Hm&Hc&_). pose proof (re_deque _ _ _ _ _ Hr') as Hdq.
  rewrite Hp, Hd in Hdq. pose proof (talked_Inv _ _ Ht' Hi') as Hi1.
  pose proof (ta_world _ _ Ht') as (n&e&o&Hw1). cbn [g_world upd_g_world] in Hw1.
  destruct (Inv_writer _ (bo_world _ Hg) p Hp) as [op Hop].
  destruct (safe_inv _ _ _ (notify_input_spreads p [(b, published_as h topic id payload)] (g_world g1) Hi1
    ltac:(exists op; rewrite Hw1; etrans; [exact (f_equal (lookup p) (re_objs _ _ _ _ _ Hr'))|exact Hop])
    ltac:(rewrite Hw1; exact Hdq) (NoDup_singleton b) ltac:(by apply list.Forall_singleton)))
    as (r2&w2&Hr2&->&Hi2&Hn2&[Hs2 _ _]). pose proof (f_equal snd Hn2) as Hd2.
  exists b, g1, w2. split_and!; try done.
  - rewrite Hw1. change (contents <$> w_mbufs w' !! b = Some l). rewrite Hm, lookup_insert_eq.
    exact (f_equal Some Hc).
  - intros x. rewrite Hs2. unfold appended. cbn [map concat]. rewrite app_nil_r.
    unfold copies, topics_of, subscribers_of. rewrite Hw1.
    cbn [w_topics w_ctxs talk upd_calls upd_errno upd_out eta_world].
    by rewrite (re_topics _ _ _ _ _ Hr'), (re_ctxs _ _ _ _ _ Hr').
Qed.

(** Claim C9: what arrives from the parent is passed on, in order.  If the [len] bytes
    in the buffer are cut into the packets [fs], [process] adds to the messages that
    wait for the server's thread exactly the publications among them, in their order
    and unchanged, and sends to the parent one PUBACK for each and one SUBSCRIBE for
    each CONNACK; it stops at the first packet that it does not expect or cannot
    decode, and then returns -1. *)
Theorem packets_relayed {E : Env} {L : EnvLaws} {G : BridgeEnv} {P : BridgeLaws} len g :
  accepts_all → bridge_ok g → own_socket g → is_Some (m_notify_writer (w_poller (g_world g))) →
  0 <= len <= MAX_BUF_SIZE - 4 →
  let fs := (frames (S (Z.to_nat len)) (c_recv_buffer (g_client g)) len 0).1 in
  let spec := client_spec (c_str_topic_name (g_client g)) (c_recv_buffer (g_client g)) fs in
  ∃ r g', client_process len g = (Ok r, g') ∧ (r = 0 ∨ r = -1) ∧ bridge_ok g' ∧
    pending (g_world g') = pending (g_world g) ++ (Some <$> spec.1) ∧
    sent_to (c_client_socket (g_client g)) (g_world g') =
      sent_to (c_client_socket (g_client g)) (g_world g) ++ spec.2.
Proof.
  intros Hall Hg Hown Hwr Hlen fs spec.
  destruct (safe_inv _ _ _ (client_process_loop_serves Hall (S (Z.to_nat len)) len 0 g Hg Hown Hwr
    ltac:(lia) ltac:(lia) ltac:(lia))) as (r&g'&Hr&?&?&?&?). by exists r, g'.
Qed.

(** The client after the packets of [sample_input] have been read. *)
Definition g_read : Bridge := mkBridge w_pub (sample_client sample_input) [].

Lemma g_read_ok : bridge_ok g_read.
Proof.
  split; try (vm_compute; discriminate).
  - apply reachable_inv, published_reachable.
  - apply waiting_nil. vm_compute. reflexivity.
  - vm_compute. reflexivity.
Qed.

Lemma g_read_own : own_socket g_read.
Proof. intros p o. vm_compute. intros [= <-] [= <-]. discriminate. Qed.

Lemma g_read_writer : m_notify_writer (w_poller (g_world g_read)) = Some notify_fd.
Proof. vm_compute. reflexivity. Qed.

Lemma parent_calm input : @Calm (parent_env input).
Proof. split; [apply parent_laws|done|done]. Qed.

Lemma parent_accepts input : @accepts_all (parent_env input).
Proof. intros n fd l. reflexivity. Qed.

Lemma packets_relayed_witness :
  let len := zlen sample_input in
  let fs := (frames (S (Z.to_nat len)) (c_recv_buffer (g_client g_read)) len 0).1 in
  let spec := client_spec (c_str_topic_name (g_client g_read)) (c_recv_buffer (g_client g_read)) fs in
  ∃ r g', @client_process (parent_env []) sample_bridge_env len g_read = (Ok r, g') ∧
    (r = 0 ∨ r = -1) ∧ bridge_ok g' ∧
    pending (g_world g') = pending (g_world g_read) ++ (Some <$> spec.1) ∧
    sent_to (c_client_socket (g_client g_read)) (g_world g') =
      sent_to (c_client_socket (g_client g_read)) (g_world g_read) ++ spec.2.
Proof.
  refine (@packets_relayed (parent_env []) (parent_laws _) sample_bridge_env (sample_bridge_laws _)
    (zlen sample_input) g_read (parent_accepts _) g_read_ok g_read_own _ _).
  - eexists. exact g_read_writer.
  - vm_compute. split; discriminate.
Defined.

Lemma parent_publication_delivered_witness :
  let h := mkHeader PUBLISH false 1 false in
  let topic := of_string "t" in
  let l := packet h (publish_body topic 7 [1; 2; 3]) in
  ∃ b g1 w2, @client_process_mqtt (parent_env []) sample_bridge_env 4 (zlen l) g_read = (Ok 0, g1) ∧
    sent_to (c_client_socket (g_client g_read)) (g_world g1) =
      sent_to (c_client_socket (g_client g_read)) (g_world g_read) ++ packet (header_of_type PUBACK) (be16 7) ∧
    contents <$> w_mbufs (g_world g1) !! b = Some l ∧
    @notify_handle_input (parent_env []) notify_fd (g_world g1) = (Ok 0, w2) ∧ Inv w2 ∧
    m_notify_deque (w_poller w2) = [] ∧
    ∀ x, w_ctxs w2 !! x =
      queue_more (replicate (@copies (parent_env []) (g_world g_read) (published_as h topic 7 [1; 2; 3]) x) b)
        <$> w_ctxs (g_world g_read) !! x.
Proof.
  intros h topic l.
  refine (@parent_publication_delivered (parent_env []) (parent_calm _) sample_bridge_env (sample_bridge_laws _)
    4 notify_fd h topic 7 [1; 2; 3] (drop (4 + length l) (c_recv_buffer (g_client g_read))) g_read
    (parent_accepts _) g_read_ok g_read_own eq_refl _ _ _ _ _ _ _);
    vm_compute; try reflexivity; repeat split; discriminate.
Defined.
