(* ===== verification/Watchdog.v ===== *)
(** * The watchdog of the bridge

    The time limits of Bridge.v: a parent that falls silent is asked six times and is
    then connected to again. *)

From S2P Require Import Prelude Pkt Msg Mbuf MemStore Context World Sample Handler Delivery Blocking.
From S2P Require Import SubMgr Connection Invariant Poller Scenarios Safety Sessions Server.
From S2P Require Import Publish Notify Framing Bridge Bridging Relay.
From stdpp Require Import options.

Lemma says_app l1 l2 g1 g2 g3 : says l1 g1 g2 → says l2 g2 g3 → says (l1 ++ l2) g1 g3.
Proof. intros [C1 W1] [C2 W2]. split; [congruence|by eapply writes_out_app]. Qed.

Lemma says_quiet n e g : says [] g (upd_g_world (λ w, upd_calls (λ _, n) (upd_errno (λ _, e) w)) g).
Proof. split; [done|]. apply writes_out_quiet. Qed.

(** The output alone. *)
Definition prints (l : list output) (g g' : Bridge) : Prop := writes_out l (g_world g) (g_world g').

Lemma says_prints l g g' : says l g g' → prints l g g'.
Proof. by intros []. Qed.

Lemma prints_app l1 l2 g1 g2 g3 : prints l1 g1 g2 → prints l2 g2 g3 → prints (l1 ++ l2) g1 g3.
Proof. apply writes_out_app. Qed.

Lemma prints_client f g : prints [] g (upd_g_client f g).
Proof. apply writes_out_refl. Qed.

Lemma prints_close fd g : prints [Closed fd] g (upd_g_world (upd_out (λ o, o ++ [Closed fd])) g).
Proof. by exists (w_calls (g_world g)), (w_errno (g_world g)). Qed.

Definition PINGREQ_packet : list Z := packet (header_of_type PINGREQ) [].
Definition DISCONNECT_packet : list Z := packet (header_of_type DISCONNECT) [].
Definition CONNECT_packet (id : str) : list Z :=
  packet (header_of_type CONNECT) (connect_body id false).

Section silence.
Context {E : Env} {G : BridgeEnv} {P : BridgeLaws}.
Context (Hall : accepts_all) (t s : Z).

(** The parent says nothing, the connection works, and no call of [time] is more than
    five minutes after [t]. *)
Record silent : Prop := {
  si_read : ∀ n fd k, ∃ e, env_read n fd k = ReadErr e ∧ would_block e = true;
  si_running : ∀ n, env_stopped n = false;
  si_time : ∀ n, u32 (u32 (env_time n) - t) <= 300;
  si_socket : ∀ n, env_socket n = IoOk s;
  si_connect : ∀ n, env_connect n s = None;
}.
Context (Hsi : silent) (Hs : 0 <= s).

Lemma send_empty_says ty g :
  safe (send_msg 16 (run_encode (encode_empty (header_of_type ty))))
    (λ _ g', says [Sent (c_client_socket (g_client g)) (packet (header_of_type ty) [])] g g') g.
Proof using P Hall.
  apply (send_msg_says Hall); [|rewrite zlen_packet, varint_small by (rewrite zlen_nil; lia); done|lia].
  intros buf Hbuf. apply empty_packet; lia.
Qed.

(** A read that gives nothing: PINGREQ. *)
Lemma silent_read l g :
  0 <= c_cur_buf_pos (g_client g) < MAX_BUF_SIZE → 0 <= send_ping_req_time l < 10 →
  safe (svc_read l) (λ r g', r = inl (mkLocals (last_msg_time l) (send_ping_req_time l + 1)) ∧
    says [Sent (c_client_socket (g_client g)) PINGREQ_packet] g g') g.
Proof using All.
  intros Hpos Hl. unfold svc_read. apply safe_bind, safe_gets.
  rewrite (proj2 (Z.leb_gt _ _)) by lia. apply safe_bind, safe_served. unfold sys_read.
  apply safe_bind, safe_sys. destruct (si_read Hsi (w_calls (g_world g)) (c_client_socket (g_client g))
    (u32 (MAX_BUF_SIZE - c_cur_buf_pos (g_client g)))) as (e&->&He).
  apply safe_bind, safe_modify, safe_ret, safe_bind, safe_gets.
  unfold compose. cbn [g_world upd_g_world w_errno upd_errno eta_world]. rewrite He.
  set (g1 := upd_g_world _ g). assert (says [] g g1) as H1 by apply (says_quiet (S (w_calls (g_world g))) e).
  apply safe_bind. eapply safe_mono; [apply (send_empty_says PINGREQ)|]. intros r g2 H2. apply safe_ret.
  split; [by rewrite u32_small by lia|]. rewrite (proj1 H1) in H2. by apply (says_app [] _ g g1).
Qed.

Lemma silent_step k g :
  0 <= c_cur_buf_pos (g_client g) < MAX_BUF_SIZE → 0 <= k <= 5 →
  safe (svc_step (mkLocals t k)) (λ r g', r = inl (mkLocals t (k + 1)) ∧
    says [Sent (c_client_socket (g_client g)) PINGREQ_packet] g g') g.
Proof using All.
  intros Hpos Hk. unfold svc_step. apply safe_bind, safe_served, safe_sys.
  cbn [send_ping_req_time last_msg_time]. change (5 * 60) with 300.
  rewrite (proj2 (Z.ltb_ge 5 k)), (proj2 (Z.ltb_ge _ _) (si_time Hsi _)) by lia. cbn [orb].
  set (g1 := upd_g_world _ g).
  assert (says [] g g1) as H1 by apply (says_quiet (S (w_calls (g_world g))) (w_errno (g_world g))).
  eapply safe_mono; [apply silent_read; [done|cbn; lia]|]. intros r g2 [-> H2]. split; [done|].
  by apply (says_app [] _ g g1).
Qed.

(** The new connection. *)
Definition reconnected (c : TCPClient) : TCPClient :=
  upd_client_buf_pos (λ _, 0) (upd_client_socket (λ _, s) (upd_client_socket (λ _, INVALID_SOCKET) c)).

Lemma connect_loop_first fuel timeout g :
  c_client_socket (g_client g) = s → (0 < fuel)%nat →
  safe (connect_loop fuel timeout) (λ r g', r = 0 ∧ says [] g g') g.
Proof using Hsi.
  intros Hc Hf. destruct fuel as [|fuel]; [lia|]. cbn [connect_loop].
  apply safe_bind, safe_gets, safe_bind, safe_served, safe_sys. rewrite Hc, (si_connect Hsi).
  apply safe_ret. split; [done|]. apply (says_quiet (S (w_calls (g_world g))) (w_errno (g_world g))).
Qed.

Lemma connect_says g :
  c_client_socket (g_client g) ≠ INVALID_SOCKET → zlen (c_str_client_id (g_client g)) <= 200 →
  safe connect (λ r g', r = 0 ∧ g_client g' = reconnected (g_client g) ∧
    prints [Sent (c_client_socket (g_client g)) DISCONNECT_packet; Closed (c_client_socket (g_client g));
            Sent s (CONNECT_packet (c_str_client_id (g_client g)))] g g') g.
Proof using All.
  intros Hc Hid. unfold connect. apply safe_bind, safe_gets, safe_bind.
  rewrite (proj2 (Z.eqb_neq _ _) Hc). cbn [negb]. apply safe_bind.
  eapply safe_mono; [apply (send_empty_says DISCONNECT)|]. intros r0 g1 [Hc1 Hp1].
  apply safe_bind, safe_served. unfold sys_close, emit_out. apply safe_modify, safe_upd_client.
  set (g2 := upd_g_client _ _). apply safe_bind, safe_served, safe_sys. rewrite (si_socket Hsi).
  apply safe_bind, safe_upd_client. rewrite (proj2 (Z.ltb_ge s 0)) by lia.
  set (g3 := upd_g_client _ _). apply safe_bind.
  destruct (patient_write 0 0 [0]) as (j&Hj&_); [done|].
  eapply safe_mono; [apply connect_loop_first; [done|lia]|]. intros r1 g4 [-> [Hc4 Hp4]].
  change (0 <? 0) with false. cbv iota. unfold send_connect_msg. apply safe_bind, safe_bind, safe_gets.
  rewrite Hc4. change (c_str_client_id (g_client g3)) with (c_str_client_id (g_client g1)). rewrite Hc1.
  set (id := c_str_client_id (g_client g)) in *. set (body := connect_body id false).
  pose proof (zlen_nonneg id). assert (zlen body = zlen id + 14) as Hbl
    by (unfold body, connect_body; autorewrite with zlen; change (zlen (of_string "MQIsdp")) with 6; lia).
  pose proof (zlen_varint_14 (zlen body)). pose proof (zlen_packet (header_of_type CONNECT) body).
  eapply safe_mono; [apply (send_msg_says Hall (header_of_type CONNECT) body); [|lia..]|].
  { intros buf Hbuf. apply connect_packet; [lia..|]. fold body. lia. }
  intros r2 g5 [Hc5 Hp5]. apply safe_bind, safe_upd_client, safe_ret. split; [done|]. split.
  { cbn [g_client upd_g_client]. rewrite Hc5, Hc4. unfold reconnected. by rewrite <- Hc1. }
  eapply (prints_app [_] [_; _]); [exact Hp1|]. eapply (prints_app [_] [_]); [apply prints_close|].
  eapply (prints_app [] [_]); [apply (prints_client (upd_client_socket (λ _, INVALID_SOCKET)))|].
  eapply (prints_app [] [_]); [apply says_prints, (says_quiet (S (w_calls (g_world g2))) (w_errno (g_world g2)))|].
  eapply (prints_app [] [_]); [apply (prints_client (upd_client_socket (λ _, s)))|].
  eapply (prints_app [] [_]); [exact Hp4|]. eapply (prints_app [_] []); [|apply prints_client].
  rewrite Hc4 in Hp5. exact Hp5.
Qed.

(** ** Rounds *)

Lemma safe_round n l (Q : svc_locals + unit → Bridge → Prop) g :
  (∀ g', says [] g g' → safe (svc_step l) (λ r g'', match r with inl l' => safe (svc_loop n l') Q g'' | inr _ => False end) g') →
  safe (svc_loop (S n) l) Q g.
Proof using Hsi.
  intros HQ. cbn [svc_loop]. apply safe_bind, safe_served, safe_sys. rewrite (si_running Hsi).
  apply safe_bind. eapply safe_mono; [apply HQ, (says_quiet (S (w_calls (g_world g))) (w_errno (g_world g)))|].
  by intros [l'|] g'.
Qed.

Lemma pings m : ∀ n k (Q : svc_locals + unit → Bridge → Prop) g,
  0 <= c_cur_buf_pos (g_client g) < MAX_BUF_SIZE → 0 <= k → k + Z.of_nat m <= 6 →
  (∀ g', says (replicate m (Sent (c_client_socket (g_client g)) PINGREQ_packet)) g g' →
     safe (svc_loop n (mkLocals t (k + Z.of_nat m))) Q g') →
  safe (svc_loop (m + n) (mkLocals t k)) Q g.
Proof using All.
  induction m as [|m IH]; intros n k Q g Hpos Hk Hm HQ.
  { rewrite Z.add_0_r in HQ. apply HQ. split; [done|apply writes_out_refl]. }
  apply (safe_round (m + n)). intros g1 [Hc1 Hp1]. eapply safe_mono; [apply silent_step; [by rewrite Hc1|lia]|].
  intros r g2 [-> [Hc2 Hp2]]. apply IH; [by rewrite Hc2, Hc1|lia|lia|]. intros g3 H3.
  replace (k + 1 + Z.of_nat m) with (k + Z.of_nat (S m)) by lia. apply HQ. rewrite Hc1 in Hp2. rewrite Hc2, Hc1 in H3.
  apply (says_app [] _ g g1); [by split|]. apply (says_app [_] _ g1 g2); [by split|done].
Qed.

(** The seventh round gives up the connection. *)
Lemma seventh_round k g :
  5 < k → c_client_socket (g_client g) ≠ INVALID_SOCKET → zlen (c_str_client_id (g_client g)) <= 200 →
  safe (svc_step (mkLocals t k)) (λ r g', r = inl (mkLocals t 1) ∧ g_client g' = reconnected (g_client g) ∧
    prints [Sent (c_client_socket (g_client g)) DISCONNECT_packet; Closed (c_client_socket (g_client g));
            Sent s (CONNECT_packet (c_str_client_id (g_client g))); Sent s PINGREQ_packet] g g') g.
Proof using All.
  intros Hk Hc Hid. unfold svc_step. apply safe_bind, safe_served, safe_sys. cbn [send_ping_req_time last_msg_time].
  rewrite (proj2 (Z.ltb_lt 5 k)) by lia. cbn [orb]. set (g1 := upd_g_world _ g).
  assert (says [] g g1) as [Hc1 Hp1] by apply (says_quiet (S (w_calls (g_world g))) (w_errno (g_world g))).
  unfold reconnect. apply safe_bind. eapply safe_mono; [by apply connect_says|].
  intros r g2 (->&Hc2&Hp2). change (0 <? 0) with false. cbv iota.
  eapply safe_mono; [apply silent_read; [|cbn; lia]|].
  { rewrite Hc2. cbn. unfold MAX_BUF_SIZE. lia. }
  intros r g3 [-> [Hc3 Hp3]]. split; [done|]. split; [by rewrite Hc3, Hc2|].
  apply (prints_app [] _ g g1); [done|]. apply (prints_app [_; _; _] [_] g1 g2); [exact Hp2|].
  rewrite Hc2 in Hp3. exact Hp3.
Qed.

End silence.

(** ** Properties *)

(** Claim C13: a silent parent is given up.  When the parent says nothing, six rounds of
    [svc] end with a PINGREQ each; the seventh sends DISCONNECT, closes the socket,
    connects again from the start of the buffer, and sends CONNECT with the same
    identifier on the new socket. *)
Theorem silent_parent_reconnected {E : Env} {G : BridgeEnv} {P : BridgeLaws} t s g :
  accepts_all → silent t s → 0 <= s → bridge_ready g → c_client_socket (g_client g) ≠ INVALID_SOCKET →
  let old := c_client_socket (g_client g) in
  ∃ g', svc_loop 7 (mkLocals t 0) g = (Ok (inl (mkLocals t 1)), g') ∧
    g_client g' = reconnected s (g_client g) ∧
    w_out (g_world g') = w_out (g_world g) ++ replicate 6 (Sent old PINGREQ_packet) ++
      [Sent old DISCONNECT_packet; Closed old; Sent s (CONNECT_packet (c_str_client_id (g_client g)));
       Sent s PINGREQ_packet].
Proof.
  intros Hall Hsi Hs [Hok Hpos] Hc old. unfold MAX_BUF_SIZE in Hpos.
  enough (safe (svc_loop (6 + 1) (mkLocals t 0)) (λ r g', r = inl (mkLocals t 1) ∧
    g_client g' = reconnected s (g_client g) ∧
    prints (replicate 6 (Sent old PINGREQ_packet) ++ [Sent old DISCONNECT_packet; Closed old;
      Sent s (CONNECT_packet (c_str_client_id (g_client g))); Sent s PINGREQ_packet]) g g') g) as Hsafe.
  { destruct (safe_inv _ _ _ Hsafe) as (r&g'&Hr&->&Hg'&n&e&Hw). exists g'. by rewrite Hw. }
  apply (pings Hall t s Hsi Hs 6); [unfold MAX_BUF_SIZE; lia|lia|lia|]. intros g1 [Hc1 Hp1].
  apply (safe_round t s Hsi). intros g2 [Hc2 Hp2].
  eapply safe_mono; [apply (seventh_round Hall t s Hsi Hs); rewrite ?Hc2, ?Hc1; [done|done|apply Hok]|].
  intros r g3 (->&Hc3&Hp3). cbn [svc_loop]. apply safe_ret. split; [done|]. rewrite Hc2, Hc1 in Hc3, Hp3.
  split; [done|]. eapply prints_app; [exact Hp1|]. by apply (prints_app [] _ g1 g2).
Qed.

(** A kernel without input, and the next connection of a parent that is there. *)
Definition silent_env : Env := {|
  env_write := λ _ _ l, IoOk (zlen l);
  env_read := λ _ _ _, ReadErr EAGAIN;
  env_accept := λ _, IoErr EAGAIN;
  env_epoll_wait := λ _ _, WaitOk [];
  env_epoll_ctl := λ _, None;
  env_peer := λ _ _, of_string "10.0.0.1:1";
  env_time := λ n, 1000 + Z.of_nat n mod 10;
  env_junk := λ _ _, 0;
  env_order := λ _ X, elements X;
  env_topic_order := λ _ X, elements X;
  env_mqtt_bridge := 0;
|}.

Definition silent_bridge_env : BridgeEnv := {|
  env_socket := λ _, IoOk 21; env_connect := λ _ _, None; env_stopped := λ _, false;
  bridge_patience := {| env_patience := 1 |};
|}.

Lemma silent_bridge_laws : @BridgeLaws silent_env silent_bridge_env.
Proof.
  split; [split|]; intros n fd; [intros l Hl|]; exists 0%nat; (split; [cbn; lia|]); [|by left].
  destruct l as [|a l]; [done|]. cbn. rewrite zlen_cons. pose proof (zlen_nonneg l). lia.
Qed.

Lemma silent_sample : @silent silent_env silent_bridge_env 1000 21.
Proof.
  split; try done.
  - intros n fd k. by exists EAGAIN.
  - intros n. cbn -[u32 Z.modulo]. pose proof (Z.mod_pos_bound (Z.of_nat n) 10 ltac:(lia)).
    rewrite !u32_small; rewrite ?u32_small; lia.
Qed.

Lemma silent_parent_reconnected_witness :
  let g := mkBridge started (sample_client []) [] in
  let old := c_client_socket (g_client g) in
  ∃ g', @svc_loop silent_env silent_bridge_env 7 (mkLocals 1000 0) g = (Ok (inl (mkLocals 1000 1)), g') ∧
    g_client g' = reconnected 21 (g_client g) ∧
    w_out (g_world g') = w_out (g_world g) ++ replicate 6 (Sent old PINGREQ_packet) ++
      [Sent old DISCONNECT_packet; Closed old; Sent 21 (CONNECT_packet (c_str_client_id (g_client g)));
       Sent 21 PINGREQ_packet].
Proof.
  intros g old. refine (@silent_parent_reconnected silent_env silent_bridge_env silent_bridge_laws 1000 21 g
    _ silent_sample _ (conj sample_client_ok _) _); try (vm_compute; discriminate).
  - intros n fd l. reflexivity.
  - vm_compute. split; discriminate.
Defined.
