(* ===== verification/Http.v ===== *)
(** * The HTTP interface

    Model of src/http_server/http_connection.cpp: a request to /publish makes a message
    and gives it to the server's thread through the queue of notifications.  The thread
    of the HTTP server has its own reactor, a second copy of the poller of Poller.v,
    which calls [http_handle_input] when a connection has data.  The members
    [params] and [cookies] of a request are never set. *)

From S2P Require Import Prelude Pkt Msg Mbuf MemStore Context World Handler Delivery Blocking SubMgr.
From S2P Require Import Connection Poller StrTools.
From stdpp Require Import options.

(** ** Data *)

Record HTTPRequest : Type := mkRequest {
  rq_method : str;
  rq_path : str;
  rq_headers : gmap str str;
  rq_query : gmap str str;
}.

Definition new_HTTPRequest : HTTPRequest := mkRequest [] [] ∅ ∅.

Definition set_header (k v : str) (r : HTTPRequest) : HTTPRequest :=
  mkRequest (rq_method r) (rq_path r) (<[k := v]> (rq_headers r)) (rq_query r).
Definition set_query (q : gmap str str) (r : HTTPRequest) : HTTPRequest :=
  mkRequest (rq_method r) (rq_path r) (rq_headers r) q.

(** [query_param]; [None] is the status -1. *)
Definition query_param (name : str) (r : HTTPRequest) : option str := rq_query r !! name.

Record HTTPResponse : Type := mkResponse {
  rs_code : Z;
  rs_phrase : str;
  rs_type : str;
  rs_date : str;
  rs_body : str;          (* std::stringstream *)
}.

(** The constructor; [date] is the time as text. *)
Definition new_HTTPResponse (date : str) : HTTPResponse :=
  mkResponse 200 (of_string "OK") (of_string "text/html") date [].

Definition set_code (c : Z) (r : HTTPResponse) : HTTPResponse :=
  mkResponse c (rs_phrase r) (rs_type r) (rs_date r) (rs_body r).
Definition set_phrase (p : str) (r : HTTPResponse) : HTTPResponse :=
  mkResponse (rs_code r) p (rs_type r) (rs_date r) (rs_body r).
Definition set_type (t : str) (r : HTTPResponse) : HTTPResponse :=
  mkResponse (rs_code r) (rs_phrase r) t (rs_date r) (rs_body r).
Definition append (s : str) (r : HTTPResponse) : HTTPResponse :=
  mkResponse (rs_code r) (rs_phrase r) (rs_type r) (rs_date r) (rs_body r ++ s).

Record HttpConnection : Type := mkHttp {
  h_handler : CEventHandler;      (* the base class *)
  h_recv_buffer : list Z;         (* uint8_t [MAX_BUF_SIZE] *)
  h_cur_buf_pos : Z;              (* uint32_t *)
  h_last_msg_time : Z;            (* time_t *)
  h_response : HTTPResponse;
  h_notify : bool;                (* m_notify_reactor is not null *)
}.

Definition eta_http (c : HttpConnection) : HttpConnection :=
  mkHttp (h_handler c) (h_recv_buffer c) (h_cur_buf_pos c) (h_last_msg_time c) (h_response c) (h_notify c).

Definition upd_h_handler : (CEventHandler → CEventHandler) → HttpConnection → HttpConnection :=
  ltac:(update_field eta_http h_handler).
Definition upd_h_buffer : (list Z → list Z) → HttpConnection → HttpConnection :=
  ltac:(update_field eta_http h_recv_buffer).
Definition upd_h_buf_pos : (Z → Z) → HttpConnection → HttpConnection :=
  ltac:(update_field eta_http h_cur_buf_pos).
Definition upd_h_last_msg_time : (Z → Z) → HttpConnection → HttpConnection :=
  ltac:(update_field eta_http h_last_msg_time).
Definition upd_h_response : (HTTPResponse → HTTPResponse) → HttpConnection → HttpConnection :=
  ltac:(update_field eta_http h_response).

(** The server and one connection of the HTTP interface. *)
Record Web : Type := mkWeb { web_world : World; web_conn : HttpConnection }.

Abbreviation W := (st Web) (only parsing).

Definition in_world {A} (m : M A) : W A := λ g,
  let '(r, w) := m (web_world g) in (r, mkWeb w (web_conn g)).
Definition upd_web (f : HttpConnection → HttpConnection) : W unit :=
  modify (λ g, mkWeb (web_world g) (f (web_conn g))).

(** ** Parsing *)

Definition is_post (r : HTTPRequest) : bool := bool_decide (rq_method r = of_string "POST").

(** The loop over the parameters of a path. *)
Fixpoint get_params (l : list str) (q : gmap str str) : res (gmap str str) :=
  match l with
  | [] => Ok q
  | s :: l =>
      data ← split s (of_string "=") (-1);
      get_params l (match data with [k; v] => <[k := v]> q | _ => q end)
  end.

(** The loop over the parameters of a body; [data[1]] is not tested. *)
Fixpoint post_params (l : list str) (q : gmap str str) : res (gmap str str) :=
  match l with
  | [] => Ok q
  | s :: l =>
      data ← split s (of_string "=") 2;
      match data with
      | k :: v :: _ => post_params l (<[k := v]> q)
      | _ => Stop OutOfBounds
      end
  end.

(** The first line; [None] is the status -1. *)
Definition request_line (line : str) (req : HTTPRequest) : res (option HTTPRequest) :=
  R ← split line (of_string " ") 3;
  match R with
  | [meth; path; _] =>
      let req := mkRequest meth path (rq_headers req) (rq_query req) in
      match find_first_of (of_string "?") path with
      | Some pos =>
          Q1 ← split (drop (S pos) path) (of_string "&") (-1);
          q ← get_params Q1 (rq_query req);
          Ok (Some (mkRequest meth (take pos path) (rq_headers req) q))
      | None =>
          if is_post req then
            path ← remove_space path;
            Ok (Some (mkRequest meth path (rq_headers req) (rq_query req)))
          else Ok (Some req)
      end
  | _ => Ok None
  end.

(** Another line: a header, or the body of a POST. *)
Definition header_line (line : str) (req : HTTPRequest) : res HTTPRequest :=
  R ← split line (of_string ": ") 2;
  match R with
  | [k; v] => Ok (set_header k v req)
  | _ =>
      if is_post req then
        R ← split line (of_string "&") 3;
        q ← post_params R (rq_query req);
        Ok (set_query q req)
      else Ok req
  end.

(** The loop of [parse_headers]: the status, the request and the buffer, which
    [strtok_r] changes; [first] until a line has been read. *)
Fixpoint parse_loop (fuel : nat) (buf : list Z) (pos : nat) (first : bool) (req : HTTPRequest)
    : res (Z * HTTPRequest * list Z) :=
  match fuel with
  | O => Stop FuelOut
  | S fuel =>
      t ← strtok 10 buf pos;
      match t with
      | None => Ok (0, req, buf)
      | Some (tok, buf, pos) =>
          let line := trim tok in
          match line with
          | [] => parse_loop fuel buf pos first req
          | _ =>
              if first : bool then
                r ← request_line line req;
                match r with
                | None => Ok (-1, req, buf)
                | Some req => parse_loop fuel buf pos false req
                end
              else
                req ← header_line line req;
                parse_loop fuel buf pos false req
          end
      end
  end.

Definition parse_headers (buf : list Z) : res (Z * HTTPRequest * list Z) :=
  parse_loop (S (length buf)) buf 0 true new_HTTPRequest.

(** ** Answering *)

Definition quoted (s : str) : str := [34] ++ s ++ [34].

(** [json_error] with the code 400. *)
Definition json_error (error request : str) : str :=
  of_string "{" ++ [10] ++
  quoted (of_string "error") ++ of_string ":" ++ quoted error ++ of_string "," ++ [10] ++
  quoted (of_string "error_code") ++ of_string ":400," ++ [10] ++
  quoted (of_string "request") ++ of_string ":" ++ quoted request ++ [10] ++
  of_string "}" ++ [10].

(** [snprintf] into an array of [n] bytes. *)
Definition snprintf (n : nat) (s : str) : str := take (n - 1) s.

Definition CRLF : str := [13; 10].

(** The header of a response, without the empty line. *)
Definition response_header (r : HTTPResponse) : str :=
  of_string "HTTP/1.0 " ++ decimal (rs_code r) ++ [32] ++ rs_phrase r ++ CRLF ++
  of_string "Server: HttpServer 1.0" ++ CRLF ++
  of_string "Date: " ++ rs_date r ++ CRLF ++
  of_string "Content-Type: " ++ rs_type r ++ CRLF ++
  of_string "Content-Length: " ++ decimal (s32 (u32 (zlen (rs_body r)))) ++ CRLF.

Section http.
Context {E : Env} {G : Patience}.

(** [http_send]; [strcat] appends to the array of 1024 bytes. *)
Definition http_send (r : HTTPResponse) : W Z :=
  let header := snprintf 1024 (response_header r) in
  if 1024 <=? zlen header + 2 then crash OutOfBounds
  else
    let data := header ++ CRLF ++ rs_body r in
    do c <- gets web_conn;
    in_world (handler_write_n (m_sock_handle (h_handler c)) data (u32 (zlen data))).

(** [CMqttX x(mbuf->read_ptr(), ...)] writes into the array from the read marker on. *)
Definition set_from_read_ptr (l : list Z) (b : CMbuf) : CMbuf :=
  upd_data (λ d, take (Z.to_nat (m_read_pos b)) d ++ l) b.

Definition missing (p : option str) (text : str) : str := match p with None => text | Some _ => [] end.

(** [atoi] into a [uint8_t], and no more than 1. *)
Definition flag_of (s : str) : res Z :=
  n ← atoi s; Ok (if 1 <? u8 n then 1 else u8 n).

(** [notify_mqtt_publish]: the error, which is empty on success.  The QoS is read if
    there is one, the retain flag if there is none; the flag DUP of the fixed header
    is not initialised. *)
Definition notify_mqtt_publish (req : HTTPRequest) : W str :=
  let client := query_param (of_string "client") req in
  let topic := query_param (of_string "topic") req in
  let msg := query_param (of_string "msg") req in
  let error := missing client (of_string "client param missed. ") ++
               missing topic (of_string "topic param missed. ") ++
               missing msg (of_string "msg param missed") in
  do qos <- lift (match query_param (of_string "qos") req with
                  | Some s => flag_of s
                  | None => Ok 1
                  end);
  do retain <- lift (match query_param (of_string "retain") req with
                     | Some _ => Ok 0
                     | None => flag_of []
                     end);
  let str_topic_name := default [] topic in
  let str_msg := default [] msg in
  do dup <- in_world (sys (λ n, Z.testbit (env_junk n 0%nat) 0));
  let fixed_header := mkHeader PUBLISH dup qos (negb (retain =? 0)) in
  let buf_len := u32 (zlen str_msg + zlen str_topic_name + 8) in
  do mbuf <- in_world (new_mbuf buf_len);
  do_ in_world (upd_mbuf mbuf (set_msg_type MSG_PUBLISH));
  do store <- gets (w_store ∘ web_world);
  let '(publish_msg_id, store) := next_msg_id store in
  do_ in_world (modify (upd_store (λ _, store)));
  do_ in_world (upd_mbuf mbuf (set_msg_id publish_msg_id));
  do_ in_world (regist_mem_store mbuf);
  do m <- in_world (get_mbuf mbuf);
  let '(r, l) := run_encode (CMqttPublish_encode fixed_header str_topic_name
                   (Z.land publish_msg_id 0xFFFF) str_msg) (from_read_ptr m) buf_len in
  do_ in_world (upd_mbuf mbuf (set_from_read_ptr l));
  match r with
  | Ok pkt_len =>
      do_ in_world (upd_mbuf mbuf (mbuf_write_ptr pkt_len));
      do c <- gets web_conn;
      do_ (when h_notify c then_ (do _ <- in_world (notify mbuf); ret tt));
      ret error
  | Fail => ret (error ++ of_string "publish msg encode failed")
  | Stop u => crash u
  end.

(** [process]; the status -1 closes the connection. *)
Definition http_process : W Z :=
  do c <- gets web_conn;
  do (res, req, buf) <- lift (parse_headers (h_recv_buffer c));
  do_ upd_web (upd_h_buffer (λ _, buf));
  if decide (rq_path req = of_string "/favicon.ico") then ret (-1)
  else
    do_ upd_web (upd_h_response (set_type (of_string "text/json")));
    do_ (if (res =? -1) || negb (bool_decide (rq_path req = of_string "/publish")) then
           upd_web (upd_h_response (λ r,
             append (snprintf 1024 (json_error (of_string "not found") (rq_path req)))
               (set_phrase (of_string "Not Found") (set_code 404 r))))
         else
           do error <- notify_mqtt_publish req;
           match error with
           | [] =>
               upd_web (upd_h_response (λ r,
                 append (of_string "{" ++ quoted (of_string "msg") ++ of_string ":" ++
                           quoted (of_string "succeed") ++ of_string "}") (set_code 200 r)))
           | _ =>
               upd_web (upd_h_response (λ r,
                 append (snprintf 1024 (json_error error (rq_path req))) (set_code 400 r)))
           end);
    do c <- gets web_conn;
    do _ <- http_send (h_response c);
    ret 0.

(** [handle_input]; the terminating zero is written behind the data. *)
Definition http_handle_input : W Z :=
  do c <- gets web_conn;
  do r <- in_world (sys_read (m_sock_handle (h_handler c)) (u32 (MAX_BUF_SIZE - h_cur_buf_pos c)));
  match r with
  | None =>
      do e <- gets (w_errno ∘ web_world);
      if would_block e then ret 0 else ret (-1)
  | Some [] => ret (-1)
  | Some data =>
      do_ upd_web (upd_h_handler (upd_recv_times (λ n, u64 (n + 1))));
      do_ upd_web (upd_h_handler (upd_recv_bytes (λ n, u64 (n + zlen data))));
      do_ upd_web (upd_h_buffer (splice (Z.to_nat (h_cur_buf_pos c)) data));
      do_ upd_web (upd_h_buf_pos (λ n, u32 (n + zlen data)));
      do c <- gets web_conn;
      if h_cur_buf_pos c <? MAX_BUF_SIZE then
        do_ upd_web (upd_h_buffer <[Z.to_nat (h_cur_buf_pos c) := 0]>);
        do now <- in_world std_time;
        do_ upd_web (upd_h_last_msg_time (λ _, now));
        http_process
      else crash OutOfBounds
  end.

(** The constructor; the receive buffer and the time are not initialised. *)
Definition new_HttpConnection (h : CEventHandler) (buffer : list Z) (time : Z) (date : str) (notify : bool)
    : HttpConnection :=
  mkHttp h buffer 0 time (new_HTTPResponse date) notify.

End http.
