(* ===== verification/Parsing.v ===== *)
(** * Requests

    The parser of Http.v: it is defined on every request but a POST, it ends, and it
    reads back what a client writes that asks for parameters without special
    characters. *)

From S2P Require Import Prelude Http StrTools.
From stdpp Require Import options.

(** ** The parser is defined *)

(** The values of the parameters are not longer than [n]. *)
Definition bounded (n : nat) (r : HTTPRequest) : Prop :=
  map_Forall (λ _ v, (length v <= n)%nat) (rq_query r).

(** The first line that is not empty is that of a POST. *)
Definition post_line (line : str) : bool :=
  match split line (of_string " ") 3 with
  | Ok [meth; _; _] => bool_decide (meth = of_string "POST")
  | _ => false
  end.

Fixpoint posted (fuel : nat) (buf : list Z) (pos : nat) : bool :=
  match fuel with
  | O => false
  | S fuel =>
      match strtok 10 buf pos with
      | Ok (Some (tok, buf, pos)) =>
          match trim tok with
          | [] => posted fuel buf pos
          | line => post_line line
          end
      | _ => false
      end
  end.

Lemma split_pieces s sep max : ∃ l, split s sep max = Ok l ∧ ∀ f, f ∈ l → (length f <= length s)%nat.
Proof.
  eexists. split; [apply split_fields|]. intros f [Hf _]%nonempty_incl. by apply fields_incl in Hf as [_ ?].
Qed.

Lemma get_params_ok n l q :
  (∀ s, s ∈ l → (length s <= n)%nat) → map_Forall (λ _ v, (length v <= n)%nat) q →
  ∃ q', get_params l q = Ok q' ∧ map_Forall (λ _ v, (length v <= n)%nat) q'.
Proof.
  revert q. induction l as [|s l IH]; intros q Hl Hq; cbn [get_params]; [by exists q|].
  destruct (split_pieces s (of_string "=") (-1)) as (data&->&Hd). cbn [mbind res_bind].
  apply IH; [intros f Hf; apply Hl; by right|].
  destruct data as [|k [|v [|? ?]]]; try done. apply map_Forall_insert_2; [|done].
  specialize (Hd v ltac:(by right; left)). specialize (Hl s ltac:(by left)). lia.
Qed.

Lemma request_line_ok n line req :
  post_line line = false → (length line <= n)%nat → bounded n req →
  ∃ r, request_line line req = Ok r ∧ ∀ req', r = Some req' → bounded n req' ∧ is_post req' = false.
Proof.
  unfold post_line, request_line. intros Hp Hn Hb.
  destruct (split_pieces line (of_string " ") 3) as (R&HR&Hlen). rewrite HR in *. cbn [mbind res_bind].
  destruct R as [|meth [|path [|v [|? ?]]]]; try (eexists; split; [reflexivity|done]).
  assert (is_post (mkRequest meth path (rq_headers req) (rq_query req)) = false) as Hpost by exact Hp.
  destruct (find_first_of _ path) as [pos|].
  - destruct (split_pieces (drop (S pos) path) (of_string "&") (-1)) as (Q&->&HQ). cbn [mbind res_bind rq_query].
    destruct (get_params_ok n Q (rq_query req)) as (q&->&Hq); [|exact Hb|].
    + intros s Hs. specialize (HQ s Hs). rewrite length_drop in HQ. specialize (Hlen path ltac:(by right; left)). lia.
    + cbn [mbind res_bind]. eexists. split; [reflexivity|]. intros req' [= <-]. by split.
  - rewrite Hpost. eexists. split; [reflexivity|]. intros req' [= <-]. by split.
Qed.

Lemma header_line_ok line req :
  is_post req = false → ∃ req', header_line line req = Ok req' ∧ rq_query req' = rq_query req ∧ is_post req' = false.
Proof.
  unfold header_line. intros Hp. destruct (split_pieces line (of_string ": ") 2) as (R&->&_). cbn [mbind res_bind].
  rewrite Hp. destruct R as [|k [|v [|? ?]]]; eexists; (split; [reflexivity|by split]).
Qed.

Lemma parse_loop_ok n z fuel buf pos first req :
  buf !! z = Some 0 → (z <= n)%nat → (pos <= z)%nat → (z - pos < fuel)%nat → bounded n req →
  (if first : bool then posted fuel buf pos = false else is_post req = false) →
  ∃ res req' buf', parse_loop fuel buf pos first req = Ok (res, req', buf') ∧ bounded n req' ∧
    length buf' = length buf.
Proof.
  revert buf pos first req. induction fuel as [|fuel IH]; intros buf pos first req Hz Hn Hpos Hf Hb Hp; [lia|].
  cbn [parse_loop posted] in *. destruct (strtok_ok 10 buf pos z) as (t&Ht&Hok); [done..|].
  rewrite Ht in *. cbn [mbind res_bind]. destruct t as [[[tok buf'] pos']|].
  2:{ exists 0, req, buf. by split_and!. }
  destruct Hok as (Hl&Hz'&Hpos'&Htok). pose proof (trim_length tok) as Hline.
  assert (∀ first req', bounded n req' →
    (if first : bool then posted fuel buf' pos' = false else is_post req' = false) →
    ∃ res req'' buf'', parse_loop fuel buf' pos' first req' = Ok (res, req'', buf'') ∧ bounded n req'' ∧
      length buf'' = length buf) as Hgo.
  { intros f r Hr Hfr. destruct (IH buf' pos' f r) as (res&req2&buf2&?&?&?); [done|done|lia|lia|done|done|].
    exists res, req2, buf2. split_and!; [done|done|congruence]. }
  destruct (trim tok) as [|c line] eqn:Htrim; [by apply Hgo|]. set (ln := c :: line) in *.
  destruct first.
  - destruct (request_line_ok n ln req Hp) as (r&->&Hr); [lia|done|]. cbn [mbind res_bind].
    destruct r as [req'|]; [|by exists (-1), req, buf']. destruct (Hr req' eq_refl). by apply Hgo.
  - destruct (header_line_ok ln req Hp) as (req'&->&Hq&Hp'). cbn [mbind res_bind]. apply Hgo; [|done].
    unfold bounded. by rewrite Hq.
Qed.

Lemma parse_headers_ok z buf :
  buf !! z = Some 0 → posted (S (length buf)) buf 0 = false →
  ∃ res req buf', parse_headers buf = Ok (res, req, buf') ∧ bounded z req ∧ length buf' = length buf.
Proof.
  intros Hz Hp. apply (parse_loop_ok z z); [done|lia|lia| |apply map_Forall_empty|done].
  apply lookup_lt_Some in Hz. lia.
Qed.

(** Whatever it reads, a POST included: the parser keeps the length of the buffer, and
    finds no value that is longer than the request. *)
Lemma post_params_bounded n l q q' :
  (∀ s, s ∈ l → (length s <= n)%nat) → map_Forall (λ _ v, (length v <= n)%nat) q →
  post_params l q = Ok q' → map_Forall (λ _ v, (length v <= n)%nat) q'.
Proof.
  revert q. induction l as [|s l IH]; intros q Hl Hq; cbn [post_params]; [by intros [= <-]|].
  destruct (split_pieces s (of_string "=") 2) as (data&->&Hd). cbn [mbind res_bind].
  destruct data as [|k [|v data]]; [done..|]. apply IH; [intros f Hf; apply Hl; by right|].
  apply map_Forall_insert_2; [|done]. specialize (Hd v ltac:(by right; left)). specialize (Hl s ltac:(by left)). lia.
Qed.

Lemma request_line_bounded n line req req' :
  (length line <= n)%nat → bounded n req → request_line line req = Ok (Some req') → bounded n req'.
Proof.
  unfold request_line. intros Hn Hb. destruct (split_pieces line (of_string " ") 3) as (R&->&Hlen).
  cbn [mbind res_bind]. destruct R as [|meth [|path [|v [|? ?]]]]; try done. destruct (find_first_of _ path) as [pos|].
  - destruct (split_pieces (drop (S pos) path) (of_string "&") (-1)) as (Q&->&HQ). cbn [mbind res_bind rq_query].
    destruct (get_params_ok n Q (rq_query req)) as (q&->&Hq); [|exact Hb|cbn [mbind res_bind]; by intros [= <-]].
    intros s Hs. specialize (HQ s Hs). rewrite length_drop in HQ. specialize (Hlen path ltac:(by right; left)). lia.
  - destruct (is_post _); [|by intros [= <-]].
    destruct (remove_space path); [cbn [mbind res_bind]; by intros [= <-]|done..].
Qed.

Lemma header_line_bounded n line req req' :
  (length line <= n)%nat → bounded n req → header_line line req = Ok req' → bounded n req'.
Proof.
  unfold header_line. intros Hn Hb. destruct (split_pieces line (of_string ": ") 2) as (R&->&_). cbn [mbind res_bind].
  assert (is_post req = false → Ok req = Ok req' → bounded n req') as Hget by (by intros _ [= <-]).
  assert (is_post req = true → (R' ← split line (of_string "&") 3; q ← post_params R' (rq_query req);
      Ok (set_query q req)) = Ok req' → bounded n req') as Hpost.
  { intros _. destruct (split_pieces line (of_string "&") 3) as (R'&->&HR'). cbn [mbind res_bind].
    destruct (post_params R' (rq_query req)) as [q| |] eqn:Hq; [|done..]. cbn [mbind res_bind]. intros [= <-].
    eapply post_params_bounded; [|exact Hb|exact Hq]. intros s Hs. specialize (HR' s Hs). lia. }
  destruct R as [|k [|v [|? ?]]]; [..|destruct (is_post req); auto]; [destruct (is_post req); auto..|].
  by intros [= <-].
Qed.

Lemma parse_loop_bounded n z fuel buf pos first req res req' buf' :
  buf !! z = Some 0 → (z <= n)%nat → (pos <= z)%nat → bounded n req →
  parse_loop fuel buf pos first req = Ok (res, req', buf') → bounded n req' ∧ length buf' = length buf.
Proof.
  revert buf pos first req. induction fuel as [|fuel IH]; intros buf pos first req Hz Hn Hpos Hb; [done|].
  cbn [parse_loop]. destruct (strtok_ok 10 buf pos z) as (t&->&Hok); [done..|]. cbn [mbind res_bind].
  destruct t as [[[tok buf1] pos1]|]; [|by intros [= <- <- <-]].
  destruct Hok as (Hl&Hz1&Hpos1&Htok). pose proof (trim_length tok) as Hline. rewrite <- Hl.
  destruct (trim tok) as [|c line] eqn:Htrim; [by apply IH; [..|lia|]|]. set (ln := c :: line) in *.
  destruct first.
  - destruct (request_line ln req) as [[r|]| |] eqn:Hr; cbn [mbind res_bind]; [|intros [= <- <- <-]; by split|done..].
    apply IH; [done|done|lia|]. eapply request_line_bounded; [|exact Hb|exact Hr]. lia.
  - destruct (header_line ln req) as [r| |] eqn:Hr; cbn [mbind res_bind]; [|done..].
    apply IH; [done|done|lia|]. eapply header_line_bounded; [|exact Hb|exact Hr]. lia.
Qed.

Lemma parse_headers_bounded z buf res req buf' :
  buf !! z = Some 0 → parse_headers buf = Ok (res, req, buf') → bounded z req ∧ length buf' = length buf.
Proof. intros Hz. apply (parse_loop_bounded z z); [done|lia|lia|apply map_Forall_empty]. Qed.

(** ** What a client writes *)

(** A character without a meaning in a request. *)
Definition plain (c : Z) : Prop :=
  isspace c = false ∧ c ≠ 0 ∧ c ∉ of_string "&=?".

#[global] Instance plain_dec c : Decision (plain c).
Proof. unfold plain. apply _. Defined.

Definition word (s : str) : Prop := s ≠ [] ∧ Forall plain s.

#[global] Instance word_dec s : Decision (word s).
Proof. unfold word. apply _. Defined.

Fixpoint join (c : Z) (l : list str) : str :=
  match l with
  | [] => []
  | [s] => s
  | s :: l => s ++ c :: join c l
  end.

Definition param_text (p : str * str) : str := p.1 ++ 61 :: p.2.

Definition request_text (path : str) (l : list (str * str)) (version : str) : str :=
  of_string "GET" ++ 32 :: (path ++ 63 :: join 38 (map param_text l)) ++ 32 :: version.

(** The line, and an empty one. *)
Definition request_bytes (path : str) (l : list (str * str)) (version : str) : list Z :=
  (request_text path l version ++ [13]) ++ 10 :: [13; 10].

Definition params_of (l : list (str * str)) : gmap str str :=
  foldl (λ q p, <[p.1 := p.2]> q) ∅ l.

Definition words (l : list (str * str)) : Prop := Forall (λ p, word p.1 ∧ word p.2) l.

Lemma plain_not_in (c : Z) : plain c →
  (c ∉ of_string "=") ∧ (c ∉ of_string "&") ∧ (c ∉ of_string "?") ∧ (c ∉ of_string " ").
Proof.
  intros (Hs&_&Hc). cbn in Hc. rewrite !not_elem_of_cons in Hc. destruct Hc as (?&?&?&_).
  split_and!; intros Hin; cbn in Hin; apply list_elem_of_singleton in Hin; subst; done.
Qed.

Lemma fields_join sep c k l :
  c ∈ sep → l ≠ [] → Forall (Forall (λ x, x ∉ sep)) l → (length l <= S k)%nat → fields sep k (join c l) = l.
Proof.
  intros Hc Hne Hl. revert k. induction Hl as [|s l Hs Hl IH]; intros k Hk; [done|].
  destruct l as [|s' l]; [by apply fields_plain|]. destruct k as [|k]; [cbn in Hk; lia|].
  change (join c (s :: s' :: l)) with (s ++ c :: join c (s' :: l)). rewrite fields_app by done.
  f_equal. apply IH; [done|]. cbn in *. lia.
Qed.

Lemma nonempty_all l : Forall (λ s, s ≠ []) l → nonempty l = l.
Proof. induction 1 as [|s l Hs Hl IH]; [done|]. rewrite nonempty_cons, IH. by destruct s. Qed.

Lemma join_length c l : Forall (λ s, s ≠ []) l → (length l <= length (join c l))%nat.
Proof.
  induction 1 as [|s l Hs Hl IH]; [done|]. destruct l as [|s' l].
  - destruct s; [done|]. cbn. lia.
  - change (join c (s :: s' :: l)) with (s ++ c :: join c (s' :: l)). rewrite length_app. cbn in *. lia.
Qed.

Lemma get_params_text l q :
  words l → get_params (map param_text l) q = Ok (foldl (λ q p, <[p.1 := p.2]> q) q l).
Proof.
  intros Hl. revert q. induction Hl as [|[k v] l [[Hk Hkp] [Hv Hvp]] Hl IH]; intros q; [done|].
  cbn [map get_params param_text fst snd] in *. rewrite split_fields. unfold split_limit. cbn [Z.leb Z.compare].
  unfold param_text. cbn [fst snd]. rewrite length_app. cbn [length]. rewrite Nat.add_succ_r.
  rewrite fields_app; [|eapply list.Forall_impl; [exact Hkp|]; intros c Hc; apply (plain_not_in c Hc)|by left].
  rewrite fields_plain by (eapply list.Forall_impl; [exact Hvp|]; intros c Hc; apply (plain_not_in c Hc)).
  rewrite nonempty_all by (by repeat constructor). cbn [mbind res_bind]. apply IH.
Qed.

Lemma find_first_app sep a c s :
  Forall (λ x, x ∉ sep) a → c ∈ sep → find_first_of sep (a ++ c :: s) = Some (length a).
Proof.
  intros Ha Hc. induction Ha as [|x a Hx Ha IH]; cbn; [by rewrite decide_True|].
  by rewrite decide_False, IH.
Qed.

(** No character of the target ends a field of the line. *)
Lemma target_plain path l : word path → words l →
  Forall (λ c, isspace c = false ∧ c ≠ 0) (path ++ 63 :: join 38 (map param_text l)).
Proof.
  intros [_ Hp] Hl. assert (∀ s, Forall plain s → Forall (λ c, isspace c = false ∧ c ≠ 0) s) as Hpl.
  { intros s Hs. eapply list.Forall_impl; [exact Hs|]. by intros c (?&?&?). }
  apply Forall_app. split; [by apply Hpl|]. constructor; [done|].
  induction Hl as [|[k v] l [[_ Hk] [_ Hv]] Hl IH]; [constructor|]. cbn [map fst snd] in *.
  assert (Forall (λ c, isspace c = false ∧ c ≠ 0) (param_text (k, v))) as Ht.
  { apply Forall_app. split; [by apply Hpl|]. constructor; [done|by apply Hpl]. }
  destruct l as [|p l]; [done|]. change (join 38 (?s :: map param_text (p :: l))) with (s ++ 38 :: join 38 (map param_text (p :: l))).
  apply Forall_app. split; [done|]. by constructor.
Qed.

Lemma request_line_text path l version req :
  word path → words l → l ≠ [] → word version →
  request_line (request_text path l version) req =
    Ok (Some (mkRequest (of_string "GET") path (rq_headers req)
      (foldl (λ q p, <[p.1 := p.2]> q) (rq_query req) l))).
Proof.
  intros Hp Hl Hne [Hv Hvp]. unfold request_line. rewrite split_fields. change (split_limit 3 _) with 3%nat.
  set (target := path ++ 63 :: join 38 (map param_text l)).
  pose proof (target_plain path l Hp Hl) as Ht. fold target in Ht.
  assert (∀ s, Forall (λ c, isspace c = false ∧ c ≠ 0) s → Forall (λ c, c ∉ of_string " ") s) as Hsp.
  { intros s Hs. eapply list.Forall_impl; [exact Hs|]. intros c [Hc _] ->%list_elem_of_singleton. done. }
  unfold request_text. fold target.
  rewrite fields_app; [|apply Hsp; cbn; repeat constructor; done|by left].
  rewrite fields_app; [|by apply Hsp|by left].
  rewrite fields_plain by (eapply list.Forall_impl; [exact Hvp|]; intros c Hc; apply (plain_not_in c Hc)).
  destruct Hp as [Hp Hpp]. rewrite nonempty_all.
  2:{ constructor; [done|]. constructor; [|by repeat constructor]. unfold target. by destruct path. }
  cbn [mbind res_bind]. unfold target at 1. rewrite find_first_app;
    [|eapply list.Forall_impl; [exact Hpp|]; intros c Hc; apply (plain_not_in c Hc)|by left].
  assert (drop (S (length path)) target = join 38 (map param_text l)) as ->.
  { unfold target. rewrite <- Nat.add_1_r, <- drop_drop, drop_app_length. done. }
  assert (take (length path) target = path) as -> by (unfold target; by rewrite take_app_length).
  assert (Forall (Forall (λ x, x ∉ of_string "&")) (map param_text l)) as Hamp.
  { apply Forall_map. eapply list.Forall_impl; [exact Hl|]. intros [k v] [[_ Hk] [_ Hv']].
    assert (∀ s, Forall plain s → Forall (λ x, x ∉ of_string "&") s) as H0
      by (intros s Hs; eapply list.Forall_impl; [exact Hs|]; intros c Hc; apply (plain_not_in c Hc)).
    apply Forall_app. split; [by apply H0|]. constructor; [|by apply H0]. intros ?%list_elem_of_singleton. done. }
  assert (Forall (λ s, s ≠ []) (map param_text l)) as Hfull.
  { apply Forall_map. eapply list.Forall_impl; [exact Hl|]. intros [k v] _. unfold param_text. cbn. by destruct k. }
  rewrite split_fields. unfold split_limit. cbn [Z.leb Z.compare].
  rewrite fields_join; [|by left|by destruct l|done|pose proof (join_length 38 _ Hfull); lia].
  rewrite nonempty_all by done. cbn [mbind res_bind rq_query]. rewrite get_params_text by done. done.
Qed.

Lemma parse_loop_end fuel buf pos first req :
  strtok 10 buf pos = Ok None → (0 < fuel)%nat → parse_loop fuel buf pos first req = Ok (0, req, buf).
Proof. intros Ht. destruct fuel; [lia|]. intros _. cbn [parse_loop]. by rewrite Ht. Qed.

(** The bytes after the line: CR, LF and the terminating zero. *)
Lemma parse_loop_rest fuel p req junk :
  (1 < fuel)%nat → parse_loop fuel (p ++ [13; 10] ++ 0 :: junk) (length p) false req =
    Ok (0, req, p ++ [13; 0] ++ 0 :: junk).
Proof.
  intros Hf. destruct fuel as [|fuel]; [lia|]. cbn [parse_loop].
  change (p ++ [13; 10] ++ 0 :: junk) with (p ++ [13] ++ 10 :: [] ++ 0 :: junk).
  rewrite (strtok_line 10 p [13] [] junk); [|done|by repeat constructor|done|constructor].
  cbn [mbind res_bind]. change (trim [13]) with (@nil Z). cbv iota. apply parse_loop_end; [|lia].
  replace (S (length p + length [13%Z]))%nat with (length (p ++ [13; 0])) by (rewrite length_app; cbn; lia).
  unfold strtok. rewrite app_assoc. by rewrite drop_app_length.
Qed.

Lemma last_char (s : str) : s ≠ [] → ∃ s' d, s = s' ++ [d].
Proof. intros Hs. destruct (exists_last Hs) as (s'&d&->). by exists s', d. Qed.

Lemma request_text_chars path l version : word path → words l → word version →
  Forall (λ c, c ≠ 0 ∧ c ≠ 10) (request_text path l version).
Proof.
  intros Hp Hl [_ Hv]. pose proof (target_plain path l Hp Hl) as Ht.
  assert (∀ c, isspace c = false ∧ c ≠ 0 → c ≠ 0 ∧ c ≠ 10) as H0 by (intros c [Hc ?]; split; [done|by intros ->]).
  unfold request_text. apply Forall_app. split; [repeat constructor; done|]. constructor; [done|].
  apply Forall_app. split; [eapply list.Forall_impl; [exact Ht|exact H0]|]. constructor; [done|].
  eapply list.Forall_impl; [exact Hv|]. intros c (?&?&?). by apply H0.
Qed.

Lemma trim_request path l version : word version →
  trim (request_text path l version ++ [13]) = request_text path l version.
Proof.
  intros [Hne Hv]. destruct (last_char version Hne) as (v&d&Hvd).
  apply (trim_between [] _ [13] 71 d); [constructor|by repeat constructor|done|done| |].
  - unfold request_text. rewrite Hvd.
    replace (of_string "GET" ++ 32 :: (path ++ 63 :: join 38 (map param_text l)) ++ 32 :: v ++ [d])
      with ((of_string "GET" ++ 32 :: (path ++ 63 :: join 38 (map param_text l)) ++ 32 :: v) ++ [d])
      by (cbn -[app]; rewrite <- ?app_assoc; cbn; rewrite <- ?app_assoc; cbn; by rewrite <- ?app_assoc).
    by rewrite rev_app_distr.
  - rewrite Hvd in Hv. apply Forall_app in Hv as [_ Hd]. rewrite list.Forall_singleton in Hd. apply Hd.
Qed.

(** *** The first line *)

Lemma request_first_line path l version junk :
  word path → words l → word version →
  let buf := request_bytes path l version ++ 0 :: junk in
  ∃ tok, strtok 10 buf 0 = Ok (Some (tok, (tok ++ [0]) ++ [13; 10] ++ 0 :: junk, length (tok ++ [0]))) ∧
    trim tok = request_text path l version ∧ (2 <= length buf)%nat.
Proof.
  intros Hp Hl Hv. pose proof (request_text_chars path l version Hp Hl Hv) as Hc.
  unfold request_bytes. set (line := request_text path l version) in *. exists (line ++ [13]).
  rewrite <- app_assoc. change ((10 :: [13; 10]) ++ 0 :: junk) with (10 :: [13; 10] ++ 0 :: junk).
  split_and!; [|by apply trim_request|rewrite !length_app; cbn; lia].
  refine (eq_trans (strtok_line 10 [] (line ++ [13]) [13; 10] junk _ _ _ _) _).
  - done.
  - apply Forall_app. split; [done|by repeat constructor].
  - intros Hnil. by apply app_eq_nil in Hnil as [_ ?].
  - by repeat constructor.
  - rewrite (length_app _ [0]), Nat.add_1_r, <- (app_assoc _ [0]). reflexivity.
Qed.

Lemma parse_get path l version junk :
  word path → words l → l ≠ [] → word version →
  ∃ buf', parse_headers (request_bytes path l version ++ 0 :: junk) =
    Ok (0, mkRequest (of_string "GET") path ∅ (params_of l), buf').
Proof.
  intros Hp Hl Hne Hv. destruct (request_first_line path l version junk Hp Hl Hv) as (tok&Htok&Htrim&Hf).
  unfold parse_headers. eexists. cbn [parse_loop]. rewrite Htok. cbn [mbind res_bind]. rewrite Htrim.
  set (line := request_text path l version) in *.
  assert (∀ A (a b : A), match line with [] => a | _ => b end = b) as -> by done.
  assert (request_line line new_HTTPRequest = Ok (Some (mkRequest (of_string "GET") path ∅ (params_of l)))) as ->
    by (by apply request_line_text).
  cbn [mbind res_bind rq_headers rq_query new_HTTPRequest]. apply parse_loop_rest. lia.
Qed.

Lemma get_not_posted fuel path l version junk :
  word path → words l → l ≠ [] → word version → posted fuel (request_bytes path l version ++ 0 :: junk) 0 = false.
Proof.
  intros Hp Hl Hne Hv. destruct (request_first_line path l version junk Hp Hl Hv) as (tok&Htok&Htrim&Hf).
  destruct fuel as [|fuel]; [done|]. cbn [posted]. rewrite Htok, Htrim.
  set (line := request_text path l version) in *.
  change (post_line line = false). unfold post_line. pose proof (request_line_text path l version new_HTTPRequest Hp Hl Hne Hv) as Hr.
  fold line in Hr. unfold request_line in Hr. destruct (split line (of_string " ") 3) as [[|meth [|target [|v [|? ?]]]]| |];
    try done. cbn [mbind res_bind] in Hr.
  assert (meth = of_string "GET") as ->; [|done].
  destruct (find_first_of _ target); [|destruct (is_post _) in Hr].
  - destruct (split _ _ (-1)); [|done..]. cbn [mbind res_bind] in Hr.
    destruct (get_params _ _); [|done..]. cbn [mbind res_bind] in Hr. congruence.
  - destruct (remove_space target); [|done..]. cbn [mbind res_bind] in Hr. congruence.
  - congruence.
Qed.

(** ** Properties *)

(** Requests are parsed.  A request that is not a POST is parsed without
    undefined behaviour, whatever its bytes, if a zero ends it; every value of a
    parameter is no longer than the request, whose length the parser keeps. *)
Theorem requests_parsed z buf :
  buf !! z = Some 0 → posted (S (length buf)) buf 0 = false →
  ∃ res req buf', parse_headers buf = Ok (res, req, buf') ∧ bounded z req ∧ length buf' = length buf.
Proof. apply parse_headers_ok. Qed.

(** Claim C32: the parser inverts the printer.  From the bytes of a GET request for a
    path with parameters, whose names and values are words without the characters that
    separate them, it reads the method, the path, and the parameters, of which the last
    of each name counts. *)
Theorem get_request_parsed path l version junk :
  word path → words l → l ≠ [] → word version →
  ∃ buf', parse_headers (request_bytes path l version ++ 0 :: junk) =
    Ok (0, mkRequest (of_string "GET") path ∅ (params_of l), buf').
Proof. apply parse_get. Qed.

Lemma get_request_parsed_witness :
  ∃ buf', parse_headers (request_bytes (of_string "/publish")
      [(of_string "client", of_string "c1"); (of_string "topic", of_string "t"); (of_string "msg", of_string "hello")]
      (of_string "HTTP/1.1") ++ 0 :: [1; 2]) =
    Ok (0, mkRequest (of_string "GET") (of_string "/publish") ∅
      (params_of [(of_string "client", of_string "c1"); (of_string "topic", of_string "t");
                  (of_string "msg", of_string "hello")]), buf').
Proof.
  apply get_request_parsed; [..|done|]; apply (bool_decide_unpack _); vm_compute; exact I.
Defined.

Lemma requests_parsed_witness :
  ∃ res req buf', parse_headers (of_string "GET / HTTP/1.0" ++ [10; 97; 58; 0; 7]) = Ok (res, req, buf') ∧
    bounded 17 req ∧ length buf' = 19%nat.
Proof. apply (requests_parsed 17); reflexivity. Defined.

(** A parameter of a body without a value: [data[1]] does not exist. *)
Lemma post_without_value :
  parse_headers (of_string "POST /publish HTTP/1.0" ++ 10 :: of_string "msg=" ++ [0]) = Stop OutOfBounds.
Proof. vm_compute. reflexivity. Qed.

(** A body with a space in it is a header, and sets no parameter. *)
Lemma post_with_space :
  ∃ req buf, parse_headers (of_string "POST /publish HTTP/1.0" ++ 10 :: of_string "topic=t&msg=a b" ++ [0]) =
    Ok (0, req, buf) ∧ rq_query req = ∅ ∧ rq_headers req = {[of_string "topic=t&msg=a" := of_string "b"]}.
Proof. eexists _, _. split; [vm_compute; reflexivity|]. split; vm_compute; reflexivity. Qed.

(** The fourth parameter of a body swallows the others. *)
Lemma post_five_parameters :
  ∃ req buf, parse_headers (of_string "POST /publish HTTP/1.0" ++
      10 :: of_string "client=c&retain=1&topic=t&msg=m&qos=0" ++ [0]) = Ok (0, req, buf) ∧
    query_param (of_string "qos") req = None ∧
    query_param (of_string "msg") req = Some (of_string "m&qos").
Proof. eexists _, _. split; [vm_compute; reflexivity|]. split; vm_compute; reflexivity. Qed.
