(* ===== verification/Web.v ===== *)
(** * Publications from the HTTP interface

    What a request to /publish does: the message that Http.v makes, and its way to the
    subscribers through Notify.v. *)

From S2P Require Import Prelude Pkt Msg Mbuf MemStore Context World Sample Handler Delivery Blocking.
From S2P Require Import StrTools SubMgr Connection Invariant Poller Scenarios Safety Sessions Server.
From S2P Require Import Publish Notify Waiting Http Parsing.
From stdpp Require Import options.

(** ** Making a message *)

(** All but the buffers, the message store and the calls are as before. *)
Record rest (w w' : World) : Prop := {
  rt_objs : w_objs w' = w_objs w;
  rt_ctxs : w_ctxs w' = w_ctxs w;
  rt_topics : w_topics w' = w_topics w;
  rt_clients : w_clients w' = w_clients w;
  rt_poller : w_poller w' = w_poller w;
  rt_out : w_out w' = w_out w;
}.

#[export] Instance rest_preorder : PreOrder rest.
Proof.
  split; [by intros w; split|]. intros w1 w2 w3 [] []. split; congruence.
Qed.

Section exact.
Context {E : Env}.

Lemma safe_new_mbuf_exact size (Q : Z → World → Prop) w :
  Inv w → 0 <= size < 2 ^ 31 →
  (∀ b m w', Inv w' → rest w w' → w_store w' = w_store w → w_mbufs w !! b = None →
     w_mbufs w' = <[b := m]> (w_mbufs w) → wf_mbuf m → m_read_pos m = 0 → m_write_pos m = 0 →
     max_size m = size → (∀ id, m_msg_db (w_store w') !! id ≠ Some b) → Q b w') →
  safe (new_mbuf size) Q w.
Proof.
  intros Hi Hs HQ. assert (w_mbufs w !! w_next w = None) as Hfresh.
  { apply eq_None_not_Some. intros H1. assert (w_next w < w_next w); [|lia].
    eapply i_fresh; [exact Hi|]. by right; right. }
  unfold new_mbuf, std_time. apply safe_bind, safe_sys, safe_bind, safe_sys, safe_bind, safe_fresh_id, safe_bind, safe_modify.
  apply safe_ret. set (m := mbuf_init _ _).
  assert (max_size m = size) as Hm.
  { unfold m, max_size, mbuf_init; simpl. unfold zlen. rewrite length_map, length_seq. lia. }
  assert (wf_mbuf m) as Hwf by (apply wf_mbuf_init; unfold m, max_size, mbuf_init in Hm; simpl in Hm; lia).
  assert (∀ id, m_msg_db (w_store w) !! id ≠ Some (w_next w)) as Hdb.
  { intros id Hid. destruct (i_db _ _ _ _ _ _ _ _ _ _ Hi _ _ Hid) as (m1&Hm1&_). congruence. }
  apply (HQ _ m); try done.
  eapply inv_mbuf; [eapply inv_next; [exact Hi|]|..].
  - simpl. lia.
  - exact Hwf.
  - simpl. lia.
  - intros id Hid. by apply Hdb in Hid.
Qed.

(** An update of a buffer that keeps its number and its registration. *)
Lemma safe_upd_mbuf_exact b f m (Q : unit → World → Prop) w :
  Inv w → w_mbufs w !! b = Some m → wf_mbuf (f m) →
  (m_msg_id (f m) = m_msg_id m ∧ m_mem_db (f m) = m_mem_db m ∨ ∀ id, m_msg_db (w_store w) !! id ≠ Some b) →
  (∀ w', Inv w' → rest w w' → w_store w' = w_store w → w_mbufs w' = <[b := f m]> (w_mbufs w) → Q tt w') →
  safe (upd_mbuf b f) Q w.
Proof.
  intros Hi Hb Hwf Hdb HQ. eapply safe_upd_mbuf; [done|]. apply HQ; try done.
  eapply inv_mbuf; [exact Hi|done| |].
  - eapply i_fresh; [exact Hi|]. right; right. by eexists.
  - intros id Hid. destruct Hdb as [[-> ->]|Hdb]; [|by apply Hdb in Hid].
    destruct (i_db _ _ _ _ _ _ _ _ _ _ Hi _ _ Hid) as (m1&Hm1&?). congruence.
Qed.

Lemma safe_regist_exact b m (Q : unit → World → Prop) w :
  Inv w → w_mbufs w !! b = Some m → (∀ id, m_msg_db (w_store w) !! id ≠ Some b) →
  (∀ w', Inv w' → rest w w' → w_mbufs w' = <[b := set_mem_db true m]> (w_mbufs w) → Q tt w') →
  safe (regist_mem_store b) Q w.
Proof.
  intros Hi Hb Hdb HQ. unfold regist_mem_store, std_time. apply safe_bind.
  eapply safe_upd_mbuf_exact; [done|done|exact (Inv_mbuf w b m Hi Hb)|by right|].
  intros w1 Hi1 Hr1 _ Hm1. assert (w_mbufs w1 !! b = Some (set_mem_db true m)) as Hb1
    by (rewrite Hm1; apply lookup_insert_eq).
  apply safe_bind. eapply safe_get_mbuf; [exact Hb1|]. destruct (negb _) eqn:Hz.
  - apply negb_true_iff, Z.eqb_neq in Hz. apply safe_bind, safe_sys, safe_modify.
    apply HQ; [|by destruct Hr1; split|exact Hm1]. eapply inv_db; [exact Hi1|exact Hb1|done|done|exact Hz].
  - apply safe_ret. by apply HQ.
Qed.

End exact.

(** The number of the next message, and the message that a request makes of it. *)
Definition next_id (w : World) : Z := u64 (m_last_msg_id (w_store w) + 1).

Definition topic_of (req : HTTPRequest) : str := default [] (query_param (of_string "topic") req).
Definition text_of (req : HTTPRequest) : str := default [] (query_param (of_string "msg") req).

Definition errors_of (req : HTTPRequest) : str :=
  missing (query_param (of_string "client") req) (of_string "client param missed. ") ++
  missing (query_param (of_string "topic") req) (of_string "topic param missed. ") ++
  missing (query_param (of_string "msg") req) (of_string "msg param missed").

Definition qos_of (req : HTTPRequest) : res Z :=
  match query_param (of_string "qos") req with Some s => flag_of s | None => Ok 1 end.

Definition http_header (q : Z) (dup : bool) : CMqttFixedHeader := mkHeader PUBLISH dup q false.

Definition http_message (w : World) (q : Z) (dup : bool) (req : HTTPRequest) : list Z :=
  packet (http_header q dup) (publish_body (topic_of req) (Z.land (next_id w) 0xFFFF) (text_of req)).

(** The server [w'] has a new buffer [b] with the message [l], which waits. *)
Record queued_msg (b : Z) (l : list Z) (w w' : World) : Prop := {
  qm_fresh : w_mbufs w !! b = None;
  qm_mbuf : ∃ m junk, w_mbufs w' = <[b := m]> (w_mbufs w) ∧ contents m = l ∧
    from_read_ptr m = l ++ junk ∧ mbuf_length m = zlen l ∧ m_msg_type m = MSG_PUBLISH ∧
    m_msg_id m = next_id w ∧ m_mem_db m = true;
  qm_inv : Inv w';
  qm_objs : w_objs w' = w_objs w;
  qm_ctxs : w_ctxs w' = w_ctxs w;
  qm_topics : w_topics w' = w_topics w;
  qm_clients : w_clients w' = w_clients w;
  qm_deque : m_notify_deque (w_poller w') = m_notify_deque (w_poller w) ++ [b];
  qm_writer : m_notify_writer (w_poller w') = m_notify_writer (w_poller w);
}.

Section notify.
Context {E : Env}.

Lemma safe_in_world {A} (m : M A) (Q : A → Web → Prop) g :
  safe m (λ a w, Q a (mkWeb w (web_conn g))) (web_world g) → safe (in_world m) Q g.
Proof. unfold safe, wp, in_world. destruct (m (web_world g)) as [[a| |u] w]; done. Qed.

Lemma safe_lift {A} (r : res A) a (Q : A → Web → Prop) g : r = Ok a → Q a g → safe (lift r) Q g.
Proof. by intros ->. Qed.

(** The end of a write to the notification descriptor. *)
Lemma notify_queues b m p w (Q : Z → World → Prop) :
  Inv w → w_mbufs w !! b = Some m → m_notify_writer (w_poller w) = Some p → is_Some (w_objs w !! p) →
  (∀ r w', Inv w' → w_objs w' = w_objs w → w_ctxs w' = w_ctxs w → w_topics w' = w_topics w →
     w_clients w' = w_clients w → w_mbufs w' = w_mbufs w →
     m_notify_deque (w_poller w') = m_notify_deque (w_poller w) ++ [b] →
     m_notify_writer (w_poller w') = m_notify_writer (w_poller w) → Q r w') →
  safe (notify b) Q w.
Proof.
  intros Hi Hb Hp [o Ho] HQ. unfold notify. apply safe_bind, safe_gets. rewrite Hp. unfold push_back.
  apply safe_bind, safe_bind, safe_modify, safe_ret, safe_bind. eapply safe_get_handler; [exact Ho|].
  assert (Inv (upd_poller (upd_notify_deque (λ q, q ++ [b])) w)) as Hi3.
  { apply (Inv_deque (m_notify_deque (w_poller w) ++ [b])); [done|].
    intros c [Hc|Hc]%elem_of_app; [by eapply (i_deque _ _ _ _ _ _ _ _ _ _ Hi)|].
    apply list_elem_of_singleton in Hc as ->. by eexists. }
  unfold sys_write. apply safe_bind, safe_sys.
  destruct (env_write _ _ _) as [n|e]; apply safe_bind, safe_modify, safe_ret; by apply HQ.
Qed.

Lemma qos_range req q : qos_of req = Ok q → 0 <= q < 2.
Proof.
  unfold qos_of, flag_of. destruct (query_param _ req) as [s|]; [|intros [= <-]; lia].
  destruct (atoi s) as [n| |]; cbn [mbind res_bind]; [|done|done]. pose proof (u8_range n) as Hn. unfold is_byte in Hn.
  intros [= <-]. destruct (Z.ltb_spec 1 (u8 n)); lia.
Qed.

(** The packet in a new buffer of eight bytes more than the two strings. *)
Lemma encoded_message m h topic id text :
  wf_mbuf m → m_read_pos m = 0 → m_write_pos m = 0 → max_size m = zlen text + zlen topic + 8 →
  zlen text + zlen topic <= 8192 →
  let body := publish_body topic id text in
  ∃ l junk, run_encode (CMqttPublish_encode h topic id text) (from_read_ptr m) (max_size m) =
      (Ok (zlen (packet h body)), l) ∧
    let m1 := set_from_read_ptr l m in
    let m2 := mbuf_write_ptr (zlen (packet h body)) m1 in
    wf_mbuf m1 ∧ wf_mbuf m2 ∧ from_read_ptr m2 = packet h body ++ junk ∧ contents m2 = packet h body ∧
    mbuf_length m2 = zlen (packet h body) ∧ m_msg_type m2 = m_msg_type m ∧ m_msg_id m2 = m_msg_id m ∧
    m_mem_db m2 = m_mem_db m.
Proof.
  intros Hwf Hr Hw Hmax Hsmall body. pose proof (zlen_nonneg text). pose proof (zlen_nonneg topic).
  assert (zlen body = zlen topic + 4 + zlen text) as Hb by (unfold body, publish_body; autorewrite with zlen; lia).
  pose proof (zlen_packet h body) as Hp. pose proof (zlen_varint_14 (zlen body)).
  pose proof (zlen_nonneg (varint 5 (zlen body))).
  set (pkt := packet h body) in *. assert (zlen pkt <= max_size m) as Hfit by lia.
  set (buf := from_read_ptr m). assert (buf = m_data m) as Hbuf by (unfold buf, from_read_ptr; by rewrite Hr).
  assert (zlen buf = max_size m) as Hzbuf by (rewrite Hbuf; reflexivity).
  exists (pkt ++ drop (Z.to_nat (zlen pkt)) buf), (drop (Z.to_nat (zlen pkt)) buf).
  split.
  { replace (Z.to_nat (zlen pkt)) with (length pkt) by (unfold zlen; lia).
    apply publish_packet; fold body; fold pkt; rewrite ?Hzbuf; try done; lia. }
  intros m1 m2. assert (max_size m1 = max_size m) as Hm1.
  { unfold m1, set_from_read_ptr, upd_data, max_size; cbn [m_data]. rewrite Hr, zlen_app, zlen_app.
    change (take (Z.to_nat 0) (m_data m)) with (@nil Z). rewrite zlen_nil, zlen_drop by lia. unfold max_size in *. lia. }
  assert (wf_mbuf m1) as Hwf1.
  { unfold wf_mbuf. rewrite Hm1. exact Hwf. }
  assert (mbuf_write_ptr (zlen pkt) m1 = upd_write_pos (λ p, u32 (p + zlen pkt)) m1) as Hm2.
  { unfold mbuf_write_ptr. change (m_write_pos m1) with (m_write_pos m). rewrite Hw, Hm1, u32_small by lia.
    by rewrite (proj2 (Z.ltb_ge _ _)) by lia. }
  assert (m_write_pos m2 = zlen pkt) as Hw2.
  { unfold m2. rewrite Hm2. cbn. rewrite Hw. apply u32_small. lia. }
  assert (m_read_pos m2 = 0) as Hr2 by (unfold m2; rewrite Hm2; exact Hr).
  assert (m_data m2 = pkt ++ drop (Z.to_nat (zlen pkt)) buf) as Hd2.
  { unfold m2. rewrite Hm2. cbn. by rewrite Hr. }
  assert (wf_mbuf m2) as Hwf2.
  { unfold wf_mbuf. rewrite Hr2, Hw2. change (max_size m2) with (zlen (m_data m2)).
    assert (zlen (m_data m2) = max_size m) as -> by (unfold m2; rewrite Hm2; exact Hm1). lia. }
  assert (mbuf_length m2 = zlen pkt) as Hl2 by (rewrite mbuf_length_wf, Hw2, Hr2 by done; lia).
  assert (from_read_ptr m2 = pkt ++ drop (Z.to_nat (zlen pkt)) buf) as Hf2 by (unfold from_read_ptr; by rewrite Hr2, Hd2).
  split_and!; try done; try (unfold m2; by rewrite Hm2).
  unfold contents. rewrite Hl2, Hf2. apply take_app_length'. unfold zlen. lia.
Qed.

Lemma notify_publish_queues q req g p :
  Inv (web_world g) → h_notify (web_conn g) = true →
  m_notify_writer (w_poller (web_world g)) = Some p → is_Some (w_objs (web_world g) !! p) →
  qos_of req = Ok q → zlen (text_of req) + zlen (topic_of req) <= 8192 →
  safe (notify_mqtt_publish req) (λ err g', err = errors_of req ∧ web_conn g' = web_conn g ∧
    ∃ b dup, queued_msg b (http_message (web_world g) q dup req) (web_world g) (web_world g')) g.
Proof.
  set (w := web_world g). intros Hi Hn Hp [o Ho] Hq Hsmall.
  pose proof (zlen_nonneg (text_of req)) as Htn. pose proof (zlen_nonneg (topic_of req)) as Hon.
  unfold notify_mqtt_publish. fold (errors_of req) (topic_of req) (text_of req) (qos_of req).
  apply safe_bind, (safe_lift _ q); [exact Hq|]. apply safe_bind, (safe_lift _ 0); [by destruct (query_param _ req)|].
  apply safe_bind, safe_in_world, safe_sys. set (dup := Z.testbit _ 0). fold (http_header q dup).
  change (negb (0 =? 0)) with false. fold (http_header q dup). rewrite u32_small by lia.
  set (w0 := upd_calls S w). assert (Inv w0) as Hi0 by exact Hi.
  apply safe_bind, safe_in_world, (safe_new_mbuf_exact _ _ w0); [done|lia|].
  intros b m w1 Hi1 Hr1 Hst1 Hfresh Hm1 Hwf Hrp Hwp Hmax Hdb1.
  assert (w_mbufs w1 !! b = Some m) as Hb1 by (rewrite Hm1; apply lookup_insert_eq).
  apply safe_bind, safe_in_world. eapply (safe_upd_mbuf_exact b _ m); [exact Hi1|exact Hb1|exact Hwf|by right|].
  intros w2 Hi2 Hr2 Hst2 Hm2. cbn [web_world] in Hi2, Hr2, Hst2, Hm2. apply safe_bind, safe_gets. unfold compose. cbn [web_world].
  assert (w_store w2 = w_store w) as Hst by (by rewrite Hst2, Hst1). rewrite Hst. unfold next_msg_id.
  cbv zeta. fold (next_id w). apply safe_bind, safe_in_world, safe_modify. cbn [web_world]. set (w3 := upd_store _ w2).
  assert (Inv w3) as Hi3 by (unfold Inv in *; cbn; rewrite Hst in Hi2; exact Hi2).
  assert (∀ id, m_msg_db (w_store w3) !! id ≠ Some b) as Hdb3 by (intros id; cbn; rewrite Hst1 in Hdb1; exact (Hdb1 id)).
  set (m2 := set_msg_type MSG_PUBLISH m) in *. assert (w_mbufs w3 !! b = Some m2) as Hb3
    by (cbn; rewrite Hm2; apply lookup_insert_eq).
  apply safe_bind, safe_in_world. eapply (safe_upd_mbuf_exact b _ m2); [exact Hi3|exact Hb3|exact Hwf|by right|].
  intros w4 Hi4 Hr4 Hst4 Hm4. cbn [web_world] in Hi4, Hr4, Hst4, Hm4. set (m4 := set_msg_id (next_id w) m2) in *.
  assert (w_mbufs w4 !! b = Some m4) as Hb4 by (rewrite Hm4; apply lookup_insert_eq).
  assert (∀ id, m_msg_db (w_store w4) !! id ≠ Some b) as Hdb4 by (rewrite Hst4; exact Hdb3).
  apply safe_bind, safe_in_world. eapply (safe_regist_exact b m4); [exact Hi4|exact Hb4|exact Hdb4|].
  intros w5 Hi5 Hr5 Hm5. cbn [web_world] in Hi5, Hr5, Hm5. set (m5 := set_mem_db true m4) in *.
  assert (w_mbufs w5 !! b = Some m5) as Hb5 by (rewrite Hm5; apply lookup_insert_eq).
  apply safe_bind, safe_in_world. eapply safe_get_mbuf; [exact Hb5|].
  destruct (encoded_message m5 (http_header q dup) (topic_of req) (Z.land (next_id w) 0xFFFF) (text_of req))
    as (l&junk&Henc&Hwf1&Hwf2&Hf&Hc&Hl&Hty&Hid&Hmd); [exact Hwf|exact Hrp|exact Hwp|exact Hmax|lia|].
  change (max_size m5) with (max_size m) in Henc. rewrite Hmax in Henc. rewrite Henc.
  set (m6 := set_from_read_ptr l m5) in *. fold (http_message w q dup req) in Hf, Hc, Hl, Hwf2, Hty, Hid, Hmd |- *.
  apply safe_bind, safe_in_world. eapply (safe_upd_mbuf_exact b _ m5); [exact Hi5|exact Hb5|exact Hwf1|by left|].
  intros w6 Hi6 Hr6 Hst6 Hm6. cbn [web_world] in Hi6, Hr6, Hst6, Hm6. assert (w_mbufs w6 !! b = Some m6) as Hb6 by (rewrite Hm6; apply lookup_insert_eq).
  apply safe_bind, safe_in_world. eapply (safe_upd_mbuf_exact b _ m6); [exact Hi6|exact Hb6|exact Hwf2|left; split; [exact Hid|exact Hmd]|].
  intros w7 Hi7 Hr7 Hst7 Hm7. cbn [web_world] in Hi7, Hr7, Hst7, Hm7. set (m7 := mbuf_write_ptr _ m6) in *.
  apply safe_bind, safe_gets. cbn [web_conn]. rewrite Hn.
  assert (rest w w7) as Hr.
  { transitivity w1; [by destruct Hr1; split|]. transitivity w2; [done|]. transitivity w4; [by destruct Hr4; split|].
    transitivity w5; [done|]. by transitivity w6. }
  assert (w_mbufs w7 = <[b := m7]> (w_mbufs w)) as Hmb.
  { rewrite Hm7, Hm6, Hm5, Hm4. cbn [w_mbufs w3 upd_store eta_world]. rewrite Hm2, Hm1, !insert_insert_eq. done. }
  destruct Hr as [Ro Rc Rt Rk Rp _].
  assert (w_mbufs w7 !! b = Some m7) as Hb7 by (rewrite Hmb; apply lookup_insert_eq).
  assert (m_notify_writer (w_poller w7) = Some p) as Hp7 by (rewrite Rp; exact Hp).
  assert (w_objs w7 !! p = Some o) as Ho7 by (rewrite Ro; exact Ho).
  apply safe_bind, safe_bind, safe_in_world. eapply (notify_queues b m7 p);
    [exact Hi7|exact Hb7|exact Hp7|by exists o|].
  intros r w8 Hi8 Ho8 Hc8 Ht8 Hk8 Hm8 Hd8 Hw8. apply safe_ret, safe_ret. split; [done|]. split; [done|].
  exists b, dup. cbn [web_world]. cbn [web_world] in *. split; [exact Hfresh| |exact Hi8|congruence..].
  exists m7, junk. split_and!; try done. congruence.
Qed.

End notify.

(** ** The message in the queue *)

(** The publication as the server reads it. *)
Definition published_msg (w : World) (q : Z) (dup : bool) (req : HTTPRequest) : CMqttPublish :=
  let h := http_header q dup in
  let id := Z.land (next_id w) 0xFFFF in
  let body := publish_body (topic_of req) id (text_of req) in
  {| pub_base := base_of h body; pub_topic_name := topic_of req; pub_payload := text_of req;
     pub_msg_id := id; pub_msg_id_offset := 1 + zlen (varint 5 (zlen body)) + 2 + zlen (topic_of req) |}.

Lemma queued_waits b w w' q dup req :
  0 <= q < 2 → zlen (topic_of req) <= 4096 → zlen (text_of req) <= 4096 →
  queued_msg b (http_message w q dup req) w w' → waits w' b (published_msg w q dup req).
Proof.
  intros Hq Ht Hx [_ (m&junk&Hm&Hc&Hf&Hl&Hty&_&_) _ _ _ _ _ _ _]. exists m. rewrite Hm, lookup_insert_eq.
  pose proof (Z.land_nonneg (next_id w) 0xFFFF) as [_ Hid]. pose proof (zlen_nonneg (topic_of req)).
  assert (Z.land (next_id w) 0xFFFF < 65536) as Hid'
    by (change 0xFFFF with (Z.ones 16); rewrite Z.land_ones by lia; apply Z.mod_pos_bound; lia).
  split_and!; [done|rewrite Hc; by intros ?|done|]. rewrite Hf, Hl. apply publish_decode_packet.
  - unfold http_header. cbn. lia.
  - lia.
  - split; [apply Hid; by right|exact Hid'].
  - unfold publish_body. autorewrite with zlen. lia.
Qed.

Lemma queued_waiting b w w' q dup req :
  Inv w → waiting w → 0 <= q < 2 → zlen (topic_of req) <= 4096 → zlen (text_of req) <= 4096 →
  queued_msg b (http_message w q dup req) w w' → waiting w'.
Proof.
  intros Hi Hw Hq Ht Hx Hqm. pose proof (queued_waits b w w' q dup req Hq Ht Hx Hqm) as Hwb.
  destruct Hqm as [Hb (m&junk&Hm&_) _ Ho Hc Htop _ Hd _].
  apply (waiting_more b w); [done|done|done|by exists m|done..|]. right. split; [exact Hd|by eexists].
Qed.

(** ** A connection *)

Record web_ok (g : Web) : Prop := {
  wo_world : Inv (web_world g);
  wo_waiting : waiting (web_world g);
  wo_writer : is_Some (m_notify_writer (w_poller (web_world g)));
  wo_notify : h_notify (web_conn g) = true;
  wo_buffer : zlen (h_recv_buffer (web_conn g)) = MAX_BUF_SIZE;
  wo_pos : 0 <= h_cur_buf_pos (web_conn g) < MAX_BUF_SIZE;
  wo_date : zlen (rs_date (h_response (web_conn g))) <= 100;
  wo_phrase : zlen (rs_phrase (h_response (web_conn g))) <= 20;
  wo_type : zlen (rs_type (h_response (web_conn g))) <= 20;
}.

(** The members but the buffer and the position. *)
Definition short (r : HTTPResponse) : Prop :=
  zlen (rs_date r) <= 100 ∧ zlen (rs_phrase r) <= 20 ∧ zlen (rs_type r) <= 20.

Lemma zlen_decimal z : zlen (decimal z) <= 11.
Proof. pose proof (decimal_length z). unfold zlen. lia. Qed.

Lemma response_header_short r : short r → zlen (response_header r) <= 300.
Proof.
  intros (Hd&Hp&Ht). unfold response_header, CRLF. autorewrite with zlen.
  pose proof (zlen_decimal (rs_code r)). pose proof (zlen_decimal (s32 (u32 (zlen (rs_body r))))).
  change (zlen (of_string "HTTP/1.0 ")) with 9. change (zlen (of_string "Server: HttpServer 1.0")) with 22.
  change (zlen (of_string "Date: ")) with 6. change (zlen (of_string "Content-Type: ")) with 14.
  change (zlen (of_string "Content-Length: ")) with 16. lia.
Qed.

(** The bytes of a response. *)
Definition response_bytes (r : HTTPResponse) : list Z := response_header r ++ CRLF ++ rs_body r.

Section connection.
Context {E : Env} {L : EnvLaws} {G : Patience} {P : PatientWrites}.

Lemma upd_h_response_ext f f' c :
  f (h_response c) = f' (h_response c) → upd_h_response f c = upd_h_response f' c.
Proof. intros H. unfold upd_h_response. by rewrite H. Qed.

Lemma http_send_safe r g :
  short r → safe (http_send r) (λ _ g', web_conn g' = web_conn g ∧ talks (web_world g) (web_world g')) g.
Proof using L P.
  intros Hr. pose proof (response_header_short r Hr) as Hh. unfold http_send, snprintf.
  assert (zlen (take (1024 - 1) (response_header r)) <= 300) as Hlen
    by (unfold zlen in *; rewrite length_take; lia).
  rewrite (proj2 (Z.leb_gt _ _)) by lia. set (data := _ ++ CRLF ++ _).
  apply safe_bind, safe_gets, safe_in_world. unfold handler_write_n. apply safe_bind.
  pose proof (zlen_nonneg data). eapply safe_mono; [apply write_all_n_safe|].
  - unfold u32. pose proof (Z.mod_le (zlen data) (2 ^ 32)). pose proof (Z.mod_pos_bound (zlen data) (2 ^ 32)). lia.
  - pose proof (Z.mod_pos_bound (zlen data) (2 ^ 32)). unfold u32. lia.
  - intros s w [_ Hw]. by apply safe_ret.
Qed.

(** A socket that takes everything at once gets the bytes of the response. *)
Lemma http_send_bytes r g :
  short r → zlen (rs_body r) < 2 ^ 31 → (∀ n fd l, env_write n fd l = IoOk (zlen l)) →
  safe (http_send r) (λ s g', s = zlen (response_bytes r) ∧ web_conn g' = web_conn g ∧
    writes_out [Sent (m_sock_handle (h_handler (web_conn g))) (response_bytes r)] (web_world g) (web_world g')) g.
Proof using P.
  intros Hr Hbody Hall. pose proof (response_header_short r Hr) as Hh. unfold http_send, snprintf.
  assert (take (1024 - 1) (response_header r) = response_header r) as ->
    by (apply take_ge; unfold zlen in Hh; lia).
  rewrite (proj2 (Z.leb_gt _ _)) by lia. fold (response_bytes r).
  pose proof (zlen_nonneg (response_header r)). pose proof (zlen_nonneg (rs_body r)).
  assert (zlen (response_bytes r) = zlen (response_header r) + 2 + zlen (rs_body r)) as Hz
    by (unfold response_bytes, CRLF; autorewrite with zlen; lia).
  apply safe_bind, safe_gets, safe_in_world. rewrite u32_small by lia. unfold handler_write_n. apply safe_bind.
  eapply safe_mono; [apply (write_all_n_at_once _ (response_bytes r) (zlen (response_bytes r))); [done|lia]|].
  intros s w [-> Hw]. apply safe_ret. split_and!; [done|done|]. cbn [web_world].
  rewrite take_ge in Hw by (unfold zlen; lia). exact Hw.
Qed.

Lemma talk_queued_msg b l w w1 w2 w3 :
  talks w w1 → queued_msg b l w1 w2 → talks w2 w3 → queued_msg b l w w3.
Proof. intros (n&e&o&->) [] (n'&e'&o'&->). by split. Qed.

Lemma talk_web_ok g g' :
  web_ok g → talks (web_world g) (web_world g') → web_conn g' = web_conn g → web_ok g'.
Proof. intros [] (n&e&o&Hw) Hc. split; rewrite ?Hc, ?Hw; done. Qed.

(** ** A request *)

(** What a request is answered, and what it leaves of the response. *)
Definition answer_of (req : HTTPRequest) (res : Z) (r : HTTPResponse) : HTTPResponse :=
  let r := set_type (of_string "text/json") r in
  if (res =? -1) || negb (bool_decide (rq_path req = of_string "/publish")) then
    append (snprintf 1024 (json_error (of_string "not found") (rq_path req)))
      (set_phrase (of_string "Not Found") (set_code 404 r))
  else match errors_of req with
       | [] => append (of_string "{" ++ quoted (of_string "msg") ++ of_string ":" ++
                         quoted (of_string "succeed") ++ of_string "}") (set_code 200 r)
       | e => append (snprintf 1024 (json_error e (rq_path req))) (set_code 400 r)
       end.

Definition publishes (req : HTTPRequest) (res : Z) : bool :=
  negb (res =? -1) && bool_decide (rq_path req = of_string "/publish").

Lemma answer_short req res r : short r → short (answer_of req res r).
Proof.
  intros (?&?&?). unfold answer_of, short. destruct (_ || _); [cbn; split_and!; [done|vm_compute; discriminate..]|].
  destruct (errors_of req); cbn; (split_and!; [done|done|vm_compute; discriminate]).
Qed.

(** What the request [req] has done: the new message, if it asks for one. *)
Definition handled (req : HTTPRequest) (res q : Z) (g g' : Web) : Prop :=
  h_response (web_conn g') = answer_of req res (h_response (web_conn g)) ∧
  if publishes req res then
    ∃ b dup, queued_msg b (http_message (web_world g) q dup req) (web_world g) (web_world g')
  else talks (web_world g) (web_world g').

Lemma bounded_query z req name v : bounded z req → query_param name req = Some v → zlen v <= Z.of_nat z.
Proof. intros Hb Hv. specialize (Hb _ _ Hv). cbn in Hb. unfold zlen. lia. Qed.

Lemma bounded_default z req name : bounded z req → zlen (default [] (query_param name req)) <= Z.of_nat z.
Proof.
  intros Hb. destruct (query_param name req) as [v|] eqn:Hv; [by eapply bounded_query|].
  cbn. rewrite zlen_nil. lia.
Qed.

Lemma http_process_handles res req buf' q g :
  web_ok g → parse_headers (h_recv_buffer (web_conn g)) = Ok (res, req, buf') →
  length buf' = length (h_recv_buffer (web_conn g)) → bounded 4096 req → qos_of req = Ok q →
  rq_path req ≠ of_string "/favicon.ico" →
  safe http_process (λ r g', r = 0 ∧ web_ok g' ∧ handled req res q g g') g.
Proof using L P.
  intros Hg Hparse Hl Hb Hq Hfav. unfold http_process. apply safe_bind, safe_gets, safe_bind.
  apply (safe_lift _ (res, req, buf')); [exact Hparse|]. apply safe_bind, safe_modify.
  rewrite decide_False by done. apply safe_bind, safe_modify. apply safe_bind.
  set (g1 := mkWeb _ _). set (r0 := h_response (web_conn g)).
  assert (short r0) as Hr0 by (destruct Hg; by split_and!).
  assert (∀ w, Inv w → waiting w → is_Some (m_notify_writer (w_poller w)) →
    (if publishes req res then ∃ b dup, queued_msg b (http_message (web_world g) q dup req) (web_world g) w
     else talks (web_world g) w) →
    safe (do c <- gets web_conn; do _ <- http_send (h_response c); ret 0)
      (λ r g', r = 0 ∧ web_ok g' ∧ handled req res q g g')
      (mkWeb w (upd_h_response (λ _, answer_of req res r0) (web_conn g1)))) as Hsend.
  { intros w Hi Hw Hwr Hd. apply safe_bind, safe_gets, safe_bind.
    cbn [web_conn upd_h_response h_response eta_http].
    eapply safe_mono; [exact (http_send_safe (answer_of req res r0) _ (answer_short req res r0 Hr0))|]. cbn [web_conn web_world].
    intros s g2 [Hc2 Ht2]. apply safe_ret. split; [done|].
    pose proof (answer_short req res r0 Hr0) as (?&?&?). split.
    - apply (talk_web_ok (mkWeb w (upd_h_response (λ _, answer_of req res r0) (web_conn g1)))); [|done|done].
      destruct Hg. split; try done. cbn. unfold zlen in *. by rewrite Hl.
    - split; [by rewrite Hc2|]. destruct (publishes req res).
      + destruct Hd as (b&dup&Hd). exists b, dup. eapply talk_queued_msg; [reflexivity|exact Hd|exact Ht2].
      + etrans; [exact Hd|exact Ht2]. }
  destruct Hg as [Hi Hw [p Hp] Hn _ _ _ _ _]. destruct (Inv_writer _ Hi p Hp) as [o Ho]. destruct ((res =? -1) || _) eqn:Hres.
  - apply safe_modify. cbn [web_world web_conn].
    rewrite (upd_h_response_ext _ (λ _, answer_of req res r0)) by (unfold answer_of; rewrite Hres; reflexivity).
    apply Hsend; [exact Hi|exact Hw|by exists p|].
    assert (publishes req res = false) as -> by (unfold publishes; by rewrite <- (negb_involutive (bool_decide _)), <- negb_orb, Hres).
    reflexivity.
  - assert (publishes req res = true) as Hpub
      by (unfold publishes; by rewrite <- (negb_involutive (bool_decide _)), <- negb_orb, Hres).
    pose proof (bounded_default 4096 req (of_string "msg") Hb : zlen (text_of req) <= 4096).
    pose proof (bounded_default 4096 req (of_string "topic") Hb : zlen (topic_of req) <= 4096).
    apply safe_bind. eapply safe_mono.
    { apply (notify_publish_queues q req g1 p); [exact Hi|exact Hn|exact Hp|by exists o|exact Hq|]. lia. }
    intros err g2 (->&Hc2&b&dup&Hqm). pose proof Hqm as [_ _ Hi2 Ho2 _ _ _ _ Hw2].
    assert (safe (do c <- gets web_conn; do _ <- http_send (h_response c); ret 0)
      (λ r g', r = 0 ∧ web_ok g' ∧ handled req res q g g')
      (mkWeb (web_world g2) (upd_h_response (λ _, answer_of req res r0) (web_conn g1)))) as Hs.
    { apply Hsend; [exact Hi2| |exists p; by rewrite Hw2|rewrite Hpub; by exists b, dup].
      eapply queued_waiting; [exact Hi|exact Hw|by eapply qos_range|done|done|exact Hqm]. }
    destruct (errors_of req) as [|c0 e0] eqn:Herr; apply safe_modify; cbn [web_world web_conn]; rewrite Hc2;
      (rewrite (upd_h_response_ext _ (λ _, answer_of req res r0)) by (unfold answer_of; rewrite Hres, Herr; reflexivity));
      exact Hs.
Qed.

(** ** Reading *)

(** The receive buffer with the new data, and a zero behind it. *)
Definition received (c : HttpConnection) (data : list Z) : list Z :=
  <[Z.to_nat (h_cur_buf_pos c + zlen data) := 0]>
    (splice (Z.to_nat (h_cur_buf_pos c)) data (h_recv_buffer c)).

(** The data fits, the parser is defined on it if it is a POST, and [atoi] on the QoS
    that it asks for. *)
Definition harmless (c : HttpConnection) (data : list Z) : Prop :=
  let buf := received c data in
  h_cur_buf_pos c + zlen data < MAX_BUF_SIZE ∧
  (posted (S (length buf)) buf 0 = true → ∃ r, parse_headers buf = Ok r) ∧
  ∀ res req buf', parse_headers buf = Ok (res, req, buf') → ∃ q, qos_of req = Ok q.

Definition harmless_b (c : HttpConnection) (data : list Z) : bool :=
  let buf := received c data in
  (h_cur_buf_pos c + zlen data <? MAX_BUF_SIZE) &&
  match parse_headers buf with
  | Ok (_, req, _) => match qos_of req with Ok _ => true | _ => false end
  | _ => false
  end.

Lemma harmless_b_spec c data : harmless_b c data = true → harmless c data.
Proof using.
  unfold harmless_b, harmless. intros [Hlt Hp]%andb_true_iff. apply Z.ltb_lt in Hlt. split; [done|].
  destruct (parse_headers _) as [[[res req] buf']| |] eqn:Hparse; [|done..]. split; [by eexists|].
  intros res' req' buf2 [= <- <- <-]. destruct (qos_of req) as [q| |]; [by exists q|done..].
Qed.

Lemma received_ends c data :
  zlen (h_recv_buffer c) = MAX_BUF_SIZE → 0 <= h_cur_buf_pos c → h_cur_buf_pos c + zlen data < MAX_BUF_SIZE →
  zlen (received c data) = MAX_BUF_SIZE ∧
  received c data !! Z.to_nat (h_cur_buf_pos c + zlen data) = Some 0.
Proof using.
  intros Hl H0 Hlt. pose proof (zlen_nonneg data).
  assert (zlen (splice (Z.to_nat (h_cur_buf_pos c)) data (h_recv_buffer c)) = MAX_BUF_SIZE) as Hs
    by (rewrite zlen_splice; lia).
  unfold received. split; [by unfold zlen in *; rewrite length_insert|].
  apply list_lookup_insert_eq. unfold zlen, MAX_BUF_SIZE in *. lia.
Qed.

Lemma talk_handled req res q g g1 g2 :
  talks (web_world g) (web_world g1) → h_response (web_conn g1) = h_response (web_conn g) →
  handled req res q g1 g2 → handled req res q g g2.
Proof using.
  intros Ht Hr [Ha Hd]. split; [by rewrite <- Hr|]. destruct (publishes req res); [|by etrans].
  destruct Hd as (b&dup&Hq). exists b, dup.
  assert (http_message (web_world g1) q dup req = http_message (web_world g) q dup req) as <-
    by (destruct Ht as (?&?&?&->); reflexivity).
  by eapply talk_queued_msg.
Qed.

(** What the next call of [read] answers. *)
Definition input (g : Web) :=
  env_read (w_calls (web_world g)) (m_sock_handle (h_handler (web_conn g)))
    (MAX_BUF_SIZE - h_cur_buf_pos (web_conn g)).

Lemma http_input_cases (Q : Z → Web → Prop) g :
  web_ok g →
  (∀ r g', (∀ data, input g = ReadOk data → data = []) → web_ok g' → talks (web_world g) (web_world g') →
     r = 0 ∨ r = -1 → Q r g') →
  (∀ data g', data ≠ [] → h_cur_buf_pos (web_conn g) + zlen data <= MAX_BUF_SIZE →
     input g = ReadOk data →
     h_cur_buf_pos (web_conn g) + zlen data < MAX_BUF_SIZE ∧
     (web_ok g' → talks (web_world g) (web_world g') → h_recv_buffer (web_conn g') = received (web_conn g) data →
      h_response (web_conn g') = h_response (web_conn g) → safe http_process Q g')) →
  safe http_handle_input Q g.
Proof using L.
  intros Hg Hnone Hdata. pose proof Hg as [Hi Hwt Hw Hn Hl Hpos Hd Hp Ht]. unfold MAX_BUF_SIZE in Hpos.
  unfold http_handle_input. apply safe_bind, safe_gets. rewrite u32_small by (unfold MAX_BUF_SIZE; lia).
  apply safe_bind, safe_in_world. unfold sys_read. apply safe_bind, safe_sys.
  change (env_read _ _ _) with (input g). destruct (input g) as [data|e] eqn:Hread.
  2:{ apply safe_bind, safe_modify, safe_ret, safe_bind, safe_gets.
      match goal with |- safe _ _ ?g1 => set (g2 := g1) end.
      assert (talks (web_world g) (web_world g2)) as Ht2 by (eexists _, e, []; symmetry; apply talk_quiet).
      assert (web_ok g2) as H2 by (by eapply talk_web_ok).
      destruct (would_block _); apply safe_ret; (apply Hnone; [done|exact H2|exact Ht2|]); [by left|by right]. }
  apply safe_ret. destruct data as [|d data].
  { apply safe_ret. apply Hnone; [by intros data [= <-]|by destruct Hg; split| |by right].
    eexists _, _, []. symmetry. apply talk_quiet. }
  set (l1 := d :: data) in *. apply env_read_ok in Hread as Hfit; [|unfold MAX_BUF_SIZE; lia].
  destruct Hfit as [Hfit _].
  pose proof (zlen_nonneg l1).
  do 4 (apply safe_bind, safe_modify). apply safe_bind, safe_gets. cbn [web_conn].
  set (c1 := upd_h_buf_pos _ _). set (w1 := upd_calls S (web_world g)).
  assert (h_cur_buf_pos c1 = h_cur_buf_pos (web_conn g) + zlen l1) as Hc1
    by (cbn -[u32 zlen]; apply u32_small; unfold MAX_BUF_SIZE in *; lia).
  assert (h_cur_buf_pos (web_conn g) + zlen l1 < MAX_BUF_SIZE) as Hlt
    by (apply (Hdata l1 g); [done|lia|done]).
  assert (∀ g', web_ok g' → talks (web_world g) (web_world g') →
    h_recv_buffer (web_conn g') = received (web_conn g) l1 →
    h_response (web_conn g') = h_response (web_conn g) → safe http_process Q g') as Hk
    by (intros g'; apply Hdata; [done|lia|done]).
  rewrite Hc1.
  rewrite (proj2 (Z.ltb_lt _ _)) by lia. rewrite <- Hc1.
  apply safe_bind, safe_modify, safe_bind, safe_in_world, safe_sys, safe_bind, safe_modify. cbn [web_world web_conn].
  destruct (received_ends (web_conn g) l1) as [Hlen _]; [done|lia|lia|].
  apply Hk.
  - split; try done; cbn [web_conn web_world].
    + change (zlen (<[Z.to_nat (h_cur_buf_pos c1) := 0]>
        (splice (Z.to_nat (h_cur_buf_pos (web_conn g))) l1 (h_recv_buffer (web_conn g)))) = MAX_BUF_SIZE).
      rewrite Hc1. exact Hlen.
    + change (0 <= h_cur_buf_pos c1 < MAX_BUF_SIZE). lia.
  - eexists _, _, []. symmetry. apply talk_quiet.
  - change (<[Z.to_nat (h_cur_buf_pos c1) := 0]>
        (splice (Z.to_nat (h_cur_buf_pos (web_conn g))) l1 (h_recv_buffer (web_conn g))) =
        received (web_conn g) l1). by rewrite Hc1.
  - done.
Qed.

(** The request for the icon is not answered. *)
Definition icon (req : HTTPRequest) : Prop := rq_path req = of_string "/favicon.ico".

Lemma http_process_safe z g :
  web_ok g → h_recv_buffer (web_conn g) !! z = Some 0 → (z < 4096)%nat →
  (∃ r, parse_headers (h_recv_buffer (web_conn g)) = Ok r) →
  (∀ res req buf', parse_headers (h_recv_buffer (web_conn g)) = Ok (res, req, buf') → ∃ q, qos_of req = Ok q) →
  safe http_process (λ r g', web_ok g' ∧
    ∃ res req buf' q, parse_headers (h_recv_buffer (web_conn g)) = Ok (res, req, buf') ∧ qos_of req = Ok q ∧
      (icon req ∧ r = -1 ∧ talks (web_world g) (web_world g') ∨ ¬ icon req ∧ r = 0 ∧ handled req res q g g')) g.
Proof using L P.
  intros Hg Hz Hlt [[[res req] buf'] Hparse] Hqos. destruct (Hqos _ _ _ Hparse) as [q Hq].
  destruct (parse_headers_bounded z _ _ _ _ Hz Hparse) as [Hb Hl].
  assert (bounded 4096 req) as Hb'.
  { intros k v Hv. specialize (Hb k v Hv). cbn in Hb. lia. }
  destruct (decide (rq_path req = of_string "/favicon.ico")) as [Hf|Hf].
  - unfold http_process. apply safe_bind, safe_gets, safe_bind, (safe_lift _ (res, req, buf')); [exact Hparse|].
    apply safe_bind, safe_modify. rewrite decide_True by done. apply safe_ret. split.
    + destruct Hg. split; try done. cbn. unfold zlen in *. by rewrite Hl.
    + exists res, req, buf', q. split_and!; [done|done|left; split_and!; [done|done|]].
      eexists _, _, []. symmetry. apply talk_nil.
  - eapply safe_mono; [by eapply http_process_handles|]. intros r g' (->&Hg'&Hh). split; [done|].
    exists res, req, buf', q. split_and!; [done|done|by right].
Qed.

Lemma talks_grew w w' : talks w w' → grew w w'.
Proof using. intros (n&e&l&->). by split. Qed.

Lemma handled_grew req res q g g' : Inv (web_world g) → handled req res q g g' → grew (web_world g) (web_world g').
Proof using.
  intros Hi [_ Hh]. destruct (publishes req res); [|by apply talks_grew].
  destruct Hh as (b&dup&[Hb (m&junk&Hm&_) _ Ho Hc Ht Hk Hd Hw]).
  apply (grew_more b); [done|done|by exists m|done..|by right].
Qed.

(** A call of [handle_input], whatever the client sends. *)
Definition input_ok (g : Web) (r : Z) (g' : Web) : Prop :=
  web_ok g' ∧ (r = 0 ∨ r = -1) ∧ grew (web_world g) (web_world g') ∧
  ∀ data, input g = ReadOk data → data ≠ [] →
    ∃ res req buf' q, parse_headers (received (web_conn g) data) = Ok (res, req, buf') ∧ qos_of req = Ok q ∧
      (icon req ∧ r = -1 ∨ ¬ icon req ∧ r = 0 ∧ handled req res q g g').

Lemma http_input_safe g :
  web_ok g → (∀ data, input g = ReadOk data → harmless (web_conn g) data) →
  safe http_handle_input (input_ok g) g.
Proof using L P.
  intros Hg Hharm. apply http_input_cases; [done|..].
  - intros r g' Hnone Hg' Ht Hr. split_and!; [done|done|by apply talks_grew|]. intros data Hd Hne. by apply Hnone in Hd.
  - intros data g' Hne _ Hread. destruct (Hharm data Hread) as (Hlt&Hpost&Hqos). split; [done|].
    intros Hg' Ht Hb Hr. pose proof Hg as [_ _ _ _ Hlen Hpos _ _ _]. pose proof (zlen_nonneg data).
    destruct (received_ends (web_conn g) data) as [Hl0 Hz]; [done|lia|done|]. rewrite <- Hb in *.
    eapply safe_mono; [apply (http_process_safe _ g' Hg' Hz)|].
    + unfold MAX_BUF_SIZE in *. lia.
    + destruct (posted (S (length (h_recv_buffer (web_conn g')))) (h_recv_buffer (web_conn g')) 0) eqn:Hp; [by apply Hpost|].
      destruct (parse_headers_ok _ _ Hz Hp) as (res&req&buf'&->&_). by eexists.
    + exact Hqos.
    + intros r g2 (Hg2&res&req&buf'&q&Hparse&Hq&Hcase). split_and!; [done| |etrans; [by apply talks_grew|]|].
      * destruct Hcase as [(_&->&_)|(_&->&_)]; [by right|by left].
      * destruct Hcase as [(_&_&Ht2)|(_&_&Hh)]; [by apply talks_grew|].
        eapply handled_grew; [apply Hg'|exact Hh].
      * intros data' Hread' _. assert (data' = data) as -> by congruence.
        exists res, req, buf', q. rewrite Hb in Hparse. split_and!; [done|done|].
        destruct Hcase as [(?&?&_)|(?&?&Hh)]; [by left|right]. split_and!; [done|done|]. by eapply talk_handled.
Qed.

End connection.

(** ** The way to the subscribers *)

(** The other messages still wait. *)
Lemma queued_others b l w w' c msg : queued_msg b l w w' → waits w c msg → waits w' c msg ∧ c ≠ b.
Proof.
  intros [Hfresh (m&junk&Hm&_) _ _ _ _ _ _ _] (m'&Hm'&?). assert (c ≠ b) by (intros ->; congruence).
  split; [|done]. exists m'. by rewrite Hm, lookup_insert_ne.
Qed.

Lemma queued_spread {E : Env} b l ms w w1 w2 : queued_msg b l w w1 → spread ms w1 w2 → spread ms w w2.
Proof.
  intros [_ _ _ _ Hctx Htop Hcl _ _] [Hq Hn Hk].
  assert (∀ msg x, copies w1 msg x = copies w msg x) as Hc
    by (intros msg x; unfold copies, topics_of, subscribers_of; by rewrite Htop).
  split; [|intros msg x; by rewrite Hn|congruence]. intros x. rewrite Hq, Hctx.
  assert (appended w1 ms x = appended w ms x) as ->; [|done].
  unfold appended. f_equal. apply map_ext. intros [c msg]. by rewrite Hc.
Qed.

Section delivery.
Context {E : Env} {C : Calm} {G : Patience} {P : PatientWrites}.

(** A request to /publish, and then the server's call of [handle_input] of the
    notification descriptor [p], where the messages [ms] waited before. *)
Lemma request_spreads p ms g data res req buf' q :
  web_ok g → input g = ReadOk data → data ≠ [] → harmless (web_conn g) data →
  parse_headers (received (web_conn g) data) = Ok (res, req, buf') → qos_of req = Ok q →
  publishes req res = true → is_Some (w_objs (web_world g) !! p) →
  m_notify_deque (w_poller (web_world g)) = map fst ms → NoDup (map fst ms) →
  Forall (λ '(b, msg), waits (web_world g) b msg) ms →
  safe (do _ <- http_handle_input; in_world (notify_handle_input p))
    (λ r g', r = 0 ∧ Inv (web_world g') ∧ m_notify_deque (w_poller (web_world g')) = [] ∧
      ∃ b dup, spread (ms ++ [(b, published_msg (web_world g) q dup req)]) (web_world g) (web_world g')) g.
Proof using C P.
  intros Hg Hread Hne Hharm Hparse Hq Hpub [o Ho] Hms Hnd Hw. apply safe_bind.
  pose proof Hg as [_ _ _ _ Hlen Hpos _ _ _]. destruct Hharm as (Hlt&Hharm). pose proof (zlen_nonneg data).
  destruct (received_ends (web_conn g) data) as [_ Hz]; [done|lia|done|].
  destruct (parse_headers_bounded _ _ _ _ _ Hz Hparse) as [Hb _].
  assert (∀ name, zlen (default [] (query_param name req)) <= 4096) as Hsize.
  { intros name. pose proof (bounded_default _ req name Hb). unfold MAX_BUF_SIZE in *. lia. }
  eapply safe_mono; [apply http_input_safe; [done|]|].
  { intros data' Hd. assert (data' = data) as -> by congruence. by split. }
  intros r g1 (Hg1&_&_&Hcase). destruct (Hcase data Hread Hne) as (res'&req'&buf2&q'&Hp'&Hq'&Hc).
  assert (res' = res ∧ req' = req) as [-> ->] by (rewrite Hparse in Hp'; by injection Hp').
  assert (q' = q) as -> by congruence.
  assert (rq_path req = of_string "/publish") as Hpath.
  { unfold publishes in Hpub. apply andb_true_iff in Hpub as [_ Hpub]. by apply bool_decide_eq_true in Hpub. }
  destruct Hc as [[Hi _]|(_&->&_&Hh)]; [unfold icon in Hi; by rewrite Hpath in Hi|]. rewrite Hpub in Hh.
  destruct Hh as (b&dup&Hqm). pose proof Hqm as [_ _ Hi1 Ho1 _ _ _ Hd1 _].
  assert (∀ c msg, (c, msg) ∈ ms → waits (web_world g1) c msg ∧ c ≠ b) as Hothers.
  { intros c msg Hc. rewrite list.Forall_forall in Hw. specialize (Hw _ Hc). cbn in Hw. by eapply queued_others. }
  apply safe_in_world.
  eapply safe_mono; [apply (notify_input_spreads p (ms ++ [(b, published_msg (web_world g) q dup req)]))|].
  - exact Hi1.
  - rewrite Ho1. by exists o.
  - rewrite Hd1, Hms, map_app. done.
  - rewrite map_app. apply list.NoDup_app. split_and!; [done| |apply NoDup_singleton].
    intros c Hc Heq%list_elem_of_singleton. apply list_elem_of_fmap in Hc as ([c' msg]&->&Hc).
    by destruct (Hothers c' msg Hc).
  - apply Forall_app. split.
    + apply list.Forall_forall. intros [c msg] Hc. by destruct (Hothers c msg Hc).
    + apply list.Forall_singleton. apply (queued_waits b (web_world g)); [by eapply qos_range|apply Hsize|apply Hsize|exact Hqm].
  - cbn [web_world]. intros s w2 (->&Hi2&Hn2&Hsp). split_and!; [done|done|exact (f_equal snd Hn2)|].
    exists b, dup. by eapply queued_spread.
Qed.

(** *** A GET request *)

Definition publish_params (client topic text : str) : list (str * str) :=
  [(of_string "client", client); (of_string "topic", topic); (of_string "msg", text)].

Definition publish_request (client topic text version : str) : list Z :=
  request_bytes (of_string "/publish") (publish_params client topic text) version.

Lemma received_fresh c data :
  h_cur_buf_pos c = 0 → zlen data < zlen (h_recv_buffer c) →
  received c data = data ++ 0 :: drop (S (length data)) (h_recv_buffer c).
Proof using.
  intros Hpos Hl. unfold received. rewrite Hpos. change (Z.to_nat 0) with 0%nat. unfold zlen in *.
  rewrite Z.add_0_l, Nat2Z.id, splice_0, insert_app_r_alt, Nat.sub_diag by done. f_equal.
  destruct (drop (length data) (h_recv_buffer c)) as [|x l] eqn:Hd.
  - apply (f_equal length) in Hd. rewrite length_drop in Hd. cbn in Hd. lia.
  - cbn. f_equal. by rewrite <- Nat.add_1_r, <- drop_drop, Hd.
Qed.

Lemma publish_request_read client topic text :
  let req := mkRequest (of_string "GET") (of_string "/publish") ∅ (params_of (publish_params client topic text)) in
  topic_of req = topic ∧ text_of req = text ∧ qos_of req = Ok 1 ∧ publishes req 0 = true ∧ errors_of req = [].
Proof using.
  intros req. assert (∀ k, query_param k req =
    (<[of_string "msg" := text]> (<[of_string "topic" := topic]> (<[of_string "client" := client]> ∅)) : gmap str str) !! k)
    as Hq by done.
  unfold topic_of, text_of, qos_of, errors_of. rewrite !Hq. rewrite lookup_insert_eq.
  rewrite !(lookup_insert_ne _ (of_string "msg")) by done. rewrite lookup_insert_eq.
  rewrite !(lookup_insert_ne _ (of_string "topic")) by done. rewrite lookup_insert_eq.
  rewrite lookup_insert_ne by done. split_and!; try done.
Qed.

End delivery.

(** ** Properties *)


Definition sample_request : list Z := of_string "GET /publish?topic=t&qos=7&retain=1 HTTP/1.0" ++ [13; 10; 13; 10].

Definition web_env (data : list Z) : Env := quiet_env data write_all 0.

#[local] Instance one_write : Patience := {| env_patience := 1 |}.

Lemma web_patient data : @PatientWrites (web_env data) one_write.
Proof.
  split. intros n fd l Hl. exists 0%nat. split; [cbn; lia|]. destruct l as [|a l]; [done|].
  cbn. rewrite zlen_cons. pose proof (zlen_nonneg l). lia.
Qed.

(** A new connection of a server with subscribers. *)
Definition sample_web : Web :=
  mkWeb w_pub (new_HttpConnection (sample_handler 30 []) (replicate 4096 7) 1000
    (of_string "Mon, 01 Jan 2018 00:00:00 GMT") true).

Lemma sample_web_ok : web_ok sample_web.
Proof.
  split.
  - change (Inv w_pub). apply reachable_inv. exact published_reachable.
  - apply waiting_nil. vm_compute. reflexivity.
  - exists notify_fd. vm_compute. reflexivity.
  - reflexivity.
  - vm_compute. reflexivity.
  - vm_compute. split; [discriminate|reflexivity].
  - vm_compute. discriminate.
  - vm_compute. discriminate.
  - vm_compute. discriminate.
Qed.


(** Claim C11: a GET request to /publish reaches the subscribers.  If a client of a new
    connection sends such a request, whose client, topic and text are words, the call of
    [handle_input] of the connection and then that of the notification descriptor of the
    server succeed; every session gets in its queue the messages [ms] that waited before
    and then one with the topic and the text of the request, with QoS 1 and not retained. *)
Theorem http_get_delivered {E : Env} {C : Calm} {G : Patience} {P : PatientWrites}
    client topic text version p ms g :
  let data := publish_request client topic text version in
  word client → word topic → word text → word version →
  web_ok g → h_cur_buf_pos (web_conn g) = 0 → input g = ReadOk data → zlen data < MAX_BUF_SIZE →
  is_Some (w_objs (web_world g) !! p) →
  m_notify_deque (w_poller (web_world g)) = map fst ms → NoDup (map fst ms) →
  Forall (λ '(b, msg), waits (web_world g) b msg) ms →
  ∃ b msg g', (do _ <- http_handle_input; in_world (notify_handle_input p)) g = (Ok 0, g') ∧
    Inv (web_world g') ∧ m_notify_deque (w_poller (web_world g')) = [] ∧
    pub_topic_name msg = topic ∧ pub_payload msg = text ∧
    spread (ms ++ [(b, msg)]) (web_world g) (web_world g').
Proof.
  intros data Hc Ht Hx Hv Hg Hpos Hread Hlt Hp Hms Hnd Hw.
  set (l := publish_params client topic text). assert (word (of_string "/publish")) as Hpath
    by (apply (bool_decide_unpack _); vm_compute; exact I).
  assert (words l) as Hl by (repeat apply list.Forall_cons_2; [split..|constructor]; try done;
    apply (bool_decide_unpack _); vm_compute; exact I).
  assert (received (web_conn g) data = data ++ 0 :: drop (S (length data)) (h_recv_buffer (web_conn g))) as Hrec.
  { apply received_fresh; [done|]. destruct Hg as [_ _ _ _ -> _ _ _ _]. done. }
  destruct (parse_get (of_string "/publish") l version (drop (S (length data)) (h_recv_buffer (web_conn g)))) as (buf'&Hparse);
    [done..|].
  change (request_bytes _ l version) with data in Hparse. rewrite <- Hrec in Hparse.
  destruct (publish_request_read client topic text) as (Ht'&Hx'&Hq&Hpub&_). fold l in Ht', Hx', Hq, Hpub.
  set (req := mkRequest _ _ _ _) in *.
  assert (harmless (web_conn g) data) as Hh.
  { split_and!; [by rewrite Hpos| |intros res req' buf2; rewrite Hparse; intros [= <- <- <-]; by exists 1].
    pose proof (get_not_posted (S (length (received (web_conn g) data))) (of_string "/publish") l version
      (drop (S (length data)) (h_recv_buffer (web_conn g)))) as Hpost.
    change (request_bytes _ l version) with data in Hpost. rewrite <- Hrec in Hpost. by rewrite Hpost. }
  destruct (safe_inv _ _ _ (request_spreads p ms g data 0 req buf' 1 Hg Hread ltac:(done) Hh
    Hparse Hq Hpub Hp Hms Hnd Hw)) as (r&g'&Hr&->&Hi&Hd&b&dup&Hsp).
  exists b, (published_msg (web_world g) 1 dup req), g'. split_and!; [done..|exact Hsp].
Qed.

Lemma http_get_delivered_witness :
  let data := publish_request (of_string "c1") (of_string "t") (of_string "hello") (of_string "HTTP/1.1") in
  ∃ b msg g', (do _ <- @http_handle_input (web_env data) one_write;
      in_world (@notify_handle_input (web_env data) notify_fd)) sample_web = (Ok 0, g') ∧
    Inv (web_world g') ∧ m_notify_deque (w_poller (web_world g')) = [] ∧
    pub_topic_name msg = of_string "t" ∧ pub_payload msg = of_string "hello" ∧
    @spread (web_env data) ([] ++ [(b, msg)]) (web_world sample_web) (web_world g').
Proof.
  intros data. refine (@http_get_delivered (web_env data) (quiet_calm data 0) one_write (web_patient data)
    (of_string "c1") (of_string "t") (of_string "hello") (of_string "HTTP/1.1") notify_fd [] sample_web
    _ _ _ _ sample_web_ok _ _ _ _ _ _ _).
  - apply (bool_decide_unpack _). vm_compute. exact I.
  - apply (bool_decide_unpack _). vm_compute. exact I.
  - apply (bool_decide_unpack _). vm_compute. exact I.
  - apply (bool_decide_unpack _). vm_compute. exact I.
  - reflexivity.
  - vm_compute. reflexivity.
  - vm_compute. reflexivity.
  - eexists. vm_compute. reflexivity.
  - vm_compute. reflexivity.
  - constructor.
  - constructor.
Defined.
