(* ===== verification/System.v ===== *)
(** * The threads together

    The server's own thread, the client of the parent server and the HTTP interface
    share one server: the object of World.v.  A state of the whole program, the
    actions of the threads on it, and the way of a message from one thread to the
    other: nothing that the server does in between touches it.

    An action is a whole call of a handler: the code takes a mutex where a message is
    put into the queue, but not where it is taken out, and none for the message store,
    and what happens within an action is taken to be undisturbed. *)

From S2P Require Import Prelude Pkt Msg Mbuf MemStore Context World Sample Handler Delivery Blocking.
From S2P Require Import StrTools SubMgr Connection Invariant Poller Scenarios Safety Sessions Server.
From S2P Require Import Publish Notify Waiting Persist Recovery Reopen Bridge Bridging Relay Http Parsing Web.
From stdpp Require Import options.

(** ** The state *)

(** Where the thread of the bridge is: before [svc], between two rounds of its loop, or
    at its end. *)
Inductive thread : Type :=
  | Starting
  | Running (l : svc_locals)
  | Ended.

Record System : Type := mkSystem {
  sy_world : World;                      (* the server *)
  sy_client : TCPClient;                 (* the bridge *)
  sy_slept : list Z;
  sy_thread : thread;
  sy_https : gmap Z HttpConnection;      (* the connections of the HTTP interface *)
}.

Definition eta_system (s : System) : System :=
  mkSystem (sy_world s) (sy_client s) (sy_slept s) (sy_thread s) (sy_https s).

Definition upd_sy_world : (World → World) → System → System := ltac:(update_field eta_system sy_world).
Definition upd_sy_thread : (thread → thread) → System → System := ltac:(update_field eta_system sy_thread).
Definition upd_sy_https : (gmap Z HttpConnection → gmap Z HttpConnection) → System → System :=
  ltac:(update_field eta_system sy_https).

Abbreviation Y := (st System) (only parsing).

Definition bridge_of (s : System) : Bridge := mkBridge (sy_world s) (sy_client s) (sy_slept s).
Definition web_of (s : System) (c : HttpConnection) : Web := mkWeb (sy_world s) c.

(** An operation of the server, of the client, and of a connection of the HTTP
    interface. *)
Definition by_server {A} (m : M A) : Y A := λ s,
  let '(r, w) := m (sy_world s) in (r, upd_sy_world (λ _, w) s).

Definition by_client {A} (m : B A) : Y A := λ s,
  let '(r, g) := m (bridge_of s) in (r, mkSystem (g_world g) (g_client g) (g_slept g) (sy_thread s) (sy_https s)).

Definition by_http {A} (i : Z) (c : HttpConnection) (m : st Web A) : Y A := λ s,
  let '(r, g) := m (web_of s c) in
  (r, upd_sy_https <[i := web_conn g]> (upd_sy_world (λ _, web_world g) s)).

(** ** The threads *)

(** [strftime], for the date of an answer. *)
Class Dates : Type := { http_date : Z → str }.
Class DateLaws `{Dates} : Prop := { http_date_fits : ∀ t, zlen (http_date t) < 100 }.

Section system.
Context {E : Env} {G : BridgeEnv} {D : Dates}.

(** What the client's thread does next: the part of [svc] before the loop, a round of
    it, and what follows it. *)
Definition bridge_run : Y unit :=
  do t <- gets sy_thread;
  match t with
  | Starting =>
      do r <- by_client (svc 0);
      modify (upd_sy_thread (λ _, match r with inl l => Running l | inr _ => Ended end))
  | Running l =>
      do r <- by_client (svc_loop 1 l);
      match r with
      | inl l => modify (upd_sy_thread (λ _, Running l))
      | inr _ => do_ by_client svc_end; modify (upd_sy_thread (λ _, Ended))
      end
  | Ended => ret tt
  end.

(** [HttpAcceptor::handle_input]; [i] is the address of the new connection. *)
Definition http_acceptor_handle_input (i : Z) : Y Z :=
  do t <- by_server std_time;
  do junk <- by_server (sys env_junk);
  do now <- by_server std_time;
  do r <- by_server (sys env_accept);
  do fd <-
    match r with
    | IoErr e => do_ by_server (set_errno e); ret (-1)
    | IoOk socket_id => ret (if (socket_id <? 0) || (socket_id =? 0) then -1 else socket_id)
    end;
  do peer <- by_server (sys (λ n, env_peer n fd));
  let h := upd_peer_addr (λ _, peer) (upd_sock_handle (λ _, fd) (new_CEventHandler (-1) (u32 (junk 0%nat)) t)) in
  let buffer := map (λ i, u8 (junk (S i))) (seq 0 (Z.to_nat MAX_BUF_SIZE)) in
  do_ modify (upd_sy_https <[i := new_HttpConnection h buffer (junk 4097%nat) (http_date now) true]>);
  ret 0.

(** [CEventHandler::handle_close] of a connection of the HTTP interface. *)
Definition http_handle_close (i : Z) (c : HttpConnection) : Y unit :=
  do_ (when negb (m_sock_handle (h_handler c) =? -1) then_ by_server (sys_close (m_sock_handle (h_handler c))));
  modify (upd_sy_https (delete i)).

(** An event of the second poller, for the connection [i]; these connections do not ask
    for EPOLLOUT. *)
Definition http_event (i event : Z) : Y unit :=
  do conns <- gets sy_https;
  match conns !! i with
  | None => ret tt
  | Some c =>
      if has event (Z.lor EPOLLHUP EPOLLERR) then http_handle_close i c
      else if has event EPOLLIN then
        do r <- by_http i c http_handle_input;
        if r <? 0 then http_handle_close i c else ret tt
      else ret tt
  end.

(** The eventfd is readable. *)
Definition wake_up : Y unit :=
  do writer <- gets (λ s, m_notify_writer (w_poller (sy_world s)));
  match writer with
  | None => ret tt
  | Some p => by_server (event_step EPOLLIN p)
  end.

(** ** Actions *)

Inductive action : Type :=
  | ServerEvent (event p : Z)
  | WakeUp
  | BridgeRun
  | HttpAccept (i : Z)
  | HttpEvent (i event : Z).

#[export] Instance action_eq_dec : EqDecision action.
Proof. solve_decision. Defined.

Definition perform (a : action) : Y unit :=
  match a with
  | ServerEvent event p => by_server (event_step event p)
  | WakeUp => wake_up
  | BridgeRun => bridge_run
  | HttpAccept i => do _ <- http_acceptor_handle_input i; ret tt
  | HttpEvent i event => http_event i event
  end.

(** The conditions of the theorems on the parts, each for its action. *)
Definition enabled (a : action) (s : System) : Prop :=
  match a with
  | ServerEvent event p => event_ok event p (sy_world s)
  | WakeUp => True
  | BridgeRun => small_reads
  | HttpAccept i => sy_https s !! i = None
  | HttpEvent i event => ∀ c, sy_https s !! i = Some c → ∀ data, input (web_of s c) = ReadOk data → harmless c data
  end.

End system.

(** ** Runs *)

(** The other threads start in a state that the server has reached alone, or with a
    server that was made in a new process from a file with any content; every action has
    an environment of its own. *)
Inductive arises : System → Prop :=
  | arises_start w c slept :
      reachable w → is_Some (m_notify_writer (w_poller w)) → bridge_ok (mkBridge w c slept) →
      arises (mkSystem w c slept Starting ∅)
  | arises_restart (E : Env) (C : Calm) (F : FileEnv) id file listen eventfd p c slept :
      tcp_server_start listen eventfd (new_process id file) = (Ok 0, p) → bridge_ok (mkBridge (p_world p) c slept) →
      arises (mkSystem (p_world p) c slept Starting ∅)
  | arises_step (E : Env) (C : Calm) (G : BridgeEnv) (P : BridgeLaws) (D : Dates) (DL : DateLaws) a s s' :
      arises s → enabled a s → perform a s = (Ok tt, s') → arises s'.

(** The actions between two notifications. *)
Inductive meanwhile (s : System) : System → Prop :=
  | meanwhile_nothing : meanwhile s s
  | meanwhile_step (E : Env) (C : Calm) (G : BridgeEnv) (P : BridgeLaws) (D : Dates) (DL : DateLaws) a s1 s2 :
      meanwhile s s1 → a ≠ WakeUp → enabled a s1 → perform a s1 = (Ok tt, s2) → meanwhile s s2.

(** ** The invariant *)

Record system_ok (s : System) : Prop := {
  so_world : Inv (sy_world s);
  so_waiting : waiting (sy_world s);
  so_writer : is_Some (m_notify_writer (w_poller (sy_world s)));
  so_bridge : bridge_ok (bridge_of s);
  so_position : ∀ l, sy_thread s = Running l → bridge_ready (bridge_of s);
  so_https : ∀ i c, sy_https s !! i = Some c → web_ok (web_of s c);
}.

(** The parts that another thread's action leaves alone. *)
Lemma bridge_ok_world w w' c sl : bridge_ok (mkBridge w c sl) → Inv w' → waiting w' → bridge_ok (mkBridge w' c sl).
Proof. intros []. by split. Qed.

Lemma web_ok_world w w' c :
  web_ok (mkWeb w c) → Inv w' → waiting w' → is_Some (m_notify_writer (w_poller w')) → web_ok (mkWeb w' c).
Proof. intros []. by split. Qed.

(** What an action keeps of the messages: all of them, with their notification. *)
Definition keeps (w w' : World) : Prop :=
  m_notify_writer (w_poller w') = m_notify_writer (w_poller w) ∧
  queue_of w `prefix_of` queue_of w' ∧ ∀ b, b ∈ queue_of w → w_mbufs w' !! b = w_mbufs w !! b.

#[export] Instance keeps_preorder : PreOrder keeps.
Proof.
  split; [by intros w|]. intros w1 w2 w3 (N1&Q1&M1) (N2&Q2&M2). split_and!; [congruence|by etrans|].
  intros b Hb. rewrite M2; [by apply M1|]. by eapply elem_of_prefix.
Qed.

Lemma grew_keeps w w' : grew w w' → keeps w w'.
Proof. intros []. by split_and!. Qed.

Lemma untouched_keeps w w' : untouched w w' → keeps w w'.
Proof.
  intros [Hn Hm]. pose proof (f_equal fst Hn) as H1. pose proof (f_equal snd Hn) as H2. cbn in H1, H2.
  split_and!; [done|unfold queue_of; by rewrite H2|done].
Qed.

Lemma keeps_waits w w' b msg : keeps w w' → b ∈ queue_of w → waits w' b msg → waits w b msg.
Proof. intros (_&_&Hm) Hb (m&H1&H2). exists m. by rewrite <- (Hm b Hb). Qed.

(** The server has changed, and perhaps one of the threads. *)
Lemma system_ok_world w' s :
  system_ok s → Inv w' → waiting w' → m_notify_writer (w_poller w') = m_notify_writer (w_poller (sy_world s)) →
  system_ok (upd_sy_world (λ _, w') s).
Proof.
  intros [Hi Hw Hn Hb Hp Hh] Hi' Hw' Hn'. assert (is_Some (m_notify_writer (w_poller w'))) as Hs by by rewrite Hn'.
  split; [done|done|done|..].
  - by apply (bridge_ok_world (sy_world s)).
  - intros l Hl. destruct (Hp l Hl) as [_ Hpos]. split; [|exact Hpos]. by apply (bridge_ok_world (sy_world s)).
  - intros i c Hc. eapply web_ok_world; [by eapply Hh|done..].
Qed.

Lemma system_ok_bridge g t s :
  system_ok s → bridge_ok g → grew (sy_world s) (g_world g) → (∀ l, t = Running l → bridge_ready g) →
  system_ok (mkSystem (g_world g) (g_client g) (g_slept g) t (sy_https s)).
Proof.
  intros [Hi Hw Hn Hb Hp Hh] Hg Hgr Ht.
  assert (is_Some (m_notify_writer (w_poller (g_world g)))) as Hs by by rewrite (gr_writer _ _ Hgr).
  destruct g as [w c sl]. cbn in *. split; [apply Hg|apply Hg|done|done|done|].
  intros i h Hc. eapply web_ok_world; [by eapply Hh|apply Hg|apply Hg|done].
Qed.

Lemma system_ok_http i g s :
  system_ok s → web_ok g → grew (sy_world s) (web_world g) →
  system_ok (upd_sy_https <[i := web_conn g]> (upd_sy_world (λ _, web_world g) s)).
Proof.
  intros Hs Hg Hgr.
  destruct (system_ok_world (web_world g) s Hs (wo_world _ Hg) (wo_waiting _ Hg) (gr_writer _ _ Hgr)) as [Hi Hw Hn Hb Hp Hh].
  split; [done..|]. intros j c Hc. cbn in Hc. destruct (decide (j = i)) as [->|Hne].
  - rewrite lookup_insert_eq in Hc. injection Hc as <-. destruct Hg. by split.
  - rewrite lookup_insert_ne in Hc by done. by apply Hh in Hc.
Qed.

Lemma system_ok_delete i s : system_ok s → system_ok (upd_sy_https (delete i) s).
Proof.
  intros [Hi Hw Hn Hb Hp Hh]. split; [done..|]. intros j d Hd. cbn in Hd.
  apply lookup_delete_Some in Hd as [_ Hd]. by apply Hh in Hd.
Qed.

(** ** Every action keeps the invariant, and the messages *)

Lemma safe_by_server {A} (m : M A) (Q : A → System → Prop) s :
  safe m (λ a w, Q a (upd_sy_world (λ _, w) s)) (sy_world s) → safe (by_server m) Q s.
Proof. unfold safe, wp, by_server. by destruct (m (sy_world s)) as [[a| |u] w]. Qed.

Lemma safe_by_client {A} (m : B A) (Q : A → System → Prop) s :
  safe m (λ a g, Q a (mkSystem (g_world g) (g_client g) (g_slept g) (sy_thread s) (sy_https s))) (bridge_of s) →
  safe (by_client m) Q s.
Proof. unfold safe, wp, by_client. by destruct (m (bridge_of s)) as [[a| |u] w]. Qed.

Lemma safe_by_http {A} i c (m : st Web A) (Q : A → System → Prop) s :
  safe m (λ a g, Q a (upd_sy_https <[i := web_conn g]> (upd_sy_world (λ _, web_world g) s))) (web_of s c) →
  safe (by_http i c m) Q s.
Proof. unfold safe, wp, by_http. by destruct (m (web_of s c)) as [[a| |u] w]. Qed.

Section actions.
Context {E : Env} {C : Calm} {G : BridgeEnv} {P : BridgeLaws} {D : Dates} {DL : DateLaws}.

(** The state after an action, and the server before it. *)
Definition acted (w : World) (s : System) : Prop := system_ok s ∧ keeps w (sy_world s).

Lemma server_acts event p s :
  system_ok s → event_ok event p (sy_world s) → safe (by_server (event_step event p)) (λ _, acted (sy_world s)) s.
Proof using C.
  intros Hs Hok. apply safe_by_server. eapply safe_mono; [apply event_step_waiting; [apply Hs..|done]|].
  intros _ w (Hi&Hw&Hu). pose proof (untouched_keeps _ _ Hu) as Hk. split; [|done].
  apply system_ok_world; [done..|apply Hk].
Qed.

Lemma bridge_acts s :
  system_ok s → small_reads → safe bridge_run (λ _, acted (sy_world s)) s.
Proof using C P.
  intros Hs Hsmall. unfold bridge_run. apply safe_bind, safe_gets.
  destruct (sy_thread s) as [|l|] eqn:Ht; [| |apply safe_ret; by split].
  - apply safe_bind, safe_by_client. eapply safe_mono; [apply svc_safe; [done|apply Hs]|].
    intros r g [[Hg Hp] Hgr]. apply safe_modify. split; [|by apply grew_keeps].
    apply (system_ok_bridge g _ s); [done..|]. intros l _. by split.
  - apply safe_bind, safe_by_client.
    eapply safe_mono; [apply (svc_loop_safe Hsmall 1 l (bridge_of s)); split; [by eapply so_position|done]|].
    intros r g [Hg Hgr]. destruct r as [l'|[]].
    + apply safe_modify. split; [|by apply grew_keeps].
      apply (system_ok_bridge g _ s); [done|apply Hg|done|done].
    + apply safe_bind, safe_by_client.
      eapply safe_mono; [apply (svc_end_safe (bridge_of s) g); by split|].
      intros [] g2 [[Hg2 Hp2] Hgr2]. apply safe_modify. split; [|by apply grew_keeps].
      by apply (system_ok_bridge g2 _ s).
Qed.

(** A call whose result the server does not keep. *)
Lemma safe_by_server_sys {A B} (f : nat → A) (k : A → Y B) Q s :
  (∀ a, let s' := upd_sy_world (upd_calls S) s in safe (k a) Q s') → safe (bind (by_server (sys f)) k) Q s.
Proof using. intros H. apply safe_bind, safe_by_server, safe_sys, H. Qed.

Lemma new_http_ok w h buffer time date :
  Inv w → waiting w → is_Some (m_notify_writer (w_poller w)) → zlen buffer = MAX_BUF_SIZE → zlen date <= 100 →
  web_ok (mkWeb w (new_HttpConnection h buffer time date true)).
Proof using.
  intros Hi Hw Hn Hb Hd. split; [done|done|done|done|done| |done| |].
  - unfold MAX_BUF_SIZE. cbn. lia.
  - vm_compute. discriminate.
  - vm_compute. discriminate.
Qed.

Lemma accept_acts i s :
  system_ok s → safe (http_acceptor_handle_input i) (λ _, acted (sy_world s)) s.
Proof using DL.
  intros Hs. unfold http_acceptor_handle_input, std_time.
  assert (∀ n e h t junk now, let w := upd_calls (λ _, n) (upd_errno (λ _, e) (sy_world s)) in
    acted (sy_world s) (upd_sy_https <[i := new_HttpConnection h (map (λ i, u8 (junk (S i)))
      (seq 0 (Z.to_nat MAX_BUF_SIZE))) t (http_date now) true]> (upd_sy_world (λ _, w) s))) as Hacted.
  { intros n e h t junk now w. split; [|by split_and!].
    apply (system_ok_http i (mkWeb w (new_HttpConnection _ _ _ _ _))); [done| |by split].
    apply new_http_ok; [apply Hs..| |pose proof (http_date_fits now); lia].
    unfold zlen. rewrite length_map, length_seq. reflexivity. }
  set (n := w_calls (sy_world s)). set (e := w_errno (sy_world s)).
  do 4 (apply safe_bind, safe_by_server, safe_sys). destruct (env_accept _) as [fd|err].
  - apply safe_bind, safe_ret, safe_bind, safe_by_server, safe_sys, safe_bind, safe_modify, safe_ret.
    exact (Hacted (S (S (S (S (S n))))) e _ _ _ _).
  - apply safe_bind, safe_bind, safe_by_server, safe_modify, safe_ret, safe_bind, safe_by_server, safe_sys,
      safe_bind, safe_modify, safe_ret.
    exact (Hacted (S (S (S (S (S n))))) err _ _ _ _).
Qed.

Lemma close_acts i c s :
  system_ok s → safe (http_handle_close i c) (λ _, acted (sy_world s)) s.
Proof using.
  intros Hs. unfold http_handle_close. destruct (negb _).
  - apply safe_bind, safe_by_server, safe_modify, safe_modify. split; [|by split_and!].
    apply system_ok_delete, system_ok_world; [done|apply Hs|apply Hs|done].
  - apply safe_bind, safe_ret, safe_modify. split; [|done]. by apply system_ok_delete.
Qed.

Lemma http_acts i event s :
  system_ok s → enabled (HttpEvent i event) s → safe (http_event i event) (λ _, acted (sy_world s)) s.
Proof using C P.
  intros Hs Hok. unfold http_event. apply safe_bind, safe_gets. cbn in Hok.
  destruct (sy_https s !! i) as [c|] eqn:Hc; [|apply safe_ret; by split].
  destruct (has event _); [by apply close_acts|]. destruct (has event EPOLLIN); [|apply safe_ret; by split].
  apply safe_bind, safe_by_http.
  pose proof bridge_patient as Hpat.
  eapply safe_mono; [apply http_input_safe; [by eapply so_https|by apply Hok]|].
  intros r g (Hg&_&Hgr&_). assert (acted (sy_world s) (upd_sy_https <[i := web_conn g]> (upd_sy_world (λ _, web_world g) s)))
    as [Hs2 Hk] by (split; [by apply system_ok_http|by apply grew_keeps]).
  destruct (r <? 0); [|by apply safe_ret].
  eapply safe_mono; [by apply close_acts|]. intros [] s3 [Hs3 Hk3]. split; [done|by etrans].
Qed.

Lemma action_safe a s :
  system_ok s → a ≠ WakeUp → enabled a s → safe (perform a) (λ _, acted (sy_world s)) s.
Proof using C P DL.
  intros Hs Ha Hok. destruct a as [event p| | |i|i event]; cbn [perform].
  - by apply server_acts.
  - done.
  - by apply bridge_acts.
  - apply safe_bind. eapply safe_mono; [by apply accept_acts|]. intros r s' Hs'. by apply safe_ret.
  - by apply http_acts.
Qed.

(** The notification: all the messages are published. *)
Lemma wake_up_safe s :
  system_ok s → safe wake_up (λ _ s', system_ok s' ∧ ∃ l, flushed l (sy_world s) (sy_world s')) s.
Proof using C.
  intros Hs. unfold wake_up. apply safe_bind, safe_gets. destruct (so_writer s Hs) as [p Hp]. rewrite Hp.
  apply safe_by_server. eapply safe_mono; [apply notice_step_waiting; [apply Hs..|by split]|].
  intros _ w (Hi&Hw&l&Hl). split; [|by exists l]. apply system_ok_world; [done..|].
  exact (f_equal fst (fl_notified _ _ _ Hl)).
Qed.

Lemma perform_safe a s : system_ok s → enabled a s → safe (perform a) (λ _ s', system_ok s') s.
Proof using C P DL.
  intros Hs Hok. destruct (decide (a = WakeUp)) as [->|Ha].
  - eapply safe_mono; [by apply wake_up_safe|]. by intros _ s' [Hs' _].
  - eapply safe_mono; [by apply action_safe|]. by intros _ s' [Hs' _].
Qed.

End actions.

Lemma reachable_queue w : reachable w → queue_of w = [].
Proof.
  induction 1 as [E C id listen eventfd r w Hr|E C event p w w' Hw IH Hok Hr].
  - pose proof (server_start_safe id listen eventfd) as Hs.
    unfold safe, wp in Hs. rewrite Hr in Hs. apply Hs.
  - pose proof (event_step_safe event p w (reachable_inv w Hw) Hok) as Hs.
    unfold safe, wp in Hs. rewrite Hr in Hs. destruct Hs as [_ Hn]. etrans; [exact (f_equal snd Hn)|exact IH].
Qed.

Lemma arises_ok s : arises s → system_ok s.
Proof.
  induction 1 as [w c slept Hw Hn Hb|E C F id file listen eventfd p c slept Hr Hb|E C G P D DL a s s' Hs IH Hok Hr].
  - split; [by apply reachable_inv|by apply waiting_nil, reachable_queue|done|done|done|].
    intros i h Hh. cbn in Hh. by rewrite lookup_empty in Hh.
  - destruct (start_okay id file listen eventfd 0 p Hr) as (Hi&Hq&Hn). split; [done|by apply waiting_nil|by apply Hn|done|done|].
    intros i h Hh. cbn in Hh. by rewrite lookup_empty in Hh.
  - pose proof (perform_safe a s IH Hok) as Hsafe. unfold safe, wp in Hsafe. by rewrite Hr in Hsafe.
Qed.

Lemma meanwhile_ok s s' : system_ok s → meanwhile s s' → system_ok s' ∧ keeps (sy_world s) (sy_world s').
Proof.
  intros Hs. induction 1 as [|E C G P D DL a s1 s2 Hs1 IH Ha Hok Hr]; [by split|]. destruct IH as [H1 Hk].
  pose proof (action_safe a s1 H1 Ha Hok) as Hsafe. unfold safe, wp in Hsafe. rewrite Hr in Hsafe.
  destruct Hsafe as [H2 Hk2]. split; [done|by etrans].
Qed.

(** ** The runs of the client's thread *)

Section rounds.
Context {E : Env} {G : BridgeEnv}.

Fixpoint bridge_runs (n : nat) : Y unit :=
  match n with
  | O => ret tt
  | S n => do_ bridge_run; bridge_runs n
  end.

(** The state of the program when the client is in the state [g]. *)
Definition with_bridge (g : Bridge) (t : thread) (s : System) : System :=
  mkSystem (g_world g) (g_client g) (g_slept g) t (sy_https s).

Lemma bridge_runs_ended n g s : bridge_runs n (with_bridge g Ended s) = (Ok tt, with_bridge g Ended s).
Proof.
  induction n as [|n IH]; [done|]. cbn [bridge_runs].
  by rewrite (bind_Ok bridge_run _ (with_bridge g Ended s) tt (with_bridge g Ended s) eq_refl).
Qed.

Lemma by_client_run {A} (m : B A) t g r g' s :
  m g = (Ok r, g') → by_client m (with_bridge g t s) = (Ok r, with_bridge g' t s).
Proof.
  intros Hm. unfold by_client. change (bridge_of (with_bridge g t s)) with (mkBridge (g_world g) (g_client g) (g_slept g)).
  assert (mkBridge (g_world g) (g_client g) (g_slept g) = g) as -> by by destruct g. by rewrite Hm.
Qed.

Lemma bridge_run_starts s :
  sy_thread s = Starting →
  bridge_run s = (do r <- by_client (svc 0);
    modify (upd_sy_thread (λ _, match r with inl l => Running l | inr _ => Ended end))) s.
Proof. intros Ht. unfold bridge_run. unfold bind at 1, gets. by rewrite Ht. Qed.

Lemma bridge_run_goes_on l s :
  sy_thread s = Running l →
  bridge_run s = (do r <- by_client (svc_loop 1 l);
    match r with
    | inl l => modify (upd_sy_thread (λ _, Running l))
    | inr _ => do_ by_client svc_end; modify (upd_sy_thread (λ _, Ended))
    end) s.
Proof. intros Ht. unfold bridge_run. unfold bind at 1, gets. by rewrite Ht. Qed.

(** One round more. *)
Lemma svc_loop_S n l g r g' :
  svc_loop (S n) l g = (Ok r, g') →
  ∃ r1 g1, svc_loop 1 l g = (Ok r1, g1) ∧
    match r1 with
    | inl l1 => svc_loop n l1 g1 = (Ok r, g')
    | inr _ => r = inr tt ∧ g' = g1
    end.
Proof.
  cbn [svc_loop]. unfold bind at 1 3. destruct (served (sys env_stopped) g) as [[stop| |u] g0]; [|done..].
  destruct stop; [intros [= <- <-]; by eexists _, _|].
  unfold bind at 1 2. destruct (svc_step l g0) as [[[l1|[]]| |u] g1]; [| |done..].
  - intros H. by eexists _, _.
  - intros [= <- <-]. by eexists _, _.
Qed.

Lemma bridge_runs_loop n l g r g' s :
  svc_loop n l g = (Ok r, g') →
  match r with
  | inl l' => bridge_runs n (with_bridge g (Running l) s) = (Ok tt, with_bridge g' (Running l') s)
  | inr _ => ∀ g2, svc_end g' = (Ok tt, g2) →
      bridge_runs n (with_bridge g (Running l) s) = (Ok tt, with_bridge g2 Ended s)
  end.
Proof.
  revert l g. induction n as [|n IH]; intros l g Hr.
  { injection Hr as <- <-. done. }
  apply svc_loop_S in Hr as (r1&g1&H1&Hr). cbn [bridge_runs].
  pose proof (by_client_run _ (Running l) _ _ _ s H1) as Hrun. destruct r1 as [l1|[]].
  - assert (bridge_run (with_bridge g (Running l) s) = (Ok tt, with_bridge g1 (Running l1) s)) as Hb.
    { rewrite (bridge_run_goes_on l) by done. by rewrite (bind_Ok _ _ _ _ _ Hrun). }
    erewrite bind_Ok by exact Hb. by apply IH.
  - destruct Hr as [-> ->]. intros g2 Hend.
    assert (bridge_run (with_bridge g (Running l) s) = (Ok tt, with_bridge g2 Ended s)) as Hb.
    { rewrite (bridge_run_goes_on l) by done. rewrite (bind_Ok _ _ _ _ _ Hrun).
      by rewrite (bind_Ok _ _ _ _ _ (by_client_run _ (Running l) _ _ _ s Hend)). }
    erewrite bind_Ok by exact Hb. apply bridge_runs_ended.
Qed.

(** What [svc] does before its loop. *)
Lemma svc_starts n g r g' :
  svc n g = (Ok r, g') →
  ∃ l g0, svc 0 g = (Ok (inl l), g0) ∧
    (do r <- svc_loop n l; match r with inl l => ret (inl l) | inr _ => do_ svc_end; ret (inr tt) end) g0 = (Ok r, g').
Proof.
  unfold svc. destruct (connect g) as [[r0| |u] g1] eqn:H1.
  2:{ by rewrite (bind_Fail _ _ _ _ H1). }
  2:{ by rewrite (bind_Stop _ _ _ _ _ H1). }
  rewrite !(bind_Ok connect _ _ _ _ H1). destruct (served std_time g1) as [[now| |u] g2] eqn:H2.
  2:{ by rewrite (bind_Fail _ _ _ _ H2). }
  2:{ by rewrite (bind_Stop _ _ _ _ _ H2). }
  rewrite !(bind_Ok (served std_time) _ _ _ _ H2). intros Hr. by eexists _, _.
Qed.

End rounds.

(** ** Properties *)

(** Claim C1: the program does not crash.  In every state that the threads of the
    program can bring about, from a server just made or made again from a file, by
    events of the server, rounds of the bridge, connections and requests of the HTTP
    interface and notifications in any order, each action that keeps to the rules of its
    part has a result: no undefined behaviour, no endless loop.  The invariant holds before it and after it: that of the server, with its
    messages that wait, that of the bridge, and that of each HTTP connection. *)
Theorem system_never_crashes {E : Env} {C : Calm} {G : BridgeEnv} {P : BridgeLaws} {D : Dates} {DL : DateLaws} a s :
  arises s → enabled a s → system_ok s ∧ ∃ s', perform a s = (Ok tt, s') ∧ arises s' ∧ system_ok s'.
Proof.
  intros Hs Hok. pose proof (arises_ok s Hs) as Hi. split; [done|].
  destruct (safe_inv _ _ _ (perform_safe a s Hi Hok)) as ([]&s'&Hr&Hi'). exists s'.
  split_and!; [done|by eapply arises_step|done].
Qed.

(** Claim C2: no message is lost between the threads.  Whatever the threads do between
    two notifications, the messages that wait stay in the queue, in their order and
    with their contents, and others only follow them.  The next notification publishes
    the whole queue: each of its messages is appended, in the order of the queue, to the
    queue of every session that is registered then, as often as its topic calls for, and
    nothing waits any more. *)
Theorem messages_delivered {E : Env} {C : Calm} s s1 :
  arises s → meanwhile s s1 →
  ∃ l s2, wake_up s1 = (Ok tt, s2) ∧ system_ok s2 ∧ queue_of (sy_world s2) = [] ∧
    queue_of (sy_world s) `prefix_of` map fst l ∧
    (∀ b msg, (b, msg) ∈ l → b ∈ queue_of (sy_world s) → waits (sy_world s) b msg) ∧
    ∀ id x, w_clients (sy_world s1) !! id = Some x →
      w_ctxs (sy_world s2) !! x = queue_more (appended (sy_world s1) l x) <$> w_ctxs (sy_world s1) !! x.
Proof.
  intros Hs Hm. destruct (meanwhile_ok s s1 (arises_ok s Hs) Hm) as [Hi1 Hk].
  destruct (safe_inv _ _ _ (wake_up_safe s1 Hi1)) as ([]&s2&Hr&Hi2&l&[[Hl Hw] Hn _ Hq]).
  exists l, s2. split_and!; [done|done|exact (f_equal snd Hn)|rewrite Hl; apply Hk| |done].
  intros b msg Hb Hbq. rewrite list.Forall_forall in Hw. by eapply keeps_waits, (Hw (b, msg)).
Qed.


(** ** A run *)

Definition sample_dates : Dates := {| http_date := λ _, of_string "Mon, 01 Jan 2018 00:00:00 GMT" |}.

Lemma sample_date_laws : @DateLaws sample_dates.
Proof. split. intros t. vm_compute. reflexivity. Qed.

Lemma quiet_bridge_laws data fd : @BridgeLaws (quiet_env data write_all fd) sample_bridge_env.
Proof.
  split.
  - split. cbn. intros n s l Hl. exists 0%nat. split; [lia|]. destruct l as [|a l]; [done|].
    rewrite zlen_cons. pose proof (zlen_nonneg l). lia.
  - intros n s. exists 2%nat. unfold env_connect, env_patience, bridge_patience, sample_bridge_env. split; [lia|].
    left. destruct (Nat.ltb_spec (n + 2 * 2) 3); [lia|done].
Qed.

(** An action of the interface or of the server, where the peer sends [data], and a
    round of the bridge, where the parent does. *)
Definition quietly (data : list Z) (a : action) (s : System) : res unit * System :=
  @perform (quiet_env data write_all 30) sample_bridge_env sample_dates a s.
Definition bridging (data : list Z) (s : System) : res unit * System :=
  @perform (parent_env data) sample_bridge_env sample_dates BridgeRun s.

Definition sample_get : list Z :=
  publish_request (of_string "c1") (of_string "t") (of_string "hello") (of_string "HTTP/1.1").

(** A request to the HTTP interface, and then the client of the parent connects and gets
    a publication, and a client of the server publishes. *)
Definition system_start : System := mkSystem w_pub (sample_client []) [] Starting ∅.
Definition system_accepted : System := (quietly [] (HttpAccept 100) system_start).2.
Definition system_requested : System := (quietly sample_get (HttpEvent 100 EPOLLIN) system_accepted).2.
Definition system_connected : System := (bridging [] system_requested).2.
Definition system_relayed : System := (bridging sample_input system_connected).2.
Definition system_busy : System :=
  (quietly (publish_bytes false 78 (of_string "t") [4]) (ServerEvent EPOLLIN client_b) system_relayed).2.

Lemma arises_quietly data a s s' :
  arises s → @enabled (quiet_env data write_all 30) a s → quietly data a s = (Ok tt, s') → arises s'.
Proof.
  intros Hs Hok Hr.
  by apply (arises_step _ (quiet_calm data 30) _ (quiet_bridge_laws data 30) _ sample_date_laws a s).
Qed.

Lemma system_start_arises : arises system_start.
Proof.
  apply arises_start; [exact published_reachable|exists notify_fd; vm_compute; reflexivity|].
  split; try (vm_compute; discriminate).
  - apply reachable_inv, published_reachable.
  - apply waiting_nil. vm_compute. reflexivity.
  - vm_compute. reflexivity.
Qed.

(** A start with a result, whatever the file holds. *)
Lemma restart_arises (E : Env) (C : Calm) (F : FileEnv) id file listen eventfd c slept :
  (tcp_server_start listen eventfd (new_process id file)).1 = Ok 0 → zlen (c_recv_buffer c) = MAX_BUF_SIZE →
  zlen (c_str_client_id c) <= 200 → zlen (c_str_topic_name c) <= 200 →
  arises (mkSystem (p_world (tcp_server_start listen eventfd (new_process id file)).2) c slept Starting ∅).
Proof.
  destruct (tcp_server_start listen eventfd (new_process id file)) as [r p] eqn:Hr. cbn [fst snd]. intros -> ???.
  destruct (start_okay id file listen eventfd 0 p Hr) as (Hi&Hq&_).
  apply (arises_restart E C F id file listen eventfd p c slept Hr). split; [done|by apply waiting_nil|done..].
Qed.

(** The first start of a server, without a file. *)
Lemma first_start_arises :
  arises (mkSystem (p_world (@tcp_server_start (quiet_env [] write_all 30)
    (@mqtt_virtual (quiet_env [] write_all 30)) sample_disk 3 4 (new_process 0 None)).2) (sample_client []) [] Starting ∅).
Proof.
  apply (restart_arises _ (quiet_calm [] 30)); [vm_compute; reflexivity|vm_compute; reflexivity|vm_compute; discriminate..].
Qed.

Lemma system_accepted_arises : arises system_accepted.
Proof.
  apply (arises_quietly [] (HttpAccept 100) system_start); [exact system_start_arises|exact eq_refl|].
  vm_compute. reflexivity.
Qed.

Definition system_connection : HttpConnection :=
  default (new_HttpConnection (sample_handler 0 []) [] 0 [] true) (sy_https system_accepted !! 100).

Lemma system_request_enabled : @enabled (quiet_env sample_get write_all 30) (HttpEvent 100 EPOLLIN) system_accepted.
Proof.
  intros c Hc data Hdata. assert (c = system_connection) as -> by (unfold system_connection; by rewrite Hc).
  apply harmless_b_spec. assert (data = sample_get) as ->; [|vm_compute; reflexivity].
  enough (ReadOk data = ReadOk sample_get) by congruence. rewrite <- Hdata. vm_compute. reflexivity.
Qed.

Lemma system_requested_arises : arises system_requested.
Proof.
  apply (arises_quietly sample_get (HttpEvent 100 EPOLLIN) system_accepted).
  - exact system_accepted_arises.
  - exact system_request_enabled.
  - vm_compute. reflexivity.
Qed.

Lemma system_meanwhile : meanwhile system_requested system_busy.
Proof.
  apply (meanwhile_step _ _ (quiet_calm (publish_bytes false 78 (of_string "t") [4]) 30) _ (quiet_bridge_laws _ 30) _
    sample_date_laws (ServerEvent EPOLLIN client_b) system_relayed).
  - apply (meanwhile_step _ _ (parent_calm sample_input) _ (sample_bridge_laws _) _ sample_date_laws BridgeRun
      system_connected).
    + apply (meanwhile_step _ _ (parent_calm []) _ (sample_bridge_laws _) _ sample_date_laws BridgeRun
        system_requested).
      * apply meanwhile_nothing.
      * done.
      * apply parent_small_reads.
      * vm_compute. reflexivity.
    + done.
    + apply parent_small_reads.
    + vm_compute. reflexivity.
  - done.
  - vm_compute. repeat split; discriminate.
  - vm_compute. reflexivity.
Qed.

(** Two messages wait; that of the client of the server overtakes them. *)
Example system_busy_queue :
  queue_of (sy_world system_requested) = [13] ∧ queue_of (sy_world system_busy) = [13; 14].
Proof. vm_compute. by split. Qed.

Example system_woken :
  send_msg_queue <$> w_ctxs (sy_world (@wake_up (quiet_env [] write_all 30) system_busy).2) !! ctx_a =
    Some [11; 16; 13; 14].
Proof. vm_compute. reflexivity. Qed.

Lemma system_never_crashes_witness :
  let s := system_accepted in
  system_ok s ∧ ∃ s', quietly sample_get (HttpEvent 100 EPOLLIN) s = (Ok tt, s') ∧ arises s' ∧ system_ok s'.
Proof.
  apply (@system_never_crashes (quiet_env sample_get write_all 30) (quiet_calm sample_get 30) sample_bridge_env
    (quiet_bridge_laws sample_get 30) sample_dates sample_date_laws (HttpEvent 100 EPOLLIN) system_accepted).
  - exact system_accepted_arises.
  - exact system_request_enabled.
Defined.

Lemma messages_delivered_witness :
  ∃ l s2, @wake_up (quiet_env [] write_all 30) system_busy = (Ok tt, s2) ∧ system_ok s2 ∧
    queue_of (sy_world s2) = [] ∧ queue_of (sy_world system_requested) `prefix_of` map fst l ∧
    (∀ b msg, (b, msg) ∈ l → b ∈ queue_of (sy_world system_requested) → waits (sy_world system_requested) b msg) ∧
    ∀ id x, w_clients (sy_world system_busy) !! id = Some x →
      w_ctxs (sy_world s2) !! x =
        queue_more (@appended (quiet_env [] write_all 30) (sy_world system_busy) l x)
          <$> w_ctxs (sy_world system_busy) !! x.
Proof.
  apply (@messages_delivered (quiet_env [] write_all 30) (quiet_calm [] 30) system_requested system_busy).
  - exact system_requested_arises.
  - exact system_meanwhile.
Defined.

