(* ===== verification/Iqueue.v ===== *)
(** * Intrusive queues

    Model of the IQUEUE macros of include/reactor/itimer.hpp: circular doubly linked
    lists whose links are members of the elements.  A memory maps the address of a
    head to its two links, [None] being the null pointer.  The specification is a map
    from the address of each queue to the list of its elements; an element that is
    in no queue is the head of an empty queue of its own. *)

From S2P Require Import Prelude.
From stdpp Require Import options.

Section iqueue.
Context {K : Type} `{Countable K}.

(** ** Data and operations *)

Record IQUEUEHEAD : Type := mkLinks { next : option K; prev : option K }.

#[local] Notation mem := (gmap K IQUEUEHEAD).
#[local] Notation M := (st mem).
Implicit Types (m : mem) (l : list K).

Definition deref (p : option K) : M K :=
  match p with Some x => ret x | None => crash NullDeref end.

Definition links (x : K) : M IQUEUEHEAD := λ m,
  match m !! x with
  | Some c => (Ok c, m)
  | None => (Stop UseAfterFree, m)
  end.

Definition get_next (x : K) : M (option K) := do c <- links x; ret (next c).
Definition get_prev (x : K) : M (option K) := do c <- links x; ret (prev c).

Definition set_next (x : K) (p : option K) : M unit :=
  do c <- links x; modify <[x := mkLinks p (prev c)]>.
Definition set_prev (x : K) (p : option K) : M unit :=
  do c <- links x; modify <[x := mkLinks (next c) p]>.

Definition iqueue_init (ptr : K) : M unit :=
  do_ set_next ptr (Some ptr);
  set_prev ptr (Some ptr).

Definition iqueue_add (node head : K) : M unit :=
  do_ set_prev node (Some head);
  do hn <- get_next head;
  do_ set_next node hn;
  do hn <- get_next head;
  do hn <- deref hn;
  do_ set_prev hn (Some node);
  set_next head (Some node).

Definition iqueue_add_tail (node head : K) : M unit :=
  do hp <- get_prev head;
  do_ set_prev node hp;
  do_ set_next node (Some head);
  do hp <- get_prev head;
  do hp <- deref hp;
  do_ set_next hp (Some node);
  set_prev head (Some node).

Definition iqueue_del (entry : K) : M unit :=
  do n <- get_next entry;
  do n <- deref n;
  do p <- get_prev entry;
  do_ set_prev n p;
  do p <- get_prev entry;
  do p <- deref p;
  do n <- get_next entry;
  do_ set_next p n;
  do_ set_next entry None;
  set_prev entry None.

Definition iqueue_del_init (entry : K) : M unit :=
  do_ iqueue_del entry;
  iqueue_init entry.

Definition iqueue_is_empty (entry : K) : M bool :=
  do n <- get_next entry;
  ret (bool_decide (Some entry = n)).

(** [__iqueue_splice]. *)
Definition iqueue_splice_links (list head : K) : M unit :=
  do first <- get_next list;
  do last <- get_prev list;
  do at_ <- get_next head;
  do first <- deref first;
  do last <- deref last;
  do_ set_prev first (Some head);
  do_ set_next head (Some first);
  do_ set_next last at_;
  do at_ <- deref at_;
  set_prev at_ (Some last).

Definition iqueue_splice (list head : K) : M unit :=
  do e <- iqueue_is_empty list;
  when negb e then_ iqueue_splice_links list head.

Definition iqueue_splice_init (list head : K) : M unit :=
  do_ iqueue_splice list head;
  iqueue_init list.

(** ** Specification

    What the macros do to the lists: [None] where they are used outside their
    contract. *)

#[local] Notation queues := (gmap K (list K)).
Implicit Types Q : queues.

(** The head [x] is the element of no queue, and its own queue is empty. *)
Definition iq_add_tail (x h : K) Q : option queues :=
  match Q !! x, Q !! h with
  | Some [], Some l => if decide (x = h) then None else Some (<[h := l ++ [x]]> (delete x Q))
  | _, _ => None
  end.

Definition iq_add (x h : K) Q : option queues :=
  match Q !! x, Q !! h with
  | Some [], Some l => if decide (x = h) then None else Some (<[h := x :: l]> (delete x Q))
  | _, _ => None
  end.

(** Taking [x] out of whatever queue it is in. *)
Definition without (x : K) (l : list K) : list K := filter (λ y, y ≠ x) l.

Definition iq_del_init (x : K) Q : queues := <[x := []]> (without x <$> Q).

Definition iq_splice_init (h1 h2 : K) Q : option queues :=
  match Q !! h1, Q !! h2 with
  | Some l1, Some l2 => if decide (h1 = h2) then None else Some (<[h1 := []]> (<[h2 := l1 ++ l2]> Q))
  | _, _ => None
  end.

(** ** Representation *)

Definition nx m (x : K) : option (option K) := next <$> m !! x.
Definition pv m (x : K) : option (option K) := prev <$> m !! x.

Definition linked m (a b : K) : Prop := nx m a = Some (Some b) ∧ pv m b = Some (Some a).

(** The links lead from [a] through [l] to [b]. *)
Fixpoint path m (a : K) l (b : K) : Prop :=
  match l with
  | [] => linked m a b
  | x :: l => linked m a x ∧ path m x l b
  end.

(** No element is in two queues or twice in one, and no head of a queue is an element. *)
Record disjoint_queues Q : Prop := {
  dq_nodup : ∀ h l, Q !! h = Some l → NoDup l;
  dq_one : ∀ h1 h2 l1 l2 x, Q !! h1 = Some l1 → Q !! h2 = Some l2 → x ∈ l1 → x ∈ l2 → h1 = h2;
  dq_head : ∀ h l x, Q !! h = Some l → x ∈ l → Q !! x = None;
}.

(** The memory holds the queues. *)
Definition holds m Q : Prop := disjoint_queues Q ∧ ∀ h l, Q !! h = Some l → path m h l h.

(** ** The links of a path *)

Lemma path_app m a l1 x l2 b : path m a (l1 ++ x :: l2) b ↔ path m a l1 x ∧ path m x l2 b.
Proof. revert a. induction l1 as [|y l1 IH]; intros a; simpl; [done|]. rewrite IH. tauto. Qed.

(** Links that are not those of the path do not matter. *)
Lemma path_ext m m' a l b :
  (∀ x, x ∈ a :: l → nx m' x = nx m x) → (∀ x, x ∈ l ++ [b] → pv m' x = pv m x) →
  path m a l b → path m' a l b.
Proof.
  revert a. induction l as [|x l IH]; intros a Hn Hp; simpl; unfold linked.
  - intros [? ?]. rewrite Hn, Hp by set_solver. done.
  - intros [[? ?] ?]. rewrite Hn, Hp by set_solver. split; [done|]. apply IH; set_solver.
Qed.

(** The last cell of the path from [a] through [l], and the first after [a]. *)
Fixpoint last_of (a : K) l : K := match l with [] => a | x :: l => last_of x l end.
Definition first_of l (b : K) : K := match l with [] => b | x :: _ => x end.

Lemma last_of_elem a l : last_of a l ∈ a :: l.
Proof. revert a. induction l as [|x l IH]; intros a; simpl; [by left|right; apply IH]. Qed.

Lemma last_of_app a l1 l2 : last_of a (l1 ++ l2) = last_of (last_of a l1) l2.
Proof. revert a. induction l1 as [|x l1 IH]; intros a; simpl; [done|apply IH]. Qed.

(** The end of a path is redirected to [c]. *)
Lemma path_redirect m m' a l b c :
  path m a l b → NoDup (a :: l) → linked m' (last_of a l) c →
  (∀ x, x ∈ a :: l → x ≠ last_of a l → nx m' x = nx m x) →
  (∀ x, x ∈ l → pv m' x = pv m x) → path m' a l c.
Proof.
  revert a. induction l as [|x l IH]; intros a Hp Hd Hc Hn Hv; simpl in *; [done|].
  destruct Hp as [[Hl1 Hl2] Hp]. apply list.NoDup_cons in Hd as [Ha Hd].
  pose proof (last_of_elem x l) as Hlast. split.
  - split; [|rewrite Hv; [done|by left]]. rewrite Hn; [done|by left|]. set_solver.
  - apply IH; [done|done|done| |]; intros; [apply Hn|apply Hv]; set_solver.
Qed.

Lemma path_first m a l b : path m a l b → nx m a = Some (Some (first_of l b)).
Proof. destruct l; simpl; [by intros []|by intros [[] _]]. Qed.

Lemma path_last m a l b : path m a l b → pv m b = Some (Some (last_of a l)).
Proof.
  revert a. induction l as [|x l IH]; intros a; simpl; [by intros []|]. intros [_ Hp]. by apply IH.
Qed.

(** ** The elementary steps *)

Lemma safe_get_next x p m (P : option K → mem → Prop) :
  nx m x = Some p → P p m → safe (get_next x) P m.
Proof. unfold nx, get_next, safe, wp, bind, links. destruct (m !! x); simpl; by intros [= ->]. Qed.

Lemma safe_get_prev x p m (P : option K → mem → Prop) :
  pv m x = Some p → P p m → safe (get_prev x) P m.
Proof. unfold pv, get_prev, safe, wp, bind, links. destruct (m !! x); simpl; by intros [= ->]. Qed.

(** [m'] is [m] with other links. *)
Definition same_cells m m' : Prop := ∀ y, is_Some (m' !! y) ↔ is_Some (m !! y).

Lemma safe_set_next x p m (P : unit → mem → Prop) :
  is_Some (m !! x) →
  (∀ m', (∀ y, nx m' y = if decide (y = x) then Some p else nx m y) → (∀ y, pv m' y = pv m y) →
    same_cells m m' → P tt m') →
  safe (set_next x p) P m.
Proof.
  intros [c Hc] HP. unfold set_next, safe, wp, bind, links, modify. rewrite Hc. cbn [fst snd]. apply HP.
  - intros y. unfold nx. destruct (decide (y = x)) as [->|]; [by rewrite lookup_insert_eq|].
    by rewrite lookup_insert_ne.
  - intros y. unfold pv. destruct (decide (y = x)) as [->|]; [by rewrite lookup_insert_eq, Hc|].
    by rewrite lookup_insert_ne.
  - intros y. destruct (decide (y = x)) as [->|]; [rewrite lookup_insert_eq, Hc|by rewrite lookup_insert_ne].
    split; by eexists.
Qed.

Lemma safe_set_prev x p m (P : unit → mem → Prop) :
  is_Some (m !! x) →
  (∀ m', (∀ y, pv m' y = if decide (y = x) then Some p else pv m y) → (∀ y, nx m' y = nx m y) →
    same_cells m m' → P tt m') →
  safe (set_prev x p) P m.
Proof.
  intros [c Hc] HP. unfold set_prev, safe, wp, bind, links, modify. rewrite Hc. cbn [fst snd]. apply HP.
  - intros y. unfold pv. destruct (decide (y = x)) as [->|]; [by rewrite lookup_insert_eq|].
    by rewrite lookup_insert_ne.
  - intros y. unfold nx. destruct (decide (y = x)) as [->|]; [by rewrite lookup_insert_eq, Hc|].
    by rewrite lookup_insert_ne.
  - intros y. destruct (decide (y = x)) as [->|]; [rewrite lookup_insert_eq, Hc|by rewrite lookup_insert_ne].
    split; by eexists.
Qed.

Lemma nx_cell m x v : nx m x = Some v → is_Some (m !! x).
Proof. unfold nx. destruct (m !! x); [by eexists|done]. Qed.
Lemma pv_cell m x v : pv m x = Some v → is_Some (m !! x).
Proof. unfold pv. destruct (m !! x); [by eexists|done]. Qed.

(** A cell of [m], or of a memory with the same cells. *)
Ltac cell :=
  repeat match goal with Hs : same_cells _ ?m |- is_Some (?m !! _) => apply Hs; clear Hs end;
  try done; solve [eapply nx_cell; eassumption|eapply pv_cell; eassumption].

Lemma init_links x m :
  is_Some (m !! x) →
  safe (iqueue_init x) (λ _ m',
    (∀ y, nx m' y = if decide (y = x) then Some (Some x) else nx m y) ∧
    (∀ y, pv m' y = if decide (y = x) then Some (Some x) else pv m y) ∧ same_cells m m') m.
Proof.
  intros Hx. unfold iqueue_init. apply safe_bind, safe_set_next; [done|]. intros m1 Hn1 Hp1 Hs1.
  apply safe_set_prev; [cell|]. intros m2 Hp2 Hn2 Hs2. split_and!.
  - intros y. by rewrite Hn2.
  - intros y. by rewrite Hp2, Hp1.
  - intros y. etrans; [apply Hs2|apply Hs1].
Qed.

Lemma add_tail_links x h t m :
  is_Some (m !! x) → is_Some (m !! t) → pv m h = Some (Some t) → x ≠ h →
  safe (iqueue_add_tail x h) (λ _ m',
    (∀ y, nx m' y = if decide (y = t) then Some (Some x)
                    else if decide (y = x) then Some (Some h) else nx m y) ∧
    (∀ y, pv m' y = if decide (y = h) then Some (Some x)
                    else if decide (y = x) then Some (Some t) else pv m y)) m.
Proof.
  intros Hx Ht Hh Hne. unfold iqueue_add_tail.
  apply safe_bind. eapply safe_get_prev; [done|].
  apply safe_bind, safe_set_prev; [done|]. intros m1 Hp1 Hn1 Hs1.
  apply safe_bind, safe_set_next; [cell|]. intros m2 Hn2 Hp2 Hs2.
  assert (pv m2 h = Some (Some t)) as Hh2 by (rewrite Hp2, Hp1; by case_decide).
  apply safe_bind. eapply safe_get_prev; [done|]. apply safe_bind, safe_ret.
  apply safe_bind, safe_set_next; [cell|]. intros m3 Hn3 Hp3 Hs3.
  apply safe_set_prev; [cell|]. intros m4 Hp4 Hn4 Hs4. split; intros y.
  - by rewrite Hn4, Hn3, Hn2, Hn1.
  - by rewrite Hp4, Hp3, Hp2, Hp1.
Qed.

Lemma del_init_links x a b m :
  nx m x = Some (Some b) → pv m x = Some (Some a) → is_Some (m !! a) → is_Some (m !! b) →
  a ≠ x → b ≠ x →
  safe (iqueue_del_init x) (λ _ m',
    (∀ y, nx m' y = if decide (y = x) then Some (Some x)
                    else if decide (y = a) then Some (Some b) else nx m y) ∧
    (∀ y, pv m' y = if decide (y = x) then Some (Some x)
                    else if decide (y = b) then Some (Some a) else pv m y)) m.
Proof.
  intros Hb Ha Hca Hcb Hna Hnb. unfold iqueue_del_init, iqueue_del.
  do 2 apply safe_bind. eapply safe_get_next; [done|]. apply safe_bind, safe_ret.
  apply safe_bind. eapply safe_get_prev; [done|].
  apply safe_bind, safe_set_prev; [done|]. intros m1 Hp1 Hn1 Hs1.
  assert (pv m1 x = Some (Some a)) as Ha1 by (rewrite Hp1; by case_decide).
  apply safe_bind. eapply safe_get_prev; [done|]. apply safe_bind, safe_ret.
  assert (nx m1 x = Some (Some b)) as Hb1 by by rewrite Hn1.
  apply safe_bind. eapply safe_get_next; [done|].
  apply safe_bind, safe_set_next; [cell|]. intros m2 Hn2 Hp2 Hs2.
  assert (is_Some (m !! x)) as Hx by cell.
  apply safe_bind, safe_set_next; [cell|]. intros m3 Hn3 Hp3 Hs3.
  apply safe_set_prev; [cell|]. intros m4 Hp4 Hn4 Hs4.
  eapply safe_mono; [apply init_links; cell|]. intros [] m5 (Hn5&Hp5&_). split; intros y.
  - rewrite Hn5, Hn4, Hn3, Hn2, Hn1. by repeat case_decide.
  - rewrite Hp5, Hp4, Hp3, Hp2, Hp1. by repeat case_decide.
Qed.

(** ** The lists stay disjoint *)

Lemma cells_disjoint Q h1 h2 l1 l2 x :
  disjoint_queues Q → Q !! h1 = Some l1 → Q !! h2 = Some l2 → h1 ≠ h2 →
  x ∈ h1 :: l1 → x ∉ h2 :: l2.
Proof.
  intros [Hd Ho Hh] H1 H2 Hne Hx1 Hx2. apply elem_of_cons in Hx1, Hx2.
  destruct Hx1 as [->|Hx1], Hx2 as [Hx2|Hx2]; [done| | |].
  - by rewrite (Hh _ _ _ H2 Hx2) in H1.
  - subst. by rewrite (Hh _ _ _ H1 Hx1) in H2.
  - apply Hne. by eapply Ho.
Qed.

Lemma head_nodup Q h l : disjoint_queues Q → Q !! h = Some l → NoDup (h :: l).
Proof.
  intros [Hd Ho Hh] Hl. apply list.NoDup_cons. split; [|by eapply Hd].
  intros Hx. by rewrite (Hh _ _ _ Hl Hx) in Hl.
Qed.

(** A detached element is put somewhere in the queue of [h]. *)
Lemma disjoint_put Q x h l k :
  disjoint_queues Q → Q !! x = Some [] → Q !! h = Some l → x ≠ h → k ≡ₚ x :: l →
  disjoint_queues (<[h := k]> (delete x Q)).
Proof.
  intros HD Hx Hh Hne Hk.
  assert (∀ y, y ∈ k ↔ y = x ∨ y ∈ l) as Hin by (intros y; by rewrite Hk, elem_of_cons).
  assert (∀ h2 l2, Q !! h2 = Some l2 → x ∉ l2) as Hfree.
  { intros h2 l2 H2 Hy. by rewrite (dq_head _ HD _ _ _ H2 Hy) in Hx. }
  assert (∀ h2 l2, <[h:=k]> (delete x Q) !! h2 = Some l2 →
    (h2 = h ∧ l2 = k) ∨ (h2 ≠ h ∧ h2 ≠ x ∧ Q !! h2 = Some l2)) as Hinv.
  { intros h2 l2. destruct (decide (h2 = h)) as [->|]; [rewrite lookup_insert_eq; intros [= <-]; by left|].
    rewrite lookup_insert_ne by done. rewrite lookup_delete_Some. naive_solver. }
  split.
  - intros h2 l2 H2. destruct (Hinv _ _ H2) as [[-> ->]|(_&_&H3)]; [|by eapply dq_nodup].
    rewrite Hk. apply list.NoDup_cons. split; [by eapply Hfree|by eapply dq_nodup].
  - intros h1 h2 l1 l2 y H1 H2 Hy1 Hy2.
    destruct (Hinv _ _ H1) as [[-> ->]|(?&?&H1')], (Hinv _ _ H2) as [[-> ->]|(?&?&H2')]; [done|..].
    + apply Hin in Hy1 as [->|Hy1]; [by destruct (Hfree _ _ H2')|by eapply dq_one].
    + apply Hin in Hy2 as [->|Hy2]; [by destruct (Hfree _ _ H1')|by eapply dq_one].
    + by eapply dq_one.
  - intros h2 l2 y H2 Hy. assert (y ≠ h ∧ (y = x ∨ Q !! y = None)) as [Hyh Hyx].
    { destruct (Hinv _ _ H2) as [[-> ->]|(?&?&H2')].
      - apply Hin in Hy as [->|Hy]; [by split; [|left]|].
        pose proof (dq_head _ HD _ _ _ Hh Hy) as Hyn. split; [|by right]. by intros ->; rewrite Hh in Hyn.
      - pose proof (dq_head _ HD _ _ _ H2' Hy) as Hyn. split; [|by right]. by intros ->; rewrite Hh in Hyn. }
    rewrite lookup_insert_ne by done. apply lookup_delete_None. naive_solver.
Qed.

Lemma elem_of_without x y l : y ∈ without x l ↔ y ≠ x ∧ y ∈ l.
Proof. unfold without. by rewrite list_elem_of_filter. Qed.

Lemma without_other x l : x ∉ l → without x l = l.
Proof.
  intros Hx. unfold without. induction l as [|y l IH]; [done|]. rewrite filter_cons_True by set_solver.
  f_equal. apply IH. set_solver.
Qed.

Lemma iq_del_init_inv x Q h l :
  iq_del_init x Q !! h = Some l →
  (h = x ∧ l = []) ∨ (h ≠ x ∧ ∃ l0, Q !! h = Some l0 ∧ l = without x l0).
Proof.
  unfold iq_del_init. destruct (decide (h = x)) as [->|]; [rewrite lookup_insert_eq; intros [= <-]; by left|].
  rewrite lookup_insert_ne, lookup_fmap by done. destruct (Q !! h) as [l0|]; [|done].
  intros [= <-]. right. eauto.
Qed.

Lemma disjoint_del_init Q x : disjoint_queues Q → disjoint_queues (iq_del_init x Q).
Proof.
  intros HD. split.
  - intros h l [[-> ->]|(?&l0&Hl&->)]%iq_del_init_inv; [constructor|].
    apply list.NoDup_filter. by eapply dq_nodup.
  - intros h1 h2 l1 l2 y [[-> ->]|(?&k1&H1&->)]%iq_del_init_inv
      [[-> ->]|(?&k2&H2&->)]%iq_del_init_inv; rewrite ?elem_of_without; try set_solver.
    intros [] []. by eapply dq_one.
  - intros h l y [[-> ->]|(?&l0&Hl&->)]%iq_del_init_inv; rewrite ?elem_of_without; [set_solver|].
    intros [? Hy]. unfold iq_del_init. rewrite lookup_insert_ne, lookup_fmap by done.
    by rewrite (dq_head _ HD _ _ _ Hl Hy).
Qed.

Lemma disjoint_splice_init Q Q' h1 h2 :
  disjoint_queues Q → iq_splice_init h1 h2 Q = Some Q' → disjoint_queues Q'.
Proof.
  intros HD. unfold iq_splice_init. destruct (Q !! h1) as [l1|] eqn:H1; [|done].
  destruct (Q !! h2) as [l2|] eqn:H2; [|done]. case_decide as Hne; [done|]. intros [= <-].
  assert (∀ h l, <[h1:=[]]> (<[h2:=l1 ++ l2]> Q) !! h = Some l →
    (h = h1 ∧ l = []) ∨ (h = h2 ∧ l = l1 ++ l2) ∨ (h ≠ h1 ∧ h ≠ h2 ∧ Q !! h = Some l)) as Hinv.
  { intros h l. destruct (decide (h = h1)) as [->|]; [rewrite lookup_insert_eq; intros [= <-]; by left|].
    rewrite lookup_insert_ne by done. destruct (decide (h = h2)) as [->|];
      [rewrite lookup_insert_eq; intros [= <-]; right; by left|]. rewrite lookup_insert_ne by done. eauto. }
  split.
  - intros h l [[-> ->]|[[-> ->]|(?&?&Hl)]]%Hinv; [constructor| |by eapply dq_nodup].
    apply list.NoDup_app. split_and!; [by eapply dq_nodup| |by eapply dq_nodup].
    intros y Hy1 Hy2. apply Hne. by eapply dq_one.
  - intros ha hb la lb y Ha Hb Hya Hyb.
    apply Hinv in Ha as [[-> ->]|Ha]; [set_solver|]. apply Hinv in Hb as [[-> ->]|Hb]; [set_solver|].
    assert (∀ h, h ≠ h2 → h ≠ h1 → ∀ l, Q !! h = Some l → y ∈ l → y ∉ l1 ++ l2) as Hno.
    { intros h Hh2 Hh1 l Hl Hy [Hy'|Hy']%elem_of_app; [apply Hh1|apply Hh2]; by eapply dq_one. }
    destruct Ha as [[-> ->]|(?&?&Ha)], Hb as [[-> ->]|(?&?&Hb)]; [done|exfalso; by eapply Hno..|by eapply dq_one].
  - intros h l y Hl Hy.
    assert (Q !! y = None) as Hyn.
    { apply Hinv in Hl as [[-> ->]|[[-> ->]|(?&?&Hl)]]; [set_solver| |by eapply dq_head].
      apply elem_of_app in Hy as [Hy|Hy]; [apply (dq_head _ HD h1 l1)|apply (dq_head _ HD h2 l2)]; done. }
    rewrite !lookup_insert_ne; [done|by intros ->; rewrite H2 in Hyn|by intros ->; rewrite H1 in Hyn].
Qed.

(** ** The macros implement the lists *)

Lemma path_refl_cells m a l b : path m a l b → ∀ x, x ∈ a :: l → is_Some (m !! x).
Proof.
  revert a. induction l as [|y l IH]; intros a; simpl.
  - intros [Hn _] x ->%list_elem_of_singleton. by eapply nx_cell.
  - intros [[Hn _] Hp] x Hx. apply elem_of_cons in Hx as [->|Hx]; [by eapply nx_cell|by eapply IH].
Qed.

Lemma holds_add_tail m Q Q' x h :
  holds m Q → iq_add_tail x h Q = Some Q' → safe (iqueue_add_tail x h) (λ _ m', holds m' Q') m.
Proof.
  intros [HD Hm]. unfold iq_add_tail. destruct (Q !! x) as [[|]|] eqn:Hx; try done.
  destruct (Q !! h) as [l|] eqn:Hh; [|done]. case_decide as Hne; [done|]. intros [= HQ].
  assert (disjoint_queues Q') as HD'.
  { subst. eapply disjoint_put; [done..|]. by rewrite Permutation_app_comm. }
  pose proof (Hm _ _ Hx) as [Hxn Hxp]. pose proof (Hm _ _ Hh) as Hp.
  pose proof (head_nodup _ _ _ HD Hh) as Hnd. set (t := last_of h l).
  assert (x ∉ h :: l) as Hxl by (eapply (cells_disjoint Q x h); [done|exact Hx|exact Hh|done|by left]).
  assert (t ∈ h :: l) as Ht by apply last_of_elem.
  eapply safe_mono.
  { apply (add_tail_links x h t); [by eapply nx_cell| |by apply path_last|done].
    by eapply path_refl_cells. }
  intros [] m' [Hn Hv]. split; [done|]. intros h2 l2 H2. rewrite <- HQ in H2.
  destruct (decide (h2 = h)) as [->|Hne2].
  - rewrite lookup_insert_eq in H2. injection H2 as <-. apply path_app. split; [|split].
    + eapply path_redirect; [exact Hp|done| | |].
      * fold t. split; [rewrite Hn; by case_decide|]. rewrite Hv. case_decide; [congruence|].
        by case_decide.
      * fold t. intros y Hy Hyt. rewrite Hn. by repeat case_decide; subst.
      * intros y Hy. rewrite Hv. apply list.NoDup_cons in Hnd as [? ?].
        repeat case_decide; subst; [done|set_solver|done].
    + rewrite Hn. case_decide; [set_solver|]. by case_decide.
    + rewrite Hv. by case_decide.
  - rewrite lookup_insert_ne, lookup_delete_Some in H2 by done. destruct H2 as [Hne3 H2].
    assert (∀ y, y ∈ h2 :: l2 → y ∉ h :: l ∧ y ≠ x) as Hfar.
    { intros y Hy. split; [by eapply (cells_disjoint Q h2 h)|].
      intros ->. eapply (cells_disjoint Q h2 x); [done|exact H2|exact Hx|done|exact Hy|by left]. }
    eapply path_ext; [| |by apply Hm]; intros y Hy.
    + destruct (Hfar y Hy). rewrite Hn. repeat case_decide; subst; set_solver.
    + destruct (Hfar y) as [??]; [set_solver|]. rewrite Hv. repeat case_decide; subst; set_solver.
Qed.

Lemma without_middle x l1 l2 : x ∉ l1 → x ∉ l2 → without x (l1 ++ x :: l2) = l1 ++ l2.
Proof.
  intros. unfold without. rewrite list.filter_app, filter_cons_False by (intros []; done).
  f_equal; by apply without_other.
Qed.

Lemma first_of_elem l b : first_of l b ∈ l ++ [b].
Proof. destruct l; simpl; set_solver. Qed.

Lemma holds_del_init m Q x h l :
  holds m Q → Q !! h = Some l → x ∈ l → safe (iqueue_del_init x) (λ _ m', holds m' (iq_del_init x Q)) m.
Proof.
  intros [HD Hm] Hh Hx. pose proof (disjoint_del_init _ x HD) as HD'.
  pose proof (head_nodup _ _ _ HD Hh) as Hnd. pose proof (Hm _ _ Hh) as Hp.
  apply list_elem_of_split in Hx as (l1&l2&->).
  apply path_app in Hp as [Hp1 Hp2]. set (a := last_of h l1). set (b := first_of l2 h).
  assert (NoDup (h :: l1) ∧ NoDup (b :: l1) ∧ x ∉ h :: l1 ∧ x ∉ l2 ∧ (∀ y, y ∈ h :: l1 → y ∉ l2)) as (Hd1&Hdb&Hx1&Hx2&Hd12).
  { rewrite list.NoDup_cons, list.NoDup_app, list.NoDup_cons in Hnd.
    destruct Hnd as (Hh1&Hn1&Hn12&Hn2x&Hn2). rewrite !list.NoDup_cons.
    split_and!; try set_solver. intros Hb. pose proof (first_of_elem l2 h) as Hb2.
    apply elem_of_app in Hb2 as [Hb2|Hb2%list_elem_of_singleton]; [set_solver|].
    apply Hh1, elem_of_app. left. by rewrite <- Hb2. }
  assert (a ∈ h :: l1) as Ha by apply last_of_elem.
  assert (b ∈ l2 ++ [h]) as Hb by apply first_of_elem.
  eapply safe_mono.
  { apply (del_init_links x a b); [by apply path_first|by apply path_last| | | |].
    - by apply (path_refl_cells _ _ _ _ Hp1).
    - apply elem_of_app in Hb as [Hb|Hb%list_elem_of_singleton].
      + eapply path_refl_cells; [exact Hp2|by right].
      + rewrite Hb. eapply path_refl_cells; [exact Hp1|by left].
    - intros Heq. by rewrite Heq in Ha.
    - intros Heq. rewrite Heq in Hb. set_solver. }
  intros [] m' [Hn Hv]. split; [done|].
  assert (path m' h l1 b) as Hq1.
  { eapply path_redirect; [exact Hp1|done| | |]; fold a.
    - split; [rewrite Hn|rewrite Hv]; repeat case_decide; subst; done || set_solver.
    - intros y Hy Hya. rewrite Hn. repeat case_decide; subst; done.
    - intros y Hy. rewrite Hv. apply list.NoDup_cons in Hdb. repeat case_decide; subst; set_solver. }
  intros h2 k [[-> ->]|(Hne&k0&Hk&->)]%iq_del_init_inv.
  - split; [rewrite Hn|rewrite Hv]; by case_decide.
  - destruct (decide (h2 = h)) as [->|Hne2].
    + rewrite Hh in Hk. injection Hk as <-. rewrite without_middle by set_solver.
      destruct l2 as [|b' l2]; simpl in *; [by rewrite app_nil_r|]. apply path_app.
      destruct Hp2 as [_ Hp2]. split; [done|].
      apply list.NoDup_cons in Hnd as [Hnh Hnd]. apply list.NoDup_app in Hnd as (_&_&Hnd).
      rewrite !list.NoDup_cons in Hnd. destruct Hnd as (?&?&?).
      eapply path_ext; [| |exact Hp2]; intros y Hy; [rewrite Hn|rewrite Hv];
        repeat case_decide; subst; set_solver.
    + assert (∀ y, y ∈ h2 :: k0 → y ∉ h :: l1 ++ x :: l2) as Hfar.
      { intros y Hy. by eapply (cells_disjoint Q h2 h). }
      rewrite without_other by (intros ?; apply (Hfar x); set_solver).
      eapply path_ext; [| |by apply Hm]; intros y Hy.
      * assert (y ∉ h :: l1 ++ x :: l2) by (apply Hfar; set_solver). rewrite Hn.
        repeat case_decide; subst; set_solver.
      * assert (y ∉ h :: l1 ++ x :: l2) by (apply Hfar; set_solver). rewrite Hv.
        repeat case_decide; subst; set_solver.
Qed.

Lemma holds_is_empty m Q h l :
  holds m Q → Q !! h = Some l → safe (iqueue_is_empty h) (λ b m', b = bool_decide (l = []) ∧ m' = m) m.
Proof.
  intros [HD Hm] Hh. pose proof (head_nodup _ _ _ HD Hh) as Hnd. pose proof (Hm _ _ Hh) as Hp.
  unfold iqueue_is_empty. apply safe_bind. eapply safe_get_next; [by apply path_first|].
  apply safe_ret. split; [|done]. destruct l as [|y l]; simpl.
  - by rewrite !bool_decide_eq_true_2.
  - apply list.NoDup_cons in Hnd as [Hy _]. assert (h ≠ y) by set_solver.
    by rewrite !bool_decide_eq_false_2 by congruence.
Qed.

Lemma splice_links h1 h2 f t a m :
  nx m h1 = Some (Some f) → pv m h1 = Some (Some t) → nx m h2 = Some (Some a) →
  is_Some (m !! f) → is_Some (m !! t) → is_Some (m !! a) →
  safe (iqueue_splice_links h1 h2) (λ _ m',
    (∀ y, nx m' y = if decide (y = t) then Some (Some a)
                    else if decide (y = h2) then Some (Some f) else nx m y) ∧
    (∀ y, pv m' y = if decide (y = a) then Some (Some t)
                    else if decide (y = f) then Some (Some h2) else pv m y) ∧ same_cells m m') m.
Proof.
  intros Hf Ht Ha Hcf Hct Hca. unfold iqueue_splice_links.
  apply safe_bind. eapply safe_get_next; [done|]. apply safe_bind. eapply safe_get_prev; [done|].
  apply safe_bind. eapply safe_get_next; [done|]. apply safe_bind, safe_ret, safe_bind, safe_ret.
  apply safe_bind, safe_set_prev; [done|]. intros m1 Hp1 Hn1 Hs1.
  assert (is_Some (m !! h2)) as Hh2 by cell.
  apply safe_bind, safe_set_next; [cell|]. intros m2 Hn2 Hp2 Hs2.
  apply safe_bind, safe_set_next; [cell|]. intros m3 Hn3 Hp3 Hs3.
  apply safe_bind, safe_ret. apply safe_set_prev; [cell|]. intros m4 Hp4 Hn4 Hs4. split_and!.
  - intros y. by rewrite Hn4, Hn3, Hn2, Hn1.
  - intros y. by rewrite Hp4, Hp3, Hp2, Hp1.
  - intros y. etrans; [apply Hs4|]. etrans; [apply Hs3|]. etrans; [apply Hs2|apply Hs1].
Qed.

(** A queue that is not empty is spliced into another: the links, before the first
    head is initialised again. *)
Lemma holds_splice m Q h1 h2 f l1 l2 :
  holds m Q → Q !! h1 = Some (f :: l1) → Q !! h2 = Some l2 → h1 ≠ h2 →
  safe (iqueue_splice_links h1 h2) (λ _ m', path m' h2 ((f :: l1) ++ l2) h2 ∧ is_Some (m' !! h1) ∧
    ∀ h l, h ≠ h1 → h ≠ h2 → Q !! h = Some l → path m' h l h) m.
Proof.
  intros [HD Hm] H1 H2 Hne. pose proof (Hm _ _ H1) as Hp1. pose proof (Hm _ _ H2) as Hp2.
  pose proof (head_nodup _ _ _ HD H1) as Hd1. pose proof (head_nodup _ _ _ HD H2) as Hd2.
  set (t := last_of h1 (f :: l1)). set (a := first_of l2 h2).
  assert (t ∈ f :: l1) as Ht by apply (last_of_elem f l1).
  assert (a ∈ h2 :: l2) as Ha by (pose proof (first_of_elem l2 h2); subst a; set_solver).
  assert (∀ y, y ∈ h1 :: f :: l1 → y ∉ h2 :: l2) as Hd by (intros y; by eapply (cells_disjoint Q h1 h2)).
  eapply safe_mono.
  { apply (splice_links h1 h2 f t a);
      [by apply (path_first _ _ _ _ Hp1)|by apply (path_last _ _ _ _ Hp1)|by apply (path_first _ _ _ _ Hp2)|..].
    - apply (path_refl_cells _ _ _ _ Hp1). set_solver.
    - apply (path_refl_cells _ _ _ _ Hp1). by right.
    - by apply (path_refl_cells _ _ _ _ Hp2). }
  intros [] m' (Hn&Hv&Hs).
  split_and!; [|apply Hs, (path_refl_cells _ _ _ _ Hp1); by left|].
  - destruct Hp1 as [_ Hp1]. apply list.NoDup_cons in Hd1 as [_ Hd1].
    assert (path m' f l1 a) as Hq.
    { eapply path_redirect; [exact Hp1|done| | |].
      - change (last_of f l1) with t. split; [rewrite Hn|rewrite Hv]; by case_decide.
      - change (last_of f l1) with t. intros y Hy Hyt. rewrite Hn. case_decide; [done|].
        case_decide; [subst|done]. exfalso. apply (Hd h2); set_solver.
      - intros y Hy. rewrite Hv. apply list.NoDup_cons in Hd1 as [Hf _].
        case_decide; [subst y; exfalso; apply (Hd a); set_solver|].
        case_decide; [by subst|done]. }
    split.
    { split.
      - rewrite Hn. case_decide as Ht2; [exfalso; apply (Hd h2); set_solver|]. by case_decide.
      - rewrite Hv. case_decide as Ht2; [exfalso; apply (Hd f); set_solver|]. by case_decide. }
    destruct l2 as [|a' l2]; simpl in *; [by rewrite app_nil_r|].
    apply path_app. split; [done|]. destruct Hp2 as [_ Hp2].
    rewrite !list.NoDup_cons in Hd2. destruct Hd2 as (?&?&?).
    eapply path_ext; [| |exact Hp2]; intros y Hy; [rewrite Hn|rewrite Hv].
    + assert (y ≠ t) by (intros ->; apply (Hd t); set_solver). repeat case_decide; subst; set_solver.
    + assert (y ≠ f) by (intros ->; apply (Hd f); set_solver). repeat case_decide; subst; set_solver.
  - intros h l Hh1 Hh2 Hl. 
    assert (∀ y, y ∈ h :: l → y ∉ h1 :: f :: l1) by (intros y; by eapply (cells_disjoint Q h h1)).
    assert (∀ y, y ∈ h :: l → y ∉ h2 :: l2) by (intros y; by eapply (cells_disjoint Q h h2)).
    eapply path_ext; [| |by apply Hm]; intros y Hy.
    + assert (y ∈ h :: l) by set_solver. rewrite Hn. repeat case_decide; subst; naive_solver set_solver.
    + assert (y ∈ h :: l) by set_solver. rewrite Hv. repeat case_decide; subst; naive_solver set_solver.
Qed.

Lemma holds_splice_init m Q Q' h1 h2 :
  holds m Q → iq_splice_init h1 h2 Q = Some Q' → safe (iqueue_splice_init h1 h2) (λ _ m', holds m' Q') m.
Proof.
  intros HQ0 HQ. pose proof HQ0 as [HD Hm].
  pose proof (disjoint_splice_init _ _ _ _ HD HQ) as HD'. revert HQ. unfold iq_splice_init.
  destruct (Q !! h1) as [l1|] eqn:H1; [|done]. destruct (Q !! h2) as [l2|] eqn:H2; [|done].
  case_decide as Hne; [done|]. intros [= HQ].
  assert (∀ h l, Q' !! h = Some l → (h = h1 ∧ l = []) ∨ (h = h2 ∧ l = l1 ++ l2) ∨
    (h ≠ h1 ∧ h ≠ h2 ∧ Q !! h = Some l)) as Hinv.
  { intros h l. rewrite <- HQ. destruct (decide (h = h1)) as [->|]; [rewrite lookup_insert_eq; naive_solver|].
    rewrite lookup_insert_ne by done. destruct (decide (h = h2)) as [->|]; [rewrite lookup_insert_eq; naive_solver|].
    rewrite lookup_insert_ne by done. naive_solver. }
  assert (safe (iqueue_splice h1 h2) (λ _ m', path m' h2 (l1 ++ l2) h2 ∧ is_Some (m' !! h1) ∧
    ∀ h l, h ≠ h1 → h ≠ h2 → Q !! h = Some l → path m' h l h) m) as Hs.
  { unfold iqueue_splice. apply safe_bind. eapply safe_mono; [by eapply holds_is_empty|].
    intros b m1 [-> ->]. destruct l1 as [|f l1].
    - rewrite bool_decide_eq_true_2 by done. apply safe_ret. split_and!; [by apply Hm| |by eauto].
      apply (path_refl_cells _ _ _ _ (Hm _ _ H1)). by left.
    - rewrite bool_decide_eq_false_2 by done. by eapply holds_splice. }
  unfold iqueue_splice_init. apply safe_bind. eapply safe_mono; [exact Hs|]. intros [] m1 (Hp2&Hc1&Hp).
  eapply safe_mono; [by apply init_links|]. intros [] m' (Hn&Hv&_). split; [done|].
  assert (∀ h l, h ≠ h1 → Q' !! h = Some l → path m1 h l h → path m' h l h) as Hkeep.
  { intros h l Hh Hl Hpath. assert (∀ y, y ∈ h :: l → y ≠ h1) as Hy.
    { intros y Hy ->. eapply (cells_disjoint Q' h1 h); [done|subst; apply lookup_insert_eq|exact Hl|done|by left|done]. }
    eapply path_ext; [| |exact Hpath]; intros y Hyl; [rewrite Hn|rewrite Hv];
      case_decide; subst; [by destruct (Hy h1)|done| |done]. destruct (Hy h1); set_solver. }
  intros h l Hl. destruct (Hinv h l Hl) as [[-> ->]|[[-> ->]|(?&?&?)]].
  - split; [rewrite Hn|rewrite Hv]; by case_decide.
  - by apply Hkeep.
  - apply Hkeep; [done..|]. by apply Hp.
Qed.

(** A path from another start. *)
Lemma path_restart m m' a c l b :
  path m a l b → nx m' c = Some (Some (first_of l b)) → pv m' (first_of l b) = Some (Some c) →
  (∀ x, x ∈ l → nx m' x = nx m x) → (∀ x, x ∈ l ++ [b] → x ≠ first_of l b → pv m' x = pv m x) →
  NoDup l → b ∉ l → path m' c l b.
Proof.
  destruct l as [|y l]; simpl; [done|]. intros [_ Hp] Hn Hv Hn' Hv' Hd Hb. split; [done|].
  apply list.NoDup_cons in Hd as [? ?].
  eapply path_ext; [| |exact Hp]; intros x Hx; [by apply Hn'|]. apply Hv'; set_solver.
Qed.

Lemma add_links x h f m :
  is_Some (m !! x) → is_Some (m !! f) → nx m h = Some (Some f) → x ≠ h →
  safe (iqueue_add x h) (λ _ m',
    (∀ y, nx m' y = if decide (y = h) then Some (Some x)
                    else if decide (y = x) then Some (Some f) else nx m y) ∧
    (∀ y, pv m' y = if decide (y = f) then Some (Some x)
                    else if decide (y = x) then Some (Some h) else pv m y)) m.
Proof.
  intros Hx Hf Hh Hne. unfold iqueue_add.
  apply safe_bind, safe_set_prev; [done|]. intros m1 Hp1 Hn1 Hs1.
  assert (nx m1 h = Some (Some f)) as Hh1 by by rewrite Hn1.
  apply safe_bind. eapply safe_get_next; [done|].
  apply safe_bind, safe_set_next; [cell|]. intros m2 Hn2 Hp2 Hs2.
  assert (nx m2 h = Some (Some f)) as Hh2 by (rewrite Hn2; by case_decide).
  apply safe_bind. eapply safe_get_next; [done|]. apply safe_bind, safe_ret.
  apply safe_bind, safe_set_prev; [cell|]. intros m3 Hp3 Hn3 Hs3.
  assert (is_Some (m2 !! h)) by cell.
  apply safe_set_next; [cell|]. intros m4 Hn4 Hp4 Hs4. split; intros y.
  - by rewrite Hn4, Hn3, Hn2, Hn1.
  - by rewrite Hp4, Hp3, Hp2, Hp1.
Qed.

Lemma holds_add m Q Q' x h :
  holds m Q → iq_add x h Q = Some Q' → safe (iqueue_add x h) (λ _ m', holds m' Q') m.
Proof.
  intros [HD Hm]. unfold iq_add. destruct (Q !! x) as [[|]|] eqn:Hx; try done.
  destruct (Q !! h) as [l|] eqn:Hh; [|done]. case_decide as Hne; [done|]. intros [= HQ].
  assert (disjoint_queues Q') as HD' by (subst; by eapply disjoint_put).
  pose proof (Hm _ _ Hh) as Hp. pose proof (head_nodup _ _ _ HD Hh) as Hnd.
  assert (x ∉ h :: l) as Hxl by (eapply (cells_disjoint Q x h); [done|exact Hx|exact Hh|done|by left]).
  set (f := first_of l h).
  assert (f ∈ h :: l) as Hf by (pose proof (first_of_elem l h); subst f; set_solver).
  eapply safe_mono.
  { apply (add_links x h f); [|by apply (path_refl_cells _ _ _ _ Hp)|by apply path_first|done].
    apply (path_refl_cells _ _ _ _ (Hm _ _ Hx)). by left. }
  intros [] m' [Hn Hv]. split; [done|]. intros h2 l2 H2. rewrite <- HQ in H2.
  destruct (decide (h2 = h)) as [->|Hne2].
  - rewrite lookup_insert_eq in H2. injection H2 as <-. apply list.NoDup_cons in Hnd as [Hhl Hnd]. split.
    { split; [rewrite Hn; by case_decide|]. rewrite Hv. case_decide; [set_solver|]. by case_decide. }
    eapply path_restart; [exact Hp| | | | |done|done]; fold f.
    + rewrite Hn. case_decide; [set_solver|]. by case_decide.
    + rewrite Hv. by case_decide.
    + intros y Hy. rewrite Hn. repeat case_decide; subst; set_solver.
    + intros y Hy Hyf. rewrite Hv. repeat case_decide; subst; [done|set_solver|done].
  - rewrite lookup_insert_ne, lookup_delete_Some in H2 by done. destruct H2 as [Hne3 H2].
    assert (∀ y, y ∈ h2 :: l2 → y ∉ h :: l ∧ y ≠ x) as Hfar.
    { intros y Hy. split; [by eapply (cells_disjoint Q h2 h)|].
      intros ->. eapply (cells_disjoint Q h2 x); [done|exact H2|exact Hx|done|exact Hy|by left]. }
    eapply path_ext; [| |by apply Hm]; intros y Hy.
    + destruct (Hfar y Hy). rewrite Hn. repeat case_decide; subst; set_solver.
    + destruct (Hfar y) as [??]; [set_solver|]. rewrite Hv. repeat case_decide; subst; set_solver.
Qed.

(** ** Sequences of operations *)

Inductive operation : Type :=
  | Add (x h : K) | Add_tail (x h : K) | Del_init (x : K) | Splice_init (h1 h2 : K).

Definition run_operation (o : operation) : M unit :=
  match o with
  | Add x h => iqueue_add x h
  | Add_tail x h => iqueue_add_tail x h
  | Del_init x => iqueue_del_init x
  | Splice_init h1 h2 => iqueue_splice_init h1 h2
  end.

Definition is_element (x : K) Q : bool :=
  existsb (λ p : K * list K, bool_decide (x ∈ p.2)) (map_to_list Q).

Definition spec_operation (o : operation) Q : option queues :=
  match o with
  | Add x h => iq_add x h Q
  | Add_tail x h => iq_add_tail x h Q
  | Del_init x => if is_element x Q then Some (iq_del_init x Q) else None
  | Splice_init h1 h2 => iq_splice_init h1 h2 Q
  end.

Fixpoint spec_operations (l : list operation) Q : option queues :=
  match l with
  | [] => Some Q
  | o :: l => spec_operation o Q ≫= spec_operations l
  end.

Lemma is_element_spec x Q : is_element x Q = true → ∃ h l, Q !! h = Some l ∧ x ∈ l.
Proof.
  unfold is_element. rewrite existsb_exists. intros ([h l]&Hin&Hx). exists h, l.
  split; [|by apply bool_decide_eq_true in Hx]. by apply elem_of_map_to_list, list_elem_of_In.
Qed.

Lemma operation_ok m Q Q' o :
  holds m Q → spec_operation o Q = Some Q' → safe (run_operation o) (λ _ m', holds m' Q') m.
Proof.
  intros Hm HQ. destruct o; simpl in *.
  - by eapply holds_add.
  - by eapply holds_add_tail.
  - destruct (is_element x Q) eqn:Hx; [|done]. injection HQ as <-.
    apply is_element_spec in Hx as (h&l&Hh&Hx). by eapply holds_del_init.
  - by eapply holds_splice_init.
Qed.

End iqueue.
Arguments IQUEUEHEAD K : clear implicits.
Arguments operation K : clear implicits.

(** Claim C23: the intrusive queues are lists.  Any sequence of [iqueue_add],
    [iqueue_add_tail], [iqueue_del_init] and [iqueue_splice_init] that keeps to the
    contract - an element is added when it is in no queue, and taken out when it is
    in one - follows only valid pointers, leaves the memory with exactly the queues
    that the same operations give on lists, and [iqueue_is_empty] answers for every
    queue whether its list is empty. *)
Theorem intrusive_queues_are_lists {K : Type} `{Countable K} (l : list (operation K)) m Q Q' :
  holds m Q → spec_operations l Q = Some Q' →
  ∃ m', iter run_operation l m = (Ok tt, m') ∧ holds m' Q' ∧
    ∀ h k, Q' !! h = Some k → iqueue_is_empty h m' = (Ok (bool_decide (k = [])), m').
Proof.
  intros Hm HQ.
  assert (safe (iter run_operation l) (λ _ m', holds m' Q') m) as Hs.
  { revert m Q Hm HQ. induction l as [|o l IH]; intros m Q Hm HQ; simpl in *.
    - injection HQ as <-. by apply safe_ret.
    - destruct (spec_operation o Q) as [Q1|] eqn:Ho; [|done]. simpl in HQ.
      apply safe_bind. eapply safe_mono; [by eapply operation_ok|]. intros [] m1 Hm1. by eapply IH. }
  apply safe_inv in Hs as ([]&m'&Hr&Hm'). exists m'. split_and!; [done|done|].
  intros h k Hk. pose proof (holds_is_empty m' Q' h k Hm' Hk) as He.
  apply safe_inv in He as (b&m2&Hr2&->&->). done.
Qed.

(** Two heads and three elements of their own. *)
Definition five_heads : gmap Z (IQUEUEHEAD Z) := list_to_map ((λ x, (x, mkLinks (Some x) (Some x))) <$> seqZ 1 5).

Lemma intrusive_queues_are_lists_witness :
  let l := [Add_tail 3 1; Add_tail 4 1; Add 5 1; Del_init 3; Splice_init 1 2] in
  let Q' := <[1 := []]> (<[2 := [5; 4]]> (<[3 := []]> ∅)) in
  ∃ m', iter run_operation l five_heads = (Ok tt, m') ∧ holds m' Q' ∧
    ∀ h k, Q' !! h = Some k → iqueue_is_empty h m' = (Ok (bool_decide (k = [])), m').
Proof.
  apply (intrusive_queues_are_lists _ five_heads (list_to_map ((λ x, (x, [])) <$> seqZ 1 5)));
    [|vm_compute; reflexivity].
  assert (∀ h l, (list_to_map ((λ x, (x, [])) <$> seqZ 1 5) : gmap Z (list Z)) !! h = Some l →
    l = [] ∧ 1 <= h < 6) as Hinv.
  { intros h l Hl. apply elem_of_list_to_map_2 in Hl. apply list_elem_of_fmap in Hl as (x&[= -> ->]&Hx).
    apply elem_of_seqZ in Hx. split; [done|lia]. }
  split; [split|].
  - intros h l [-> _]%Hinv. constructor.
  - intros h1 h2 l1 l2 x [-> _]%Hinv. set_solver.
  - intros h l x [-> _]%Hinv. set_solver.
  - intros h l [-> Hh]%Hinv.
    assert (h = 1 ∨ h = 2 ∨ h = 3 ∨ h = 4 ∨ h = 5) as Hc by lia.
    destruct Hc as [->|[->|[->|[->| ->]]]]; split; vm_compute; reflexivity.
Defined.
