(* ===== verification/Timer.v ===== *)
(** * The timers

    Model of src/reactor/itimer.cpp and include/reactor/itimer.hpp - the timer wheel
    [itimer_core], its nodes, the manager [itimer_mgr] and the events [itimer_evt] -
    and of src/reactor/timer_wheel_mgr.cpp ([CTimerWheelMgr]), which the reactor uses.

    The queues of the wheel are the lists of Iqueue.v, by the address of their head:
    the slots of the five vectors, the local queues of [itimer_internal_cascade] and
    [itimer_internal_update], and the head inside each node.  Every node is a member
    of an event, and the address of an event stands for both. *)

From S2P Require Import Prelude Iqueue.
From stdpp Require Import options.

(** ** Data *)

Definition ITVN_BITS : Z := 6.
Definition ITVR_BITS : Z := 8.
Definition ITVN_SIZE : Z := 64.
Definition ITVR_SIZE : Z := 256.
Definition ITVN_MASK : Z := ITVN_SIZE - 1.
Definition ITVR_MASK : Z := ITVR_SIZE - 1.
Definition ITIMER_NODE_STATE_OK : Z := 0x1981.
Definition ITIMER_NODE_STATE_BAD : Z := 0x2014.
Definition ITIMER_MGR_LIMIT : Z := 300000.

(** The addresses of the queue heads: [Slot k i] is [tvecs[k]->vec[i]]. *)
Inductive head : Type :=
  | Slot (k i : Z)
  | Cascaded                 (* [queued] of itimer_internal_cascade *)
  | Queued                   (* [queued] of itimer_internal_update *)
  | Node (n : Z).            (* [head] of the node of the event n *)

#[export] Instance head_eq_dec : EqDecision head.
Proof. solve_decision. Defined.

#[export] Instance head_countable : Countable head.
Proof.
  apply (inj_countable'
    (λ h, match h with
          | Slot k i => inl (k, i) | Cascaded => inr (inl true) | Queued => inr (inl false)
          | Node n => inr (inr n)
          end)
    (λ c, match c with
          | inl (k, i) => Slot k i | inr (inl true) => Cascaded | inr (inl false) => Queued
          | inr (inr n) => Node n
          end)).
  by intros [].
Defined.

(** [callback] and [core] are null or [itimer_evt_cb] and the only core. *)
Record itimer_node : Type := mkNode {
  expires : Z;
  node_state : Z;
  node_data : option Z;
  node_callback : bool;
  node_core : bool;
}.

(** [callback] and [mgr] are null or [evt_timer_cb] and the only manager; [data] is
    the handler. *)
Record itimer_evt : Type := mkEvt {
  period : Z;
  slap : Z;
  repeat_ : Z;
  running : Z;
  evt_callback : bool;
  data : Z;
  user : Z;
  evt_mgr : bool;
  node : itimer_node;
}.

Definition eta_node (n : itimer_node) : itimer_node :=
  mkNode (expires n) (node_state n) (node_data n) (node_callback n) (node_core n).
Definition upd_expires : (Z → Z) → itimer_node → itimer_node := ltac:(update_field eta_node expires).
Definition upd_core : (bool → bool) → itimer_node → itimer_node := ltac:(update_field eta_node node_core).

Definition eta_evt (e : itimer_evt) : itimer_evt :=
  mkEvt (period e) (slap e) (repeat_ e) (running e) (evt_callback e) (data e) (user e) (evt_mgr e) (node e).
Definition upd_period : (Z → Z) → itimer_evt → itimer_evt := ltac:(update_field eta_evt period).
Definition upd_slap : (Z → Z) → itimer_evt → itimer_evt := ltac:(update_field eta_evt slap).
Definition upd_repeat : (Z → Z) → itimer_evt → itimer_evt := ltac:(update_field eta_evt repeat_).
Definition upd_running : (Z → Z) → itimer_evt → itimer_evt := ltac:(update_field eta_evt running).
Definition upd_evt_mgr : (bool → bool) → itimer_evt → itimer_evt := ltac:(update_field eta_evt evt_mgr).
Definition upd_node : (itimer_node → itimer_node) → itimer_evt → itimer_evt := ltac:(update_field eta_evt node).

(** [itimer_core] and [itimer_mgr] with the members of [CTimerWheelMgr]; the heap of
    events, which are never deleted; and the calls of [evt_timer_cb] so far: the
    event and the time [current] of the manager. *)
Record Timers : Type := mkTimers {
  timer_jiffies : Z;
  queues : gmap head (list head);
  interval : Z;
  current : Z;
  millisec : Z;
  jiffies : Z;
  m_timer_evt_map : gmap Z Z;
  m_last_timer_id : Z;
  evts : gmap Z itimer_evt;
  next_evt : Z;
  fired : list (Z * Z);
}.

Definition eta_timers (t : Timers) : Timers :=
  mkTimers (timer_jiffies t) (queues t) (interval t) (current t) (millisec t) (jiffies t)
    (m_timer_evt_map t) (m_last_timer_id t) (evts t) (next_evt t) (fired t).
Definition upd_timer_jiffies : (Z → Z) → Timers → Timers := ltac:(update_field eta_timers timer_jiffies).
Definition upd_queues : (gmap head (list head) → gmap head (list head)) → Timers → Timers :=
  ltac:(update_field eta_timers queues).
Definition upd_interval : (Z → Z) → Timers → Timers := ltac:(update_field eta_timers interval).
Definition upd_current : (Z → Z) → Timers → Timers := ltac:(update_field eta_timers current).
Definition upd_millisec : (Z → Z) → Timers → Timers := ltac:(update_field eta_timers millisec).
Definition upd_jiffies : (Z → Z) → Timers → Timers := ltac:(update_field eta_timers jiffies).
Definition upd_timer_evt_map : (gmap Z Z → gmap Z Z) → Timers → Timers :=
  ltac:(update_field eta_timers m_timer_evt_map).
Definition upd_last_timer_id : (Z → Z) → Timers → Timers := ltac:(update_field eta_timers m_last_timer_id).
Definition upd_evts : (gmap Z itimer_evt → gmap Z itimer_evt) → Timers → Timers :=
  ltac:(update_field eta_timers evts).
Definition upd_next_evt : (Z → Z) → Timers → Timers := ltac:(update_field eta_timers next_evt).
Definition upd_fired : (list (Z * Z) → list (Z * Z)) → Timers → Timers := ltac:(update_field eta_timers fired).

#[local] Notation T := (st Timers).

(** ** Queues and events *)

(** An operation of Iqueue.v. *)
Definition q_op (f : gmap head (list head) → option (gmap head (list head))) : T unit := λ t,
  match f (queues t) with
  | Some Q => (Ok tt, upd_queues (λ _, Q) t)
  | None => (Stop BrokenQueue, t)
  end.

(** [iqueue_init]. *)
Definition q_init (h : head) : T unit := modify (upd_queues <[h := []]>).

Definition q_add_tail (x h : head) : T unit := q_op (iq_add_tail x h).
Definition q_del_init (x : head) : T unit :=
  q_op (λ Q, match Q !! x with None => Some (iq_del_init x Q) | Some _ => None end).
Definition q_splice_init (h1 h2 : head) : T unit := q_op (iq_splice_init h1 h2).

(** [iqueue_is_empty]: false of the head of a node that is in a queue. *)
Definition q_is_empty (h : head) : T bool :=
  gets (λ t, match queues t !! h with Some l => bool_decide (l = []) | None => false end).

(** [iqueue_entry(h->next, itimer_node, head)]. *)
Definition q_first (h : head) : T Z := λ t,
  match queues t !! h with
  | Some (Node n :: _) => (Ok n, t)
  | Some _ => (Stop OutOfBounds, t)
  | None => (Stop BrokenQueue, t)
  end.

Definition q_length (h : head) : T nat :=
  gets (λ t, length (default [] (queues t !! h))).

Definition get_evt (n : Z) : T itimer_evt := λ t,
  match evts t !! n with
  | Some e => (Ok e, t)
  | None => (Stop UseAfterFree, t)
  end.

Definition upd_evt (n : Z) (f : itimer_evt → itimer_evt) : T unit :=
  do e <- get_evt n;
  modify (upd_evts <[n := f e]>).

(** [while (!iqueue_is_empty(h))], for a body that takes the first element away. *)
Fixpoint drain_loop (fuel : nat) (h : head) (f : Z → T unit) : T unit :=
  match fuel with
  | O => crash FuelOut
  | S fuel =>
      do empty <- q_is_empty h;
      if empty then ret tt
      else
        do n <- q_first h;
        do_ f n;
        drain_loop fuel h f
  end.

Definition drain (h : head) (f : Z → T unit) : T unit :=
  do len <- q_length h;
  drain_loop (S len) h f.

(** [assert(node->state == ITIMER_NODE_STATE_OK)]. *)
Definition assert_ok (n : Z) : T unit :=
  do e <- get_evt n;
  if node_state (node e) =? ITIMER_NODE_STATE_OK then ret tt else crash AssertFailed.

(** ** The core *)

Definition slots : list head :=
  (Slot 0 <$> seqZ 0 ITVR_SIZE) ++ (k ← [1; 2; 3; 4]; Slot k <$> seqZ 0 ITVN_SIZE).

Definition itimer_core_init (j : Z) : T unit :=
  do_ modify (upd_timer_jiffies (λ _, j));
  iter q_init slots.

Definition itimer_core_destroy : T unit :=
  iter (λ root,
    drain root (λ n,
      do empty <- q_is_empty (Node n);
      do_ (when negb empty then_ q_del_init (Node n));
      upd_evt n (upd_node (upd_core (λ _, false))))) slots.

Definition itimer_node_init (n : Z) (fn : bool) (d : option Z) : T unit :=
  do_ q_init (Node n);
  upd_evt n (upd_node (λ _, mkNode 0 ITIMER_NODE_STATE_OK d fn false)).

(** Take a node that is pending out of its queue. *)
Definition unlink_pending (n : Z) : T bool :=
  do empty <- q_is_empty (Node n);
  if negb empty then
    do_ q_del_init (Node n);
    do_ upd_evt n (upd_node (upd_core (λ _, false)));
    ret true
  else ret false.

Definition itimer_node_destroy (n : Z) : T unit :=
  do_ assert_ok n;
  do _ <- unlink_pending n;
  upd_evt n (upd_node (λ _, mkNode 0 ITIMER_NODE_STATE_BAD None false false)).

(** The queue that [itimer_internal_add] chooses. *)
Definition slot_of (tj exp : Z) : head :=
  let idx := u32 (exp - tj) in
  if idx <? ITVR_SIZE then Slot 0 (Z.land exp ITVR_MASK)
  else if idx <? Z.shiftl 1 (ITVR_BITS + ITVN_BITS) then
    Slot 1 (Z.land (Z.shiftr exp ITVR_BITS) ITVN_MASK)
  else if idx <? Z.shiftl 1 (ITVR_BITS + ITVN_BITS * 2) then
    Slot 2 (Z.land (Z.shiftr exp (ITVR_BITS + ITVN_BITS)) ITVN_MASK)
  else if idx <? Z.shiftl 1 (ITVR_BITS + ITVN_BITS * 3) then
    Slot 3 (Z.land (Z.shiftr exp (ITVR_BITS + ITVN_BITS * 2)) ITVN_MASK)
  else if s32 idx <? 0 then Slot 0 (Z.land tj ITVR_MASK)
  else Slot 4 (Z.land (Z.shiftr exp (ITVR_BITS + ITVN_BITS * 3)) ITVN_MASK).

Definition itimer_internal_add (n : Z) : T unit :=
  do e <- get_evt n;
  do tj <- gets timer_jiffies;
  do_ q_add_tail (Node n) (slot_of tj (expires (node e)));
  upd_evt n (upd_node (upd_core (λ _, true))).

Definition itimer_node_add (n exp : Z) : T unit :=
  do_ assert_ok n;
  do _ <- unlink_pending n;
  do_ upd_evt n (upd_node (upd_expires (λ _, exp)));
  itimer_internal_add n.

Definition itimer_node_del (n : Z) : T Z :=
  do_ assert_ok n;
  do empty <- q_is_empty (Node n);
  if negb empty then
    do e <- get_evt n;
    if negb (node_core (node e)) then crash AssertFailed
    else
      do_ q_del_init (Node n);
      do_ upd_evt n (upd_node (upd_core (λ _, false)));
      ret 1
  else ret 0.

Definition itimer_node_mod (n exp : Z) : T Z :=
  do r <- itimer_node_del n;
  do_ itimer_node_add n exp;
  ret r.

Definition itimer_internal_cascade (k index : Z) : T unit :=
  do_ q_init Cascaded;
  do_ q_splice_init (Slot k index) Cascaded;
  drain Cascaded (λ n,
    do_ q_del_init (Node n);
    do e <- get_evt n;
    if node_core (node e) then itimer_internal_add n else crash NullDeref).

(** [ITIMER_INDEX(core, n)]. *)
Definition ITIMER_INDEX (tj n : Z) : Z :=
  Z.land (Z.shiftr tj (ITVR_BITS + n * ITVN_BITS)) ITVN_MASK.

(** The cascade of vector [1 + n], and of the next one when the index is 0. *)
Fixpoint cascade_from (ns : list Z) : T unit :=
  match ns with
  | [] => ret tt
  | n :: ns =>
      do tj <- gets timer_jiffies;
      let i := ITIMER_INDEX tj n in
      do_ itimer_internal_cascade (1 + n) i;
      if i =? 0 then cascade_from ns else ret tt
  end.

(** The start of an iteration of [itimer_internal_update]: cascade, count the tick,
    and take the nodes that are due. *)
Definition update_begin : T unit :=
  do tj <- gets timer_jiffies;
  let index := Z.land tj ITVR_MASK in
  do_ q_init Queued;
  do_ (when index =? 0 then_ cascade_from [0; 1; 2; 3]);
  do_ modify (upd_timer_jiffies (λ j, u32 (j + 1)));
  q_splice_init (Slot 0 index) Queued.

(** ** The manager and the events *)

Definition itimer_mgr_init (ms ivl : Z) : T unit :=
  do_ modify (upd_current (λ _, ms));
  do_ modify (upd_interval (λ _, if ivl <? 1 then 1 else ivl));
  do_ modify (upd_jiffies (λ _, 0));
  do_ modify (upd_millisec (λ _, 0));
  itimer_core_init 0.

Definition itimer_mgr_destroy : T unit := itimer_core_destroy.

(** [itimer_evt_init(evt, evt_timer_cb, data, user)]. *)
Definition itimer_evt_init (p : Z) (fn : bool) (d u : Z) : T unit :=
  do_ itimer_node_init p true (Some p);
  upd_evt p (λ e, mkEvt 0 0 0 0 fn d u false (node e)).

Definition itimer_evt_destroy (p : Z) : T unit :=
  do_ itimer_node_destroy p;
  upd_evt p (λ e, mkEvt 0 0 0 0 false 0 0 false (node e)).

Definition itimer_evt_stop (p : Z) : T unit :=
  do e <- get_evt p;
  do_ (when evt_mgr e then_
         (do _ <- itimer_node_del p;
          upd_evt p (upd_evt_mgr (λ _, false))));
  upd_evt p (upd_running (λ _, 0)).

(** The ticks until [slap]: an unsigned division that rounds up, at most 0x70000000. *)
Definition ticks_until (slp cur ivl : Z) : Z :=
  let exp := u32 (slp - cur + ivl - 1) / ivl in
  if 0x70000000 <=? exp then 0x70000000 else exp.

Definition itimer_evt_start (p per rep : Z) : T unit :=
  do ivl <- gets interval;
  do e <- get_evt p;
  do_ (when evt_mgr e then_ itimer_evt_stop p);
  do_ upd_evt p (upd_period (λ _, per));
  do_ upd_evt p (upd_repeat (λ _, rep));
  do cur <- gets current;
  do_ upd_evt p (upd_slap (λ _, u32 (cur + per)));
  do_ upd_evt p (upd_evt_mgr (λ _, true));
  do j <- gets jiffies;
  do_ itimer_node_add p (u32 (j + ticks_until (u32 (cur + per)) cur ivl));
  upd_evt p (upd_running (λ _, 0)).

(** ** [CTimerWheelMgr] *)

Definition add_timer (handler per rep d : Z) : T Z :=
  do tm_evt <- gets next_evt;
  do_ modify (upd_next_evt (λ n, n + 1));
  do_ modify (upd_evts <[tm_evt := mkEvt 0 0 0 0 false 0 0 false (mkNode 0 0 None false false)]>);
  do_ itimer_evt_init tm_evt true handler d;
  do ms <- checked (per * 1000);
  do_ itimer_evt_start tm_evt (u32 ms) rep;
  do id <- gets m_last_timer_id;
  do id <- checked (id + 1);
  let id := if 0x7FFFFFFF <? id then 0 else id in
  do_ modify (upd_last_timer_id (λ _, id));
  do_ modify (upd_timer_evt_map (λ m,
         match m !! u32 id with Some _ => m | None => <[u32 id := tm_evt]> m end));
  ret id.

Definition del_timer (timer_id : Z) : T Z :=
  do found <- gets (λ t, m_timer_evt_map t !! u32 timer_id);
  match found with
  | Some tm_evt =>
      do_ itimer_evt_stop tm_evt;
      do_ itimer_evt_destroy tm_evt;
      ret 0
  | None => ret (-1)
  end.

(** What the [handle_timeout] of a handler does to the timers. *)
Inductive request : Type :=
  | Add_timer (handler per rep d : Z)
  | Del_timer (timer_id : Z).

(** The handlers outside this component: the requests that the [k]-th call of
    [handle_timeout] makes, and the order of an unordered map. *)
Class Timeouts : Type := {
  handle_timeout : nat → Z → Z → list request;
  timer_map_order : gmap Z Z → list (Z * Z);
}.

Section run.
Context {H : Timeouts}.

Definition perform (r : request) : T unit :=
  match r with
  | Add_timer h per rep d => do _ <- add_timer h per rep d; ret tt
  | Del_timer id => do _ <- del_timer id; ret tt
  end.

Definition evt_timer_cb (p handler d : Z) : T unit :=
  do k <- gets (λ t, length (fired t));
  do cur <- gets current;
  do_ modify (upd_fired (λ l, l ++ [(p, cur)]));
  iter perform (handle_timeout k handler d).

(** One iteration of [while (current >= evt->slap)]; the result tells whether the
    last repetition was reached. *)
Definition count_step (p cur : Z) (count : Z) : T (Z + Z * bool) :=
  do e <- get_evt p;
  if slap e <=? cur then
    do count <- checked (count + 1);
    do_ upd_evt p (upd_slap (λ s, u32 (s + period e)));
    if repeat_ e =? 1 then ret (inr (count, true))
    else
      do_ (when 1 <? repeat_ e then_ upd_evt p (upd_repeat (λ r, r - 1)));
      ret (inl count)
  else ret (inr (count, false)).

(** [for (; count > 0; count--)]. *)
Fixpoint call_loop (p : Z) (count : nat) : T unit :=
  match count with
  | O => ret tt
  | S count =>
      do e <- get_evt p;
      if evt_callback e && negb (running e =? 0) then
        do_ evt_timer_cb p (data e) (user e);
        call_loop p count
      else ret tt
  end.

Definition itimer_evt_cb (p : Z) : T unit :=
  do e <- get_evt p;
  if negb (evt_mgr e) then crash NullDeref
  else
    do cur <- gets current;
    do (count, stop) <- while 32 (count_step p cur) 0;
    do_ (if stop : bool then itimer_evt_stop p
         else
           do ivl <- gets interval;
           do e <- get_evt p;
           do j <- gets jiffies;
           itimer_node_add p (u32 (j + ticks_until (slap e) cur ivl)));
    do_ upd_evt p (upd_running (λ _, 1));
    do_ call_loop p (Z.to_nat count);
    upd_evt p (upd_running (λ _, 0)).

(** The nodes that are due: [fn] and [data] are read before the node is unlinked. *)
Definition run_node (n : Z) : T unit :=
  do e <- get_evt n;
  let fn := node_callback (node e) in
  let d := node_data (node e) in
  do_ q_del_init (Node n);
  do_ upd_evt n (upd_node (upd_core (λ _, false)));
  if fn then
    match d with Some p => itimer_evt_cb p | None => crash NullDeref end
  else ret tt.

Definition update_step : T unit :=
  do_ update_begin;
  drain Queued run_node.

Definition itimer_internal_update (j : Z) : T unit :=
  while 32 (λ _ : unit,
    do tj <- gets timer_jiffies;
    if 0 <=? s32 (u32 (j - tj)) then do_ update_step; ret (inl tt)
    else ret (inr tt)) tt.

Definition itimer_core_run (j : Z) : T unit := itimer_internal_update j.

Definition mgr_step (ms : Z) : T (unit + unit) :=
  do m <- gets millisec;
  if 0 <=? s32 (u32 (ms - m)) then
    do j <- gets jiffies;
    do_ itimer_core_run j;
    do_ modify (upd_jiffies (λ j, u32 (j + 1)));
    do ivl <- gets interval;
    do_ modify (upd_current (λ c, u32 (c + ivl)));
    do_ modify (upd_millisec (λ m, u32 (m + ivl)));
    ret (inl tt)
  else ret (inr tt).

Definition itimer_mgr_run (ms : Z) : T unit :=
  do ivl <- gets interval;
  do limit <- checked (s32 ivl * 64);
  do m <- gets millisec;
  let diff := s32 (u32 (ms - m)) in
  do upper <- checked (ITIMER_MGR_LIMIT + limit);
  do lower <- checked (- ITIMER_MGR_LIMIT - limit);
  do_ (when (upper <? diff) || (diff <? lower) then_ modify (upd_millisec (λ _, ms)));
  while 32 (λ _, mgr_step ms) tt.

(** [time(0)] is [now]. *)
Definition new_CTimerWheelMgr (now : Z) : T unit :=
  do_ modify (upd_last_timer_id (λ _, 0));
  itimer_mgr_init (u32 (now * 1000)) 1.

Definition update_timer (now : Z) : T Z :=
  do_ itimer_mgr_run (u32 (now * 1000));
  ret 0.

(** [~CTimerWheelMgr]. *)
Definition destroy_CTimerWheelMgr : T unit :=
  do_ itimer_mgr_destroy;
  do m <- gets m_timer_evt_map;
  iter (λ it : Z * Z, itimer_evt_destroy it.2) (timer_map_order m).

End run.

(** Before the constructor. *)
Definition empty_timers : Timers := mkTimers 0 ∅ 0 0 0 0 ∅ 0 ∅ 1 [].
