(* ===== verification/Wheel.v ===== *)
(** * The wheel as a set of countdowns

    A node that is pending has a number of ticks left, which its slot and its expiry
    determine.  Adding a node sets that number, a cascade leaves it as it is, and a
    tick decrements it and takes exactly the nodes with none left: the invariant
    below is what makes this so, in 32-bit arithmetic that wraps around. *)

From S2P Require Import Prelude Iqueue Timer.
From stdpp Require Import options.

(** Linear arithmetic with division and modulo by constants. *)
Ltac dmlia := Z.to_euclidean_division_equations; lia.

(** ** Slots *)

(** The number of ticks a slot of vector [k] stands for. *)
Definition width (k : Z) : Z := 2 ^ (8 + 6 * (k - 1)).

(** The ticks left for a node with expiry [E] in the queue [h], at time [tj]. *)
Definition left (tj : Z) (h : head) (E : Z) : Z :=
  match h with
  | Slot k i => if k =? 0 then (i - tj) mod 256 else u32 (E - tj)
  | _ => 0
  end.

(** Where a node may be: a slot of the first vector stands for one tick; in another
    vector, the slot is that of the block of ticks in which the node expires, the
    block has not begun, and it begins in less than one turn. *)
Definition place (tj : Z) (h : head) (E : Z) : Prop :=
  match h with
  | Slot k i =>
      if k =? 0 then 0 <= i < 256
      else 1 <= k <= 4 ∧
           let d := u32 (E - tj) in
           let block := (tj + d) / width k in
           i = block mod 64 ∧ tj <= block * width k ∧ d < 64 * width k ∧ d < 2 ^ 31
  | Queued => True
  | _ => False
  end.

(** The block of a node in a higher vector begins after [tj]. *)
Definition later (tj : Z) (h : head) (E : Z) : Prop :=
  match h with
  | Slot k _ => k ≠ 0 → tj < (tj + u32 (E - tj)) / width k * width k
  | _ => True
  end.

Lemma width_cases k : 1 <= k <= 4 →
  (k = 1 ∧ width k = 256) ∨ (k = 2 ∧ width k = 16384) ∨
  (k = 3 ∧ width k = 1048576) ∨ (k = 4 ∧ width k = 67108864).
Proof.
  intros. assert (k = 1 ∨ k = 2 ∨ k = 3 ∨ k = 4) as [->|[->|[->| ->]]] by lia;
    vm_compute; repeat (left; split; reflexivity) || right; try (by split); by left.
Qed.

Lemma land_mask z : Z.land z ITVR_MASK = z mod 256 ∧ Z.land z ITVN_MASK = z mod 64.
Proof.
  split; [change ITVR_MASK with (Z.ones 8)|change ITVN_MASK with (Z.ones 6)];
    rewrite Z.land_ones by lia; reflexivity.
Qed.

Lemma shift_div z :
  Z.shiftr z ITVR_BITS = z / 256 ∧ Z.shiftr z (ITVR_BITS + ITVN_BITS) = z / 16384 ∧
  Z.shiftr z (ITVR_BITS + ITVN_BITS * 2) = z / 1048576 ∧
  Z.shiftr z (ITVR_BITS + ITVN_BITS * 3) = z / 67108864.
Proof.
  unfold ITVR_BITS, ITVN_BITS. rewrite !Z.shiftr_div_pow2 by lia. repeat split; reflexivity.
Qed.

(** [slot_of] by its cases. *)
Lemma slot_of_cases tj E :
  let d := u32 (E - tj) in
  slot_of tj E =
    if d <? 256 then Slot 0 (E mod 256)
    else if d <? 16384 then Slot 1 (E / 256 mod 64)
    else if d <? 1048576 then Slot 2 (E / 16384 mod 64)
    else if d <? 67108864 then Slot 3 (E / 1048576 mod 64)
    else if 2 ^ 31 <=? d then Slot 0 (tj mod 256)
    else Slot 4 (E / 67108864 mod 64).
Proof.
  intros d. unfold slot_of. fold d. destruct (shift_div E) as (->&->&->&->).
  rewrite !(proj1 (land_mask _)), !(proj2 (land_mask _)).
  change (Z.shiftl 1 (ITVR_BITS + ITVN_BITS)) with 16384.
  change (Z.shiftl 1 (ITVR_BITS + ITVN_BITS * 2)) with 1048576.
  change (Z.shiftl 1 (ITVR_BITS + ITVN_BITS * 3)) with 67108864. change ITVR_SIZE with 256.
  replace (s32 d <? 0) with (2 ^ 31 <=? d); [done|].
  assert (0 <= d < 2 ^ 32) by apply u32_range. clearbody d. unfold s32.
  destruct (Z.leb_spec (2 ^ 31) d), (Z.ltb_spec ((d + 2 ^ 31) mod 2 ^ 32 - 2 ^ 31) 0); try done;
    exfalso; dmlia.
Qed.

(** Adding a node: its ticks are the difference, or none when it is in the past. *)
Lemma slot_of_ok tj E :
  0 <= tj < 2 ^ 32 → 0 <= E < 2 ^ 32 →
  let d := u32 (E - tj) in
  place tj (slot_of tj E) E ∧ later tj (slot_of tj E) E ∧
  left tj (slot_of tj E) E = (if d <? 2 ^ 31 then d else 0) ∧
  ∃ k i, slot_of tj E = Slot k i ∧ 0 <= k <= 4 ∧ 0 <= i ∧ i < (if k =? 0 then 256 else 64).
Proof.
  intros Ht HE d. rewrite slot_of_cases. fold d.
  assert (0 <= d < 2 ^ 32 ∧ (tj + d = E ∨ tj + d = E + 2 ^ 32)) as [Hd Hcase].
  { unfold d, u32. dmlia. }
  destruct (Z.ltb_spec d 256).
  { unfold place, later, left. cbn [Z.eqb]. split; [dmlia|split; [by intros []|split]].
    - destruct (Z.ltb_spec d (2 ^ 31)); dmlia.
    - exists 0, (E mod 256). cbn [Z.eqb]. split_and!; done || dmlia. }
  destruct (Z.leb_spec (2 ^ 31) d) as [Hbig|Hsmall].
  { do 3 match goal with |- context [?a <? ?b] => destruct (Z.ltb_spec a b); [lia|] end.
    unfold place, later, left. cbn [Z.eqb]. split; [dmlia|split; [by intros []|split]].
    - destruct (Z.ltb_spec d (2 ^ 31)); dmlia.
    - exists 0, (tj mod 256). cbn [Z.eqb]. split_and!; done || dmlia. }
  destruct (Z.ltb_spec d (2 ^ 31)) as [_|]; [|lia].
  assert (∀ k w, 1 <= k <= 4 → width k = w → w <= d < 64 * w →
    place tj (Slot k (E / w mod 64)) E ∧ later tj (Slot k (E / w mod 64)) E ∧
    left tj (Slot k (E / w mod 64)) E = d ∧
    ∃ k' i, Slot k (E / w mod 64) = Slot k' i ∧ 0 <= k' <= 4 ∧ 0 <= i ∧ i < (if k' =? 0 then 256 else 64)) as Hk.
  { intros k w Hk Hw Hdw. unfold place, later, left. destruct (Z.eqb_spec k 0) as [|Hk0]; [lia|].
    fold d. cbv zeta. rewrite Hw.
    assert (E / w mod 64 = (tj + d) / w mod 64 ∧ tj < (tj + d) / w * w) as [He Hlt].
    { destruct (width_cases k Hk) as [[_ Hw']|[[_ Hw']|[[_ Hw']|[_ Hw']]]]; rewrite Hw' in Hw; subst w;
        (split; [destruct Hcase as [->| ->]|]; dmlia). }
    split_and!; try dmlia; try done.
    exists k, (E / w mod 64). rewrite (proj2 (Z.eqb_neq k 0)) by done. split_and!; dmlia || done. }
  destruct (Z.ltb_spec d 16384); [by apply Hk|].
  destruct (Z.ltb_spec d 1048576); [by apply Hk|].
  destruct (Z.ltb_spec d 67108864); [by apply Hk|].
  apply Hk; lia || done.
Qed.

(** The next tick: one less is left. *)
Lemma place_next tj k i E :
  0 <= tj < 2 ^ 32 → place tj (Slot k i) E → later tj (Slot k i) E → left tj (Slot k i) E ≠ 0 →
  place (u32 (tj + 1)) (Slot k i) E ∧
  left (u32 (tj + 1)) (Slot k i) E = left tj (Slot k i) E - 1.
Proof.
  intros Ht. unfold place, later, left. destruct (Z.eqb_spec k 0) as [->|Hk0].
  { intros Hi _ Hl. split; [done|]. unfold u32. dmlia. }
  cbv zeta. intros (Hk&Hi&Hb&Hw&Hd) Hlt Hl. specialize (Hlt Hk0).
  set (d := u32 (E - tj)) in *. assert (0 <= d < 2 ^ 32) as Hd0 by apply u32_range.
  assert (u32 (E - u32 (tj + 1)) = d - 1 ∧
    (u32 (tj + 1) = tj + 1 ∨ (tj = 2 ^ 32 - 1 ∧ u32 (tj + 1) = 0))) as [Hd1 Htj].
  { unfold d, u32 in *. clear Hi Hb Hw Hlt. dmlia. }
  rewrite Hd1. split; [|done]. split; [done|]. clearbody d. clear Hd1.
  destruct (width_cases k Hk) as [[_ Hw']|[[_ Hw']|[[_ Hw']|[_ Hw']]]]; rewrite Hw' in *;
    (destruct Htj as [->|[-> ->]]; [replace (tj + 1 + (d - 1)) with (tj + d) by lia|];
     split_and!; try lia; dmlia).
Qed.

(** The blocks of a vector begin after a time that is not the start of a block. *)
Lemma later_other tj k i E :
  0 <= tj < 2 ^ 32 → place tj (Slot k i) E → tj mod width k ≠ 0 → later tj (Slot k i) E.
Proof.
  intros Ht. unfold place, later. intros Hp Hm Hk0. rewrite (proj2 (Z.eqb_neq k 0)) in Hp by done.
  cbv zeta in Hp. destruct Hp as (Hk&Hi&Hb&_&_). set (d := u32 _) in *. clearbody d.
  destruct (width_cases k Hk) as [[_ Hw']|[[_ Hw']|[[_ Hw']|[_ Hw']]]]; rewrite Hw' in *; dmlia.
Qed.

(** At the start of a block, a slot other than that of the block is later; and what
    is in the slot of the block expires in the block. *)
Lemma later_slot tj k i E :
  0 <= tj < 2 ^ 32 → place tj (Slot k i) E → k ≠ 0 → tj mod width k = 0 →
  i ≠ tj / width k mod 64 → later tj (Slot k i) E.
Proof.
  intros Ht. unfold place, later. intros Hp Hk0 Hm Hi' _.
  rewrite (proj2 (Z.eqb_neq k 0)) in Hp by done.
  cbv zeta in Hp. destruct Hp as (Hk&Hi&Hb&_&_). set (d := u32 _) in *. clearbody d.
  destruct (width_cases k Hk) as [[_ Hw']|[[_ Hw']|[[_ Hw']|[_ Hw']]]]; rewrite Hw' in *; dmlia.
Qed.

Lemma place_index tj k E :
  0 <= tj < 2 ^ 32 → 0 <= E < 2 ^ 32 → k ≠ 0 → tj mod width k = 0 →
  place tj (Slot k (tj / width k mod 64)) E →
  ∃ k' i, slot_of tj E = Slot k' i ∧ k' < k ∧ left tj (slot_of tj E) E = u32 (E - tj).
Proof.
  intros Ht HE Hk0 Hm. unfold place. rewrite (proj2 (Z.eqb_neq k 0)) by done. cbv zeta.
  intros (Hk&Hi&Hb&Hw&Hd). destruct (slot_of_ok tj E Ht HE) as (_&_&Hl&_).
  rewrite slot_of_cases in *. set (d := u32 (E - tj)) in *.
  assert (0 <= d < 2 ^ 32) as Hd0 by apply u32_range.
  assert (d < width k) as Hdk.
  { clear Hl. clearbody d. destruct (width_cases k Hk) as [[_ Hw']|[[_ Hw']|[[_ Hw']|[_ Hw']]]]; rewrite Hw' in *; dmlia. }
  rewrite Hl, (proj2 (Z.ltb_lt d (2 ^ 31))) by done.
  destruct (width_cases k Hk) as [[-> Hw']|[[-> Hw']|[[-> Hw']|[-> Hw']]]]; rewrite Hw' in *;
    repeat match goal with |- context [?a <? ?b] => destruct (Z.ltb_spec a b); try lia end;
    eexists _, _; (split; [reflexivity|split; [lia|done]]).
Qed.

(** The index that the update computes for a vector. *)
Lemma ITIMER_INDEX_div tj n :
  0 <= n <= 3 → ITIMER_INDEX tj n = tj / width (1 + n) mod 64.
Proof.
  intros Hn. unfold ITIMER_INDEX. rewrite (proj2 (land_mask _)), Z.shiftr_div_pow2 by (unfold ITVR_BITS, ITVN_BITS; lia).
  unfold width, ITVR_BITS, ITVN_BITS. replace (8 + n * 6) with (8 + 6 * (1 + n - 1)) by lia. done.
Qed.

(** ** Where a node is *)

(** The node [n] is in the queue of [h]. *)
Definition inq (Q : gmap head (list head)) (n : Z) (h : head) : Prop :=
  ∃ l, Q !! h = Some l ∧ Node n ∈ l.

(** The queues of a core: the slots exist, every element is a node, and the head
    inside a node heads no other. *)
Record wfq (Q : gmap head (list head)) : Prop := {
  wq_disjoint : disjoint_queues Q;
  wq_slots : ∀ h, h ∈ slots → is_Some (Q !! h);
  wq_elems : ∀ h l x, Q !! h = Some l → x ∈ l → ∃ n, x = Node n;
  wq_node : ∀ n l, Q !! Node n = Some l → l = [];
}.

Lemma elem_of_slots h :
  h ∈ slots ↔ ∃ k i, h = Slot k i ∧ 0 <= k <= 4 ∧ 0 <= i ∧ i < (if k =? 0 then 256 else 64).
Proof.
  unfold slots. rewrite elem_of_app, list_elem_of_fmap, list_elem_of_bind. split.
  - intros [(i&->&Hi%elem_of_seqZ)|(k&Hi&Hk)].
    + exists 0, i. unfold ITVR_SIZE in Hi. cbn [Z.eqb]. split_and!; done || lia.
    + apply list_elem_of_fmap in Hi as (i&->&Hi%elem_of_seqZ). exists k, i. unfold ITVN_SIZE in Hi.
      assert (k = 1 ∨ k = 2 ∨ k = 3 ∨ k = 4) as Hc by set_solver.
      destruct (Z.eqb_spec k 0); split_and!; try done; lia.
  - intros (k&i&->&Hk&Hi0&Hi). destruct (Z.eqb_spec k 0) as [->|Hk0].
    + left. exists i. split; [done|]. apply elem_of_seqZ. unfold ITVR_SIZE. lia.
    + right. exists k. split.
      * apply list_elem_of_fmap. exists i. split; [done|]. apply elem_of_seqZ. unfold ITVN_SIZE. lia.
      * assert (k = 1 ∨ k = 2 ∨ k = 3 ∨ k = 4) as Hc by lia. set_solver.
Qed.

Lemma slot_of_slots tj E : 0 <= tj < 2 ^ 32 → 0 <= E < 2 ^ 32 → slot_of tj E ∈ slots.
Proof. intros Ht HE. apply elem_of_slots. by apply slot_of_ok. Qed.

Lemma slots_not_node h n : h ∈ slots → h ≠ Node n ∧ h ≠ Cascaded ∧ h ≠ Queued.
Proof. intros (k&i&->&_)%elem_of_slots. done. Qed.

Lemma inq_one Q n h1 h2 : wfq Q → inq Q n h1 → inq Q n h2 → h1 = h2.
Proof. intros HQ (l1&?&?) (l2&?&?). by eapply dq_one; [apply HQ|..]. Qed.

Lemma inq_attached Q n h : wfq Q → inq Q n h → Q !! Node n = None.
Proof. intros HQ (l&?&?). by eapply dq_head; [apply HQ|..]. Qed.

Lemma wfq_add_tail Q n h :
  wfq Q → Q !! Node n = Some [] → is_Some (Q !! h) → (∀ m, h ≠ Node m) →
  ∃ Q', iq_add_tail (Node n) h Q = Some Q' ∧ wfq Q' ∧
    (∀ m g, inq Q' m g ↔ inq Q m g ∨ (m = n ∧ g = h)) ∧
    (∀ g, g ≠ h → g ≠ Node n → Q' !! g = Q !! g) ∧ Q' !! Node n = None ∧ is_Some (Q' !! h).
Proof.
  intros HQ Hn [l Hl] Hh. unfold iq_add_tail. rewrite Hn, Hl.
  rewrite decide_False by (intros Heq; by eapply Hh). eexists. split; [reflexivity|].
  assert (∀ g, <[h:=l ++ [Node n]]> (delete (Node n) Q) !! g =
    if decide (g = h) then Some (l ++ [Node n]) else if decide (g = Node n) then None else Q !! g) as Hget.
  { intros g. destruct (decide (g = h)) as [->|]; [apply lookup_insert_eq|].
    rewrite lookup_insert_ne by done. destruct (decide (g = Node n)) as [->|]; [apply lookup_delete_eq|].
    by rewrite lookup_delete_ne. }
  split_and!.
  - split.
    + eapply disjoint_put; [by apply HQ|done..| |]; [intros Heq; by eapply Hh|]. by rewrite Permutation_app_comm.
    + intros g Hg. rewrite Hget. destruct (decide (g = h)); [by eexists|].
      rewrite decide_False by apply (slots_not_node g n Hg). by apply HQ.
    + intros g k x. rewrite Hget. case_decide as Hgh.
      * intros [= <-] [Hx|Hx%list_elem_of_singleton]%elem_of_app; [by eapply (wq_elems _ HQ h l)|eauto].
      * case_decide; [done|]. apply HQ.
    + intros m k. rewrite Hget. rewrite decide_False by (intros Heq; by eapply Hh).
      case_decide; [done|]. apply HQ.
  - intros m g. unfold inq. setoid_rewrite Hget. case_decide as Hgh; [subst g|].
    + split.
      * intros (k&[= <-]&[Hm|Hm%list_elem_of_singleton]%elem_of_app); [left; eauto|right].
        by injection Hm as ->.
      * intros [(k&Hk&Hm)|[-> _]].
        -- eexists. split; [done|]. rewrite Hk in Hl. injection Hl as ->. apply elem_of_app. by left.
        -- eexists. split; [done|]. apply elem_of_app. right. by apply list_elem_of_singleton.
    + case_decide as Hgn; [subst g|naive_solver]. split; [naive_solver|].
      intros [(k&Hk&Hm)|[_ ?]]; [|done]. rewrite Hn in Hk. injection Hk as <-. by apply elem_of_nil in Hm.
  - intros g Hg1 Hg2. rewrite Hget. by rewrite !decide_False.
  - rewrite Hget. rewrite decide_False by (intros Heq; by eapply Hh). by rewrite decide_True.
  - rewrite Hget, decide_True by done. by eexists.
Qed.

Lemma wfq_del_init Q n h :
  wfq Q → inq Q n h →
  let Q' := iq_del_init (Node n) Q in
  wfq Q' ∧ (∀ m g, inq Q' m g ↔ inq Q m g ∧ m ≠ n) ∧
  (∀ g, g ≠ h → g ≠ Node n → Q' !! g = Q !! g) ∧ Q' !! Node n = Some [] ∧
  (∀ l, Q !! h = Some l → Q' !! h = Some (without (Node n) l)).
Proof.
  intros HQ Hn Q'. pose proof (inq_attached _ _ _ HQ Hn) as Hnone.
  assert (∀ g, Q' !! g = if decide (g = Node n) then Some [] else without (Node n) <$> Q !! g) as Hget.
  { intros g. unfold Q', iq_del_init. case_decide as Hg; [subst; apply lookup_insert_eq|].
    by rewrite lookup_insert_ne, lookup_fmap. }
  split_and!.
  - split.
    + apply disjoint_del_init, HQ.
    + intros g Hg. rewrite Hget, decide_False by apply (slots_not_node g n Hg).
      destruct (wq_slots _ HQ g Hg) as [l ->]. by eexists.
    + intros g k x. rewrite Hget. case_decide; [intros [= <-] Hx; by apply elem_of_nil in Hx|].
      destruct (Q !! g) as [l|] eqn:Hl; [|done]. intros [= <-] [_ Hx]%elem_of_without. by eapply HQ.
    + intros m k. rewrite Hget. case_decide; [by intros [= <-]|].
      destruct (Q !! Node m) as [l|] eqn:Hl; [|done]. apply HQ in Hl as ->. by intros [= <-].
  - intros m g. unfold inq. setoid_rewrite Hget. case_decide as Hg.
    + subst g. split; [intros (?&[= <-]&Hx); by apply elem_of_nil in Hx|]. intros [(l&Hl&_) _]. by rewrite Hnone in Hl.
    + destruct (Q !! g) as [l|]; simpl; [|naive_solver]. split.
      * intros (k&[= <-]&[Hm Hin]%elem_of_without). split; [eauto|by intros ->].
      * intros [(k&[= <-]&Hin) Hm]. eexists. split; [done|]. apply elem_of_without. split; [congruence|done].
  - intros g Hg1 Hg2. rewrite Hget, decide_False by done. destruct (Q !! g) as [l|] eqn:Hl; simpl; [|done].
    f_equal. apply without_other. intros Hin. apply Hg1. eapply inq_one; [done|by exists l|done].
  - rewrite Hget. by rewrite decide_True.
  - intros l Hl. rewrite Hget. rewrite decide_False by (intros ->; by rewrite Hnone in Hl). by rewrite Hl.
Qed.

Lemma wfq_splice_init Q h1 h2 l1 l2 :
  wfq Q → Q !! h1 = Some l1 → Q !! h2 = Some l2 → h1 ≠ h2 → (∀ n, h1 ≠ Node n) → (∀ n, h2 ≠ Node n) →
  ∃ Q', iq_splice_init h1 h2 Q = Some Q' ∧ wfq Q' ∧
    (∀ m g, inq Q' m g ↔ (g ≠ h1 ∧ inq Q m g) ∨ (g = h2 ∧ inq Q m h1)) ∧
    (∀ g, g ≠ h1 → g ≠ h2 → Q' !! g = Q !! g) ∧ Q' !! h1 = Some [] ∧ Q' !! h2 = Some (l1 ++ l2).
Proof.
  intros HQ H1 H2 Hne Hn1 Hn2. unfold iq_splice_init. rewrite H1, H2, decide_False by done.
  eexists. split; [reflexivity|].
  set (Q' := <[h1:=[]]> (<[h2:=l1 ++ l2]> Q)).
  assert (∀ g, Q' !! g = if decide (g = h1) then Some [] else if decide (g = h2) then Some (l1 ++ l2) else Q !! g) as Hget.
  { intros g. unfold Q'. case_decide as Hg; [subst; apply lookup_insert_eq|]. rewrite lookup_insert_ne by done.
    case_decide as Hg2; [subst; apply lookup_insert_eq|]. by rewrite lookup_insert_ne. }
  split_and!.
  - split.
    + apply (disjoint_splice_init Q Q' h1 h2); [apply HQ|]. unfold iq_splice_init.
      by rewrite H1, H2, decide_False.
    + intros g Hg. rewrite Hget. repeat case_decide; try by eexists. by apply HQ.
    + intros g k x. rewrite Hget. repeat case_decide; [intros [= <-] Hx; by apply elem_of_nil in Hx| |apply HQ].
      intros [= <-] [Hx|Hx]%elem_of_app; [by eapply (wq_elems _ HQ h1)|by eapply (wq_elems _ HQ h2)].
    + intros m k. rewrite Hget. rewrite !decide_False by (intros Heq; symmetry in Heq; first [by apply Hn1 in Heq|by apply Hn2 in Heq]). apply HQ.
  - intros m g. unfold inq. setoid_rewrite Hget. case_decide as Hg1; [subst g|case_decide as Hg2; [subst g|]].
    + split; [intros (?&[= <-]&Hx); by apply elem_of_nil in Hx|]. intros [[? _]|[? _]]; done.
    + split.
      * intros (?&[= <-]&[Hm|Hm]%elem_of_app); [right|left]; eauto.
      * intros [[_ (k&Hk&Hm)]|[_ (k&Hk&Hm)]]; (eexists; split; [done|]); apply elem_of_app.
        -- right. rewrite H2 in Hk. by injection Hk as ->.
        -- left. rewrite H1 in Hk. by injection Hk as ->.
    + naive_solver.
  - intros g Hg1 Hg2. rewrite Hget. by rewrite !decide_False.
  - rewrite Hget. by rewrite decide_True.
  - rewrite Hget. by rewrite decide_False, decide_True.
Qed.

Lemma wfq_init Q h :
  wfq Q → (∀ n, ¬ inq Q n h) → (∀ n, h ≠ Node n) →
  wfq (<[h := []]> Q) ∧ (∀ m g, inq (<[h := []]> Q) m g ↔ inq Q m g).
Proof.
  intros HQ Hno Hn.
  assert (∀ g, <[h := []]> Q !! g = if decide (g = h) then Some [] else Q !! g) as Hget.
  { intros g. case_decide as Hg; [subst; apply lookup_insert_eq|]. by rewrite lookup_insert_ne. }
  assert (∀ m g, inq (<[h := []]> Q) m g ↔ inq Q m g) as Hin.
  { intros m g. unfold inq. setoid_rewrite Hget. case_decide as Hg; [subst g|done].
    split; [intros (?&[= <-]&Hx); by apply elem_of_nil in Hx|]. intros Hx. by destruct (Hno m). }
  split; [split|done].
  - split.
    + intros g l. rewrite Hget. case_decide; [intros [= <-]; constructor|apply HQ].
    + intros g1 g2 k1 k2 x. rewrite !Hget.
      case_decide; [intros [= <-] _ Hx; by apply elem_of_nil in Hx|].
      case_decide; [intros _ [= <-] _ Hx; by apply elem_of_nil in Hx|]. apply HQ.
    + intros g k x. rewrite !Hget. case_decide; [intros [= <-] Hx; by apply elem_of_nil in Hx|].
      intros Hg Hx. destruct (wq_elems _ HQ _ _ _ Hg Hx) as [n ->].
      rewrite decide_False by (intros Heq; by eapply Hn). by eapply HQ.
  - intros g Hg. rewrite Hget. case_decide; [by eexists|by apply HQ].
  - intros g k x. rewrite Hget. case_decide; [intros [= <-] Hx; by apply elem_of_nil in Hx|apply HQ].
  - intros n k. rewrite Hget. rewrite decide_False by (intros Heq; by eapply Hn). apply HQ.
Qed.

(** ** The elementary operations *)

Lemma safe_get_evt n e t (P : itimer_evt → Timers → Prop) :
  evts t !! n = Some e → P e t → safe (get_evt n) P t.
Proof. unfold get_evt, safe, wp. by intros ->. Qed.

Lemma safe_upd_evt n e f t (P : unit → Timers → Prop) :
  evts t !! n = Some e → P tt (upd_evts (λ _, <[n := f e]> (evts t)) t) → safe (upd_evt n f) P t.
Proof. intros He HP. unfold upd_evt. apply safe_bind. by eapply safe_get_evt. Qed.

Lemma safe_q_op f Q' t (P : unit → Timers → Prop) :
  f (queues t) = Some Q' → P tt (upd_queues (λ _, Q') t) → safe (q_op f) P t.
Proof. unfold q_op, safe, wp. by intros ->. Qed.

Lemma safe_q_del_init n t (P : unit → Timers → Prop) :
  queues t !! Node n = None → P tt (upd_queues (λ _, iq_del_init (Node n) (queues t)) t) →
  safe (q_del_init (Node n)) P t.
Proof. intros Hn HP. eapply safe_q_op; [by rewrite Hn|done]. Qed.

Lemma safe_q_is_empty h t (P : bool → Timers → Prop) :
  P (match queues t !! h with Some l => bool_decide (l = []) | None => false end) t →
  safe (q_is_empty h) P t.
Proof. done. Qed.

(** A loop that takes the first element away at each iteration. *)
Lemma safe_drain h f (I : Timers → Prop) (P : unit → Timers → Prop) t l :
  (∀ n l t, I t → queues t !! h = Some (Node n :: l) →
    safe (f n) (λ _ t', I t' ∧ queues t' !! h = Some l) t) →
  (∀ t, I t → queues t !! h = Some [] → P tt t) →
  (∀ t l x, I t → queues t !! h = Some l → x ∈ l → ∃ n, x = Node n) →
  I t → queues t !! h = Some l → safe (drain h f) P t.
Proof.
  intros Hf HP Hn HI Hl. unfold drain, q_length. apply safe_bind, safe_gets. rewrite Hl. cbn [default].
  clear - Hf HP Hn HI Hl. revert t HI Hl. induction l as [|x l IH]; intros t HI Hl; cbn [drain_loop length].
  - apply safe_bind, safe_q_is_empty. rewrite Hl, bool_decide_eq_true_2 by done. by apply HP.
  - apply safe_bind, safe_q_is_empty. rewrite Hl, bool_decide_eq_false_2 by done.
    destruct (Hn t _ x HI Hl) as [n ->]; [by left|].
    apply safe_bind. unfold q_first, safe at 1, wp. rewrite Hl. cbn [fst snd].
    apply safe_bind. eapply safe_mono; [by eapply Hf|]. intros [] t' [HI' Hl']. by apply IH.
Qed.

(** ** The cascade *)

Lemma upd_queues_twice Q1 Q2 t : upd_queues (λ _, Q2) (upd_queues (λ _, Q1) t) = upd_queues (λ _, Q2) t.
Proof. reflexivity. Qed.

Lemma upd_evts_same t n e : evts t !! n = Some e → upd_evts (λ _, <[n := e]> (evts t)) t = t.
Proof. intros He. destruct t. unfold upd_evts. simpl in *. by rewrite insert_id. Qed.

(** What the wheel knows of the nodes of the slot that is cascaded. *)
Definition cascadable (t : Timers) (n : Z) (h : head) : Prop :=
  ∃ e, evts t !! n = Some e ∧ node_core (node e) = true ∧ 0 <= expires (node e) < 2 ^ 32 ∧
    slot_of (timer_jiffies t) (expires (node e)) ≠ h.

(** The slot of the node [n]. *)
Definition goes_to (t : Timers) (n : Z) (h : head) : Prop :=
  ∃ e, evts t !! n = Some e ∧ h = slot_of (timer_jiffies t) (expires (node e)).

(** The state [t'] is [t] with the nodes of [s] moved, each to its slot. *)
Definition moved (s : head) (t : Timers) (t' : Timers) : Prop :=
  ∃ Q, t' = upd_queues (λ _, Q) t ∧ wfq Q ∧ (∀ n, ¬ inq Q n Cascaded) ∧
    (∀ n h, inq Q n h ↔ (h ≠ s ∧ inq (queues t) n h) ∨ (inq (queues t) n s ∧ goes_to t n h)) ∧
    (∀ n, Q !! Node n = queues t !! Node n) ∧ Q !! Queued = queues t !! Queued.

(** The invariant of the loop of a cascade. *)
Definition moving (s : head) (t t1 : Timers) : Prop :=
  ∃ Q, t1 = upd_queues (λ _, Q) t ∧ wfq Q ∧
    (∀ n h, h ≠ Cascaded → inq Q n h ↔
      (h ≠ s ∧ inq (queues t) n h) ∨ (inq (queues t) n s ∧ ¬ inq Q n Cascaded ∧ goes_to t n h)) ∧
    (∀ n, inq Q n Cascaded → inq (queues t) n s) ∧
    (∀ n, Q !! Node n = queues t !! Node n) ∧ Q !! Queued = queues t !! Queued.

Lemma cascade_node s t t1 n l :
  wfq (queues t) → 0 <= timer_jiffies t < 2 ^ 32 → s ∈ slots →
  (∀ n, inq (queues t) n s → cascadable t n s) → moving s t t1 →
  queues t1 !! Cascaded = Some (Node n :: l) →
  safe (do_ q_del_init (Node n);
        do e <- get_evt n;
        if node_core (node e) then itimer_internal_add n else crash NullDeref)
    (λ _ t', moving s t t' ∧ queues t' !! Cascaded = Some l) t1.
Proof.
  intros Hwf Htj Hs Hn (Q&->&HQ&Hin&Hc&Hnode&Hq) Hl. cbn [queues upd_queues] in Hl.
  assert (inq Q n Cascaded) as Hnc by (eexists; split; [done|by left]).
  destruct (Hn n (Hc n Hnc)) as (e&He&Hcore&Hexp&Hslot).
  destruct (wfq_del_init Q n Cascaded HQ Hnc) as (HQ1&Hin1&Hsame1&Hn1&Hl1).
  set (Q1 := iq_del_init (Node n) Q) in *. specialize (Hl1 _ Hl).
  assert (without (Node n) (Node n :: l) = l) as Hw.
  { unfold without. rewrite filter_cons_False by (intros []; done). apply without_other.
    pose proof (dq_nodup _ (wq_disjoint _ HQ) _ _ Hl) as Hnd. by apply list.NoDup_cons in Hnd as [? _]. }
  rewrite Hw in Hl1.
  apply safe_bind, safe_q_del_init; [by eapply inq_attached|]. cbn [queues upd_queues]. fold Q1.
  apply safe_bind. eapply safe_get_evt; [exact He|]. rewrite Hcore.
  unfold itimer_internal_add. apply safe_bind. eapply safe_get_evt; [exact He|].
  apply safe_bind, safe_gets. cbn [timer_jiffies upd_queues].
  set (h := slot_of (timer_jiffies t) (expires (node e))) in *.
  assert (h ∈ slots) as Hh by by apply slot_of_slots.
  destruct (wfq_add_tail Q1 n h HQ1 Hn1) as (Q2&HQ2&Hwf2&Hin2&Hsame2&Hn2&_).
  { apply HQ1, Hh. }
  { intros m. by apply (slots_not_node h m). }
  destruct (slots_not_node h n Hh) as (Hhn&Hhc&Hhq).
  apply safe_bind. eapply safe_q_op; [exact HQ2|]. eapply safe_upd_evt; [exact He|].
  rewrite (upd_evts_same _ n); [|cbn [evts upd_queues]; rewrite He; f_equal; clear - Hcore; destruct e as [????????[]]; simpl in Hcore; by subst].
  split.
  - exists Q2. split; [reflexivity|]. split; [done|].
    assert (∀ m, inq Q2 m Cascaded ↔ inq Q m Cascaded ∧ m ≠ n) as Hcas.
    { intros m. rewrite Hin2, Hin1. naive_solver. }
    split_and!.
    + intros m g Hg. rewrite Hin2, Hin1, Hin by done. rewrite Hcas. split.
      * intros [[[[? ?]|(?&?&?)] ?]|[-> ->]]; [by left|right; split_and!; [done|by intros []|done]|right].
        split_and!; [by apply Hc|by intros []|]. by exists e.
      * intros [[? ?]|(Hms&Hmc&e'&He'&->)].
        -- destruct (decide (m = n)) as [->|]; [|naive_solver].
           assert (g = s) as -> by (eapply (inq_one (queues t)); [done|done|by apply Hc]). done.
        -- destruct (decide (m = n)) as [->|]; [rewrite He in He'; injection He' as <-; by right|]. left. split; [|done].
           right. split_and!; [done|naive_solver|by exists e'].
    + intros m [? _]%Hcas. by apply Hc.
    + intros m. rewrite <- Hnode. destruct (decide (m = n)) as [->|].
      * rewrite Hn2. symmetry. by eapply inq_attached.
      * destruct (slots_not_node h m Hh) as (Hhm&_). rewrite Hsame2, Hsame1; congruence.
    + rewrite <- Hq, Hsame2, Hsame1; congruence.
  - cbn [queues upd_queues]. rewrite Hsame2; congruence.
Qed.

Lemma safe_cascade k i t :
  wfq (queues t) → 0 <= timer_jiffies t < 2 ^ 32 → Slot k i ∈ slots → (∀ n, ¬ inq (queues t) n Cascaded) →
  (∀ n, inq (queues t) n (Slot k i) → cascadable t n (Slot k i)) →
  safe (itimer_internal_cascade k i) (λ _ t', moved (Slot k i) t t') t.
Proof.
  intros Hwf Htj Hs Hc Hn. set (s := Slot k i) in *. unfold itimer_internal_cascade.
  destruct (wfq_init (queues t) Cascaded Hwf Hc) as [HQ1 Hin1]; [done|].
  destruct (wq_slots _ Hwf s Hs) as [l Hl].
  destruct (wfq_splice_init (<[Cascaded := []]> (queues t)) s Cascaded l []) as (Q2&HQ2&Hwf2&Hin2&Hsame2&Hs2&Hc2);
    [done|by rewrite lookup_insert_ne|apply lookup_insert_eq|done..|].
  apply safe_bind, safe_modify, safe_bind. eapply safe_q_op; [exact HQ2|].
  eapply (safe_drain _ _ (moving s t)); [| | | |exact Hc2].
  - intros n l' t1 Hm Hl'. by apply (cascade_node s t t1).
  - intros t1 (Q&->&HQ&Hin&Hcas&Hnode&Hq) Hnil. cbn [queues upd_queues] in Hnil.
    assert (∀ n, ¬ inq Q n Cascaded) as Hno.
    { intros n (l'&Hl'&Hx). rewrite Hnil in Hl'. injection Hl' as <-. by apply elem_of_nil in Hx. }
    exists Q. split; [done|]. split_and!; [done|done| |done|done].
    intros n h. destruct (decide (h = Cascaded)) as [->|Hh]; [|rewrite Hin by done; naive_solver].
    split; [intros Hx; by destruct (Hno n)|]. intros [[_ Hx]|[_ (e&_&Hx)]]; [by destruct (Hc n)|].
    symmetry in Hx. unfold slot_of in Hx. repeat case_match; done.
  - intros t1 l' x (Q&->&HQ&_). by apply HQ.
  - exists Q2. split; [done|]. split; [done|]. split_and!.
    + intros n h Hh. rewrite Hin2, Hin1. split; [intros [?|[]]; [by left|done]|].
      intros [?|(Hx&Hno&_)]; [by left|]. destruct Hno. rewrite Hin2, !Hin1. by right.
    + intros n. rewrite Hin2, !Hin1. intros [[_ Hx]|[_ Hx]]; [by destruct (Hc n)|done].
    + intros n. by rewrite Hsame2, lookup_insert_ne.
    + by rewrite Hsame2, lookup_insert_ne.
Qed.

(** ** The invariant of the timers

    [d] is 0 between two ticks and 1 while the callbacks of a tick run, when the
    wheel has counted the tick and the manager has not; [B] bounds the periods. *)

(** What an event that is pending satisfies, apart from its time. *)
Record armed (B n : Z) (e : itimer_evt) : Prop := {
  ar_state : node_state (node e) = ITIMER_NODE_STATE_OK;
  ar_data : node_data (node e) = Some n;
  ar_fn : node_callback (node e) = true;
  ar_core : node_core (node e) = true;
  ar_callback : evt_callback e = true;
  ar_mgr : evt_mgr e = true;
  ar_expires : 0 <= expires (node e) < 2 ^ 32;
  ar_period : 0 < period e <= B;
}.

(** The time at which a node in the queue [h] is due. *)
Definition due (d tj cur : Z) (h : head) (E : Z) : Z :=
  match h with Queued => cur | _ => cur + left tj h E + d end.

(** An event is in no queue and stopped, or in a queue where its time is [slap]. *)
Definition evt_ok (B d : Z) (t : Timers) (n : Z) (e : itimer_evt) : Prop :=
  (queues t !! Node n = Some [] ∧ evt_mgr e = false) ∨
  (∃ h, inq (queues t) n h ∧ h ≠ Cascaded ∧ (h = Queued → d = 1) ∧ armed B n e ∧
     place (timer_jiffies t) h (expires (node e)) ∧
     slap e = due d (timer_jiffies t) (current t) h (expires (node e))).

Record TInv (B d : Z) (t : Timers) : Prop := {
  ti_wfq : wfq (queues t);
  ti_evts : ∀ n e, evts t !! n = Some e → evt_ok B d t n e;
  ti_none : ∀ n, evts t !! n = None → queues t !! Node n = None ∧ ∀ h, ¬ inq (queues t) n h;
  ti_fresh : ∀ n, next_evt t <= n → evts t !! n = None;
  ti_jiffies : 0 <= jiffies t < 2 ^ 32 ∧ timer_jiffies t = u32 (jiffies t + d);
  ti_interval : interval t = 1;
  ti_current : 0 <= current t ∧ current t + B + 1 < 2 ^ 32;
  ti_bound : 0 <= B < 0x70000000;
}.

Lemma ti_range B d t : TInv B d t → 0 <= timer_jiffies t < 2 ^ 32.
Proof. intros Hi. destruct (ti_jiffies _ _ _ Hi) as [_ ->]. apply u32_range. Qed.

(** A node that is in a queue is that of an armed event. *)
Lemma inq_armed B d t n h :
  TInv B d t → inq (queues t) n h → ∃ e, evts t !! n = Some e ∧ armed B n e ∧ h ≠ Cascaded ∧
    (h = Queued → d = 1) ∧ place (timer_jiffies t) h (expires (node e)) ∧
    slap e = due d (timer_jiffies t) (current t) h (expires (node e)).
Proof.
  intros Hi Hn. destruct (evts t !! n) as [e|] eqn:He.
  - exists e. split; [done|]. destruct (ti_evts _ _ _ Hi n e He) as [[Hd _]|(h'&Hh'&?&?&?&?&?)].
    + by rewrite (inq_attached _ _ _ (ti_wfq _ _ _ Hi) Hn) in Hd.
    + by rewrite (inq_one _ _ _ _ (ti_wfq _ _ _ Hi) Hn Hh').
  - by destruct (proj2 (ti_none _ _ _ Hi n He) h).
Qed.

(** Every node of vector [k] expires in a block that has not begun. *)
Definition level_later (t : Timers) (k : Z) : Prop :=
  ∀ n i e, inq (queues t) n (Slot k i) → evts t !! n = Some e →
    later (timer_jiffies t) (Slot k i) (expires (node e)).

Lemma cascade_step B n t :
  TInv B 0 t → 0 <= n <= 3 → timer_jiffies t mod width (1 + n) = 0 →
  safe (itimer_internal_cascade (1 + n) (ITIMER_INDEX (timer_jiffies t) n))
    (λ _ t', TInv B 0 t' ∧ (∃ Q, t' = upd_queues (λ _, Q) t) ∧ queues t' !! Queued = queues t !! Queued ∧
      level_later t' (1 + n) ∧ (∀ k, level_later t k → level_later t' k)) t.
Proof.
  intros Hi Hn Hm. pose proof (ti_range _ _ _ Hi) as Htj. rewrite ITIMER_INDEX_div by done.
  set (s := Slot (1 + n) (timer_jiffies t / width (1 + n) mod 64)).
  assert (∀ m e, inq (queues t) m s → evts t !! m = Some e → ∃ k' i,
    slot_of (timer_jiffies t) (expires (node e)) = Slot k' i ∧ k' < 1 + n ∧
    left (timer_jiffies t) (slot_of (timer_jiffies t) (expires (node e))) (expires (node e)) =
    left (timer_jiffies t) s (expires (node e)) ∧ 0 <= expires (node e) < 2 ^ 32) as Hslot.
  { intros m e Hms He. destruct (inq_armed _ _ _ _ _ Hi Hms) as (e'&He'&Ha&_&_&Hp&_).
    rewrite He in He'. injection He' as <-. pose proof (ar_expires _ _ _ Ha).
    destruct (place_index (timer_jiffies t) (1 + n) (expires (node e))) as (k'&i&Hs&Hk&Hl); [done..|lia|done|exact Hp|].
    exists k', i. split_and!; [done..| |lia|lia]. rewrite Hl. unfold left, s.
    by rewrite (proj2 (Z.eqb_neq (1 + n) 0)) by lia. }
  eapply safe_mono.
  { apply safe_cascade; [apply Hi|done| | |].
    - apply elem_of_slots. exists (1 + n), (timer_jiffies t / width (1 + n) mod 64).
      rewrite (proj2 (Z.eqb_neq (1 + n) 0)) by lia.
      pose proof (Z.mod_pos_bound (timer_jiffies t / width (1 + n)) 64). split_and!; done || lia.
    - intros m Hc. destruct (inq_armed _ _ _ _ _ Hi Hc) as (?&_&_&?&_). done.
    - intros m Hms. destruct (inq_armed _ _ _ _ _ Hi Hms) as (e&He&Ha&_). exists e.
      destruct (Hslot m e Hms He) as (k'&i&Hs&Hk&_). split_and!; [done|apply Ha..|].
      fold s. rewrite Hs. unfold s. intros [= -> _]. lia. }
  intros [] t' (Q&->&HQ&Hc&Hin&Hnode&Hq). cbn [queues upd_queues].
  (* where a node is now *)
  assert (∀ m h e, inq Q m h → evts t !! m = Some e →
    (h ≠ s ∧ inq (queues t) m h) ∨
    (inq (queues t) m s ∧ h = slot_of (timer_jiffies t) (expires (node e)))) as Hnow.
  { intros m h e Hmh He. apply Hin in Hmh as [?|[? (e'&He'&->)]]; [by left|right].
    rewrite He in He'. by injection He' as <-. }
  split_and!; [|by eexists|done| |].
  - split; try apply Hi; [done| |].
    + intros m e He. destruct (ti_evts _ _ _ Hi m e He) as [[Hd Hmgr]|(h&Hh&Hhc&Hhq&Ha&Hp&Hdue)].
      * left. by rewrite Hnode.
      * right. destruct (decide (h = s)) as [->|Hhs].
        -- destruct (Hslot m e Hh He) as (k'&i&Hs&Hk&Hl&HE).
           exists (slot_of (timer_jiffies t) (expires (node e))).
           destruct (slot_of_ok (timer_jiffies t) (expires (node e)) Htj HE) as (Hp'&_&_&_).
           split_and!; [|by rewrite Hs|by rewrite Hs|done|done|].
           ++ apply Hin. right. split; [done|]. by exists e.
           ++ cbn [timer_jiffies upd_queues current]. rewrite Hdue. unfold due at 1, s.
              rewrite Hs in *. unfold due. rewrite Hl. done.
        -- exists h. split_and!; try done. apply Hin. by left.
    + intros m He. cbn [queues upd_queues]. rewrite Hnode. destruct (ti_none _ _ _ Hi m He) as [? Hno].
      split; [done|]. intros h [[_ Hh]|[Hh _]]%Hin; by eapply Hno.
  - intros m i e Hmi He. cbn [timer_jiffies upd_queues].
    destruct (Hnow m _ e Hmi He) as [[Hns Hold]|[Hold Heq]].
    + destruct (inq_armed _ _ _ _ _ Hi Hold) as (e'&He'&_&_&_&Hp&_).
      cbn [evts upd_queues] in He. rewrite He in He'. injection He' as <-.
      apply later_slot; [done|done|lia|done|]. intros ->. done.
    + destruct (Hslot m e Hold He) as (k'&i'&Hs&Hk&_). rewrite Hs in Heq. injection Heq as <- <-. lia.
  - intros k Hk m i e Hmi He. cbn [timer_jiffies upd_queues].
    destruct (Hnow m _ e Hmi He) as [[Hns Hold]|[Hold Heq]]; [by apply (Hk m)|].
    rewrite Heq. destruct (Hslot m e Hold He) as (_&_&_&_&_&HE). by apply slot_of_ok.
Qed.

Lemma width_succ k : 1 <= k <= 3 → width (k + 1) = 64 * width k.
Proof. intros. unfold width. replace (8 + 6 * (k + 1 - 1)) with (6 + (8 + 6 * (k - 1))) by lia. by rewrite Z.pow_add_r by lia. Qed.

Lemma width_pos k : 1 <= k → 0 < width k.
Proof. intros. unfold width. apply Z.pow_pos_nonneg; lia. Qed.

(** A time that is no start of a block of a vector is none of a block of a higher one. *)
Lemma level_later_higher B t k :
  TInv B 0 t → 1 <= k <= 4 → timer_jiffies t mod width k ≠ 0 → level_later t k.
Proof.
  intros Hi Hk Hm n i e Hn He. destruct (inq_armed _ _ _ _ _ Hi Hn) as (e'&He'&_&_&_&Hp&_).
  rewrite He in He'. injection He' as <-. apply later_other; [by eapply ti_range|done|done].
Qed.

Lemma mod_width_succ tj k : 1 <= k <= 3 → tj mod width k ≠ 0 → tj mod width (k + 1) ≠ 0.
Proof.
  intros Hk Hm Hc. apply Hm. rewrite width_succ in Hc by done. pose proof (width_pos k).
  apply Z.mod_divide in Hc; [|lia]. destruct Hc as [q ->]. 
  replace (q * (64 * width k)) with (q * 64 * width k) by lia. apply Z.mod_mul. lia.
Qed.

Lemma index_zero tj k :
  1 <= k <= 3 → tj mod width k = 0 → (tj / width k mod 64 = 0 ↔ tj mod width (k + 1) = 0).
Proof.
  intros Hk Hm. rewrite width_succ by done. pose proof (width_pos k).
  rewrite (Z.mul_comm 64), Z.rem_mul_r by lia. rewrite Hm. lia.
Qed.

Lemma later_above B t k j :
  TInv B 0 t → 1 <= k <= 3 → timer_jiffies t mod width (k + 1) ≠ 0 → k < j <= 4 → level_later t j.
Proof.
  intros Hi Hk Hm Hj. apply (level_later_higher B); [done|lia|].
  assert (∀ c : nat, k + 1 + Z.of_nat c <= 4 → timer_jiffies t mod width (k + 1 + Z.of_nat c) ≠ 0) as Hc.
  { induction c as [|c IH]; intros Hle; [by rewrite Z.add_0_r|].
    rewrite Nat2Z.inj_succ. replace (k + 1 + Z.succ (Z.of_nat c)) with (k + 1 + Z.of_nat c + 1) by lia.
    apply mod_width_succ; [lia|]. apply IH. lia. }
  replace j with (k + 1 + Z.of_nat (Z.to_nat (j - k - 1))) by lia. apply Hc. lia.
Qed.

Lemma cascade_from_ok B (c : nat) n t :
  TInv B 0 t → 0 <= n → n + Z.of_nat c = 4 → timer_jiffies t mod width (1 + n) = 0 →
  (∀ k, 1 <= k <= n → level_later t k) →
  safe (cascade_from (seqZ n (Z.of_nat c))) (λ _ t', TInv B 0 t' ∧ (∃ Q, t' = upd_queues (λ _, Q) t) ∧
    queues t' !! Queued = queues t !! Queued ∧ ∀ k, 1 <= k <= 4 → level_later t' k) t.
Proof.
  revert n t. induction c as [|c IH]; intros n t Hi Hn Hc Hm Hlow.
  { apply safe_ret. split_and!; [done|by exists (queues t); destruct t|done|]. intros k Hk. apply Hlow. lia. }
  rewrite seqZ_cons by lia. cbn [cascade_from]. apply safe_bind, safe_gets. cbv zeta.
  apply safe_bind. eapply safe_mono; [by apply (cascade_step B n); [|lia|]|].
  intros [] t1 (Hi1&(Q&Ht1)&Hq1&Hlev&Hkeep).
  assert (timer_jiffies t1 = timer_jiffies t) as Htj1 by by subst t1.
  assert (∀ k, 1 <= k <= n + 1 → level_later t1 k) as Hlow1.
  { intros k Hk. destruct (decide (k = 1 + n)) as [->|]; [done|]. apply Hkeep, Hlow. lia. }
  rewrite ITIMER_INDEX_div by lia. destruct (Z.eqb_spec (timer_jiffies t / width (1 + n) mod 64) 0) as [Hz|Hz].
  - replace (Z.pred (Z.of_nat (S c))) with (Z.of_nat c) by lia. destruct c as [|c'].
    { apply safe_ret. split_and!; [done|by exists Q|done|]. intros k Hk. apply Hlow1. lia. }
    eapply safe_mono.
    { apply IH; [exact Hi1|lia|lia| |].
      - rewrite Htj1. replace (1 + Z.succ n) with (1 + n + 1) by lia. apply index_zero; lia || done.
      - intros k Hk. apply Hlow1. lia. }
    intros [] t2 (Hi2&(Q2&->)&Hq2&Hlev2). split_and!; [done| |congruence|done].
    exists Q2. subst t1. reflexivity.
  - apply safe_ret. split_and!; [done|by exists Q|done|]. intros k Hk.
    destruct (decide (k <= n + 1)); [apply Hlow1; lia|].
    apply (later_above B _ (1 + n)); [done|lia| |lia].
    rewrite Htj1. rewrite <- index_zero by (lia || done). done.
Qed.

(** ** The start of a tick *)

Lemma update_begin_ok B t :
  TInv B 0 t →
  safe update_begin (λ _ t', TInv B 1 t' ∧ evts t' = evts t ∧ is_Some (queues t' !! Queued) ∧
    ∃ Q, t' = upd_queues (λ _, Q) (upd_timer_jiffies (λ j, u32 (j + 1)) t)) t.
Proof.
  intros Hi. pose proof (ti_range _ _ _ Hi) as Htj. pose proof (ti_wfq _ _ _ Hi) as Hwf.
  assert (∀ n, ¬ inq (queues t) n Queued) as Hnoq.
  { intros n Hq. destruct (inq_armed _ _ _ _ _ Hi Hq) as (?&_&_&_&Hd&_). by specialize (Hd eq_refl). }
  destruct (wfq_init (queues t) Queued Hwf Hnoq) as [HQ0 Hin0]; [done|].
  unfold update_begin. apply safe_bind, safe_gets. rewrite (proj1 (land_mask _)). cbv zeta.
  apply safe_bind, safe_modify.
  set (t0 := upd_queues <[Queued := []]> t).
  assert (TInv B 0 t0) as Hi0.
  { split; try apply Hi; [done| |].
    - intros n e He. destruct (ti_evts _ _ _ Hi n e He) as [[Hd ?]|(h&Hh&?)]; [left|right].
      + split; [|done]. cbn [queues t0 upd_queues]. by rewrite lookup_insert_ne.
      + exists h. split; [by apply Hin0|done].
    - intros n He. cbn [queues t0 upd_queues]. rewrite lookup_insert_ne by done.
      destruct (ti_none _ _ _ Hi n He) as [? Hno]. split; [done|]. intros h Hh%Hin0. by eapply Hno. }
  assert (safe (when timer_jiffies t mod 256 =? 0 then_ cascade_from [0; 1; 2; 3])
    (λ _ t', TInv B 0 t' ∧ (∃ Q, t' = upd_queues (λ _, Q) t) ∧
    queues t' !! Queued = Some [] ∧ ∀ k, 1 <= k <= 4 → level_later t' k) t0) as Hs.
  { destruct (Z.eqb_spec (timer_jiffies t mod 256) 0) as [Hz|Hz].
    - change [0; 1; 2; 3] with (seqZ 0 (Z.of_nat 4)). eapply safe_mono.
      { apply (cascade_from_ok B 4 0 t0); [done|lia|lia|exact Hz|lia]. }
      intros [] t' (?&(Q&->)&Hq&?). split_and!; [done|by exists Q| |done]. rewrite Hq.
      apply lookup_insert_eq.
    - apply safe_ret. split_and!; [done|by eexists|apply lookup_insert_eq|].
      intros k Hk. destruct (decide (k = 1)) as [->|].
      + by apply (level_later_higher B).
      + apply (later_above B _ 1); [done|lia| |lia]. apply mod_width_succ; [lia|done]. }
  apply safe_bind. eapply safe_mono; [exact Hs|]. clear Hs. intros [] t1 (Hi1&(Q1&Ht1)&Hq1&Hlev).
  apply safe_bind, safe_modify.
  set (index := timer_jiffies t mod 256).
  assert (timer_jiffies t1 = timer_jiffies t) as Htj1 by by subst t1.
  assert (0 <= index < 256) as Hindex by (apply Z.mod_pos_bound; lia).
  pose proof (ti_wfq _ _ _ Hi1) as Hwf1.
  destruct (wq_slots _ Hwf1 (Slot 0 index)) as [l Hl].
  { apply elem_of_slots. exists 0, index. cbn [Z.eqb]. split_and!; done || lia. }
  destruct (wfq_splice_init (queues t1) (Slot 0 index) Queued l []) as (Q2&HQ2&Hwf2&Hin2&Hsame2&Hs2&Hq2);
    [done..|].
  eapply safe_q_op; [exact HQ2|]. split_and!; [|by subst t1|by eexists|exists Q2; by subst t1].
  assert (∀ n h e, inq (queues t1) n h → evts t1 !! n = Some e →
    armed B n e ∧ h ≠ Cascaded ∧ h ≠ Queued ∧ place (timer_jiffies t) h (expires (node e)) ∧
    slap e = due 0 (timer_jiffies t) (current t) h (expires (node e))) as Hold.
  { intros n h e Hn He. destruct (inq_armed _ _ _ _ _ Hi1 Hn) as (e'&He'&Ha&Hc&Hq&Hp&Hdue).
    rewrite He in He'. injection He' as <-. rewrite Htj1 in *. subst t1.
    split_and!; try done. intros ->. by specialize (Hq eq_refl). }
  split; try apply Hi1.
  - done.
  - intros n e He. change (evts t1 !! n = Some e) in He.
    destruct (ti_evts _ _ _ Hi1 n e He) as [[Hd ?]|(h&Hh&_)]; [left|right].
    + split; [|done]. cbn [queues upd_queues]. by rewrite Hsame2.
    + destruct (Hold n h e Hh He) as (Ha&Hc&Hq&Hp&Hdue).
      cbn [queues upd_queues timer_jiffies upd_timer_jiffies current]. rewrite Htj1.
      destruct (decide (h = Slot 0 index)) as [->|Hne].
      * exists Queued. split_and!; [|done|done|done|done|].
        -- apply Hin2. right. done.
        -- rewrite Hdue. unfold due, left. cbn [Z.eqb]. subst t1. cbn [current upd_queues].
           unfold index. rewrite Zminus_mod_idemp_l, Z.sub_diag, Z.mod_0_l by lia. lia.
      * exists h. destruct h as [k i| | |m]; [|done|done|done].
        assert (later (timer_jiffies t) (Slot k i) (expires (node e))) as Hlater.
        { intros Hk0. rewrite <- Htj1. eapply Hlev; [|done|done|done].
          unfold place in Hp. rewrite (proj2 (Z.eqb_neq k 0)) in Hp by done. apply Hp. }
        assert (left (timer_jiffies t) (Slot k i) (expires (node e)) ≠ 0) as Hleft.
        { unfold left, later, place in *. destruct (Z.eqb_spec k 0) as [->|Hk0].
          - intros Hz. apply Hne. f_equal. unfold index. clear - Hz Hp Htj. dmlia.
          - specialize (Hlater Hk0). intros Hz. rewrite Hz in *. cbv zeta in Hp.
            destruct Hp as (Hk&_). pose proof (width_pos k). rewrite Z.add_0_r in Hlater.
            pose proof (Z.mul_div_le (timer_jiffies t) (width k)). lia. }
        destruct (place_next _ _ _ _ Htj Hp Hlater Hleft) as [Hp' Hl'].
        split_and!; [|done|done|done|done|].
        -- apply Hin2. by left.
        -- rewrite Hdue. unfold due. rewrite Hl'. subst t1. cbn [current upd_queues]. lia.
  - intros n He. change (evts t1 !! n = None) in He. destruct (ti_none _ _ _ Hi1 n He) as [Hd Hno].
    cbn [queues upd_queues]. rewrite Hsame2 by done. split; [done|].
    intros h [[_ Hh]|[_ Hh]]%Hin2; by eapply Hno.
  - destruct (ti_jiffies _ _ _ Hi1) as [Hj1 Hj2]. split; [done|].
    cbn [timer_jiffies upd_queues upd_timer_jiffies jiffies]. rewrite Hj2, Z.add_0_r. unfold u32.
    rewrite Zplus_mod_idemp_l. done.
Qed.
