(* ===== verification/Firing.v ===== *)
(** * Timers fire on time

    The events of Timer.v over the wheel of Wheel.v: a timer fires at its time and
    at every period after it, whatever the other timers are, and while the handlers
    register new ones. *)

From S2P Require Import Prelude Iqueue Timer Wheel.
From stdpp Require Import options.

(** ** Changing one event *)

Lemma TInv_change B d n e t t' :
  TInv B d t → wfq (queues t') → evts t' = <[n := e]> (evts t) →
  next_evt t <= next_evt t' → n < next_evt t' →
  timer_jiffies t' = timer_jiffies t → jiffies t' = jiffies t → interval t' = interval t →
  current t' = current t →
  (∀ m g, m ≠ n → inq (queues t') m g ↔ inq (queues t) m g) →
  (∀ m, m ≠ n → queues t' !! Node m = queues t !! Node m) →
  evt_ok B d t' n e → TInv B d t'.
Proof.
  intros Hi Hwf He Hne Hn Htj Hj Hiv Hc Hin Hnode Hok. split; try done.
  - intros m e'. rewrite He. destruct (decide (m = n)) as [->|Hm].
    + rewrite lookup_insert_eq. by intros [= <-].
    + rewrite lookup_insert_ne by done. intros Hm'.
      destruct (ti_evts _ _ _ Hi m e' Hm') as [[Hd ?]|(h&Hh&?)]; [left|right].
      * by rewrite Hnode.
      * exists h. rewrite Hin, Htj, Hc by done. done.
  - intros m. rewrite He. destruct (decide (m = n)) as [->|Hm]; [by rewrite lookup_insert_eq|].
    rewrite lookup_insert_ne by done. intros Hm'. destruct (ti_none _ _ _ Hi m Hm') as [? Hno].
    split; [by rewrite Hnode|]. intros h Hh%Hin; [by eapply Hno|done].
  - intros m Hm. rewrite He, lookup_insert_ne by lia. apply (ti_fresh _ _ _ Hi). lia.
  - rewrite Hj, Htj. apply Hi.
  - rewrite Hiv. apply Hi.
  - rewrite Hc. apply Hi.
  - apply Hi.
Qed.

(** The state with other queues, and another event [n]. *)
Definition with_evt (Q : gmap head (list head)) (n : Z) (e : itimer_evt) (t : Timers) : Timers :=
  upd_queues (λ _, Q) (upd_evts (λ _, <[n := e]> (evts t)) t).

Lemma with_evt_twice Q1 n e1 Q2 e2 t : with_evt Q2 n e2 (with_evt Q1 n e1 t) = with_evt Q2 n e2 t.
Proof. destruct t. unfold with_evt, upd_queues, upd_evts. simpl. by rewrite insert_insert_eq. Qed.

Lemma with_evt_insert Q n e f e0 t :
  with_evt Q n e (upd_queues f (upd_evts <[n := e0]> t)) = with_evt Q n e t.
Proof. destruct t. unfold with_evt, upd_queues, upd_evts. simpl. by rewrite insert_insert_eq. Qed.

(** Compute the fields of an event that is given by its fields. *)
Ltac red_evt :=
  cbn [upd_period upd_slap upd_repeat upd_running upd_evt_mgr upd_node upd_core upd_expires
       period slap repeat_ running evt_callback data user evt_mgr node
       expires node_state node_data node_callback node_core].

Lemma with_evt_evts Q n e t : evts (with_evt Q n e t) !! n = Some e.
Proof. apply lookup_insert_eq. Qed.

Lemma upd_evt_with n e0 f t :
  evts t !! n = Some e0 → upd_evt n f t = (Ok tt, with_evt (queues t) n (f e0) t).
Proof. intros He. unfold upd_evt, bind, get_evt. rewrite He. by destruct t. Qed.

Lemma safe_upd_with n e0 f t (P : unit → Timers → Prop) :
  evts t !! n = Some e0 → P tt (with_evt (queues t) n (f e0) t) → safe (upd_evt n f) P t.
Proof. intros He HP. unfold safe, wp. by rewrite (upd_evt_with n e0). Qed.

Lemma safe_upd_again Q n e f t (P : unit → Timers → Prop) :
  P tt (with_evt Q n (f e) t) → safe (upd_evt n f) P (with_evt Q n e t).
Proof.
  intros HP. eapply safe_upd_with; [apply with_evt_evts|]. by rewrite with_evt_twice.
Qed.

(** [Q'] is [Q] with the node [n], in no queue before, put in the queue of [h]. *)
Record put_node (n : Z) (h : head) (Q Q' : gmap head (list head)) : Prop := {
  pn_wfq : wfq Q';
  pn_here : inq Q' n h;
  pn_other : ∀ m g, m ≠ n → inq Q' m g ↔ inq Q m g;
  pn_node : ∀ m, m ≠ n → Q' !! Node m = Q !! Node m;
  pn_queued : Q' !! Queued = Q !! Queued;
}.

Definition added (exp : Z) (e : itimer_evt) : itimer_evt :=
  upd_node (λ n, upd_core (λ _, true) (upd_expires (λ _, exp) n)) e.

(** Adding a node that is in no queue. *)
Lemma safe_node_add n exp e t (P : unit → Timers → Prop) :
  wfq (queues t) → queues t !! Node n = Some [] → evts t !! n = Some e →
  node_state (node e) = ITIMER_NODE_STATE_OK → 0 <= timer_jiffies t < 2 ^ 32 → 0 <= exp < 2 ^ 32 →
  (∀ Q, put_node n (slot_of (timer_jiffies t) exp) (queues t) Q → P tt (with_evt Q n (added exp e) t)) →
  safe (itimer_node_add n exp) P t.
Proof.
  intros Hwf Hn He Hst Htj Hexp HP. unfold itimer_node_add, assert_ok, unlink_pending.
  apply safe_bind, safe_bind. eapply safe_get_evt; [exact He|]. rewrite Hst, Z.eqb_refl. apply safe_ret.
  apply safe_bind, safe_bind, safe_q_is_empty. rewrite Hn. apply safe_ret.
  apply safe_bind. eapply safe_upd_with; [exact He|]. unfold itimer_internal_add.
  apply safe_bind. eapply safe_get_evt; [apply with_evt_evts|]. apply safe_bind, safe_gets.
  set (e1 := upd_node _ e). change (expires (node e1)) with exp.
  change (timer_jiffies (with_evt _ _ _ t)) with (timer_jiffies t).
  set (h := slot_of (timer_jiffies t) exp).
  assert (h ∈ slots) as Hh by by apply slot_of_slots.
  destruct (wfq_add_tail (queues t) n h Hwf Hn) as (Q&HQ&Hwf'&Hin&Hsame&Hno&_).
  { by apply Hwf. }
  { intros m. by apply (slots_not_node h m). }
  destruct (slots_not_node h n Hh) as (_&_&Hhq).
  apply safe_bind. eapply safe_q_op; [exact HQ|].
  eapply (safe_upd_with n e1); [apply with_evt_evts|].
  change (upd_queues (λ _, Q) (with_evt (queues t) n e1 t)) with (with_evt Q n e1 t).
  rewrite with_evt_twice. apply HP. split.
  - done.
  - apply Hin. by right.
  - intros m g Hm. rewrite Hin. naive_solver.
  - intros m Hm. destruct (slots_not_node h m Hh) as (?&_). apply Hsame; congruence.
  - apply Hsame; congruence.
Qed.

(** An event whose time is [per] ticks away is armed when its node has been added. *)
Lemma armed_ok B d n per e t Q :
  TInv B d t → 0 <= d <= 1 → 0 < per <= B →
  node_state (node e) = ITIMER_NODE_STATE_OK → node_data (node e) = Some n →
  node_callback (node e) = true → evt_callback e = true → evt_mgr e = true → period e = per →
  slap e = current t + per →
  let exp := u32 (jiffies t + per) in
  inq Q n (slot_of (timer_jiffies t) exp) →
  evt_ok B d (with_evt Q n (added exp e) t) n (added exp e).
Proof.
  intros Hi Hd Hper Hst Hdata Hfn Hcb Hmgr Hpe Hslap exp HQ. right.
  pose proof (ti_range _ _ _ Hi) as Htj. destruct (ti_jiffies _ _ _ Hi) as [Hj Hjt].
  pose proof (ti_bound _ _ _ Hi) as HB.
  assert (0 <= exp < 2 ^ 32) as Hexp by apply u32_range.
  destruct (slot_of_ok (timer_jiffies t) exp Htj Hexp) as (Hp&_&Hl&Hs).
  exists (slot_of (timer_jiffies t) exp).
  destruct Hs as (k&i&Hs&_). split_and!; try (by rewrite Hs).
  - exact HQ.
  - split; try done. change (period (added exp e)) with (period e). by rewrite Hpe.
  - exact Hp.
  - assert (u32 (exp - timer_jiffies t) = per - d) as Hu.
    { rewrite Hjt. unfold exp, u32. rewrite <- Zminus_mod. 
      replace (jiffies t + per - (jiffies t + d)) with (per - d) by lia. apply Z.mod_small. lia. }
    rewrite Hu in Hl. rewrite (proj2 (Z.ltb_lt _ _)) in Hl by lia.
    change (slap (added exp e)) with (slap e). rewrite Hslap.
    change (expires (node (added exp e))) with exp.
    change (timer_jiffies (with_evt Q n (added exp e) t)) with (timer_jiffies t).
    change (current (with_evt Q n (added exp e) t)) with (current t).
    unfold due. rewrite Hs in *. lia.
Qed.

Lemma ticks_until_one per cur :
  0 <= per < 0x70000000 → 0 <= cur → cur + per < 2 ^ 32 → ticks_until (u32 (cur + per)) cur 1 = per.
Proof.
  intros Hp Hc Hs. unfold ticks_until. rewrite (u32_small (cur + per)) by lia.
  replace (cur + per - cur + 1 - 1) with per by lia. rewrite u32_small, Z.div_1_r by lia.
  by rewrite (proj2 (Z.leb_gt _ _)) by lia.
Qed.

(** ** Starting a timer *)

(** What [add_timer] makes of a new event. *)
Definition new_timer (t : Timers) (h per rep dd : Z) : itimer_evt :=
  added (u32 (jiffies t + per))
    (mkEvt per (current t + per) rep 0 true h dd true
       (mkNode 0 ITIMER_NODE_STATE_OK (Some (next_evt t)) true false)).

(** The new timer has an event and a number of its own. *)
Definition timer_added (h per rep dd : Z) (t t' : Timers) : Prop :=
  evts t' = <[next_evt t := new_timer t h per rep dd]> (evts t) ∧
  next_evt t' = next_evt t + 1 ∧ m_last_timer_id t' = m_last_timer_id t + 1 ∧
  queues t' !! Queued = queues t !! Queued ∧
  fired t' = fired t ∧ current t' = current t ∧ jiffies t' = jiffies t ∧ millisec t' = millisec t ∧
  timer_jiffies t' = timer_jiffies t ∧
  m_timer_evt_map t' =
    match m_timer_evt_map t !! u32 (m_last_timer_id t + 1) with
    | Some _ => m_timer_evt_map t
    | None => <[u32 (m_last_timer_id t + 1) := next_evt t]> (m_timer_evt_map t)
    end.

Lemma safe_checked {S} z (P : Z → S → Prop) s : - 2 ^ 31 <= z < 2 ^ 31 → P z s → safe (checked z) P s.
Proof.
  intros Hz HP. unfold checked, in_int. rewrite (proj2 (Z.leb_le _ _)), (proj2 (Z.ltb_lt _ _)) by lia.
  done.
Qed.

Lemma add_timer_ok B d t h per rep dd :
  TInv B d t → 0 <= d <= 1 → 0 < per * 1000 <= B → 0 <= m_last_timer_id t < 2 ^ 31 - 1 →
  safe (add_timer h per rep dd)
    (λ id t', id = m_last_timer_id t + 1 ∧ TInv B d t' ∧ timer_added h (per * 1000) rep dd t t') t.
Proof.
  intros Hi Hd Hper Hid. pose proof (ti_wfq _ _ _ Hi) as Hwf. set (n := next_evt t).
  assert (evts t !! n = None) as Hnone by (apply (ti_fresh _ _ _ Hi); lia).
  destruct (ti_none _ _ _ Hi n Hnone) as [Hn0 Hno].
  pose proof (ti_bound _ _ _ Hi) as HB. destruct (ti_current _ _ _ Hi) as [Hc0 Hc1].
  set (Q0 := <[Node n := []]> (queues t)).
  assert (wfq Q0 ∧ (∀ m g, inq Q0 m g ↔ inq (queues t) m g) ∧ Q0 !! Node n = Some [] ∧
    (∀ m, m ≠ n → Q0 !! Node m = queues t !! Node m) ∧ Q0 !! Queued = queues t !! Queued) as (Hwf0&Hin0&Hq0&Hnode0&Hqq0).
  { assert (∀ g, Q0 !! g = if decide (g = Node n) then Some [] else queues t !! g) as Hget.
    { intros g. unfold Q0. case_decide as Hg; [subst; apply lookup_insert_eq|]. by rewrite lookup_insert_ne. }
    assert (∀ m g, inq Q0 m g ↔ inq (queues t) m g) as Hin.
    { intros m g. unfold inq. setoid_rewrite Hget. case_decide as Hg; [subst g|done].
      split; [intros (?&[= <-]&Hx); by apply elem_of_nil in Hx|]. intros (l&Hl&_). by rewrite Hn0 in Hl. }
    split_and!; [|done|by rewrite Hget, decide_True| |by rewrite Hget].
    2:{ intros m Hm. rewrite Hget. by rewrite decide_False by congruence. }
    split.
    - split.
      + intros g l. rewrite Hget. case_decide; [intros [= <-]; constructor|apply Hwf].
      + intros g1 g2 k1 k2 x. rewrite !Hget.
        case_decide; [intros [= <-] _ Hx; by apply elem_of_nil in Hx|].
        case_decide; [intros _ [= <-] _ Hx; by apply elem_of_nil in Hx|]. apply Hwf.
      + intros g k x. rewrite !Hget. case_decide; [intros [= <-] Hx; by apply elem_of_nil in Hx|].
        intros Hg Hx. destruct (wq_elems _ Hwf _ _ _ Hg Hx) as [m ->].
        rewrite decide_False; [by eapply Hwf|]. intros [= ->]. apply (Hno g). by exists k.
    - intros g Hg. rewrite Hget. case_decide; [by eexists|by apply Hwf].
    - intros g k x. rewrite Hget. case_decide; [intros [= <-] Hx; by apply elem_of_nil in Hx|apply Hwf].
    - intros m k. rewrite Hget. case_decide; [by intros [= <-]|apply Hwf]. }
  unfold add_timer. apply safe_bind, safe_gets, safe_bind, safe_modify, safe_bind, safe_modify. fold n.
  set (t1 := upd_evts _ _).
  assert (evts t1 !! n = Some (mkEvt 0 0 0 0 false 0 0 false (mkNode 0 0 None false false))) as He1
    by apply lookup_insert_eq.
  (* the event is initialised *)
  unfold itimer_evt_init, itimer_node_init, q_init. apply safe_bind, safe_bind, safe_bind, safe_modify.
  eapply safe_upd_with; [exact He1|]. apply safe_upd_again. red_evt.
  apply safe_bind, safe_checked; [lia|]. rewrite (u32_small (per * 1000)) by lia.
  unfold t1 at 2. rewrite with_evt_insert. cbn [queues upd_queues].
  change (<[Node n := []]> (queues t1)) with Q0. clear He1 t1.
  (* and started *)
  unfold itimer_evt_start. apply safe_bind, safe_bind, safe_gets.
  apply safe_bind. eapply safe_get_evt; [apply with_evt_evts|]. cbn [evt_mgr].
  apply safe_bind, safe_ret.
  apply safe_bind. apply safe_upd_again. red_evt.
  apply safe_bind. apply safe_upd_again. red_evt.
  apply safe_bind, safe_gets. cbn [current with_evt upd_queues upd_evts upd_next_evt].
  assert (u32 (current t + per * 1000) = current t + per * 1000) as Hsl by (apply u32_small; lia).
  apply safe_bind. apply safe_upd_again. red_evt.
  apply safe_bind. apply safe_upd_again. red_evt.
  apply safe_bind, safe_gets. cbn [jiffies with_evt upd_queues upd_evts upd_next_evt queues interval].
  rewrite (ti_interval _ _ _ Hi), ticks_until_one, Hsl by lia.
  set (e2 := mkEvt (per * 1000) (current t + per * 1000) rep 0 true h dd true
               (mkNode 0 ITIMER_NODE_STATE_OK (Some n) true false)).
  apply safe_bind. eapply (safe_node_add n _ e2);
    [done|done|apply with_evt_evts|done|by apply (ti_range _ _ _ Hi)|apply u32_range|].
  intros Q HQ. rewrite with_evt_twice. apply safe_upd_again.
  change (upd_running (λ _, 0) (added (u32 (jiffies t + per * 1000)) e2)) with (new_timer t h (per * 1000) rep dd).
  change (put_node n (slot_of (timer_jiffies t) (u32 (jiffies t + per * 1000))) Q0 Q) in HQ.
  destruct HQ as [HQ1 HQ2 HQ3 HQ4 HQ5].
  apply safe_bind, safe_gets. apply safe_bind, safe_checked; [cbn; lia|].
  cbn [m_last_timer_id with_evt upd_queues upd_evts upd_next_evt].
  rewrite (proj2 (Z.ltb_ge _ _)) by lia.
  apply safe_bind, safe_modify, safe_bind, safe_modify, safe_ret. split; [done|]. split.
  - assert (put_node n (slot_of (timer_jiffies t) (u32 (jiffies t + per * 1000))) (queues t) Q) as HQ.
    { split; [done|done| | |congruence].
      - intros m g Hm. by rewrite HQ3, Hin0.
      - intros m Hm. by rewrite HQ4, Hnode0. }
    eapply (TInv_change B d n (new_timer t h (per * 1000) rep dd)); try done; simpl; try lia.
    + intros m g Hm. by apply HQ.
    + intros m Hm. by apply HQ.
    + apply (armed_ok B d n (per * 1000) e2 t Q); done.
  - unfold timer_added. split_and!; try done. cbn. by rewrite HQ5.
Qed.

(** ** The handlers *)

(** Handlers that only register timers, with periods within the bound, and no more
    than [quota 0] in all: [quota k] bounds the registrations from the [k]-th call on. *)
Class Polite {H : Timeouts} (B : Z) : Type := {
  quota : nat → Z;
  quota_nonneg : ∀ k, 0 <= quota k;
  polite_quota : ∀ k h d, zlen (handle_timeout k h d) + quota (S k) <= quota k;
  polite_requests : ∀ k h d r, r ∈ handle_timeout k h d →
    ∃ h' per rep d', r = Add_timer h' per rep d' ∧ 0 < per * 1000 <= B;
}.

(** What a call of a handler leaves alone. *)
Record kept (t t' : Timers) : Prop := {
  kp_evts : ∀ m e, evts t !! m = Some e → evts t' !! m = Some e;
  kp_queued : queues t' !! Queued = queues t !! Queued;
  kp_fired : fired t' = fired t;
  kp_current : current t' = current t;
  kp_jiffies : jiffies t' = jiffies t;
  kp_millisec : millisec t' = millisec t;
  kp_timer_jiffies : timer_jiffies t' = timer_jiffies t;
}.

Lemma kept_refl t : kept t t.
Proof. by split. Qed.

Lemma kept_trans t1 t2 t3 : kept t1 t2 → kept t2 t3 → kept t1 t3.
Proof. intros [] []. split; try congruence. auto. Qed.

Lemma timer_added_kept B d t t' h per rep dd : TInv B d t → timer_added h per rep dd t t' → kept t t'.
Proof.
  intros Hi (He&_&_&Hq&Hf&Hc&Hj&Hm&Htj&_). split; try done. intros m e Hm'.
  rewrite He, lookup_insert_ne; [done|]. intros Heq. by rewrite (ti_fresh _ _ _ Hi) in Hm' by lia.
Qed.

Section firing.
Context {H : Timeouts} (B : Z) {P : Polite B}.

(** The numbers of the timers do not run out. *)
Definition room (t : Timers) : Prop :=
  0 <= m_last_timer_id t ∧ m_last_timer_id t + quota (length (fired t)) < 2 ^ 31.

Lemma perform_ok l q t :
  (∀ r, r ∈ l → ∃ h per rep d, r = Add_timer h per rep d ∧ 0 < per * 1000 <= B) →
  TInv B 1 t → 0 <= q → 0 <= m_last_timer_id t → m_last_timer_id t + zlen l + q < 2 ^ 31 →
  safe (iter perform l) (λ _ t', TInv B 1 t' ∧ kept t t' ∧ 0 <= m_last_timer_id t' ∧
    m_last_timer_id t' + q < 2 ^ 31) t.
Proof.
  revert t. induction l as [|r l IH]; intros t Hl Hi Hq H0 Hlast; cbn [iter].
  { apply safe_ret. split_and!; [done|apply kept_refl|done|]. revert Hlast. zlia. }
  destruct (Hl r) as (h&per&rep&d&->&Hper); [by left|]. cbn [perform].
  rewrite zlen_cons in Hlast. pose proof (zlen_nonneg l).
  apply safe_bind, safe_bind. eapply safe_mono; [apply (add_timer_ok B 1); [done|lia|done|lia]|].
  intros id t1 (_&Hi1&Hadd). apply safe_ret. pose proof (timer_added_kept _ _ _ _ _ _ _ _ Hi Hadd) as Hk.
  destruct Hadd as (_&_&Hid&_). eapply safe_mono.
  { apply IH; [|done|done|lia|lia]. intros r Hr. apply Hl. by right. }
  intros [] t2 (?&?&?&?). split_and!; try done. by eapply kept_trans.
Qed.

Lemma evt_timer_cb_ok p h d t :
  TInv B 1 t → room t →
  safe (evt_timer_cb p h d) (λ _ t', TInv B 1 t' ∧ room t' ∧
    kept (upd_fired (λ l, l ++ [(p, current t)]) t) t') t.
Proof.
  intros Hi [Hr0 Hr]. unfold evt_timer_cb. do 2 apply safe_bind, safe_gets. apply safe_bind, safe_modify.
  set (t1 := upd_fired _ t).
  assert (length (fired t1) = S (length (fired t))) as Hlen.
  { cbn. rewrite length_app. simpl. lia. }
  eapply safe_mono.
  { apply (perform_ok _ (quota (length (fired t1)))).
    - intros r Hr'. by eapply polite_requests.
    - split; apply Hi.
    - apply quota_nonneg.
    - exact Hr0.
    - rewrite Hlen. pose proof (polite_quota (length (fired t)) h d).
      change (m_last_timer_id t1) with (m_last_timer_id t). lia. }
  intros [] t2 (?&Hk&?&?). split_and!; [done| |done]. split; [done|].
  by rewrite (kp_fired _ _ Hk).
Qed.

(** ** One callback *)

(** [slap] and [repeat] after a firing. *)
Definition advance (e : itimer_evt) : itimer_evt :=
  upd_repeat (λ r, if 1 <? r then r - 1 else r) (upd_slap (λ s, s + period e) e).

(** The loop that counts the periods that have passed: one, when the event is on time. *)
Lemma count_loop_ok Q n e t :
  slap e = current t → 0 < period e → current t + period e < 2 ^ 32 → 0 <= current t →
  safe (while 32 (count_step n (current t)) 0)
    (λ r t', r = (1, repeat_ e =? 1) ∧ t' = with_evt Q n (advance e) t) (with_evt Q n e t).
Proof.
  intros Hs Hp Hc H0. set (t0 := with_evt Q n e t). set (t1 := with_evt Q n (advance e) t).
  eapply (safe_while 32 _
    (λ a s, (a = 0 ∧ s = t0) ∨ (a = 1 ∧ s = t1 ∧ repeat_ e ≠ 1)) (λ a _, 1 - a)); [|by left|lia].
  intros a s [[-> ->]|(->&->&Hr)]; unfold count_step; apply safe_bind.
  - eapply safe_get_evt; [apply with_evt_evts|]. rewrite Hs, Z.leb_refl.
    apply safe_bind, safe_checked; [lia|]. apply safe_bind, safe_upd_again.
    assert (upd_slap (λ s, u32 (s + period e)) e = upd_slap (λ s, s + period e) e) as ->.
    { unfold upd_slap. rewrite Hs, u32_small by lia. done. }
    destruct (Z.eqb_spec (repeat_ e) 1) as [H1|H1].
    + apply safe_ret. split; [done|]. unfold t1, advance, upd_repeat, upd_slap. cbn. by rewrite H1.
    + apply safe_bind. destruct (1 <? repeat_ e) eqn:Hrep.
      * apply safe_upd_again, safe_ret. split; [|lia]. right. split_and!; [done| |done].
        unfold t1, advance, upd_repeat, upd_slap. cbn. by rewrite Hrep.
      * apply safe_ret, safe_ret. split; [|lia]. right. split_and!; [done| |done].
        unfold t1, advance, upd_repeat, upd_slap. cbn. by rewrite Hrep.
  - eapply safe_get_evt; [apply with_evt_evts|].
    change (slap (advance e)) with (slap e + period e).
    rewrite (proj2 (Z.leb_gt _ _)) by lia.
    apply safe_ret. by rewrite (proj2 (Z.eqb_neq _ _)).
Qed.

(** What a firing makes of an event. *)
Definition after_fire (e e' : itimer_evt) : Prop :=
  period e' = period e ∧ slap e' = slap e + period e ∧
  repeat_ e' = (if 1 <? repeat_ e then repeat_ e - 1 else repeat_ e) ∧
  evt_mgr e' = negb (repeat_ e =? 1).

(** [t'] is [t] after a call for the event [n], which has become [e']. *)
Record one_firing (n : Z) (e' : itimer_evt) (t t' : Timers) : Prop := {
  of_fired : fired t' = fired t ++ [(n, current t)];
  of_evt : evts t' !! n = Some e';
  of_others : ∀ m e, m ≠ n → evts t !! m = Some e → evts t' !! m = Some e;
  of_current : current t' = current t;
  of_jiffies : jiffies t' = jiffies t;
  of_millisec : millisec t' = millisec t;
  of_timer_jiffies : timer_jiffies t' = timer_jiffies t;
}.

(** The callback after the event has been counted: its calls, when it is again in
    the wheel or stopped. *)
Lemma call_loop_ok n e t :
  TInv B 1 t → room t → evts t !! n = Some e → evt_callback e = true →
  safe (do_ upd_evt n (upd_running (λ _, 1));
        do_ call_loop n 1;
        upd_evt n (upd_running (λ _, 0)))
    (λ _ t', TInv B 1 t' ∧ room t' ∧ queues t' !! Queued = queues t !! Queued ∧
       one_firing n (upd_running (λ _, 0) e) t t') t.
Proof.
  intros Hi Hr He Hcb.
  assert (∀ r Q t, TInv B 1 t → evts t !! n = Some Q → TInv B 1 (with_evt (queues t) n (upd_running r Q) t)) as Hrun.
  { clear - H. intros r e t Hi He. eapply (TInv_change B 1 n _ t); try done.
    - apply Hi.
    - change (n < next_evt t). destruct (decide (n < next_evt t)); [done|]. rewrite (ti_fresh _ _ _ Hi n) in He by lia. done.
    - destruct (ti_evts _ _ _ Hi n e He) as [[? ?]|(h&?&?&?&[]&?&?)]; [by left|right].
      exists h. split_and!; done. }
  apply safe_bind. eapply safe_upd_with; [exact He|]. set (e1 := upd_running (λ _, 1) e).
  set (t1 := with_evt (queues t) n e1 t).
  assert (TInv B 1 t1) as Hi1 by by apply Hrun.
  apply safe_bind. cbn [call_loop]. apply safe_bind. eapply safe_get_evt; [apply with_evt_evts|].
  change (evt_callback e1) with (evt_callback e). rewrite Hcb. cbn [running e1 upd_running].
  apply safe_bind. eapply safe_mono; [by apply evt_timer_cb_ok|].
  intros [] t2 (Hi2&Hr2&Hk2). apply safe_ret.
  assert (evts t2 !! n = Some e1) as He2 by (apply Hk2, with_evt_evts).
  eapply safe_upd_with; [exact He2|].
  change (upd_running (λ _, 0) e1) with (upd_running (λ _, 0) e). split_and!.
  - apply (Hrun (λ _, 0) e1 t2 Hi2 He2).
  - exact Hr2.
  - exact (kp_queued _ _ Hk2).
  - destruct Hk2 as [Hk1 Hk2 Hk3 Hk4 Hk5 Hk6 Hk7]. split; try done.
    + apply with_evt_evts.
    + intros m e' Hm He'. cbn. rewrite lookup_insert_ne by done. apply Hk1.
      cbn. by rewrite lookup_insert_ne.
Qed.

(** The end of [itimer_evt_cb], when the event is to be called once. *)
Lemma run_node_ok n l t :
  TInv B 1 t → room t → queues t !! Queued = Some (Node n :: l) →
  safe (run_node n) (λ _ t', TInv B 1 t' ∧ room t' ∧ queues t' !! Queued = Some l ∧
    ∃ e e', evts t !! n = Some e ∧ evt_mgr e = true ∧ slap e = current t ∧ after_fire e e' ∧
      one_firing n e' t t') t.
Proof.
  intros Hi Hr Hl. pose proof (ti_wfq _ _ _ Hi) as Hwf. pose proof (ti_range _ _ _ Hi) as Htj.
  assert (inq (queues t) n Queued) as Hn by (eexists; split; [done|by left]).
  destruct (inq_armed _ _ _ _ _ Hi Hn) as (e&He&Ha&_&_&_&Hdue). cbn [due] in Hdue.
  destruct (ti_current _ _ _ Hi) as [Hc0 Hc1]. pose proof (ti_bound _ _ _ Hi) as HB.
  destruct Ha as [Hst Hdata Hfn Hcore Hcb Hmgr Hexp Hper].
  destruct (wfq_del_init (queues t) n Queued Hwf Hn) as (HQ1&Hin1&Hsame1&Hn1&Hl1).
  set (Q1 := iq_del_init (Node n) (queues t)) in *. specialize (Hl1 _ Hl).
  assert (Q1 !! Queued = Some l) as HQl.
  { rewrite Hl1. unfold without. rewrite filter_cons_False by (intros []; done). f_equal. apply without_other.
    pose proof (dq_nodup _ (wq_disjoint _ Hwf) _ _ Hl) as Hnd. by apply list.NoDup_cons in Hnd as [? _]. }
  unfold run_node. apply safe_bind. eapply safe_get_evt; [exact He|]. rewrite Hdata, Hfn. cbv zeta.
  apply safe_bind, safe_q_del_init; [by eapply inq_attached|]. fold Q1.
  apply safe_bind. eapply safe_upd_with; [exact He|]. cbn [queues upd_queues].
  set (e1 := upd_node _ e).
  change (with_evt Q1 n e1 (upd_queues (λ _, Q1) t)) with (with_evt Q1 n e1 t).
  unfold itimer_evt_cb. apply safe_bind. eapply safe_get_evt; [apply with_evt_evts|].
  change (evt_mgr e1) with (evt_mgr e). rewrite Hmgr. cbn [negb].
  apply safe_bind, safe_gets. change (current (with_evt Q1 n e1 t)) with (current t).
  apply safe_bind. eapply safe_mono.
  { apply (count_loop_ok Q1 n e1 t); [exact Hdue|apply Hper| |done]. change (period e1) with (period e). lia. }
  intros r t1 [-> ->]. set (e2 := advance e1). change (repeat_ e1) with (repeat_ e).
  change (Z.to_nat 1) with 1%nat.
  (* the event is put back, or stopped *)
  assert (n < next_evt t) as Hfresh.
  { destruct (decide (n < next_evt t)); [done|]. by rewrite (ti_fresh _ _ _ Hi n) in He by lia. }
  assert (safe
    (if repeat_ e =? 1 then itimer_evt_stop n
     else
       do ivl <- gets interval;
       do e <- get_evt n;
       do j <- gets jiffies;
       itimer_node_add n (u32 (j + ticks_until (slap e) (current t) ivl)))
    (λ _ t', ∃ Q e', t' = with_evt Q n e' t ∧ TInv B 1 t' ∧ Q !! Queued = Some l ∧
       evt_callback e' = true ∧ after_fire e e') (with_evt Q1 n e2 t)) as Hput.
  { destruct (Z.eqb_spec (repeat_ e) 1) as [Hone|Hone].
    - unfold itimer_evt_stop. apply safe_bind. eapply safe_get_evt; [apply with_evt_evts|].
      change (evt_mgr e2) with (evt_mgr e). rewrite Hmgr. apply safe_bind, safe_bind.
      unfold itimer_node_del, assert_ok. apply safe_bind, safe_bind. eapply safe_get_evt; [apply with_evt_evts|].
      change (node_state (node e2)) with (node_state (node e)). rewrite Hst, Z.eqb_refl. apply safe_ret.
      apply safe_bind, safe_q_is_empty. cbn [queues with_evt upd_queues]. rewrite Hn1.
      apply safe_ret. apply safe_upd_again, safe_upd_again.
      eexists Q1, _. split; [reflexivity|]. split_and!; [|done|done|].
      + eapply (TInv_change B 1 n _ t); try done.
        * intros m g Hm. cbn. rewrite Hin1. naive_solver.
        * intros m Hm. cbn. apply Hsame1; congruence.
        * left. split; [exact Hn1|done].
      + split_and!; [done|done|done|]. cbn. by rewrite Hone.
    - apply safe_bind, safe_gets, safe_bind. eapply safe_get_evt; [apply with_evt_evts|].
      apply safe_bind, safe_gets.
      change (interval (with_evt Q1 n e2 t)) with (interval t). rewrite (ti_interval _ _ _ Hi).
      change (jiffies (with_evt Q1 n e2 t)) with (jiffies t).
      change (slap e2) with (slap e + period e). rewrite Hdue.
      rewrite <- (u32_small (current t + period e)) by lia. rewrite ticks_until_one by lia.
      eapply (safe_node_add n _ e2); [done|exact Hn1|apply with_evt_evts|done|done|apply u32_range|].
      intros Q HQ. rewrite with_evt_twice.
      change (put_node n (slot_of (timer_jiffies t) (u32 (jiffies t + period e))) Q1 Q) in HQ.
      eexists Q, _. split; [reflexivity|]. split_and!; [|by rewrite (pn_queued _ _ _ _ HQ)|done|].
      + eapply (TInv_change B 1 n _ t); try done.
        * apply HQ.
        * intros m g Hm. cbn. rewrite (pn_other _ _ _ _ HQ) by done. rewrite Hin1. naive_solver.
        * intros m Hm. cbn. rewrite (pn_node _ _ _ _ HQ) by done. apply Hsame1; congruence.
        * apply (armed_ok B 1 n (period e) e2 t Q); try done.
          -- change (slap e2) with (slap e + period e). lia.
          -- apply HQ.
      + split_and!; [done|done|done|]. by rewrite (proj2 (Z.eqb_neq _ _)). }
  apply safe_bind. eapply safe_mono; [exact Hput|]. clear Hput.
  intros [] t2 (Q&e'&->&Hi2&HQq&Hcb'&Hafter).
  eapply safe_mono; [apply (call_loop_ok n e'); [done|done|apply with_evt_evts|done]|].
  intros [] t3 (Hi3&Hr3&Hq3&Hf). split_and!; [done|done|by rewrite Hq3|].
  exists e, (upd_running (λ _, 0) e'). split_and!; [done..| |].
  - destruct Hafter as (?&?&?&?). done.
  - destruct Hf as [Hf1 Hf2 Hf3 Hf4 Hf5 Hf6 Hf7]. split; try done.
    intros m e0 Hm He0. apply Hf3; [done|]. cbn. by rewrite lookup_insert_ne.
Qed.
(** ** A tick *)

(** The times at which the event [n] was called. *)
Definition times (n : Z) (l : list (Z * Z)) : list Z := snd <$> filter (λ p, p.1 = n) l.

Lemma times_snoc n m c l : times n (l ++ [(m, c)]) = times n l ++ (if decide (m = n) then [c] else []).
Proof.
  unfold times. rewrite list.filter_app, fmap_app. f_equal. case_decide as Hm.
  - by rewrite filter_cons_True.
  - by rewrite filter_cons_False.
Qed.

(** An event is due when it is in the wheel and its time has come. *)
Definition is_due (cur : Z) (e : itimer_evt) : Prop := evt_mgr e = true ∧ slap e = cur.

(** What a tick at the time [cur] does to an event, and to its calls. *)
Definition ticked (cur n : Z) (t t' : Timers) : Prop :=
  ∀ e, evts t !! n = Some e →
    (¬ is_due cur e ∧ evts t' !! n = Some e ∧ times n (fired t') = times n (fired t)) ∨
    (is_due cur e ∧ ∃ e', evts t' !! n = Some e' ∧ after_fire e e' ∧
       times n (fired t') = times n (fired t) ++ [cur]).

Lemma left_nonneg tj k i E : 0 <= left tj (Slot k i) E.
Proof. unfold left. destruct (k =? 0); [apply Z.mod_pos_bound; lia|apply u32_range]. Qed.

(** While a tick runs: what is due and has not been called is in the local queue. *)
Definition ticking (n : Z) (t s : Timers) : Prop :=
  ∀ e, evts t !! n = Some e →
    (evts s !! n = Some e ∧ times n (fired s) = times n (fired t) ∧
       (is_due (current t) e → inq (queues s) n Queued)) ∨
    (is_due (current t) e ∧ ∃ e', evts s !! n = Some e' ∧ after_fire e e' ∧ slap e' ≠ current t ∧
       times n (fired s) = times n (fired t) ++ [current t]).

Lemma due_queued n t e :
  TInv B 1 t → evts t !! n = Some e → is_due (current t) e → inq (queues t) n Queued.
Proof.
  intros Hi He [Hm Hs]. destruct (ti_evts _ _ _ Hi n e He) as [[_ ?]|(h&Hh&_&_&_&Hp&Hdue)]; [congruence|].
  destruct h as [k i| | |m]; try done. exfalso. unfold due in Hdue. rewrite Hs in Hdue.
  pose proof (left_nonneg (timer_jiffies t) k i (expires (node e))). lia.
Qed.

(** The state after a tick and before the manager has counted it. *)
Definition tick_done (t s : Timers) : Prop :=
  TInv B 1 s ∧ room s ∧ queues s !! Queued = Some [] ∧ current s = current t ∧ jiffies s = jiffies t ∧
  millisec s = millisec t ∧ timer_jiffies s = u32 (timer_jiffies t + 1) ∧ ∀ n, ticked (current t) n t s.

Lemma update_step_ok t :
  TInv B 0 t → room t → safe update_step (λ _ s, tick_done t s) t.
Proof.
  intros Hi Hr. unfold update_step. apply safe_bind.
  eapply safe_mono; [by apply (update_begin_ok B)|]. intros [] t1 (Hi1&He1&[l Hq]&Q&Ht1).
  destruct (ti_current _ _ _ Hi) as [Hc0 Hc1].
  assert (current t1 = current t ∧ jiffies t1 = jiffies t ∧ millisec t1 = millisec t ∧ fired t1 = fired t ∧
    m_last_timer_id t1 = m_last_timer_id t ∧ timer_jiffies t1 = u32 (timer_jiffies t + 1)) as (Hcur&Hj&Hm&Hf&Hl&Htj)
    by by subst t1.
  clear Ht1.
  eapply (safe_drain Queued run_node (λ s, TInv B 1 s ∧ room s ∧ current s = current t ∧ jiffies s = jiffies t ∧
    millisec s = millisec t ∧ timer_jiffies s = u32 (timer_jiffies t + 1) ∧ ∀ n, ticking n t s)); [| | | |exact Hq].
  - intros m l' s (His&Hrs&Hcs&Hjs&Hms&Hts&Htick) Hql.
    eapply safe_mono; [by apply run_node_ok|].
    intros [] s' (His'&Hrs'&Hq'&em&em'&Hem&Hmgr&Hslap&Haf&[Hf1 Hf2 Hf3 Hf4 Hf5 Hf6 Hf7]).
    split; [|done]. split_and!; try congruence; try done.
    intros n e He. destruct (decide (n = m)) as [->|Hnm].
    + right. destruct (Htick m e He) as [(Hsame&Ht&_)|(_&e'&He'&_&Hne&_)]; [|congruence].
      rewrite Hem in Hsame. injection Hsame as ->. split; [split; congruence|].
      exists em'. split_and!; [done|done| |].
      * destruct Haf as (_&->&_). destruct (ti_evts _ _ _ His m e Hem) as [[_ ?]|(?&_&_&_&[]&_)]; [congruence|].
        lia.
      * rewrite Hf1, times_snoc, decide_True by done. congruence.
    + assert (times n (fired s') = times n (fired s)) as Htimes.
      { rewrite Hf1, times_snoc, decide_False by done. by rewrite app_nil_r. }
      rewrite Hcs in *.
      destruct (Htick n e He) as [(Hsame&Ht&Hdue)|(Hd&e'&He'&?&?&?)]; [left|right].
      * split_and!; [by apply Hf3|congruence|]. intros Hd. destruct (Hdue Hd) as (k&Hk&Hin).
        rewrite Hql in Hk. injection Hk as <-. exists l'. split; [done|].
        apply elem_of_cons in Hin as [[= ->]|Hin]; done.
      * split; [done|]. exists e'. split_and!; [by apply Hf3|done|done|congruence].
  - intros s (His&Hrs&Hcs&Hjs&Hms&Hts&Htick) Hql. split_and!; try done.
    intros n e He. destruct (Htick n e He) as [(Hsame&Ht&Hdue)|(Hd&e'&He'&?&?&?)]; [left|right].
    + split_and!; [|done|done]. intros Hd. destruct (Hdue Hd) as (k&Hk&Hin).
      rewrite Hql in Hk. injection Hk as <-. by apply elem_of_nil in Hin.
    + split; [done|]. by exists e'.
  - intros s l' x (His&_). apply (ti_wfq _ _ _ His).
  - split_and!; try done.
    + split; [rewrite Hl; apply Hr|rewrite Hl, Hf; apply Hr].
    + intros n e He. left. rewrite He1, Hf. split_and!; [done|done|]. intros Hd.
      apply (due_queued n t1 e); [done|by rewrite He1|by rewrite Hcur].
Qed.
End firing.
