(* ===== verification/Clock.v ===== *)
(** * The clock of the timers

    The manager of Timer.v over the ticks of Firing.v: [itimer_mgr_run] runs as many
    ticks as milliseconds have passed, and the timers are called on schedule. *)

From S2P Require Import Prelude Iqueue Timer Wheel Firing.
From stdpp Require Import options.

(** ** Differences of 32-bit times *)

Lemma s32_range z : - 2 ^ 31 <= s32 z < 2 ^ 31.
Proof. unfold s32. pose proof (Z.mod_pos_bound (z + 2 ^ 31) (2 ^ 32)). lia. Qed.

(** Counting a tick brings the clock one tick closer. *)
Lemma behind_next a b : s32 (u32 (a - b)) ≠ - 2 ^ 31 → s32 (u32 (a - u32 (b + 1))) = s32 (u32 (a - b)) - 1.
Proof. unfold s32, u32. intros. dmlia. Qed.

Lemma behind_self a : s32 (u32 (a - a)) = 0.
Proof. by rewrite Z.sub_diag. Qed.

Lemma behind_none a b : 0 <= b < 2 ^ 32 → s32 (u32 (a - b)) = -1 → b = u32 (a + 1).
Proof. unfold s32, u32. intros. dmlia. Qed.

(** ** Schedules *)

(** The calls of a timer before the time [until]: from [slp] on, every [per] ticks,
    [rep] times if that is positive and without end if not. *)
Definition schedule (slp per rep until : Z) : list Z :=
  let n := Z.max 0 ((until - 1 - slp) / per + 1) in
  (λ i, slp + i * per) <$> seqZ 0 (if 0 <? rep then Z.min rep n else n).

(** The number of ticks that a run of the manager makes up for. *)
Definition ticks_due (ms last : Z) : Z :=
  let diff := s32 (u32 (ms - last)) in
  if (300064 <? diff) || (diff <? -300064) then 1 else Z.max 0 (diff + 1).

Lemma ticks_due_bound ms last : 0 <= ticks_due ms last <= 300065.
Proof. unfold ticks_due. destruct (Z.ltb_spec 300064 (s32 (u32 (ms - last)))), (Z.ltb_spec (s32 (u32 (ms - last))) (-300064)); simpl; lia. Qed.

(** The event [e], [m] calls after it was [e0], when the time is [cur]. *)
Record called (e0 : itimer_evt) (m : Z) (e : itimer_evt) (cur : Z) : Prop := {
  cl_count : 0 <= m;
  cl_period : period e = period e0;
  cl_slap : slap e = slap e0 + m * period e0;
  cl_last : m = 0 ∨ slap e - period e0 < cur;
  cl_on : evt_mgr e = true → cur <= slap e ∧
    repeat_ e = (if 0 <? repeat_ e0 then repeat_ e0 - m else repeat_ e0) ∧ (0 < repeat_ e0 → m < repeat_ e0);
  cl_off : evt_mgr e = false → 0 < m ∧ m = repeat_ e0;
}.

Lemma called_now e0 cur : evt_mgr e0 = true → cur <= slap e0 → called e0 0 e0 cur.
Proof.
  intros Hm Hs. split; try done; try lia; rewrite Hm; [intros _|done].
  split_and!; [done| |lia]. destruct (0 <? repeat_ e0); lia.
Qed.

Lemma called_idle e0 m e cur : called e0 m e cur → ¬ is_due cur e → called e0 m e (cur + 1).
Proof.
  intros [H1 H2 H3 H4 H5 H6] Hd. split; try done; [lia|]. intros Hm. destruct (H5 Hm) as (?&?&?).
  split_and!; try done. destruct (decide (slap e = cur)); [by destruct Hd|lia].
Qed.

Lemma called_fire e0 m e e' cur :
  called e0 m e cur → 0 < period e0 → is_due cur e → after_fire e e' → called e0 (m + 1) e' (cur + 1).
Proof.
  intros [H1 H2 H3 H4 H5 H6] Hp [Hm Hs] (Ha1&Ha2&Ha3&Ha4). destruct (H5 Hm) as (_&Hr&Hlt).
  rewrite Hr in Ha3, Ha4. split; try lia.
  - rewrite Ha4. intros Hone%negb_true_iff%Z.eqb_neq. split; [lia|].
    destruct (Z.ltb_spec 0 (repeat_ e0)).
    + specialize (Hlt ltac:(done)). rewrite (proj2 (Z.ltb_lt 1 _)) in Ha3 by lia. lia.
    + rewrite (proj2 (Z.ltb_ge 1 _)) in Ha3 by lia. lia.
  - rewrite Ha4. intros Hone%negb_false_iff%Z.eqb_eq. destruct (Z.ltb_spec 0 (repeat_ e0)); lia.
Qed.

(** The number of calls is that of the schedule. *)
Lemma called_schedule e0 m e cur :
  called e0 m e cur → 0 < period e0 →
  (λ i, slap e0 + i * period e0) <$> seqZ 0 m = schedule (slap e0) (period e0) (repeat_ e0) cur.
Proof.
  intros [H1 H2 H3 H4 H5 H6] Hp. unfold schedule. do 2 f_equal.
  set (q := (cur - 1 - slap e0) / period e0).
  assert (m = 0 ∨ m <= q + 1) as Hle.
  { destruct H4 as [->|H4]; [by left|right].
    assert (m - 1 <= q); [|lia]. apply Z.div_le_lower_bound; lia. }
  destruct (evt_mgr e) eqn:Hm.
  - destruct (H5 eq_refl) as (Hc&_&Hr).
    assert (q < m). { apply Z.div_lt_upper_bound; lia. }
    destruct (Z.ltb_spec 0 (repeat_ e0)); lia.
  - destruct (H6 eq_refl) as [Hm0 ->]. rewrite (proj2 (Z.ltb_lt 0 _)) by done. lia.
Qed.

Lemma seqZ_snoc {A} (f : Z → A) m : 0 <= m → f <$> seqZ 0 (m + 1) = (f <$> seqZ 0 m) ++ [f m].
Proof.
  intros. rewrite seqZ_app by lia. rewrite fmap_app. f_equal.
Qed.

(** ** One tick of the manager *)

Section clock.
Context {H : Timeouts} (B : Z) {P : Polite B}.

(** [s] is [t] one tick later. *)
Definition tick (t s : Timers) : Prop :=
  TInv B 0 s ∧ room B s ∧ current s = current t + 1 ∧ millisec s = u32 (millisec t + 1) ∧
  ∀ n, ticked (current t) n t s.

Lemma TInv_count t :
  TInv B 1 t → queues t !! Queued = Some [] → current t + 1 + B + 1 < 2 ^ 32 →
  TInv B 0 (upd_millisec (λ m, u32 (m + 1)) (upd_current (λ c, u32 (c + 1)) (upd_jiffies (λ j, u32 (j + 1)) t))).
Proof.
  intros Hi Hq Hc. destruct (ti_current _ _ _ Hi) as [Hc0 _]. pose proof (ti_bound _ _ _ Hi) as HB.
  destruct (ti_jiffies _ _ _ Hi) as [Hj Htj].
  split; try apply Hi; cbn [queues evts current jiffies timer_jiffies upd_millisec upd_current upd_jiffies].
  - intros n e He. destruct (ti_evts _ _ _ Hi n e He) as [Hd|(h&Hh&Hcas&_&Ha&Hp&Hdue)]; [by left|right].
    exists h. assert (h ≠ Queued) as Hne.
    { intros ->. destruct Hh as (l&Hl&Hin). rewrite Hq in Hl. injection Hl as <-. by apply elem_of_nil in Hin. }
    split_and!; try done. cbn [current timer_jiffies upd_millisec upd_current upd_jiffies].
    rewrite u32_small by lia. rewrite Hdue. destruct h; simpl; try lia; done.
  - split; [apply u32_range|]. rewrite Htj, Z.add_0_r. unfold u32. by rewrite Z.mod_mod.
  - rewrite u32_small by lia. lia.
Qed.

(** The update of the core: one iteration. *)
Lemma update_ok t :
  TInv B 0 t → room B t → safe (itimer_internal_update (jiffies t)) (λ _ s, tick_done B t s) t.
Proof using P.
  intros Hi Hr. destruct (ti_jiffies _ _ _ Hi) as [Hj Htj]. rewrite Z.add_0_r, u32_small in Htj by done.
  unfold itimer_internal_update.
  eapply (safe_while 32 _ (λ _ s, s = t ∨ tick_done B t s) (λ _ s, s32 (u32 (jiffies t - timer_jiffies s)) + 1));
    [|by left|rewrite Htj, behind_self; lia].
  assert (∀ s, timer_jiffies s = u32 (timer_jiffies t + 1) →
    s32 (u32 (jiffies t - timer_jiffies s)) = -1) as Hdone.
  { intros s ->. rewrite behind_next; rewrite Htj, behind_self; lia. }
  intros [] s [->|Hs]; apply safe_bind, safe_gets.
  - rewrite Htj, behind_self. apply safe_bind. eapply safe_mono; [by apply (update_step_ok B)|].
    intros [] s Hs. apply safe_ret. split; [by right|]. rewrite Hdone by apply Hs. lia.
  - rewrite Hdone by apply Hs. by apply safe_ret.
Qed.

Lemma tick_done_tick t s :
  TInv B 0 t → current t + 1 + B + 1 < 2 ^ 32 → tick_done B t s →
  tick t (upd_millisec (λ m, u32 (m + 1)) (upd_current (λ c, u32 (c + 1)) (upd_jiffies (λ j, u32 (j + 1)) s))).
Proof.
  intros Hi Hc (His&Hrs&Hqs&Hcs&Hjs&Hms&Hts&Htick). pose proof (ti_bound _ _ _ Hi).
  split_and!; [apply TInv_count; [done|done|by rewrite Hcs]|done| |by rewrite <- Hms|done].
  cbn [current upd_millisec upd_current upd_jiffies]. rewrite Hcs. apply u32_small. destruct (ti_current _ _ _ Hi). lia.
Qed.

Lemma mgr_step_ok t ms :
  TInv B 0 t → room B t → (0 <= s32 (u32 (ms - millisec t)) → current t + 1 + B + 1 < 2 ^ 32) →
  safe (mgr_step ms)
    (λ r s, if 0 <=? s32 (u32 (ms - millisec t)) then r = inl tt ∧ tick t s else r = inr tt ∧ s = t) t.
Proof using P.
  intros Hi Hr Hc. unfold mgr_step. apply safe_bind, safe_gets.
  destruct (Z.leb_spec 0 (s32 (u32 (ms - millisec t)))); [|by apply safe_ret].
  apply safe_bind, safe_gets, safe_bind. eapply safe_mono; [by apply update_ok|].
  intros [] s Hs. pose proof (proj1 Hs) as His.
  apply safe_bind, safe_modify, safe_bind, safe_gets.
  change (interval (upd_jiffies (λ j, u32 (j + 1)) s)) with (interval s). rewrite (ti_interval _ _ _ His).
  apply safe_bind, safe_modify, safe_bind, safe_modify, safe_ret. split; [done|]. apply tick_done_tick; auto.
Qed.

(** ** A run of the manager *)

(** The events of [t], a while later: a stopped event has not been called, another
    one as often as its schedule says. *)
Definition on_schedule (n : Z) (t s : Timers) : Prop :=
  ∀ e, evts t !! n = Some e →
    ∃ m e', evts s !! n = Some e' ∧
      times n (fired s) = times n (fired t) ++ ((λ i, slap e + i * period e) <$> seqZ 0 m) ∧
      if evt_mgr e then called e m e' (current s) else m = 0 ∧ e' = e.

(** [s] is [t], [k] ticks later. *)
Definition ticks (k : Z) (t s : Timers) : Prop :=
  TInv B 0 s ∧ room B s ∧ current s = current t + k ∧ ∀ n, on_schedule n t s.

Lemma armed_event t n e : TInv B 0 t → evts t !! n = Some e → evt_mgr e = true →
  0 < period e ∧ current t <= slap e.
Proof.
  intros Hi He Hm. destruct (ti_evts _ _ _ Hi n e He) as [[_ ?]|(h&_&_&Hq&[]&Hp&Hdue)]; [congruence|].
  split; [lia|]. rewrite Hdue. destruct h; unfold due; simpl; try lia.
  pose proof (left_nonneg (timer_jiffies t) k i (expires (node e))). unfold left in *. lia.
Qed.

Lemma ticks_0 t : TInv B 0 t → room B t → ticks 0 t t.
Proof.
  intros Hi Hr. split_and!; [done|done|lia|]. intros n e He. exists 0, e.
  split_and!; [done|by rewrite app_nil_r|]. destruct (evt_mgr e) eqn:Hm; [|done].
  apply called_now; [done|]. by destruct (armed_event _ _ _ Hi He Hm).
Qed.

Lemma ticks_succ k t s s' : TInv B 0 t → ticks k t s → tick s s' → ticks (k + 1) t s'.
Proof.
  intros Hi (_&_&Hc&Hon) (Hi'&Hr'&Hc'&_&Htick). split_and!; [done|done|lia|].
  intros n e He. destruct (Hon n e He) as (m&e1&He1&Ht&Hcall).
  destruct (Htick n e1 He1) as [(Hd&He'&Ht')|(Hd&e'&He'&Ha&Ht')].
  - exists m, e1. split_and!; [done|by rewrite Ht'|]. destruct (evt_mgr e); [|done].
    rewrite Hc'. by apply called_idle.
  - exists (m + 1), e'. destruct (evt_mgr e) eqn:Hm.
    + split_and!; [done| |].
      * rewrite Ht', Ht, <- app_assoc, seqZ_snoc by apply Hcall. do 2 f_equal.
        rewrite <- (cl_slap _ _ _ _ Hcall). by destruct Hd as [_ ->].
      * rewrite Hc'. eapply called_fire; [done| |done|done]. by destruct (armed_event _ _ _ Hi He Hm).
    + destruct Hcall as [_ ->]. destruct Hd. congruence.
Qed.

(** The calls after [k] ticks, by the schedule. *)
Lemma ticks_calls k t s n e :
  TInv B 0 t → ticks k t s → evts t !! n = Some e →
  times n (fired s) = times n (fired t) ++
    (if evt_mgr e then schedule (slap e) (period e) (repeat_ e) (current s) else []).
Proof.
  intros Hi (_&_&_&Hon) He. destruct (Hon n e He) as (m&e'&_&->&Hcall). f_equal.
  destruct (evt_mgr e) eqn:Hm; [|by destruct Hcall as [-> _]].
  eapply called_schedule; [done|]. by destruct (armed_event _ _ _ Hi He Hm).
Qed.

(** The counter of the manager after it has caught up with [ms]. *)
Definition caught_up (ms last : Z) : Z := if ticks_due ms last =? 0 then last else u32 (ms + 1).

Lemma mgr_loop_ok j0 t s0 ms :
  TInv B 0 t → ticks j0 t s0 →
  let k := Z.max 0 (s32 (u32 (ms - millisec s0)) + 1) in
  current s0 + k + B + 1 < 2 ^ 32 →
  safe (while 32 (λ _, mgr_step ms) tt)
    (λ _ s, ticks (j0 + k) t s ∧ millisec s = if k =? 0 then millisec s0 else u32 (ms + 1)) s0.
Proof using P.
  intros Hi Hs0 k Hc. pose proof (s32_range (u32 (ms - millisec s0))) as Hrange.
  eapply (safe_while 32 _
    (λ _ s, ∃ j, 0 <= j <= k ∧ ticks (j0 + j) t s ∧ current s = current s0 + j ∧
       s32 (u32 (ms - millisec s)) = s32 (u32 (ms - millisec s0)) - j ∧
       if j =? 0 then s = s0 else 0 <= millisec s < 2 ^ 32)
    (λ _ s, s32 (u32 (ms - millisec s)) + 1)); [| |lia].
  2:{ exists 0. rewrite Z.add_0_r. split_and!; [lia|lia|done|lia|lia|done]. }
  intros [] s (j&Hj&Hs&Hcs&Hb&Hm). pose proof Hs as (His&Hrs&_). eapply safe_mono.
  { apply mgr_step_ok; [done|done|]. rewrite Hcs. lia. }
  intros r s'. rewrite Hb. destruct (Z.leb_spec 0 (s32 (u32 (ms - millisec s0)) - j)) as [Hle|Hgt].
  - intros [-> Htick]. pose proof Htick as (_&_&Hc'&Hm'&_).
    assert (s32 (u32 (ms - millisec s')) = s32 (u32 (ms - millisec s0)) - (j + 1)) as Hb'.
    { rewrite Hm', behind_next; lia. }
    split; [|lia]. exists (j + 1). rewrite Z.add_assoc.
    split_and!; [lia|lia|by eapply ticks_succ|lia|done|].
    rewrite (proj2 (Z.eqb_neq (j + 1) 0)) by lia. rewrite Hm'. apply u32_range.
  - intros [-> ->]. assert (k = j) as Hk by lia. rewrite Hk. split; [done|].
    destruct (Z.eqb_spec j 0) as [Hj0|Hj0]; [by subst s|]. by apply behind_none; [|lia].
Qed.

Lemma itimer_mgr_run_ok j t s ms :
  TInv B 0 t → ticks j t s → current s + ticks_due ms (millisec s) + B + 1 < 2 ^ 32 →
  safe (itimer_mgr_run ms)
    (λ _ s', ticks (j + ticks_due ms (millisec s)) t s' ∧ millisec s' = caught_up ms (millisec s)) s.
Proof using P.
  intros Hi Hs. pose proof Hs as (His&Hrs&Hcs&Hon). unfold caught_up, ticks_due, itimer_mgr_run. intros Hc.
  apply safe_bind, safe_gets. rewrite (ti_interval _ _ _ His).
  change (s32 1 * 64) with 64. apply safe_bind, safe_checked; [lia|]. apply safe_bind, safe_gets.
  change (- ITIMER_MGR_LIMIT - 64) with (-300064). cbv zeta. change (ITIMER_MGR_LIMIT + 64) with 300064.
  do 2 (apply safe_bind, safe_checked; [lia|]). apply safe_bind.
  destruct (_ || _) eqn:Hjump.
  - apply safe_modify. set (s1 := upd_millisec (λ _, ms) s).
    assert (ticks j t s1) as Hs1 by (split_and!; [split; apply His|done..]).
    eapply safe_mono; [apply (mgr_loop_ok j t s1 ms Hi Hs1)|]; change (millisec s1) with ms; rewrite behind_self; done.
  - apply safe_ret. eapply safe_mono; [apply (mgr_loop_ok j t s ms Hi Hs); lia|done].
Qed.

(** ** A sequence of updates *)

(** The ticks of the updates at the times [l] in seconds. *)
Fixpoint update_ticks (l : list Z) (last : Z) : Z :=
  match l with
  | [] => 0
  | now :: l =>
      ticks_due (u32 (now * 1000)) last + update_ticks l (caught_up (u32 (now * 1000)) last)
  end.

Definition updates (l : list Z) : st Timers unit := iter (λ now, do _ <- update_timer now; ret tt) l.

Lemma update_ticks_nonneg l last : 0 <= update_ticks l last.
Proof.
  revert last. induction l as [|now l IH]; intros last; simpl; [lia|].
  pose proof (ticks_due_bound (u32 (now * 1000)) last). specialize (IH (caught_up (u32 (now * 1000)) last)). lia.
Qed.

Lemma updates_ok l j t s :
  TInv B 0 t → ticks j t s → current s + update_ticks l (millisec s) + B + 1 < 2 ^ 32 →
  safe (updates l) (λ _ s', ticks (j + update_ticks l (millisec s)) t s') s.
Proof using P.
  intros Hi. revert j s. induction l as [|now l IH]; intros j s Hs; cbn [update_ticks].
  { intros _. apply safe_ret. by rewrite Z.add_0_r. }
  intros Hc. pose proof (update_ticks_nonneg l (caught_up (u32 (now * 1000)) (millisec s))).
  unfold updates. cbn [iter]. unfold update_timer. apply safe_bind, safe_bind, safe_bind.
  eapply safe_mono; [apply (itimer_mgr_run_ok j t s); [done|done|lia]|].
  intros [] s1 [Hs1 Hm1]. do 2 apply safe_ret. rewrite Z.add_assoc, <- Hm1. apply IH; [done|].
  destruct Hs as (_&_&Hcs&_), Hs1 as (_&_&->&_). rewrite Hm1. lia.
Qed.
End clock.
