(* ===== verification/TimerMgr.v ===== *)
(** * The promises of the timer manager

    [CTimerWheelMgr] of Timer.v, as its clients see it: a new manager is well formed,
    a timer is called when its time comes, at every period and as often as was asked,
    and not after it was deleted. *)

From S2P Require Import Prelude Iqueue Timer Wheel Firing Clock.
From stdpp Require Import options.

(** ** A new manager *)

Lemma slots_NoDup : NoDup slots.
Proof. apply (bool_decide_unpack _). by vm_compute. Qed.

(** Heads that are initialised, one after the other. *)
Lemma iter_q_init l t :
  iter q_init l t = (Ok tt, upd_queues (λ Q, foldl (λ Q h, <[h := []]> Q) Q l) t).
Proof.
  revert t. induction l as [|h l IH]; intros t; [by destruct t|].
  cbn [iter]. unfold bind at 1. cbn [q_init modify]. rewrite IH. by destruct t.
Qed.

Lemma lookup_inits h l (Q : gmap head (list head)) :
  foldl (λ Q h, <[h := []]> Q) Q l !! h = if decide (h ∈ l) then Some [] else Q !! h.
Proof.
  revert Q. induction l as [|x l IH]; intros Q; cbn [foldl].
  { by rewrite decide_False by (by intros ?%elem_of_nil). }
  rewrite IH. destruct (decide (h ∈ l)) as [Hl|Hl].
  - by rewrite decide_True by by right.
  - destruct (decide (h = x)) as [->|Hx].
    + rewrite lookup_insert_eq, decide_True; [done|by left].
    + rewrite lookup_insert_ne, decide_False by (done || by intros [?|?]%elem_of_cons). done.
Qed.

(** A manager without timers at the time [cur]. *)
Record fresh_mgr (cur : Z) (t : Timers) : Prop := {
  fm_evts : evts t = ∅;
  fm_next : next_evt t = 1;
  fm_current : current t = cur;
  fm_millisec : millisec t = 0;
  fm_last : m_last_timer_id t = 0;
  fm_map : m_timer_evt_map t = ∅;
  fm_fired : fired t = [];
}.

Lemma new_CTimerWheelMgr_ok B now :
  0 <= B < 0x70000000 → u32 (now * 1000) + B + 1 < 2 ^ 32 →
  safe (new_CTimerWheelMgr now) (λ _ t, TInv B 0 t ∧ fresh_mgr (u32 (now * 1000)) t) empty_timers.
Proof.
  intros HB Hc. unfold new_CTimerWheelMgr, itimer_mgr_init, itimer_core_init.
  do 6 apply safe_bind, safe_modify. unfold safe, wp. rewrite iter_q_init. cbn [fst snd].
  set (t := upd_queues _ _).
  assert (∀ h, queues t !! h = if decide (h ∈ slots) then Some [] else None) as Hq.
  { intros h. rewrite <- (lookup_empty h). apply (lookup_inits h slots ∅). }
  assert (fresh_mgr (u32 (now * 1000)) t) as Hf by by split.
  assert (jiffies t = 0 ∧ timer_jiffies t = 0 ∧ interval t = 1) as (Hj&Htj&Hiv) by by split_and!.
  clearbody t. split; [|done]. destruct Hf as [He Hn Hcur _ _ _ _].
  assert (∀ h l, queues t !! h = Some l → l = []) as Hnil.
  { intros h l. rewrite Hq. destruct (decide _); [by intros [= <-]|done]. }
  assert (∀ h x l, queues t !! h = Some l → x ∉ l) as Hno.
  { intros h x l Hl. rewrite (Hnil _ _ Hl). apply not_elem_of_nil. }
  split.
  - split.
    + split.
      * intros h l Hl. rewrite (Hnil _ _ Hl). constructor.
      * intros g1 g2 k1 k2 x Hk _ Hx _. by destruct (Hno _ x _ Hk).
      * intros g k x Hk Hx. by destruct (Hno _ x _ Hk).
    + intros h Hh. rewrite Hq, decide_True by done. by eexists.
    + intros h l x Hl Hx. by destruct (Hno _ x _ Hl).
    + intros n l. apply Hnil.
  - intros n e. by rewrite He.
  - intros n _. split.
    + rewrite Hq, decide_False; [done|]. intros Hs. by destruct (slots_not_node _ n Hs).
    + intros h (l&Hl&Hx). by destruct (Hno _ (Node n) _ Hl).
  - intros n _. by rewrite He.
  - by rewrite Hj, Htj.
  - done.
  - rewrite Hcur. pose proof (u32_range (now * 1000)). lia.
  - done.
Qed.

(** ** Deleting a timer *)

(** What [del_timer] leaves of an event. *)
Definition deleted_evt : itimer_evt :=
  mkEvt 0 0 0 0 false 0 0 false (mkNode 0 ITIMER_NODE_STATE_BAD None false false).

Definition timer_deleted (n : Z) (t t' : Timers) : Prop := ∃ Q, t' = with_evt Q n deleted_evt t.

Lemma safe_assert_ok n e t (P : unit → Timers → Prop) :
  evts t !! n = Some e → node_state (node e) = ITIMER_NODE_STATE_OK → P tt t → safe (assert_ok n) P t.
Proof.
  intros He Hs HP. unfold assert_ok. apply safe_bind. eapply safe_get_evt; [exact He|].
  rewrite Hs. by apply safe_ret.
Qed.

Lemma del_timer_ok B t id n e :
  TInv B 0 t → m_timer_evt_map t !! u32 id = Some n → evts t !! n = Some e → evt_mgr e = true →
  safe (del_timer id) (λ r t', r = 0 ∧ TInv B 0 t' ∧ timer_deleted n t t') t.
Proof.
  intros Hi Hid He Hm. pose proof (ti_wfq _ _ _ Hi) as Hwf.
  destruct (ti_evts _ _ _ Hi n e He) as [[_ ?]|(h&Hh&_&_&[Hst Hdata Hfn Hcore Hcb _ Hexp Hper]&_)]; [congruence|].
  pose proof (inq_attached _ _ _ Hwf Hh) as Hatt.
  destruct (wfq_del_init (queues t) n h Hwf Hh) as (HQ1&Hin1&Hsame1&Hn1&_).
  set (Q1 := iq_del_init (Node n) (queues t)) in *.
  unfold del_timer. apply safe_bind, safe_gets. rewrite Hid.
  apply safe_bind. unfold itimer_evt_stop. apply safe_bind. eapply safe_get_evt; [exact He|]. rewrite Hm.
  apply safe_bind, safe_bind. unfold itimer_node_del. apply safe_bind. eapply safe_assert_ok; [done..|].
  apply safe_bind, safe_q_is_empty. rewrite Hatt. cbn [negb].
  apply safe_bind. eapply safe_get_evt; [exact He|]. rewrite Hcore. cbn [negb].
  apply safe_bind, safe_q_del_init; [done|]. fold Q1.
  apply safe_bind. eapply safe_upd_with; [exact He|]. cbn [queues upd_queues].
  change (with_evt Q1 n ?e (upd_queues (λ _, Q1) t)) with (with_evt Q1 n e t).
  apply safe_ret, safe_upd_again, safe_upd_again. red_evt.
  apply safe_bind. unfold itimer_evt_destroy, itimer_node_destroy. apply safe_bind, safe_bind.
  eapply safe_assert_ok; [apply with_evt_evts|done|].
  unfold unlink_pending. apply safe_bind, safe_bind, safe_q_is_empty.
  cbn [queues with_evt upd_queues]. rewrite Hn1. apply safe_ret.
  apply safe_upd_again, safe_upd_again, safe_ret. red_evt. split; [done|].
  split; [|by exists Q1]. eapply (TInv_change B 0 n _ t); try done.
  - change (n < next_evt t). destruct (decide (n < next_evt t)); [done|].
    rewrite (ti_fresh _ _ _ Hi n) in He by lia. done.
  - intros m g Hmn. cbn. rewrite Hin1. naive_solver.
  - intros m Hmn. cbn. destruct (decide (h = Node m)) as [->|]; [|by apply Hsame1; congruence].
    destruct Hh as (l&Hl&Hx). apply Hwf in Hl as ->. by apply elem_of_nil in Hx.
  - by left.
Qed.

(** ** What clients rely on *)

Section promises.
Context {H : Timeouts} (B : Z) {P : Polite B}.

(** Claim C6: the timer wheel - five vectors of slots, cascades and 32-bit
    counters that wrap around - is equivalent to a scan of all timers: the nodes that
    a tick takes out of the wheel are exactly those of the timers whose time is now,
    and no timer is changed. *)
Theorem tick_takes_the_due t :
  TInv B 0 t →
  ∃ t', update_begin t = (Ok tt, t') ∧ evts t' = evts t ∧
    ∀ n, inq (queues t') n Queued ↔ ∃ e, evts t !! n = Some e ∧ is_due (current t) e.
Proof.
  intros Hi. destruct (safe_inv _ _ _ (update_begin_ok B t Hi)) as ([]&t'&Hrun&Hi'&He&_&Q&Ht').
  exists t'. split_and!; [done|done|]. assert (current t' = current t) as Hc by by subst t'.
  intros n. split.
  - intros Hn. destruct (inq_armed _ _ _ _ _ Hi' Hn) as (e&He'&[]&_&_&_&Hdue).
    exists e. rewrite <- He. split; [done|]. split; [done|]. by rewrite Hdue.
  - intros (e&He'&Hd). eapply due_queued; [done|by rewrite He|by rewrite Hc].
Qed.

(** Claim C5: timers are called on time.  Over any sequence of updates, the manager
    runs without a fault, remains well formed, and calls every timer that is armed at
    its time, at every period after it and as many times as was asked, up to the
    present and no further; a stopped timer is not called. *)
Theorem timers_fire_on_time t l :
  TInv B 0 t → room B t → current t + update_ticks l (millisec t) + B + 1 < 2 ^ 32 →
  ∃ t', updates l t = (Ok tt, t') ∧ TInv B 0 t' ∧ room B t' ∧
    current t' = current t + update_ticks l (millisec t) ∧
    ∀ n e, evts t !! n = Some e →
      times n (fired t') = times n (fired t) ++
        (if evt_mgr e then schedule (slap e) (period e) (repeat_ e) (current t') else []).
Proof using P.
  intros Hi Hr Hc.
  destruct (safe_inv _ _ _ (updates_ok B l 0 t t Hi (ticks_0 B t Hi Hr) Hc)) as ([]&t'&Hrun&Hk).
  exists t'. pose proof Hk as (Hi'&Hr'&Hc'&_). split_and!; [done|done|done|lia|].
  intros n e He. by eapply ticks_calls.
Qed.

(** Claim C30: a timer added with a period of [per] seconds is called [per] seconds
    later and every [per] seconds from then on, [rep] times if that is positive and
    for ever if it is not. *)
Theorem added_timer_fires t h per rep d l :
  TInv B 0 t → 0 < per * 1000 <= B → 0 <= m_last_timer_id t →
  m_last_timer_id t + 1 + quota (length (fired t)) < 2 ^ 31 →
  current t + update_ticks l (millisec t) + B + 1 < 2 ^ 32 →
  ∃ t', (do id <- add_timer h per rep d; do_ updates l; ret id) t = (Ok (m_last_timer_id t + 1), t') ∧
    times (next_evt t) (fired t') = times (next_evt t) (fired t) ++
      schedule (current t + per * 1000) (per * 1000) rep (current t + update_ticks l (millisec t)).
Proof using P.
  intros Hi Hper H0 Hroom Hc. pose proof (quota_nonneg (length (fired t))).
  destruct (safe_inv _ _ _ (add_timer_ok B 0 t h per rep d Hi ltac:(lia) Hper ltac:(lia)))
    as (id&t1&Hrun&->&Hi1&He&_&Hid&_&Hf&Hcur&_&Hm&_).
  assert (room B t1) as Hr1 by (split; rewrite Hid, ?Hf; lia).
  rewrite <- Hcur, <- Hm in Hc |- *.
  destruct (safe_inv _ _ _ (updates_ok B l 0 t1 t1 Hi1 (ticks_0 B t1 Hi1 Hr1) Hc)) as ([]&t'&Hrun'&Hk).
  exists t'. unfold bind. rewrite Hrun, Hrun'. split; [done|]. rewrite <- Hf.
  rewrite (ticks_calls B _ _ _ _ _ Hi1 Hk ltac:(rewrite He; apply lookup_insert_eq)).
  destruct Hk as (_&_&->&_). rewrite Hcur. done.
Qed.

(** Claim C29: a timer that is deleted is not called again, and the others are not
    disturbed: they remain in the state they had, and are called on schedule. *)
Theorem deleted_timer_is_silent t id n e l :
  TInv B 0 t → room B t → m_timer_evt_map t !! u32 id = Some n → evts t !! n = Some e → evt_mgr e = true →
  current t + update_ticks l (millisec t) + B + 1 < 2 ^ 32 →
  ∃ t', (do r <- del_timer id; do_ updates l; ret r) t = (Ok 0, t') ∧
    times n (fired t') = times n (fired t) ∧
    ∀ m g, m ≠ n → evts t !! m = Some g →
      times m (fired t') = times m (fired t) ++
        (if evt_mgr g then schedule (slap g) (period g) (repeat_ g) (current t') else []).
Proof using P.
  intros Hi Hr Hid He Hm Hc.
  destruct (safe_inv _ _ _ (del_timer_ok B t id n e Hi Hid He Hm)) as (r&t1&Hrun&->&Hi1&Q&Ht1).
  assert (room B t1) as Hr1 by by subst t1.
  assert (current t1 = current t ∧ millisec t1 = millisec t ∧ fired t1 = fired t) as (Hcur&Hms&Hf) by by subst t1.
  rewrite <- Hcur, <- Hms in Hc.
  destruct (safe_inv _ _ _ (updates_ok B l 0 t1 t1 Hi1 (ticks_0 B t1 Hi1 Hr1) Hc)) as ([]&t'&Hrun'&Hk).
  exists t'. unfold bind. rewrite Hrun, Hrun'. rewrite <- Hf. split_and!; [done| |].
  - rewrite (ticks_calls B _ _ _ n deleted_evt Hi1 Hk) by (subst t1; apply with_evt_evts).
    by rewrite app_nil_r.
  - intros m g Hmn Hg. apply (ticks_calls B _ _ _ m g Hi1 Hk). subst t1. cbn.
    by rewrite lookup_insert_ne.
Qed.
End promises.

(** ** Examples *)

(** Handlers of which the first one that is called registers another timer. *)
#[local] Instance first_registers : Timeouts := {|
  handle_timeout := λ k _ _, match k with O => [Add_timer 9 1 1 0] | _ => [] end;
  timer_map_order := map_to_list;
|}.

#[local] Instance first_registers_polite : Polite 10000.
Proof.
  refine {| quota := λ k, match k with O => 1 | _ => 0 end |}.
  - by intros [].
  - by intros [] h d.
  - intros [] h d r Hr; [|by apply elem_of_nil in Hr].
    apply list_elem_of_singleton in Hr as ->. eexists _, _, _, _. split; [reflexivity|lia].
Defined.

(** A manager, new at the time 1000000, with a timer for every two seconds, three
    times. *)
Definition one_timer : Timers :=
  ((do_ new_CTimerWheelMgr 1000000; add_timer 7 2 3 0) empty_timers).2.

Definition the_timer : itimer_evt := default deleted_evt (evts one_timer !! 1).

Lemma one_timer_ok : TInv 10000 0 one_timer ∧ room 10000 one_timer.
Proof.
  assert (safe (do_ new_CTimerWheelMgr 1000000; add_timer 7 2 3 0) (λ _ t, TInv 10000 0 t ∧ room 10000 t)
    empty_timers) as Hs.
  { apply safe_bind. eapply safe_mono; [by apply (new_CTimerWheelMgr_ok 10000 1000000)|].
    intros [] t [Hi [? ? ? ? Hl ? Hf]].
    eapply safe_mono; [apply (add_timer_ok 10000 0); [done|lia|lia|by rewrite Hl]|].
    intros id t' (_&Hi'&Hadd). split; [done|]. destruct Hadd as (_&_&Hid&_&Hf'&_).
    unfold room. rewrite Hid, Hl, Hf', Hf. done. }
  unfold one_timer. by destruct (safe_inv _ _ _ Hs) as (?&?&->&?).
Qed.

Lemma tick_takes_the_due_witness :
  TInv 10000 0 one_timer ∧
  ∃ t', update_begin one_timer = (Ok tt, t') ∧ evts t' = evts one_timer ∧
    ∀ n, inq (queues t') n Queued ↔ ∃ e, evts one_timer !! n = Some e ∧ is_due (current one_timer) e.
Proof. split; [apply one_timer_ok|]. apply (tick_takes_the_due 10000), one_timer_ok. Defined.

Lemma timers_fire_on_time_witness :
  TInv 10000 0 one_timer ∧ room 10000 one_timer ∧
  ∃ t', updates [1000000; 1000003; 1000005] one_timer = (Ok tt, t') ∧
    times 1 (fired t') = [1000002000; 1000004000].
Proof.
  destruct one_timer_ok as [Hi Hr]. split; [done|split; [done|]].
  destruct (timers_fire_on_time 10000 one_timer [1000000; 1000003; 1000005] Hi Hr) as (t'&Hrun&_&_&Hc&Hf).
  { by vm_compute. }
  exists t'. split; [done|]. rewrite (Hf 1 the_timer), Hc by by vm_compute. by vm_compute.
Defined.

Lemma added_timer_fires_witness :
  TInv 10000 0 one_timer ∧
  ∃ t', (do id <- add_timer 8 1 0 0; do_ updates [1000000; 1000003]; ret id) one_timer = (Ok 2, t') ∧
    times 2 (fired t') = [1000001000; 1000002000; 1000003000].
Proof.
  destruct one_timer_ok as [Hi Hr]. split; [done|].
  destruct (added_timer_fires 10000 one_timer 8 1 0 0 [1000000; 1000003] Hi) as (t'&Hrun&Hf);
    [lia|by vm_compute..|].
  exists t'. split; [exact Hrun|]. change (next_evt one_timer) with 2 in Hf. rewrite Hf. by vm_compute.
Defined.

Lemma deleted_timer_is_silent_witness :
  TInv 10000 0 one_timer ∧ room 10000 one_timer ∧
  ∃ t', (do r <- del_timer 1; do_ updates [1000000; 1000003]; ret r) one_timer = (Ok 0, t') ∧
    times 1 (fired t') = [].
Proof.
  destruct one_timer_ok as [Hi Hr]. split; [done|split; [done|]].
  destruct (deleted_timer_is_silent 10000 one_timer 1 1 the_timer [1000000; 1000003] Hi Hr)
    as (t'&Hrun&Hf&_); [by vm_compute..|].
  exists t'. split; [exact Hrun|]. rewrite Hf. by vm_compute.
Defined.

(** ** Where the manager breaks its contract *)

(** [del_timer] leaves the number of the timer in the map: to delete it again fails
    an assertion of [itimer_node_destroy], and so does the destructor. *)
Lemma delete_twice_asserts :
  ((do_ del_timer 1; del_timer 1) one_timer).1 = Stop AssertFailed ∧
  ((do_ del_timer 1; destroy_CTimerWheelMgr) one_timer).1 = Stop AssertFailed.
Proof. by vm_compute. Qed.

(** A timer of period 0 without end: its callback counts periods that do not move
    its time, until the count leaves the range of [int]. *)
Lemma count_step_still Q n e cur c t :
  0 <= slap e <= cur → slap e < 2 ^ 32 → period e = 0 → repeat_ e = 0 → 0 <= c →
  count_step n cur c (with_evt Q n e t) =
    if c + 1 <? 2 ^ 31 then (Ok (inl (c + 1)), with_evt Q n e t) else (Stop SignedOverflow, with_evt Q n e t).
Proof.
  intros Hs Hr Hp Hrep Hc. unfold count_step, bind at 1, get_evt. rewrite with_evt_evts.
  rewrite (proj2 (Z.leb_le _ _)) by lia. unfold bind at 1, checked, in_int.
  rewrite (proj2 (Z.leb_le _ _)) by lia. cbn [andb].
  destruct (c + 1 <? 2 ^ 31); [|done]. unfold ret at 1. unfold bind at 1.
  rewrite (upd_evt_with n e) by apply with_evt_evts. rewrite with_evt_twice, Hrep, Hp.
  assert (upd_slap (λ s, u32 (s + 0)) e = e) as ->; [|done].
  unfold upd_slap. cbv beta. rewrite Z.add_0_r, u32_small by lia. by destruct e.
Qed.

Lemma count_loop_still k Q n e cur c t :
  0 <= slap e <= cur → slap e < 2 ^ 32 → period e = 0 → repeat_ e = 0 → 0 <= c < 2 ^ 31 →
  loop k (count_step n cur) c (with_evt Q n e t) =
    if c + 2 ^ Z.of_nat k <? 2 ^ 31 then (Ok (inl (c + 2 ^ Z.of_nat k)), with_evt Q n e t)
    else (Stop SignedOverflow, with_evt Q n e t).
Proof.
  intros Hs Hr Hp Hrep. revert c. induction k as [|k IH]; intros c Hc.
  { cbn [loop]. change (2 ^ Z.of_nat 0) with 1. by apply count_step_still; [..|lia]. }
  cbn [loop]. unfold bind. rewrite IH by done. rewrite Nat2Z.inj_succ, Z.pow_succ_r by lia.
  pose proof (Z.pow_pos_nonneg 2 (Z.of_nat k)).
  destruct (Z.ltb_spec (c + 2 ^ Z.of_nat k) (2 ^ 31)).
  - rewrite IH by lia. by replace (c + 2 ^ Z.of_nat k + 2 ^ Z.of_nat k) with (c + 2 * 2 ^ Z.of_nat k) by lia.
  - rewrite (proj2 (Z.ltb_ge _ _)); [done|lia].
Qed.

Lemma period_zero_overflows Q n e cur t :
  0 <= slap e <= cur → slap e < 2 ^ 32 → period e = 0 → repeat_ e = 0 →
  (while 32 (count_step n cur) 0 (with_evt Q n e t)).1 = Stop SignedOverflow.
Proof. intros. unfold while, bind. by rewrite count_loop_still. Qed.

(** [slap] is a 32-bit time: where it wraps around, the callback of a timer of
    10000 seconds counts 430 periods at once, and makes as many calls; the shorter
    the period, the more. *)
Lemma wrap_around_burst :
  let e := upd_slap (λ _, 2 ^ 32 - 9900000) (upd_period (λ _, 10000000) (upd_repeat (λ _, 0) the_timer)) in
  (while 32 (count_step 1 (2 ^ 32 - 9900000)) 0 (with_evt (queues one_timer) 1 e one_timer)).1 = Ok (430, false).
Proof. vm_compute. reflexivity. Qed.
